(* ===== verification/_CoqProject ===== *)
-Q . S2P
Prelude.v
GoRuntime.v
DbTypes.v
Schema.v
Prog.v
Wp.v
SqlcReservations.v
ReservationService.v
Inventory.v
Lifecycle.v
Settlement.v
Requests.v
Creation.v
SeatCreation.v
Service.v
ServiceFacts.v
Crypto.v
NetHttp.v
HttpServer.v
SqlcAccounts.v
Sessions.v
Auth.v
Worker.v
SqlcEvents.v
Locks.v
Interleaving.v
Isolation.v
Serial.v
Steady.v
SerialSettlement.v
SerialCreation.v
Refusals.v
Events.v
IsolatedServices.v
Config.v
SqlcStress.v
StressAdmin.v
StressFacts.v
StressReport.v
StressRoundtrip.v
SerialStress.v
Handlers.v
Routes.v
Process.v
IsolatedApi.v
HandlerFacts.v
Fixtures.v
Correctness.v
Application.v
Administration.v
System.v
Processes.v
Concurrent.v
