(* ===== verification/Prelude.v ===== *)
(** * Ticket reservation service: verification development

    The program under src/ sells tickets for events: units of a ticket type
    (counters in one row) and numbered seats (one row each). A visitor, known by
    a cookie, reserves for a limited time, then confirms or cancels; a worker
    expires what is overdue. It is Go over PostgreSQL, and what makes it correct
    is the interplay of its service code, the text of its SQL statements and the
    constraints of its tables. All three are modelled here.

    ** The model

    A table is a finite map from the primary key to its row, and a [Database]
    the eight tables of internal/sqlc/models.go ([Schema]). A query of
    internal/sqlc is a function on the tables with its constraints and its
    errors ([SqlcReservations], [SqlcAccounts], [SqlcEvents], [SqlcStress]). Go
    code that touches the outside is a [prog], a tree of effects in the order of
    the code: clock readings, random bytes, statements, begin, commit, rollback
    ([Prog]). [run] executes a program in an [Env], which fixes the clock, the
    identifiers PostgreSQL generates, the random bytes, which call fails, and
    the fate of each commit (acknowledged, failed, or done with the
    acknowledgement lost). Programs are finite trees and [run] is structurally
    recursive, so every operation returns: there is no fuel. The one endless
    loop of the code, the worker's, recurses on what it observes of its context
    and ticker, one [moment] per turn. Errors are values with their chains,
    panics a result of their own ([GoRuntime]). HTTP handlers thread a response
    writer with the rules of net/http and a log through a [prog] ([NetHttp]).
    Integers are Z with int4 and int32 ranges tested where the code or the
    schema has them.

    Any number of programs, each on its own connection, also run beside each
    other ([Interleaving]): a schedule names the connection that performs its
    next effect. A statement sees the committed tables under the uncommitted
    rows of its own transaction (READ COMMITTED); it is one step, taken when it
    needs no row that another open transaction has changed or locked
    ([row_lock]) and adds no key that another has added to a unique index; a
    commit publishes the rows at once. FOR UPDATE locks the rows it returns,
    SKIP LOCKED leaves out those that others have locked. What one transaction
    has touched blocks the others until it ends, also when it has touched it
    again since; a deadlock ends by a fault of a statement that waits.

    Code that is not in the repository is a parameter with the documented
    behaviour the proofs use as laws: the UUID scanner and timestamp encoding of
    pgtype ([Pgtype], [PgtypeLaws]), bcrypt and the case mapping of letters
    outside ASCII ([Libraries]), encoding/json ([JsonBody], [JsonLaws]), the
    collation of text columns ([Collation]), time.ParseDuration, what pgxpool
    makes of a connection string ([Pgxpool]). [Fixtures] and
    [Application] instantiate them with executable functions for the
    witnesses.

    ** The files

    - [Prelude], [GoRuntime], [DbTypes], [Schema], [Prog], [Wp]: notations,
      tactics and generic lemmas; errors and strings; internal/db/types.go; rows
      and constraints (hint database [schema]); programs and internal/db/tx.go;
      the weakest precondition [wp], sound for [run] ([wp_sound],
      [wp_adversary]).
    - [SqlcReservations], [ReservationService]: internal/sqlc/reservations.sql.go
      and internal/modules/reservations (dto.go, repository.go, service.go).
    - [Inventory]: the invariant [db_inv] and the abstract inventory machine
      [inventory_step] that the service refines. [Lifecycle], [Settlement],
      [Requests], [Creation], [SeatCreation], [Service], [ServiceFacts]: what
      each operation answers and does, for every environment, and histories.
    - [Crypto], [NetHttp], [HttpServer]: SHA-256, hexadecimal and base64url;
      net/http; internal/httpserver.
    - [SqlcAccounts], [Sessions], [Auth]: internal/modules/sessions and auth with
      their queries. The other modules rely on the interface [SessionService]
      and its laws, which [NewService_laws] proves of the service.
    - [Worker]: internal/worker, against the interface [ExpirationService].
    - [SqlcEvents], [Events]: internal/modules/events with its queries.
    - [Config]: internal/config.
    - [SqlcStress], [StressAdmin], [StressFacts], [StressReport],
      [StressRoundtrip]: internal/modules/stressadmin with its queries.
    - [Handlers], [HandlerFacts], [Routes]: every handler.go, what the handlers
      answer, and which one a method and path select.
    - [Process]: cmd/api, cmd/worker, internal/db/postgres.go and redis.go.
    - [Locks], [Interleaving], [Isolation]: uncommitted rows and conflicts;
      sessions that run at the same time; the rely-guarantee rules by which
      programs proved one by one ([safe]) keep their promises beside each other
      ([pool_ok]), where others make legal steps ([world_step]) and leave alone
      what a transaction has touched ([rely]).
    - [Serial], [Steady], [SerialSettlement], [SerialCreation]: the callback of
      a transaction that ran while others committed could have run alone at its
      end ([takes_effect]), because its statements touch rows that it has locked
      ([steady]); from this and the [wp] of the callback each operation is
      [linearizable]. [Refusals]: an error of the service's own has a reason at
      some moment of the run ([refuses]). [IsolatedServices], [SerialStress], [IsolatedApi]: every
      other operation makes legal steps only ([isolated]).
    - [Fixtures]: a concrete environment and example tables.
    - [Correctness], [Application], [Administration], [System], [Processes],
      [Concurrent]: the properties.

    ** What the properties show

    [Correctness]: in every environment the operations on reservations refine the
    inventory machine, so no history oversells or books a seat twice, final
    statuses are final, and nothing panics; reserving succeeds exactly when the
    stock allows it; retries are idempotent, also after a commit whose
    acknowledgement was lost; confirming, cancelling and expiring move exactly
    the units held, in time or not at all; other visitors' reservations are
    invisible; transactions are atomic. [Application]: every request gets one
    coherent answer, with a JSON body when its times have years of four digits,
    and, in a calm environment, no server error but on a clash of random tokens
    or of places of seats; tokens open their sessions until the deadline; a
    registered user can log in and finds the reservations of the account; the
    inventory tells the truth; the worker drains its backlog. [Administration]:
    the consistency report decides what its checks are named after; Reset
    removes exactly the matching events with what hangs on them, and after Seed,
    which is atomic, leaves what it would have left without it; what an accepted
    configuration guarantees; the worker stops when told to. [System]: all of it
    together, any requests and worker turns one after the other, stays
    well-formed. [Processes]: what a supervisor sees of both processes, and
    which handler a path reaches. [Concurrent]: under every schedule what an
    operation answers is what it answers alone on the tables of some moment (the
    two statements of GetReservation read two moments), and what it refuses had
    a reason at some moment; the tables stay well-formed, final statuses are
    final, and two requests with one key name one reservation.

    "Every environment" is the assumption [adversary]. Functional statements
    assume a run that [respects] a [calm] one: no injected faults, generated
    identifiers that are new, clock readings within a predicate, and random bytes
    within another where tokens matter ([calm_drawing]).

    Ten theorems state behaviour the code should not have:
    [Concurrent.GetReservation_tears] (a reading without a transaction),
    [Concurrent.workers_deadlock] (two workers that wait for each other),
    [Concurrent.concurrent_retry_refused] (a retry beside its first attempt
    finds no stock), [Application.far_event_has_no_body] (a time that is stored
    but cannot be encoded), [Processes.unchecked_interval_crashes] (a ticker
    without an interval), [Processes.listen_failure_exits_zero] (a failure that
    exits with 0), [Administration.wrapped_batch_expires_nothing] (a batch size
    that wraps to 0), [Application.CreateSeats_partial] (seats left behind by a
    refused call), [Application.panic_is_answered] (the log of a panic lacks its
    request identifier) and [Administration.Reset_overreaches] (wildcards in the
    prefix of Reset).

    ** Not modelled

    - Of PostgreSQL: a transaction that goes on after a failed statement (the
      code never does), the choice of the victim of a deadlock, statements that
      wait half way, the shared locks of foreign keys (they only make others
      wait longer). The reset of the fixtures runs alone only: it deletes rows,
      which the uncommitted rows of [Locks] do not express. Texts are stored as
      they are: PostgreSQL refuses one with a zero byte (22021) and an entry of
      an index that is too long, which shows here as a statement that fails,
      with the 500 the code answers then; statements about calm runs are about
      other texts.
    - internal/sqlc/db.go and querier.go, generated, which do nothing; the
      encoding of JSON bodies (a response is the value that is encoded), except
      that it fails on a time whose year is not 0 to 9999, in UTC, the zone the
      process is taken to run in; a connection that breaks while the response is
      written; percent-encoding in paths; cancellation of contexts other than
      the worker's, which shows as a driver error; the answers chi gives itself
      (404, 405); the requests of one process beside each other, which is the
      subject of [Concurrent], not of [Process]. *)

From Stdlib Require Export ZArith Lia String Ascii.
From Stdlib Require Export Strings.Byte.
From stdpp Require Export base tactics option list strings gmap sorting vector.
From stdpp Require Import countable.

#[global] Open Scope Z_scope.

(** ** Boolean tests of the source and of SQL conditions *)

Declare Scope go_scope.
Delimit Scope go_scope with go.
#[global] Open Scope go_scope.

Notation "a ==? b" := (bool_decide (a = b)) (at level 70, no associativity) : go_scope.
Notation "a !=? b" := (negb (bool_decide (a = b))) (at level 70, no associativity) : go_scope.

(** [to_prop] turns the boolean hypotheses that case analysis leaves into
    propositions. *)
Ltac to_prop :=
  repeat match goal with
  | H : (_ && _)%bool = true |- _ => apply andb_true_iff in H as [? ?]
  | H : (_ || _)%bool = false |- _ => apply orb_false_iff in H as [? ?]
  | H : negb _ = true |- _ => apply negb_true_iff in H
  | H : negb _ = false |- _ => apply negb_false_iff in H
  | H : bool_decide _ = true |- _ => apply bool_decide_eq_true in H
  | H : bool_decide _ = false |- _ => apply bool_decide_eq_false in H
  | H : Is_true _ |- _ => apply Is_true_true in H
  | H : Z.leb _ _ = true |- _ => apply Z.leb_le in H
  | H : Z.leb _ _ = false |- _ => apply Z.leb_gt in H
  | H : Z.ltb _ _ = true |- _ => apply Z.ltb_lt in H
  | H : Z.ltb _ _ = false |- _ => apply Z.ltb_ge in H
  end.

(** [split_if] analyses the test of the innermost conditional of the goal. *)
Ltac split_if :=
  match goal with
  | |- context [if ?b then _ else _] =>
      lazymatch b with
      | context [if _ then _ else _] => fail
      | _ => let E := fresh "E" in destruct b eqn:E
      end
  end.

(** ** Integers of the machine and of the database *)

Definition int32_min : Z := - 2 ^ 31.
Definition int32_max : Z := 2 ^ 31 - 1.
Definition int32_range (z : Z) : bool := (int32_min <=? z) && (z <=? int32_max).

(** ** Sums over lists and finite maps *)

Definition Zsum (l : list Z) : Z := foldr Z.add 0 l.

Lemma Zsum_cons x l : Zsum (x :: l) = x + Zsum l.
Proof. done. Qed.

Lemma Zsum_app l1 l2 : Zsum (l1 ++ l2) = Zsum l1 + Zsum l2.
Proof. induction l1 as [|x l1 IH]; [done|]. rewrite <- app_comm_cons, !Zsum_cons. lia. Qed.

#[export] Instance Zsum_perm : Proper ((≡ₚ) ==> (=)) Zsum.
Proof. intros l1 l2 H. induction H; rewrite ?Zsum_cons; lia. Qed.

Section map_sum.
Context {K V : Type} `{Countable K}.
Implicit Types (m : gmap K V) (f g : V -> Z).

(** The rows of a table, in no particular order. *)
Definition rows (m : gmap K V) : list V := (map_to_list m).*2.

Definition map_sum (f : V -> Z) (m : gmap K V) : Z := Zsum (f <$> rows m).

Lemma elem_of_rows m x : x ∈ rows m <-> exists k, m !! k = Some x.
Proof.
  unfold rows. rewrite list_elem_of_fmap. split.
  - intros [[k y] [-> Hk]]. exists k. by apply elem_of_map_to_list in Hk.
  - intros [k Hk]. exists (k, x). split; [done|]. by apply elem_of_map_to_list.
Qed.

Lemma rows_insert m k x : m !! k = None -> rows (<[k:=x]> m) ≡ₚ x :: rows m.
Proof. intros Hk. unfold rows. by rewrite map_to_list_insert. Qed.

Lemma map_sum_empty f : map_sum f ∅ = 0.
Proof. unfold map_sum, rows. by rewrite map_to_list_empty. Qed.

Lemma map_sum_insert f m k x : m !! k = None -> map_sum f (<[k:=x]> m) = f x + map_sum f m.
Proof. intros Hk. unfold map_sum. by rewrite rows_insert. Qed.

Lemma map_sum_delete f m k x : m !! k = Some x -> map_sum f m = f x + map_sum f (delete k m).
Proof.
  intros Hk. rewrite <- (insert_id m k x Hk) at 1. rewrite <- insert_delete_eq.
  by rewrite map_sum_insert by apply lookup_delete_eq.
Qed.

Lemma map_sum_update f m k x y :
  m !! k = Some x -> map_sum f (<[k:=y]> m) = map_sum f m - f x + f y.
Proof.
  intros Hk. rewrite (map_sum_delete f m k x Hk). rewrite <- insert_delete_eq.
  rewrite map_sum_insert by apply lookup_delete_eq. lia.
Qed.

Lemma map_sum_ind f m (P : Z -> Prop) :
  P 0 -> (forall k x s, m !! k = Some x -> P s -> P (f x + s)) -> P (map_sum f m).
Proof.
  intros H0 Hs. unfold map_sum.
  assert (Hin : forall x, x ∈ rows m -> exists k, m !! k = Some x) by (intros; by apply elem_of_rows).
  induction (rows m) as [|x l IH]; [done|]. rewrite fmap_cons, Zsum_cons.
  destruct (Hin x) as [k Hk]; [set_solver|]. apply (Hs k); [done|]. apply IH. set_solver.
Qed.

Lemma map_sum_ext f g m :
  (forall k x, m !! k = Some x -> f x = g x) -> map_sum f m = map_sum g m.
Proof.
  intros Hfg. unfold map_sum. f_equal. apply list_fmap_ext.
  intros i x Hx. apply list_elem_of_lookup_2, elem_of_rows in Hx as [k Hk]. eauto.
Qed.

Lemma map_sum_add f g m : map_sum (fun x => f x + g x) m = map_sum f m + map_sum g m.
Proof. unfold map_sum. induction (rows m) as [|x l IH]; [done|]. rewrite !fmap_cons, !Zsum_cons. lia. Qed.

Lemma map_sum_sub f g m : map_sum (fun x => f x - g x) m = map_sum f m - map_sum g m.
Proof. unfold map_sum. induction (rows m) as [|x l IH]; [done|]. rewrite !fmap_cons, !Zsum_cons. lia. Qed.

Lemma map_sum_nonneg f m : (forall k x, m !! k = Some x -> 0 <= f x) -> 0 <= map_sum f m.
Proof. intros Hf. apply map_sum_ind; [lia|]. intros k x s Hk ?. specialize (Hf k x Hk). lia. Qed.

Lemma map_sum_zero f m : (forall k x, m !! k = Some x -> f x = 0) -> map_sum f m = 0.
Proof. intros Hf. apply map_sum_ind; [lia|]. intros k x s Hk ->. rewrite (Hf k x Hk). lia. Qed.

Lemma map_sum_le f g m :
  (forall k x, m !! k = Some x -> f x <= g x) -> map_sum f m <= map_sum g m.
Proof.
  intros Hf. cut (0 <= map_sum (fun x => g x - f x) m); [rewrite map_sum_sub; lia|].
  apply map_sum_nonneg. intros k x Hk. specialize (Hf k x Hk). lia.
Qed.

Lemma map_sum_lookup_le f m k x :
  (forall k x, m !! k = Some x -> 0 <= f x) -> m !! k = Some x -> f x <= map_sum f m.
Proof.
  intros Hf Hk. rewrite (map_sum_delete f m k x Hk).
  cut (0 <= map_sum f (delete k m)); [lia|].
  apply map_sum_nonneg. intros k' x' [_ Hk']%lookup_delete_Some. eauto.
Qed.

Lemma rows_fmap (g : V -> V) m : rows (g <$> m) = g <$> rows m.
Proof.
  unfold rows. rewrite map_to_list_fmap. rewrite <- !list_fmap_compose.
  apply list_fmap_ext. by intros i [k x] _.
Qed.

Lemma map_sum_fmap f (h : V -> V) m : map_sum f (h <$> m) = map_sum (fun x => f (h x)) m.
Proof. unfold map_sum. rewrite rows_fmap. by rewrite <- list_fmap_compose. Qed.

(** *** Selections: the rows that satisfy a condition, in a given order *)

Definition select (P : V -> bool) (R : relation V) `{!RelDecision R} (m : gmap K V) : list V :=
  merge_sort R (List.filter P (rows m)).

Lemma elem_of_select P R `{!RelDecision R} m x :
  x ∈ select P R m <-> exists k, m !! k = Some x /\ P x = true.
Proof.
  unfold select. rewrite merge_sort_Permutation. rewrite list_elem_of_In, filter_In.
  rewrite <- list_elem_of_In, elem_of_rows.
  split; [intros [[k Hk] HP]|intros (k & Hk & HP)]; eauto.
Qed.

Lemma select_nil P R `{!RelDecision R} m :
  select P R m = [] <-> (forall k x, m !! k = Some x -> P x = false).
Proof.
  split.
  - intros Hn k x Hk. destruct (P x) eqn:HP; [|done].
    assert (Hx : x ∈ select P R m) by (apply elem_of_select; eauto).
    rewrite Hn in Hx. by apply not_elem_of_nil in Hx.
  - intros HP. destruct (select P R m) as [|x l] eqn:Hs; [done|].
    assert (Hx : x ∈ select P R m) by (rewrite Hs; set_solver).
    apply elem_of_select in Hx as (k & Hk & Hx). rewrite (HP k x Hk) in Hx. done.
Qed.

Lemma select_ext (P Q : V -> bool) R `{!RelDecision R} m :
  (forall k x, m !! k = Some x -> P x = Q x) -> select P R m = select Q R m.
Proof.
  intros HPQ. unfold select. f_equal. apply filter_ext_in. intros x Hx.
  apply list_elem_of_In, elem_of_rows in Hx as [k Hk]. eauto.
Qed.

Lemma select_sum f P R `{!RelDecision R} m :
  Zsum (f <$> select P R m) = map_sum (fun x => if P x then f x else 0) m.
Proof.
  unfold select, map_sum. rewrite merge_sort_Permutation.
  induction (rows m) as [|x l IH]; [done|]. cbn [List.filter]. rewrite fmap_cons, Zsum_cons.
  destruct (P x); rewrite ?fmap_cons, ?Zsum_cons; lia.
Qed.
End map_sum.

#[export] Instance filter_perm {A} (P : A -> bool) : Proper ((≡ₚ) ==> (≡ₚ)) (List.filter P).
Proof.
  intros l1 l2 Hl. induction Hl; simpl.
  - done.
  - destruct (P x); by rewrite ?IHHl.
  - destruct (P x), (P y); try done. apply Permutation_swap.
  - by rewrite IHHl1.
Qed.

Lemma existsb_false {A} (P : A -> bool) l : existsb P l = false <-> forall x, x ∈ l -> P x = false.
Proof.
  split.
  - intros He x Hx. apply not_true_iff_false. intros HP. apply not_true_iff_false in He.
    apply He, existsb_exists. exists x. by rewrite <- list_elem_of_In.
  - intros Hl. apply not_true_iff_false. intros (x & Hx & HP)%existsb_exists.
    apply list_elem_of_In in Hx. by rewrite (Hl x Hx) in HP.
Qed.

Arguments rows : simpl never.
Arguments map_sum : simpl never.
Arguments select : simpl never.

#[export] Instance byte_eq_dec : EqDecision byte.
Proof. intros x y. destruct (Byte.eqb x y) eqn:E.
  - left. by apply Byte.byte_dec_bl.
  - right. intros ->. by rewrite Byte.byte_dec_lb in E.
Defined.

#[export] Instance byte_countable : Countable byte.
Proof.
  apply (inj_countable Byte.to_N Byte.of_N). intros x. apply Byte.of_to_N.
Defined.

(** ** Lexicographic order on lists of numbers (byte strings) *)

Fixpoint lex_leb (xs ys : list N) : bool :=
  match xs, ys with
  | [], _ => true
  | _ :: _, [] => false
  | x :: xs', y :: ys' => (x <? y)%N || ((x =? y)%N && lex_leb xs' ys')
  end.

Definition lex_ltb (xs ys : list N) : bool := negb (lex_leb ys xs).

Lemma lex_leb_refl xs : lex_leb xs xs = true.
Proof. induction xs as [|x xs IH]; simpl; [done|]. by rewrite N.eqb_refl, IH, orb_true_r. Qed.

Lemma lex_leb_total xs ys : lex_leb xs ys = true \/ lex_leb ys xs = true.
Proof.
  revert ys. induction xs as [|x xs IH]; intros [|y ys]; simpl; auto.
  destruct (N.lt_trichotomy x y) as [Hlt|[->|Hlt]].
  - left. by apply N.ltb_lt in Hlt as ->.
  - rewrite N.eqb_refl. destruct (IH ys) as [->| ->]; rewrite orb_true_r; auto.
  - right. by apply N.ltb_lt in Hlt as ->.
Qed.

Lemma lex_leb_cons x y xs ys :
  lex_leb (x :: xs) (y :: ys) = true <-> (x < y)%N \/ (x = y /\ lex_leb xs ys = true).
Proof.
  simpl. rewrite orb_true_iff, andb_true_iff, N.ltb_lt, N.eqb_eq. done.
Qed.

Lemma lex_leb_trans xs ys zs :
  lex_leb xs ys = true -> lex_leb ys zs = true -> lex_leb xs zs = true.
Proof.
  revert ys zs. induction xs as [|x xs IH]; intros [|y ys] [|z zs]; try done.
  rewrite !lex_leb_cons. intros [?|[-> ?]] [?|[-> ?]]; [left; lia|left; lia|left; lia|].
  right. eauto.
Qed.

Lemma lex_leb_antisymm xs ys : lex_leb xs ys = true -> lex_leb ys xs = true -> xs = ys.
Proof.
  revert ys. induction xs as [|x xs IH]; intros [|y ys]; try done.
  rewrite !lex_leb_cons. intros [?|[-> ?]] [?|[? ?]]; try lia. f_equal. eauto.
Qed.

(** ORDER BY a byte-comparable key. *)
Definition by_key {V} (key : V -> list N) : relation V :=
  fun a b => lex_leb (key a) (key b) = true.

#[export] Instance by_key_dec {V} (key : V -> list N) : RelDecision (by_key key).
Proof. intros a b. unfold by_key. apply _. Defined.
#[export] Instance by_key_trans {V} (key : V -> list N) : Transitive (by_key key).
Proof. intros a b c. apply lex_leb_trans. Qed.
#[export] Instance by_key_total {V} (key : V -> list N) : Total (by_key key).
Proof. intros a b. apply lex_leb_total. Qed.

(** A sorted list is determined by its elements when the order is antisymmetric
    on them. *)
Lemma sorted_unique {A} (R : relation A) (l1 l2 : list A) :
  (forall x y, x ∈ l1 -> y ∈ l1 -> R x y -> R y x -> x = y) ->
  StronglySorted R l1 -> StronglySorted R l2 -> l1 ≡ₚ l2 -> l1 = l2.
Proof.
  revert l2. induction l1 as [|x l1 IH]; intros l2 Ha H1 H2 Hp.
  - by apply Permutation_nil_l in Hp.
  - destruct l2 as [|y l2]; [by apply Permutation_nil_r in Hp|].
    inversion_clear H1 as [|? ? Hs1 Hx]. inversion_clear H2 as [|? ? Hs2 Hy].
    rewrite Forall_forall in Hx, Hy.
    assert (x = y) as ->.
    { assert (Hxin : x ∈ y :: l2) by (rewrite <- Hp; set_solver).
      assert (Hyin : y ∈ x :: l1) by (rewrite Hp; set_solver).
      apply elem_of_cons in Hxin as [Heq|Hxin]; [done|].
      apply elem_of_cons in Hyin as [Heq|Hyin]; [done|].
      apply Ha; [set_solver|set_solver|by apply Hx, list_elem_of_In|by apply Hy, list_elem_of_In]. }
    f_equal. apply IH; [|done|done|by apply Permutation_cons_inv in Hp].
    intros a b ? ?. apply Ha; set_solver.
Qed.
