(* ===== verification/GoRuntime.v ===== *)
(** * The Go runtime the program uses

    Error values and their chains (package errors and fmt.Errorf with %w),
    strings.TrimSpace on UTF-8 byte strings, and the byte-wise order of Go
    strings. *)

From S2P Require Import Prelude.
Local Open Scope string_scope.
Local Open Scope list_scope.
Local Open Scope Z_scope.

(** ** Error values *)

(** The package-level sentinels: each is one [errors.New], hence one pointer,
    hence one constructor. *)
Inductive sentinel :=
  | ErrInvalidQuantityReservation | ErrInvalidSeatReservation | ErrInsufficientStock
  | ErrSeatsNotFound | ErrSeatUnavailable | ErrIdempotencyKeyConflict
  | ErrIdempotencyReplayRequired | ErrReservationNotFound | ErrReservationCannotCancel
  | ErrReservationCannotConfirm | ErrReservationInvariantBroken
  | ErrSessionRequired | ErrEmailAlreadyRegistered | ErrInvalidCredentials
  | ErrCurrentUserRequired | ErrInvalidEventInput | ErrInvalidTicketTypeInput | ErrInvalidSeatInput
  | ErrEventNotFound | ErrStressAdminDisabled.

#[export] Instance sentinel_eq_dec : EqDecision sentinel.
Proof. solve_decision. Defined.

(** [PgNoRows] is pgx.ErrNoRows, [SqlNoRows] is sql.ErrNoRows, [PgErr] a
    *pgconn.PgError with its SQLSTATE, [DriverErr] any other error of a library or
    driver (broken connection, cancelled context, bcrypt), [ErrorString] the value of
    fmt.Errorf("<text>") and [Wrapped] that of fmt.Errorf("<text>: %w", err). *)
Inductive error :=
  | PgNoRows
  | SqlNoRows
  | PgErr (code : string)
  | DriverErr (text : string)
  | ErrorString (text : string)
  | Sentinel (s : sentinel)
  | Wrapped (text : string) (cause : error).

#[export] Instance error_eq_dec : EqDecision error.
Proof. solve_decision. Defined.

(** errors.Is: the error or one it wraps is the target. *)
Fixpoint errors_Is (err target : error) : bool :=
  (err ==? target) ||
  match err with Wrapped _ cause => errors_Is cause target | _ => false end.

Lemma errors_Is_refl e : errors_Is e e = true.
Proof.
  assert (He : (e ==? e) = true) by (by apply bool_decide_eq_true_2).
  destruct e; cbn [errors_Is]; by rewrite He.
Qed.

(** errors.As with a *pgconn.PgError target: the SQLSTATE of the first
    database error of the chain. *)
Fixpoint errors_As_PgError (err : error) : option string :=
  match err with
  | PgErr code => Some code
  | Wrapped _ cause => errors_As_PgError cause
  | _ => None
  end.

Definition isNoRows (err : error) : bool := errors_Is err PgNoRows || errors_Is err SqlNoRows.

Definition isUniqueViolation (err : error) : bool :=
  match errors_As_PgError err with Some code => code ==? "23505" | None => false end.

(** ** Results of Go calls

    [Panicked] is a run-time panic, such as an index out of range. *)
Inductive res (A : Type) := Ok (a : A) | Err (e : error) | Panicked.
Arguments Ok {A} a.
Arguments Err {A} e.
Arguments Panicked {A}.

(** ** strings.TrimSpace *)

(** The UTF-8 encodings of the code points that unicode.IsSpace accepts:
    tab to carriage return, space, U+0085, U+00A0, U+1680, U+2000 to U+200A,
    U+2028, U+2029, U+202F, U+205F and U+3000. *)
Definition utf8_spaces : list (list Z) :=
  [[9]; [10]; [11]; [12]; [13]; [32]; [194; 133]; [194; 160]; [225; 154; 128];
   [226; 128; 128]; [226; 128; 129]; [226; 128; 130]; [226; 128; 131];
   [226; 128; 132]; [226; 128; 133]; [226; 128; 134]; [226; 128; 135];
   [226; 128; 136]; [226; 128; 137]; [226; 128; 138]; [226; 128; 168];
   [226; 128; 169]; [226; 128; 175]; [226; 129; 159]; [227; 128; 128]].

Definition byte_of_ascii (c : ascii) : Z := Z.of_N (N_of_ascii c).

Fixpoint strip_prefix (enc : list Z) (s : list ascii) : option (list ascii) :=
  match enc, s with
  | [], _ => Some s
  | b :: enc', c :: s' => if b =? byte_of_ascii c then strip_prefix enc' s' else None
  | _ :: _, [] => None
  end.

(** One space code point taken off the front; [encs] are its candidates. *)
Fixpoint strip_space (encs : list (list Z)) (s : list ascii) : option (list ascii) :=
  match encs with
  | [] => None
  | enc :: encs' =>
      match strip_prefix enc s with Some s' => Some s' | None => strip_space encs' s end
  end.

Fixpoint trim_with (encs : list (list Z)) (fuel : nat) (s : list ascii) : list ascii :=
  match fuel with
  | O => s
  | S fuel' =>
      match strip_space encs s with Some s' => trim_with encs fuel' s' | None => s end
  end.

Definition trim_left (s : list ascii) : list ascii := trim_with utf8_spaces (length s) s.

(** Trimming the end is trimming the front of the reversed byte string, with
    the encodings reversed. *)
Definition trim_right (s : list ascii) : list ascii :=
  rev (trim_with (map (@rev Z) utf8_spaces) (length s) (rev s)).

Definition TrimSpace (s : string) : string :=
  string_of_list_ascii (trim_right (trim_left (list_ascii_of_string s))).

Example TrimSpace_1 : TrimSpace "  key-1 " = "key-1". Proof. reflexivity. Qed.
Example TrimSpace_2 : TrimSpace "   " = "". Proof. reflexivity. Qed.
Example TrimSpace_3 : TrimSpace "a b" = "a b". Proof. reflexivity. Qed.

Section trim.
Variable encs : list (list Z).
Hypothesis encs_nonempty : Forall (fun enc => enc <> []) encs.

Lemma strip_prefix_app enc s s' :
  strip_prefix enc s = Some s' -> exists p, s = (p ++ s') /\ length p = length enc.
Proof.
  revert s. induction enc as [|b enc IH]; intros s Hs; simpl in *.
  - exists []. by simplify_eq.
  - destruct s as [|c s]; [done|]. destruct (b =? byte_of_ascii c); [|done].
    apply IH in Hs as (p & -> & Hp). exists (c :: p). simpl. auto.
Qed.

Lemma strip_space_app s s' :
  strip_space encs s = Some s' -> exists p, s = (p ++ s') /\ p <> [].
Proof.
  revert encs_nonempty. induction encs as [|enc es IH]; intros Hall; simpl; [done|].
  apply Forall_cons in Hall as [Hne Hall].
  destruct (strip_prefix enc s) as [s1|] eqn:Hp; [|by apply IH].
  intros [= ->]. apply strip_prefix_app in Hp as (p & -> & Hlen).
  exists p. split; [done|]. intros ->. by destruct enc.
Qed.

Lemma trim_with_suffix fuel s : exists p, s = (p ++ trim_with encs fuel s).
Proof.
  revert s. induction fuel as [|fuel IH]; intros s; simpl; [by exists []|].
  destruct (strip_space encs s) as [s'|] eqn:Hs; [|by exists []].
  apply strip_space_app in Hs as (p & -> & _). destruct (IH s') as [q Hq].
  exists (p ++ q). by rewrite <- app_assoc, <- Hq.
Qed.

(** Fuel [length s] is enough: what remains starts with no space. *)
Lemma trim_with_stable fuel s :
  (length s <= fuel)%nat -> strip_space encs (trim_with encs fuel s) = None.
Proof.
  revert s. induction fuel as [|fuel IH]; intros s Hlen; simpl.
  - destruct s; [|simpl in Hlen; lia].
    destruct (strip_space encs []) as [s'|] eqn:Hs; [|done].
    apply strip_space_app in Hs as (p & Heq & Hp).
    by destruct p.
  - destruct (strip_space encs s) as [s'|] eqn:Hs; [|done].
    apply IH. apply strip_space_app in Hs as (p & -> & Hp).
    rewrite length_app in Hlen. destruct p; [done|simpl in Hlen; lia].
Qed.

Lemma trim_with_id fuel s : strip_space encs s = None -> trim_with encs fuel s = s.
Proof. destruct fuel; simpl; [done|]. by intros ->. Qed.
End trim.

(** A string with no leading space keeps that property when its end is cut. *)
Lemma strip_prefix_cut enc s t : strip_prefix enc (s ++ t) = None -> strip_prefix enc s = None.
Proof.
  revert s. induction enc as [|b enc IH]; intros s H; simpl in *; [done|].
  destruct s as [|c s]; [done|]. simpl in H. destruct (b =? byte_of_ascii c); [eauto|done].
Qed.

Lemma strip_space_cut encs s t : strip_space encs (s ++ t) = None -> strip_space encs s = None.
Proof.
  induction encs as [|enc encs IH]; simpl; [done|].
  destruct (strip_prefix enc (s ++ t)) eqn:H1; [done|].
  rewrite (strip_prefix_cut _ _ _ H1). exact IH.
Qed.

Lemma utf8_spaces_nonempty : Forall (fun enc => enc <> []) utf8_spaces.
Proof. repeat constructor; discriminate. Qed.

Lemma utf8_spaces_rev_nonempty : Forall (fun enc => enc <> []) (map (@rev Z) utf8_spaces).
Proof. repeat constructor; discriminate. Qed.

(** TrimSpace is idempotent: a trimmed key is its own trimmed form, so the key
    stored with a reservation is the key every retry looks up. *)
Lemma TrimSpace_idempotent s : TrimSpace (TrimSpace s) = TrimSpace s.
Proof.
  unfold TrimSpace. rewrite list_ascii_of_string_of_list_ascii. f_equal.
  set (l := trim_left (list_ascii_of_string s)).
  assert (Hl : strip_space utf8_spaces l = None)
    by (apply trim_with_stable; [apply utf8_spaces_nonempty|done]).
  destruct (trim_with_suffix _ utf8_spaces_rev_nonempty (length l) (rev l)) as [p Hp].
  set (r := trim_with (map (@rev Z) utf8_spaces) (length l) (rev l)) in *.
  assert (Hr : strip_space (map (@rev Z) utf8_spaces) r = None).
  { apply trim_with_stable; [apply utf8_spaces_rev_nonempty|]. by rewrite length_rev. }
  change (trim_right l) with (rev r).
  assert (Hcut : strip_space utf8_spaces (rev r) = None).
  { apply (strip_space_cut _ _ (rev p)). rewrite <- rev_app_distr, <- Hp.
    by rewrite rev_involutive. }
  unfold trim_left. rewrite (trim_with_id _ _ _ Hcut).
  unfold trim_right. rewrite rev_involutive. by rewrite (trim_with_id _ _ _ Hr).
Qed.
