(* ===== verification/DbTypes.v ===== *)
(** * internal/db/types.go: identifiers and timestamps

    pgtype.UUID and pgtype.Timestamptz as the program builds and reads them,
    their conversions, and the agreement of the order of the textual form
    (sort.Slice in the services) with the byte order of PostgreSQL's uuid type
    (ORDER BY id in the queries). *)

From S2P Require Import Prelude GoRuntime.
Local Open Scope string_scope.
Local Open Scope list_scope.
Local Open Scope Z_scope.

(** ** pgtype.UUID *)

Record UUID := MkUUID { Bytes : vec byte 16; Valid : bool }.

#[export] Instance UUID_eq_dec : EqDecision UUID.
Proof. solve_decision. Defined.

(** A [16]byte array from its elements. *)
Definition bytes16 (bs : list byte) : option (vec byte 16) :=
  match decide (length bs = 16%nat) with
  | left H => Some (eq_rect _ (vec byte) (list_to_vec bs) _ H)
  | right _ => None
  end.

Lemma bytes16_vec (v : vec byte 16) : bytes16 (vec_to_list v) = Some v.
Proof.
  unfold bytes16. destruct (decide _) as [H|H]; [|by rewrite length_vec_to_list in H].
  f_equal. apply vec_to_list_inj2.
  transitivity (vec_to_list (list_to_vec (vec_to_list v))); [|apply vec_to_list_to_vec].
  generalize (list_to_vec (vec_to_list v)). destruct H. done.
Qed.

#[export] Instance UUID_countable : Countable UUID.
Proof.
  refine (inj_countable (fun id => (vec_to_list (Bytes id), Valid id))
    (fun p => (fun v => MkUUID v p.2) <$> bytes16 p.1) _).
  intros [v b]. simpl. by rewrite bytes16_vec.
Defined.

Definition zero_bytes : vec byte 16 := vreplicate 16 "000"%byte.

(** pgtype.UUID{}: the value of a NULL column. *)
Definition zero_UUID : UUID := MkUUID zero_bytes false.

(** Bytes compared as memcmp does: the order of PostgreSQL's uuid type. *)
Definition uuid_bytes (id : UUID) : list N := Byte.to_N <$> vec_to_list (Bytes id).
Definition uuid_leb (a b : UUID) : bool := lex_leb (uuid_bytes a) (uuid_bytes b).
Definition uuid_ltb (a b : UUID) : bool := lex_ltb (uuid_bytes a) (uuid_bytes b).
Definition uuid_le (a b : UUID) : Prop := uuid_leb a b = true.

#[export] Instance uuid_le_dec : RelDecision uuid_le.
Proof. intros a b. unfold uuid_le. apply _. Defined.
#[export] Instance uuid_le_trans : Transitive uuid_le.
Proof. intros a b c. apply lex_leb_trans. Qed.
#[export] Instance uuid_le_total : Total uuid_le.
Proof. intros a b. apply lex_leb_total. Qed.

Lemma byte_to_N_inj x y : Byte.to_N x = Byte.to_N y -> x = y.
Proof. intros H. cut (Some x = Some y); [congruence|]. by rewrite <- !Byte.of_to_N, H. Qed.

Lemma uuid_bytes_inj a b : uuid_bytes a = uuid_bytes b -> Bytes a = Bytes b.
Proof.
  unfold uuid_bytes. intros H. apply vec_to_list_inj2.
  revert H. generalize (vec_to_list (Bytes a)), (vec_to_list (Bytes b)). clear.
  induction l as [|x l IH]; intros [|y l']; simpl; try done.
  intros [= Hx Hl]. f_equal; [by apply byte_to_N_inj|eauto].
Qed.

Lemma uuid_le_antisymm a b : Valid a = Valid b -> uuid_le a b -> uuid_le b a -> a = b.
Proof.
  intros HV H1 H2. pose proof (lex_leb_antisymm _ _ H1 H2) as H%uuid_bytes_inj.
  destruct a, b; simpl in *; congruence.
Qed.

(** ** Formatting with %x *)

Definition hex_digit (n : N) : ascii :=
  ascii_of_N (if (n <? 10)%N then 48 + n else 87 + n)%N.

Definition hex_byte (b : byte) : list ascii :=
  [hex_digit (Byte.to_N b / 16); hex_digit (Byte.to_N b mod 16)]%N.

Definition hex_bytes (bs : list byte) : list ascii := flat_map hex_byte bs.

(** The slice expression bs[i:j] of an array. *)
Definition slice (i j : nat) (bs : list byte) : list byte := take (j - i) (drop i bs).

Definition UUIDToString (id : UUID) : string :=
  if negb (Valid id) then "" else
  let bs := vec_to_list (Bytes id) in
  string_of_list_ascii
    (hex_bytes (slice 0 4 bs) ++ ["-"%char] ++ hex_bytes (slice 4 6 bs) ++ ["-"%char] ++
     hex_bytes (slice 6 8 bs) ++ ["-"%char] ++ hex_bytes (slice 8 10 bs) ++ ["-"%char] ++
     hex_bytes (slice 10 16 bs)).

Definition OptionalUUIDToString (id : UUID) : option string :=
  if negb (Valid id) then None else Some (UUIDToString id).

(** ** Parsing

    pgtype's Scan and the driver's encoding of instants are parameters: they
    are the driver's code. [PgtypeLaws] states the documented facts the program
    relies on: a scanned identifier is not NULL, the canonical form scans to its
    identifier, and timestamptz keeps instants up to a coarser resolution. *)

Class Pgtype := {
  uuid_Scan : string -> error + UUID;
  (** The instant stored for a time.Time written to a timestamptz column. *)
  timestamptz_encode : Z -> Z;
}.

Class PgtypeLaws `{Pgtype} := {
  uuid_Scan_valid : forall s id, uuid_Scan s = inr id -> Valid id = true;
  uuid_Scan_format : forall id, Valid id = true -> uuid_Scan (UUIDToString id) = inr id;
  timestamptz_mono : forall s t, s <= t -> timestamptz_encode s <= timestamptz_encode t;
  timestamptz_le : forall t, timestamptz_encode t <= t;
}.

Definition ParseUUID `{Pgtype} (value : string) : res UUID :=
  match uuid_Scan value with
  | inl err => Err (Wrapped "parse uuid" err)
  | inr id => Ok id
  end.

(** ** pgtype.Timestamptz and time.Time

    A time.Time is the number of nanoseconds of its instant since the Unix
    epoch; [zero_time] is time.Time{}, the first instant of year 1. *)

Record Timestamptz := MkTs { Time : Z; TsValid : bool }.

#[export] Instance Timestamptz_eq_dec : EqDecision Timestamptz.
Proof. solve_decision. Defined.

Definition zero_time : Z := -62135596800 * 10 ^ 9.

Definition TimestamptzToTime (value : Timestamptz) : Z :=
  if negb (TsValid value) then zero_time else Time value.

(** ** The textual order is the byte order *)

(** Go's [<] on strings compares bytes. *)
Definition string_bytes (s : string) : list N := N_of_ascii <$> list_ascii_of_string s.
Definition string_ltb (s t : string) : bool := lex_ltb (string_bytes s) (string_bytes t).
Definition string_leb (s t : string) : bool := lex_leb (string_bytes s) (string_bytes t).

Definition all_bytes : list byte :=
  omap (fun n => Byte.of_N (N.of_nat n)) (seq 0 256).

Lemma all_bytes_complete b : b ∈ all_bytes.
Proof.
  apply list_elem_of_omap. exists (N.to_nat (Byte.to_N b)). split.
  - apply elem_of_seq. pose proof (Byte.to_N_bounded b). lia.
  - rewrite N2Nat.id. apply Byte.of_to_N.
Qed.

Lemma all_bytes_spec (P : byte -> bool) : forallb P all_bytes = true -> forall b, P b = true.
Proof.
  rewrite forallb_forall. intros H b. apply H. apply list_elem_of_In, all_bytes_complete.
Qed.

Definition hex_code (b : byte) : list N := N_of_ascii <$> hex_byte b.

(** Comparing two bytes and comparing their two hex digits give the same
    answers, checked on all pairs. *)
Definition hex_agrees (x y : byte) : bool :=
  match hex_code x, hex_code y with
  | [a; b], [c; d] =>
      Bool.eqb ((a <? c)%N || ((a =? c)%N && (b <? d)%N)) (Byte.to_N x <? Byte.to_N y)%N &&
      Bool.eqb ((a =? c)%N && (b =? d)%N) (Byte.to_N x =? Byte.to_N y)%N
  | _, _ => false
  end.

Lemma hex_agrees_all x y : hex_agrees x y = true.
Proof.
  assert (H : forallb (fun x => forallb (hex_agrees x) all_bytes) all_bytes = true)
    by (vm_compute; reflexivity).
  apply (all_bytes_spec (hex_agrees x)).
  exact (all_bytes_spec (fun x => forallb (hex_agrees x) all_bytes) H x).
Qed.

Lemma hex_code_step x y xs ys :
  lex_leb (hex_code x ++ xs) (hex_code y ++ ys) =
  ((Byte.to_N x <? Byte.to_N y)%N || ((Byte.to_N x =? Byte.to_N y)%N && lex_leb xs ys)).
Proof.
  pose proof (hex_agrees_all x y) as H. unfold hex_agrees in H.
  unfold hex_code, hex_byte in *. cbn [fmap list_fmap app] in *.
  set (a := N_of_ascii (hex_digit (Byte.to_N x / 16))) in *.
  set (b := N_of_ascii (hex_digit (Byte.to_N x mod 16))) in *.
  set (c := N_of_ascii (hex_digit (Byte.to_N y / 16))) in *.
  set (d := N_of_ascii (hex_digit (Byte.to_N y mod 16))) in *.
  apply andb_true_iff in H as [H1%eqb_prop H2%eqb_prop]. rewrite <- H1, <- H2. simpl.
  destruct (a <? c)%N, (a =? c)%N, (b <? d)%N, (b =? d)%N; done.
Qed.

Lemma dash_step xs ys : lex_leb (45%N :: xs) (45%N :: ys) = lex_leb xs ys.
Proof. reflexivity. Qed.

Lemma string_bytes_of_list l : string_bytes (string_of_list_ascii l) = N_of_ascii <$> l.
Proof. unfold string_bytes. by rewrite list_ascii_of_string_of_list_ascii. Qed.

(** Equal-length byte groups may be compared through their digits, whatever
    follows them. *)
Lemma hex_group_leb xs ys s t s' t' :
  length xs = length ys -> lex_leb s t = lex_leb s' t' ->
  lex_leb ((N_of_ascii <$> hex_bytes xs) ++ s) ((N_of_ascii <$> hex_bytes ys) ++ t) =
  lex_leb ((Byte.to_N <$> xs) ++ s') ((Byte.to_N <$> ys) ++ t').
Proof.
  intros Hlen Hst. revert ys Hlen.
  induction xs as [|x xs IH]; intros [|y ys] Hlen; try done.
  unfold hex_bytes in *. cbn [flat_map]. rewrite !fmap_app, <- !app_assoc.
  fold (hex_code x) (hex_code y). rewrite hex_code_step, IH by (simpl in Hlen; lia).
  rewrite !fmap_cons. done.
Qed.

Lemma slices_app (bs : list byte) :
  length bs = 16%nat ->
  bs = slice 0 4 bs ++ slice 4 6 bs ++ slice 6 8 bs ++ slice 8 10 bs ++ slice 10 16 bs.
Proof. intros H. do 17 (destruct bs as [|? bs]; try done). Qed.

Lemma length_slice i j bs : (j <= length bs)%nat -> length (slice i j bs) = (j - i)%nat.
Proof. intros H. unfold slice. rewrite length_take, length_drop. lia. Qed.

Lemma UUIDToString_leb a b :
  Valid a = true -> Valid b = true ->
  string_leb (UUIDToString a) (UUIDToString b) = uuid_leb a b.
Proof.
  intros Ha Hb. unfold string_leb, UUIDToString. rewrite Ha, Hb. cbn [negb].
  rewrite !string_bytes_of_list. unfold uuid_leb, uuid_bytes.
  pose proof (length_vec_to_list (Bytes a)) as La. pose proof (length_vec_to_list (Bytes b)) as Lb.
  revert La Lb. generalize (vec_to_list (Bytes a)), (vec_to_list (Bytes b)).
  intros xs ys La Lb. rewrite (slices_app xs La) at 6. rewrite (slices_app ys Lb) at 6.
  rewrite !fmap_app. cbn [fmap list_fmap app].
  repeat (apply hex_group_leb; [rewrite !length_slice by lia; done|]; rewrite dash_step).
  rewrite <- (app_nil_r (N_of_ascii <$> hex_bytes (slice 10 16 xs))).
  rewrite <- (app_nil_r (N_of_ascii <$> hex_bytes (slice 10 16 ys))).
  rewrite (hex_group_leb _ _ [] [] [] []); [by rewrite !app_nil_r| |done].
  by rewrite !length_slice by lia.
Qed.

(** The comparison that sort.Slice uses on the textual forms and the ORDER BY
    of the queries are the same order on non-NULL identifiers. *)
Lemma UUIDToString_ltb a b :
  Valid a = true -> Valid b = true ->
  string_ltb (UUIDToString a) (UUIDToString b) = uuid_ltb a b.
Proof.
  intros Ha Hb. unfold string_ltb, uuid_ltb, lex_ltb. f_equal.
  exact (UUIDToString_leb b a Hb Ha).
Qed.

(** Distinct identifiers have distinct textual forms: map keys built from
    UUIDToString (parseSeatInput, sameUUIDSet) identify identifiers. *)
Lemma UUIDToString_inj a b :
  Valid a = true -> Valid b = true -> UUIDToString a = UUIDToString b -> a = b.
Proof.
  intros Ha Hb Hab. apply uuid_le_antisymm; [congruence| |]; unfold uuid_le.
  - rewrite <- UUIDToString_leb by done. rewrite Hab. apply lex_leb_refl.
  - rewrite <- UUIDToString_leb by done. rewrite Hab. apply lex_leb_refl.
Qed.
