(* ===== verification/Schema.v ===== *)
(** * The database: rows and constraints

    The rows are the structs of internal/sqlc/models.go; the tables and their
    constraints are those the queries run against (db/migrations). A table is
    a finite map from the primary key to its row. *)

From S2P Require Import Prelude GoRuntime DbTypes.
Local Open Scope string_scope.
Local Open Scope Z_scope.

(** ** internal/sqlc/models.go *)

Record Event := MkEvent {
  Event_ID : UUID; Event_Name : string; Event_StartsAt : Timestamptz;
  Event_EndsAt : Timestamptz; Event_CreatedAt : Timestamptz; Event_UpdatedAt : Timestamptz }.

Record Reservation := MkReservation {
  Reservation_ID : UUID; Reservation_EventID : UUID; Reservation_VisitorSessionID : UUID;
  Reservation_UserID : UUID; Reservation_Status : string;
  Reservation_ReservationType : string; Reservation_IdempotencyKey : string;
  Reservation_ExpiresAt : Timestamptz; Reservation_CreatedAt : Timestamptz;
  Reservation_UpdatedAt : Timestamptz }.

Record ReservationItem := MkReservationItem {
  ReservationItem_ID : UUID; ReservationItem_ReservationID : UUID;
  ReservationItem_TicketTypeID : UUID; ReservationItem_Quantity : Z;
  ReservationItem_Status : string; ReservationItem_CreatedAt : Timestamptz;
  ReservationItem_UpdatedAt : Timestamptz }.

Record ReservationSeat := MkReservationSeat {
  ReservationSeat_ID : UUID; ReservationSeat_ReservationID : UUID;
  ReservationSeat_SeatID : UUID; ReservationSeat_Status : string;
  ReservationSeat_ExpiresAt : Timestamptz; ReservationSeat_CreatedAt : Timestamptz;
  ReservationSeat_UpdatedAt : Timestamptz }.

Record Seat := MkSeat {
  Seat_ID : UUID; Seat_EventID : UUID; Seat_Section : string; Seat_RowName : string;
  Seat_SeatNumber : string; Seat_CreatedAt : Timestamptz; Seat_UpdatedAt : Timestamptz }.

Record TicketType := MkTicketType {
  TicketType_ID : UUID; TicketType_EventID : UUID; TicketType_Name : string;
  TicketType_TotalQuantity : Z; TicketType_SoldQuantity : Z;
  TicketType_ReservedQuantity : Z; TicketType_CreatedAt : Timestamptz;
  TicketType_UpdatedAt : Timestamptz }.

Record User := MkUser {
  User_ID : UUID; User_Email : string; User_PasswordHash : string;
  User_CreatedAt : Timestamptz; User_UpdatedAt : Timestamptz }.

Record VisitorSession := MkVisitorSession {
  VisitorSession_ID : UUID; VisitorSession_UserID : UUID;
  VisitorSession_AnonymousTokenHash : string; VisitorSession_CreatedAt : Timestamptz;
  VisitorSession_UpdatedAt : Timestamptz; VisitorSession_LastSeenAt : Timestamptz;
  VisitorSession_ExpiresAt : Timestamptz }.

(** ** The tables *)

Record Database := MkDatabase {
  users : gmap UUID User;
  visitor_sessions : gmap UUID VisitorSession;
  events : gmap UUID Event;
  ticket_types : gmap UUID TicketType;
  seats : gmap UUID Seat;
  reservations : gmap UUID Reservation;
  reservation_items : gmap UUID ReservationItem;
  reservation_seats : gmap UUID ReservationSeat }.

Definition empty_db : Database := MkDatabase ∅ ∅ ∅ ∅ ∅ ∅ ∅ ∅.

Definition set_users m db := MkDatabase m (visitor_sessions db) (events db)
  (ticket_types db) (seats db) (reservations db) (reservation_items db) (reservation_seats db).
Definition set_visitor_sessions m db := MkDatabase (users db) m (events db)
  (ticket_types db) (seats db) (reservations db) (reservation_items db) (reservation_seats db).
Definition set_events m db := MkDatabase (users db) (visitor_sessions db) m
  (ticket_types db) (seats db) (reservations db) (reservation_items db) (reservation_seats db).
Definition set_ticket_types m db := MkDatabase (users db) (visitor_sessions db) (events db)
  m (seats db) (reservations db) (reservation_items db) (reservation_seats db).
Definition set_seats m db := MkDatabase (users db) (visitor_sessions db) (events db)
  (ticket_types db) m (reservations db) (reservation_items db) (reservation_seats db).
Definition set_reservations m db := MkDatabase (users db) (visitor_sessions db) (events db)
  (ticket_types db) (seats db) m (reservation_items db) (reservation_seats db).
Definition set_reservation_items m db := MkDatabase (users db) (visitor_sessions db) (events db)
  (ticket_types db) (seats db) (reservations db) m (reservation_seats db).
Definition set_reservation_seats m db := MkDatabase (users db) (visitor_sessions db) (events db)
  (ticket_types db) (seats db) (reservations db) (reservation_items db) m.

(** ** SQLSTATE codes of the errors the constraints raise *)

Definition unique_violation : error := PgErr "23505".
Definition foreign_key_violation : error := PgErr "23503".
Definition check_violation : error := PgErr "23514".
Definition numeric_value_out_of_range : error := PgErr "22003".

(** ** Domain constants of internal/modules/reservations/service.go *)

Definition StatusReserved : string := "reserved".
Definition StatusConfirmed : string := "confirmed".
Definition StatusCancelled : string := "cancelled".
Definition StatusExpired : string := "expired".
Definition ReservationTypeQuantity : string := "quantity".
Definition ReservationTypeSeats : string := "seats".

(** ** CHECK constraints *)

(** status IN ('reserved', 'confirmed', 'cancelled', 'expired') *)
Definition ck_status (s : string) : bool :=
  (s ==? StatusReserved) || (s ==? StatusConfirmed) || (s ==? StatusCancelled) ||
  (s ==? StatusExpired).

(** reservation_type IN ('quantity', 'seats') *)
Definition ck_reservation_type (s : string) : bool :=
  (s ==? ReservationTypeQuantity) || (s ==? ReservationTypeSeats).

(** The integer arithmetic of PostgreSQL: an int4 result out of range is an
    error, never a wrapped value. *)
Definition int4 (z : Z) : error + Z :=
  if int32_range z then inr z else inl numeric_value_out_of_range.

(** The four CHECK constraints of ticket_types. *)
Definition ck_ticket_type (t : TicketType) : error + unit :=
  match int4 (TicketType_SoldQuantity t + TicketType_ReservedQuantity t) with
  | inl e => inl e
  | inr allocated =>
      if (0 <=? TicketType_TotalQuantity t) && (0 <=? TicketType_SoldQuantity t) &&
         (0 <=? TicketType_ReservedQuantity t) && (allocated <=? TicketType_TotalQuantity t)
      then inr tt else inl check_violation
  end.

(** A seat row that the partial unique index uq_active_reservation_seat covers. *)
Definition active_status (s : string) : bool :=
  (s ==? StatusReserved) || (s ==? StatusConfirmed).

Definition active_seat (rs : ReservationSeat) : bool := active_status (ReservationSeat_Status rs).

(** ** A database that satisfies its declared constraints *)

(** Every row satisfies [P]. *)
Definition all_rows {V} (P : V -> Prop) (m : gmap UUID V) : Prop :=
  forall k r, m !! k = Some r -> P r.

(** Every row is stored under its own non-NULL primary key. *)
Definition keyed {V} (id : V -> UUID) (m : gmap UUID V) : Prop :=
  forall k r, m !! k = Some r -> id r = k /\ Valid k = true.

(** Rows that agree on a unique key are the same row. *)
Definition unique {V K} (P : V -> bool) (key : V -> K) (m : gmap UUID V) : Prop :=
  forall i j r s, m !! i = Some r -> m !! j = Some s -> P r = true -> P s = true ->
    key r = key s -> i = j.

(** FOREIGN KEY, of a NOT NULL column and of a nullable one. *)
Definition refers {V W} (fk : V -> UUID) (m : gmap UUID V) (target : gmap UUID W) : Prop :=
  all_rows (fun r => is_Some (target !! fk r)) m.

Definition refers_opt {V W} (fk : V -> UUID) (m : gmap UUID V) (target : gmap UUID W) : Prop :=
  all_rows (fun r => Valid (fk r) = true -> is_Some (target !! fk r)) m.

Definition session_key (r : Reservation) : UUID * string :=
  (Reservation_VisitorSessionID r, Reservation_IdempotencyKey r).

Definition seat_place (s : Seat) : UUID * string * string * string :=
  (Seat_EventID s, Seat_Section s, Seat_RowName s, Seat_SeatNumber s).

Record schema_ok (db : Database) : Prop := MkSchemaOk {
  users_keyed : keyed User_ID (users db);
  sessions_keyed : keyed VisitorSession_ID (visitor_sessions db);
  events_keyed : keyed Event_ID (events db);
  tickets_keyed : keyed TicketType_ID (ticket_types db);
  seats_keyed : keyed Seat_ID (seats db);
  reservations_keyed : keyed Reservation_ID (reservations db);
  items_keyed : keyed ReservationItem_ID (reservation_items db);
  rseats_keyed : keyed ReservationSeat_ID (reservation_seats db);
  users_unique : unique (fun _ => true) User_Email (users db);
  sessions_unique :
    unique (fun _ => true) VisitorSession_AnonymousTokenHash (visitor_sessions db);
  sessions_user : refers_opt VisitorSession_UserID (visitor_sessions db) (users db);
  tickets_event : refers TicketType_EventID (ticket_types db) (events db);
  tickets_check : all_rows (fun t => ck_ticket_type t = inr tt) (ticket_types db);
  tickets_int4 :
    all_rows (fun t => int32_range (TicketType_TotalQuantity t) = true) (ticket_types db);
  seats_event : refers Seat_EventID (seats db) (events db);
  seats_unique : unique (fun _ => true) seat_place (seats db);
  reservations_event : refers Reservation_EventID (reservations db) (events db);
  reservations_session :
    refers Reservation_VisitorSessionID (reservations db) (visitor_sessions db);
  reservations_user : refers_opt Reservation_UserID (reservations db) (users db);
  reservations_status :
    all_rows (fun r => ck_status (Reservation_Status r) = true) (reservations db);
  reservations_type : all_rows
    (fun r => ck_reservation_type (Reservation_ReservationType r) = true) (reservations db);
  reservations_unique : unique (fun _ => true) session_key (reservations db);
  items_reservation : refers ReservationItem_ReservationID (reservation_items db) (reservations db);
  items_ticket : refers ReservationItem_TicketTypeID (reservation_items db) (ticket_types db);
  items_quantity : all_rows (fun i => 0 < ReservationItem_Quantity i) (reservation_items db);
  items_status :
    all_rows (fun i => ck_status (ReservationItem_Status i) = true) (reservation_items db);
  rseats_reservation :
    refers ReservationSeat_ReservationID (reservation_seats db) (reservations db);
  rseats_seat : refers ReservationSeat_SeatID (reservation_seats db) (seats db);
  rseats_status :
    all_rows (fun s => ck_status (ReservationSeat_Status s) = true) (reservation_seats db);
  rseats_unique : unique active_seat ReservationSeat_SeatID (reservation_seats db);
}.

Lemma empty_schema_ok : schema_ok empty_db.
Proof.
  constructor; unfold keyed, unique, refers, refers_opt, all_rows; simpl; intros; simplify_map_eq.
Qed.

(** ** How constraints survive changes of the tables

    Collected in the hint database [schema]: a row inserted or replaced, and a
    bulk update, on either side of each kind of constraint. *)

Create HintDb schema.

Section constraints.
Context {V W K : Type}.
Implicit Types (m : gmap UUID V) (target : gmap UUID W).

Lemma all_rows_insert (P : V -> Prop) m k row :
  all_rows P m -> P row -> all_rows P (<[k:=row]> m).
Proof. intros Hm Hrow j r [[_ <-]|[_ Hj]]%lookup_insert_Some; eauto. Qed.

Lemma all_rows_fmap (P : V -> Prop) (f : V -> V) m :
  all_rows P m -> (forall r, P r -> P (f r)) -> all_rows P (f <$> m).
Proof. intros Hm Hf k r. rewrite lookup_fmap, fmap_Some. intros (r0 & Hr0 & ->). eauto. Qed.

Lemma keyed_insert (id : V -> UUID) m k row :
  keyed id m -> id row = k -> Valid k = true -> keyed id (<[k:=row]> m).
Proof. intros Hm Hid Hv j r [[<- <-]|[_ Hj]]%lookup_insert_Some; eauto. Qed.

Lemma keyed_fmap (id : V -> UUID) (f : V -> V) m :
  keyed id m -> (forall r, id (f r) = id r) -> keyed id (f <$> m).
Proof.
  intros Hm Hf k r. rewrite lookup_fmap, fmap_Some. intros (r0 & Hr0 & ->). rewrite Hf. eauto.
Qed.

Lemma unique_insert (P : V -> bool) (key : V -> K) m k row :
  unique P key m ->
  (forall j s, j <> k -> m !! j = Some s -> P s = true -> P row = true -> key s <> key row) ->
  unique P key (<[k:=row]> m).
Proof.
  intros Hm Hk i j r s [[<- <-]|[Hi Hr]]%lookup_insert_Some
    [[<- <-]|[Hj Hs]]%lookup_insert_Some HPr HPs Heq; [done| | |eauto].
  - exfalso. by apply (Hk j s).
  - exfalso. by apply (Hk i r).
Qed.

(** Replacing a row by one with the same key. *)
Lemma unique_update (P : V -> bool) (key : V -> K) m k old row :
  unique P key m -> m !! k = Some old -> key row = key old ->
  (P row = true -> P old = true) -> unique P key (<[k:=row]> m).
Proof.
  intros Hm Hk Hkey HP. apply unique_insert; [done|]. intros j s Hj Hs HPs HPr Heq.
  apply Hj. apply (Hm j k s old); auto. congruence.
Qed.

(** A bulk update that keeps keys and brings no row into the index. *)
Lemma unique_fmap (P : V -> bool) (key : V -> K) (f : V -> V) m :
  unique P key m -> (forall r, key (f r) = key r) ->
  (forall r, P (f r) = true -> P r = true) -> unique P key (f <$> m).
Proof.
  intros Hm Hkey HP i j r s. rewrite !lookup_fmap, !fmap_Some.
  intros (r0 & Hr & ->) (s0 & Hs & ->) HPr HPs. rewrite !Hkey. eauto.
Qed.

Lemma refers_insert (fk : V -> UUID) m target k row :
  refers fk m target -> is_Some (target !! fk row) -> refers fk (<[k:=row]> m) target.
Proof. apply (all_rows_insert (fun r => is_Some (target !! fk r))). Qed.

Lemma refers_opt_insert (fk : V -> UUID) m target k row :
  refers_opt fk m target -> (Valid (fk row) = true -> is_Some (target !! fk row)) ->
  refers_opt fk (<[k:=row]> m) target.
Proof. apply (all_rows_insert (fun r => Valid (fk r) = true -> is_Some (target !! fk r))). Qed.

Lemma refers_target_insert (fk : V -> UUID) m target k row :
  refers fk m target -> refers fk m (<[k:=row]> target).
Proof. intros Hm j r Hr. apply lookup_insert_is_Some'. right. exact (Hm j r Hr). Qed.

Lemma refers_target_fmap (fk : V -> UUID) m target (f : W -> W) :
  refers fk m target -> refers fk m (f <$> target).
Proof. intros Hm j r Hr. rewrite lookup_fmap. apply fmap_is_Some. exact (Hm j r Hr). Qed.

Lemma refers_opt_target_insert (fk : V -> UUID) m target k row :
  refers_opt fk m target -> refers_opt fk m (<[k:=row]> target).
Proof. intros Hm j r Hr Hv. apply lookup_insert_is_Some'. right. exact (Hm j r Hr Hv). Qed.

Lemma refers_fmap (fk : V -> UUID) (f : V -> V) m target :
  refers fk m target -> (forall r, fk (f r) = fk r) -> refers fk (f <$> m) target.
Proof.
  intros Hm Hf k r. rewrite lookup_fmap, fmap_Some. intros (r0 & Hr0 & ->). rewrite Hf.
  exact (Hm k r0 Hr0).
Qed.

Lemma refers_opt_fmap (fk : V -> UUID) (f : V -> V) m target :
  refers_opt fk m target -> (forall r, fk (f r) = fk r) -> refers_opt fk (f <$> m) target.
Proof.
  intros Hm Hf k r. rewrite lookup_fmap, fmap_Some. intros (r0 & Hr0 & ->). rewrite Hf.
  exact (Hm k r0 Hr0).
Qed.
End constraints.

#[export] Hint Resolve all_rows_insert all_rows_fmap keyed_insert keyed_fmap unique_update
  unique_fmap refers_insert refers_opt_insert refers_target_insert refers_target_fmap refers_opt_target_insert refers_fmap
  refers_opt_fmap : schema.

Lemma ck_ticket_type_spec t :
  int32_range (TicketType_TotalQuantity t) = true ->
  ck_ticket_type t = inr tt <->
  0 <= TicketType_SoldQuantity t /\ 0 <= TicketType_ReservedQuantity t /\
  TicketType_SoldQuantity t + TicketType_ReservedQuantity t <= TicketType_TotalQuantity t.
Proof.
  unfold ck_ticket_type, int4, int32_range, int32_min, int32_max. intros HT.
  split.
  - repeat split_if; intros; to_prop; try discriminate; lia.
  - intros. to_prop. repeat split_if; to_prop; try done.
    + repeat match goal with H : (_ && _)%bool = false |- _ => apply andb_false_iff in H as [H|H] end;
        to_prop; lia.
    + apply andb_false_iff in E as [E|E]; to_prop; lia.
Qed.

(** ** The primary keys of a selection are distinct *)

Lemma filter_ids_NoDup {V} (id : V -> UUID) (P : V -> bool) l :
  NoDup (id <$> l) -> NoDup (id <$> List.filter P l).
Proof.
  induction l as [|x l IH]; [done|]. rewrite fmap_cons. intros [Hx Hl]%NoDup_cons. simpl.
  destruct (P x); [|auto]. rewrite fmap_cons. apply NoDup_cons. split; [|auto].
  intros (y & Hy & Hin)%list_elem_of_fmap. apply Hx, list_elem_of_fmap. exists y. split; [done|].
  apply list_elem_of_In. apply list_elem_of_In, filter_In in Hin. apply Hin.
Qed.

Lemma rows_ids_NoDup {V} (id : V -> UUID) (m : gmap UUID V) : keyed id m -> NoDup (id <$> rows m).
Proof.
  intros Hm. unfold rows. rewrite <- list_fmap_compose.
  rewrite (list_fmap_ext _ fst); [apply NoDup_fst_map_to_list|].
  intros i [k r] Hkr. simpl. apply (Hm k). apply elem_of_map_to_list.
  by apply list_elem_of_lookup_2 in Hkr.
Qed.

Lemma select_ids_NoDup {V} (id : V -> UUID) (m : gmap UUID V) P R `{!RelDecision R} :
  keyed id m -> NoDup (id <$> select P R m).
Proof.
  intros Hm. unfold select. rewrite merge_sort_Permutation. by apply filter_ids_NoDup, rows_ids_NoDup.
Qed.

Lemma elem_of_select_key {V} (id : V -> UUID) (m : gmap UUID V) P R `{!RelDecision R} x :
  keyed id m -> x ∈ select P R m <-> m !! id x = Some x /\ P x = true.
Proof.
  intros Hm. rewrite elem_of_select. split; [|by intros [? ?]; eauto].
  intros (k & Hk & HP). by destruct (Hm k x Hk) as [-> _].
Qed.

(** ** A selection is determined by its rows *)

Lemma rows_ids_inj {V} (id : V -> UUID) (m : gmap UUID V) k j x y :
  keyed id m -> m !! k = Some x -> m !! j = Some y -> uuid_bytes (id x) = uuid_bytes (id y) -> x = y.
Proof.
  intros Hm Hx Hy Heq. destruct (Hm _ _ Hx) as [Hk Hvk], (Hm _ _ Hy) as [Hj Hvj].
  assert (k = j) as ->; [|congruence].
  apply uuid_bytes_inj in Heq. rewrite Hk, Hj in Heq. destruct k, j; simpl in *. congruence.
Qed.

(** A sorted list without repetition of the rows that satisfy [P] is the
    selection, if the order tells these rows apart. *)
Lemma select_unique {V} (id : V -> UUID) (m : gmap UUID V) P R
    `{!RelDecision R, !Transitive R, !Total R} l :
  keyed id m -> StronglySorted R l -> NoDup l ->
  (forall x, x ∈ l <-> x ∈ select P R m) ->
  (forall x y, x ∈ select P R m -> y ∈ select P R m -> R x y -> R y x -> x = y) ->
  select P R m = l.
Proof.
  intros Hm Hs Hnd Hin Hanti. apply (StronglySorted_unique_strong R).
  - intros x y Hx Hy. apply Hanti; [done|]. by apply Hin.
  - apply StronglySorted_merge_sort; apply _.
  - done.
  - apply NoDup_Permutation; [|done|intros x; by rewrite Hin].
    apply (NoDup_fmap_1 id). by apply select_ids_NoDup.
Qed.

Lemma select_same {V} (id : V -> UUID) (m m' : gmap UUID V) P R
    `{!RelDecision R, !Transitive R, !Total R} :
  keyed id m -> keyed id m' ->
  (forall k x, P x = true -> m !! k = Some x <-> m' !! k = Some x) ->
  (forall x y, x ∈ select P R m -> y ∈ select P R m -> R x y -> R y x -> x = y) ->
  select P R m = select P R m'.
Proof.
  intros Hm Hm' Hsame Hanti. apply (select_unique id m P R); try apply _; [done| | | |done].
  - apply StronglySorted_merge_sort; apply _.
  - apply (NoDup_fmap_1 id). by apply select_ids_NoDup.
  - intros x. rewrite !elem_of_select. split; intros (k & Hk & HP); exists k; split; auto; by apply Hsame.
Qed.
