(* ===== verification/Prog.v ===== *)
(** * Programs over the database (internal/db/tx.go, internal/sqlc/db.go)

    A service operation is a [prog]: a tree of the effects the Go code
    performs, in the order it performs them. [run] executes a program in an
    environment that supplies clock readings, random values, generated ids and
    faults. [Wp] reasons about programs for all environments at once. *)

From S2P Require Import Prelude GoRuntime DbTypes Schema.
Local Open Scope string_scope.
Local Open Scope Z_scope.

(** ** SQL statements *)

(** What the server supplies to one statement: now(), the value of
    gen_random_uuid() for the row it may insert, and the reservations that other
    transactions have locked, which SKIP LOCKED passes over. *)
Record sctx := MkSctx { ctx_now : Timestamptz; ctx_new_id : UUID; ctx_skip : list UUID }.

(** A statement either fails and changes nothing or yields rows and the next
    state of the database. *)
Definition stmt (X : Type) : Type := sctx -> Database -> error + X * Database.

(** The rows a statement locks whether or not it changes them: those of FOR
    UPDATE, and the row of an UPDATE by primary key. Rows that change are locked
    in any case. A lock changes no row, so it matters only to the transactions
    of other sessions ([Interleaving]). *)
Inductive row_lock :=
  | LockTicketType (id : UUID)
  | LockSeat (id : UUID)
  | LockReservation (id : UUID).

Definition no_locks {X} (_ : X) : list row_lock := [].

(** ** Programs *)

Inductive prog (A : Type) : Type :=
  | Ret (a : A)
  | Fail (e : error)
  | Panic
  | Now (k : Z -> prog A)
  | RandRead (n : nat) (k : error + list byte -> prog A)
  | Sql {X : Type} (lk : X -> list row_lock) (st : stmt X) (k : error + X -> prog A)
  | Begin (k : error + unit -> prog A)
  | Commit (k : error + unit -> prog A)
  | Rollback (k : prog A).
Arguments Ret {A} a.
Arguments Fail {A} e.
Arguments Panic {A}.
Arguments Now {A} k.
Arguments RandRead {A} n k.
Arguments Sql {A X} lk st k.
Arguments Begin {A} k.
Arguments Commit {A} k.
Arguments Rollback {A} k.

Fixpoint bind {A B} (p : prog A) (f : A -> prog B) : prog B :=
  match p with
  | Ret a => f a
  | Fail e => Fail e
  | Panic => Panic
  | Now k => Now (fun t => bind (k t) f)
  | RandRead n k => RandRead n (fun r => bind (k r) f)
  | Sql lk st k => Sql lk st (fun r => bind (k r) f)
  | Begin k => Begin (fun r => bind (k r) f)
  | Commit k => Commit (fun r => bind (k r) f)
  | Rollback k => Rollback (bind k f)
  end.

(** The result of a call as a value, panics included: what a deferred function
    can observe. *)
Fixpoint catch {A} (p : prog A) : prog (res A) :=
  match p with
  | Ret a => Ret (Ok a)
  | Fail e => Ret (Err e)
  | Panic => Ret Panicked
  | Now k => Now (fun t => catch (k t))
  | RandRead n k => RandRead n (fun r => catch (k r))
  | Sql lk st k => Sql lk st (fun r => catch (k r))
  | Begin k => Begin (fun r => catch (k r))
  | Commit k => Commit (fun r => catch (k r))
  | Rollback k => Rollback (catch k)
  end.

Definition of_res {A} (r : res A) : prog A :=
  match r with Ok a => Ret a | Err e => Fail e | Panicked => Panic end.

Definition of_sum {A} (r : error + A) : prog A :=
  match r with inl e => Fail e | inr a => Ret a end.

Notation "'let*' x ':=' p 'in' q" := (bind p (fun x => q))
  (at level 10, x name, q at level 200) : go_scope.
Notation "p ;;; q" := (bind p (fun _ => q)) (at level 199, right associativity) : go_scope.

(** [x, err := p]: the error becomes a value that the caller inspects. *)
Definition try {A} (p : prog A) : prog (error + A) :=
  let* r := catch p in
  match r with Ok a => Ret (inr a) | Err e => Ret (inl e) | Panicked => Panic end.

(** [if err != nil { return fmt.Errorf("text: %w", err) }] *)
Definition wrapf {A} (text : string) (p : prog A) : prog A :=
  let* r := try p in
  match r with inl err => Fail (Wrapped text err) | inr a => Ret a end.

Definition sql_locking {X} (lk : X -> list row_lock) (st : stmt X) : prog X := Sql lk st of_sum.
Abbreviation sql := (sql_locking no_locks).
Definition time_Now : prog Z := Now Ret.

(** A for loop over a slice that threads the variables its body assigns. *)
Fixpoint for_each {X S} (l : list X) (body : X -> S -> prog S) (s : S) : prog S :=
  match l with
  | [] => Ret s
  | x :: l' => let* s' := body x s in for_each l' body s'
  end.

(** ** db.WithTx *)

(** The transaction of tx.go: an error of [Begin] or [Commit] is wrapped, an
    error of the callback is returned as it is, and the deferred function rolls
    back whenever the commit was not reached or failed, panics included. *)
Definition WithTx {A} (fn : prog A) : prog A :=
  let* begun := try (Begin of_sum) in
  match begun with
  | inl err => Fail (Wrapped "begin transaction" err)
  | inr _ =>
      let* r := catch fn in
      match r with
      | Ok a =>
          let* committed := try (Commit of_sum) in
          match committed with
          | inl err => Rollback (Fail (Wrapped "commit transaction" err))
          | inr _ => Ret a
          end
      | Err err => Rollback (Fail err)
      | Panicked => Rollback Panic
      end
  end.

(** ** Execution *)

Inductive fault_kind := FaultPg (code : string) | FaultDriver (text : string).

Definition fault_error (f : fault_kind) : error :=
  match f with FaultPg code => PgErr code | FaultDriver text => DriverErr text end.

(** The fate of a COMMIT: acknowledged, refused by the server, or performed by
    the server with the acknowledgement lost on the way back. *)
Inductive commit_ack := Acked | Refused (f : fault_kind) | AckLost (f : fault_kind).

(** Everything outside the program, indexed by the number of effects already
    performed: any clock, any id generator, any pattern of failures. *)
Class Env := {
  wall_clock : nat -> Z;
  db_clock : nat -> Z;
  gen_random_uuid : nat -> vec byte 16;
  other_locks : nat -> list UUID;
  fault : nat -> option fault_kind;
  commit_outcome : nat -> commit_ack;
  rand_read : nat -> nat -> string + list byte;
}.

(** rand.Read either fails or fills the whole buffer. *)
Definition rand_result (n : nat) (r : string + list byte) : error + list byte :=
  match r with
  | inl text => inl (DriverErr text)
  | inr bs => inr (take n (bs ++ replicate n "000"%byte))
  end.

(** [saved] is the state to which an open transaction rolls back, with the
    value of now() fixed at its start. *)
Record World := MkWorld { w_db : Database; w_saved : option (Database * Z); w_tick : nat }.

Definition next_world (db : Database) (saved : option (Database * Z)) (w : World) : World :=
  MkWorld db saved (S (w_tick w)).

Definition nested_begin : error := DriverErr "transaction already open".
Definition tx_closed : error := DriverErr "tx is closed".

Section run.
Context `{Env}.

Definition stmt_ctx (w : World) : sctx :=
  MkSctx
    (MkTs (match w_saved w with Some (_, t) => t | None => db_clock (w_tick w) end) true)
    (MkUUID (gen_random_uuid (w_tick w)) true)
    (other_locks (w_tick w)).

Definition step_sql {X} (st : stmt X) (w : World) : (error + X) * World :=
  match fault (w_tick w) with
  | Some f => (inl (fault_error f), next_world (w_db w) (w_saved w) w)
  | None =>
      match st (stmt_ctx w) (w_db w) with
      | inl e => (inl e, next_world (w_db w) (w_saved w) w)
      | inr (x, db') => (inr x, next_world db' (w_saved w) w)
      end
  end.

Definition step_begin (w : World) : (error + unit) * World :=
  match fault (w_tick w), w_saved w with
  | Some f, _ => (inl (fault_error f), next_world (w_db w) (w_saved w) w)
  | None, Some _ => (inl nested_begin, next_world (w_db w) (w_saved w) w)
  | None, None =>
      (inr tt, next_world (w_db w) (Some (w_db w, db_clock (w_tick w))) w)
  end.

Definition step_commit (w : World) : (error + unit) * World :=
  match w_saved w with
  | None => (inl tx_closed, next_world (w_db w) None w)
  | Some (db0, _) =>
      match commit_outcome (w_tick w) with
      | Acked => (inr tt, next_world (w_db w) None w)
      | Refused f => (inl (fault_error f), next_world db0 None w)
      | AckLost f => (inl (fault_error f), next_world (w_db w) None w)
      end
  end.

Definition step_rollback (w : World) : World :=
  match w_saved w with
  | Some (db0, _) => next_world db0 None w
  | None => next_world (w_db w) None w
  end.

Fixpoint run {A} (p : prog A) (w : World) : res A * World :=
  match p with
  | Ret a => (Ok a, w)
  | Fail e => (Err e, w)
  | Panic => (Panicked, w)
  | Now k => run (k (wall_clock (w_tick w))) (next_world (w_db w) (w_saved w) w)
  | RandRead n k => run (k (rand_result n (rand_read (w_tick w) n))) (next_world (w_db w) (w_saved w) w)
  | Sql _ st k => let '(r, w') := step_sql st w in run (k r) w'
  | Begin k => let '(r, w') := step_begin w in run (k r) w'
  | Commit k => let '(r, w') := step_commit w in run (k r) w'
  | Rollback k => run k (step_rollback w)
  end.
End run.
