(* ===== verification/Wp.v ===== *)
(** * A weakest precondition for programs

    [wp] quantifies over everything the environment may do: [wp_sound] turns a
    proof of [wp] into a fact about [run] in any environment. An [assm] bounds
    the environment: [adversary] allows everything; a quiet assumption excludes
    faults and identifier collisions and constrains the clock readings and the
    random bytes, and [respects] says that a given run stays within it. *)

From S2P Require Import Prelude GoRuntime DbTypes Schema Prog.
Local Open Scope Z_scope.

Record assm := MkAssm { quiet : bool; clock_ok : Z -> bool; bytes_ok : list byte -> bool }.

Definition adversary : assm := MkAssm false (fun _ => true) (fun _ => true).
Definition calm_drawing (clock : Z -> bool) (bytes : list byte -> bool) : assm := MkAssm true clock bytes.
Definition calm (clock : Z -> bool) : assm := calm_drawing clock (fun _ => true).

(** The identifier is the primary key of no row. *)
Definition absent {V} (m : gmap UUID V) (id : UUID) : bool :=
  match m !! id with None => true | Some _ => false end.

Definition fresh_id (db : Database) (id : UUID) : bool :=
  absent (users db) id && absent (visitor_sessions db) id && absent (events db) id &&
  absent (ticket_types db) id && absent (seats db) id && absent (reservations db) id &&
  absent (reservation_items db) id && absent (reservation_seats db) id.

Lemma absent_None {V} (m : gmap UUID V) id : absent m id = true <-> m !! id = None.
Proof. unfold absent. by destruct (m !! id). Qed.

Lemma length_rand_result n bs : length (take n (bs ++ replicate n "000"%byte)) = n.
Proof. rewrite length_take, length_app, length_replicate. lia. Qed.

(** In a calm environment the identifier is new and no row is locked by another
    session. *)
Definition undisturbed (db : Database) (ctx : sctx) : bool :=
  fresh_id db (ctx_new_id ctx) && (ctx_skip ctx ==? []).

(** The state of the database as a program sees it: the current tables and,
    inside a transaction, those it would roll back to. *)
Definition St : Type := Database * option Database.

Definition st_of (w : World) : St := (w_db w, fst <$> w_saved w).

(** An error the environment injected, possibly wrapped on its way up. *)
Inductive fault_err : error -> Prop :=
  | fe_fault f : fault_err (fault_error f)
  | fe_wrapped text e : fault_err e -> fault_err (Wrapped text e).

#[export] Hint Constructors fault_err : core.

Lemma fault_err_Is e target :
  fault_err e -> (forall c, target <> PgErr c) -> (forall t, target <> DriverErr t) ->
  (forall t c, target <> Wrapped t c) -> errors_Is e target = false.
Proof.
  intros He H1 H2 H3. induction He as [[c|t]|text e He IH]; simpl;
    rewrite bool_decide_eq_false_2 by congruence; done.
Qed.

Lemma fault_err_sentinel e s : fault_err e -> errors_Is e (Sentinel s) = false.
Proof. intros He. by apply fault_err_Is. Qed.

Lemma fault_err_rows e : fault_err e -> isNoRows e = false.
Proof. intros He. unfold isNoRows. by rewrite !fault_err_Is. Qed.

Section wp.
Variable a : assm.

(** The error is the environment's doing. *)
Definition faulty (e : error) : Prop := quiet a = false /\ fault_err e.

Lemma undisturbed_fresh db ctx :
  (quiet a = true -> undisturbed db ctx = true) ->
  quiet a = true -> fresh_id db (ctx_new_id ctx) = true.
Proof. intros Hc Hq. by destruct (andb_prop _ _ (Hc Hq)). Qed.

Lemma undisturbed_skip db ctx :
  (quiet a = true -> undisturbed db ctx = true) -> quiet a = true -> ctx_skip ctx = [].
Proof. intros Hc Hq. specialize (Hc Hq). unfold undisturbed in Hc. by to_prop. Qed.

(** What a statement may answer in state [σ]. *)
Definition wp_sql {X} (st : stmt X) (Q : error + X -> St -> Prop) (σ : St) : Prop :=
  (quiet a = false -> forall f, Q (inl (fault_error f)) σ) /\
  forall ctx, Valid (ctx_new_id ctx) = true ->
    (quiet a = true -> undisturbed σ.1 ctx = true) ->
    match st ctx σ.1 with
    | inl e => Q (inl e) σ
    | inr (x, db') => Q (inr x) (db', σ.2)
    end.

Definition wp_begin (Q : error + unit -> St -> Prop) (σ : St) : Prop :=
  (quiet a = false -> forall f, Q (inl (fault_error f)) σ) /\
  match σ.2 with
  | None => Q (inr tt) (σ.1, Some σ.1)
  | Some _ => Q (inl nested_begin) σ
  end.

Definition wp_commit (Q : error + unit -> St -> Prop) (σ : St) : Prop :=
  match σ.2 with
  | None => Q (inl tx_closed) σ
  | Some db0 =>
      Q (inr tt) (σ.1, None) /\
      (quiet a = false -> forall f,
         Q (inl (fault_error f)) (db0, None) /\ Q (inl (fault_error f)) (σ.1, None))
  end.

Definition wp_rollback (Q : St -> Prop) (σ : St) : Prop :=
  Q (default σ.1 σ.2, None).

Fixpoint wp {A} (p : prog A) (Q : res A -> St -> Prop) (σ : St) : Prop :=
  match p with
  | Ret x => Q (Ok x) σ
  | Fail e => Q (Err e) σ
  | Panic => Q Panicked σ
  | Now k => forall t, clock_ok a t = true -> wp (k t) Q σ
  | RandRead n k =>
      (quiet a = false -> forall text, wp (k (inl (DriverErr text))) Q σ) /\
      forall bs, length bs = n -> bytes_ok a bs = true -> wp (k (inr bs)) Q σ
  | Sql _ st k => wp_sql st (fun r => wp (k r) Q) σ
  | Begin k => wp_begin (fun r => wp (k r) Q) σ
  | Commit k => wp_commit (fun r => wp (k r) Q) σ
  | Rollback k => wp_rollback (wp k Q) σ
  end.

Lemma wp_mono {A} (p : prog A) (Q Q' : res A -> St -> Prop) σ :
  (forall r σ, Q r σ -> Q' r σ) -> wp p Q σ -> wp p Q' σ.
Proof.
  intros HQ. revert σ.
  induction p as [x|e| |k IH|n k IH|X lk st k IH|k IH|k IH|k IH]; intros σ; simpl; auto.
  - intros [Hf Hs]. auto.
  - intros [Hf Hs]. split; [auto|]. intros ctx Hv Hc. specialize (Hs ctx Hv Hc).
    destruct (st ctx σ.1) as [e|[x db']]; auto.
  - intros [Hf Hs]. split; [auto|]. destruct σ.2; auto.
  - unfold wp_commit. destruct σ.2; [|auto]. intros [Hs Hf]. split; [auto|].
    intros Hq f. destruct (Hf Hq f). auto.
  - unfold wp_rollback. auto.
Qed.

Lemma wp_bind {A B} (p : prog A) (f : A -> prog B) (Q : res B -> St -> Prop) σ :
  wp p (fun r σ' => match r with
                    | Ok x => wp (f x) Q σ'
                    | Err e => Q (Err e) σ'
                    | Panicked => Q Panicked σ'
                    end) σ ->
  wp (bind p f) Q σ.
Proof.
  revert σ.
  induction p as [x|e| |k IH|n k IH|X lk st k IH|k IH|k IH|k IH]; intros σ; simpl; auto.
  - intros [Hf Hs]. auto.
  - intros [Hf Hs]. split; [auto|]. intros ctx Hv Hc. specialize (Hs ctx Hv Hc).
    destruct (st ctx σ.1) as [e|[x db']]; auto.
  - intros [Hf Hs]. split; [auto|]. destruct σ.2; auto.
  - unfold wp_commit. destruct σ.2; [|auto]. intros [Hs Hf]. split; [auto|].
    intros Hq f'. destruct (Hf Hq f'). auto.
  - unfold wp_rollback. auto.
Qed.

Lemma wp_catch {A} (p : prog A) (Q : res (res A) -> St -> Prop) σ :
  wp p (fun r σ' => Q (Ok r) σ') σ -> wp (catch p) Q σ.
Proof.
  revert σ.
  induction p as [x|e| |k IH|n k IH|X lk st k IH|k IH|k IH|k IH]; intros σ; simpl; auto.
  - intros [Hf Hs]. auto.
  - intros [Hf Hs]. split; [auto|]. intros ctx Hv Hc. specialize (Hs ctx Hv Hc).
    destruct (st ctx σ.1) as [e|[x db']]; auto.
  - intros [Hf Hs]. split; [auto|]. destruct σ.2; auto.
  - unfold wp_commit. destruct σ.2; [|auto]. intros [Hs Hf]. split; [auto|].
    intros Hq f'. destruct (Hf Hq f'). auto.
  - unfold wp_rollback. auto.
Qed.

Lemma wp_try {A} (p : prog A) (Q : res (error + A) -> St -> Prop) σ :
  wp p (fun r σ' => match r with
                    | Ok x => Q (Ok (inr x)) σ'
                    | Err e => Q (Ok (inl e)) σ'
                    | Panicked => Q Panicked σ'
                    end) σ ->
  wp (try p) Q σ.
Proof.
  intros Hp. apply wp_bind, wp_catch. revert Hp. apply wp_mono.
  by intros [x|e|] σ'.
Qed.

Lemma wp_wrapf {A} text (p : prog A) (Q : res A -> St -> Prop) σ :
  wp p (fun r σ' => match r with
                    | Ok x => Q (Ok x) σ'
                    | Err e => Q (Err (Wrapped text e)) σ'
                    | Panicked => Q Panicked σ'
                    end) σ ->
  wp (wrapf text p) Q σ.
Proof.
  intros Hp. apply wp_bind, wp_try. revert Hp. apply wp_mono. by intros [x|e|] σ'.
Qed.

Lemma wp_sql_intro {X} lk (st : stmt X) (Q : res X -> St -> Prop) σ :
  wp_sql st (fun r σ' => match r with inl e => Q (Err e) σ' | inr x => Q (Ok x) σ' end) σ ->
  wp (sql_locking lk st) Q σ.
Proof.
  intros [Hf Hs]. split; [auto|]. intros ctx Hv Hc. specialize (Hs ctx Hv Hc).
  destruct (st ctx σ.1) as [e|[x db']]; auto.
Qed.

Lemma wp_Now {A} (k : Z -> prog A) Q σ :
  (forall t, clock_ok a t = true -> wp (k t) Q σ) -> wp (Now k) Q σ.
Proof. done. Qed.

Lemma wp_time_Now (Q : res Z -> St -> Prop) σ :
  (forall t, clock_ok a t = true -> Q (Ok t) σ) -> wp time_Now Q σ.
Proof. done. Qed.

(** The rules of a statement whose error the caller inspects, wraps, or
    passes on. *)
Lemma wp_try_sql {X B} lk (st : stmt X) (f : error + X -> prog B) Q σ :
  (forall e, faulty e -> wp (f (inl e)) Q σ) ->
  (forall ctx, Valid (ctx_new_id ctx) = true ->
     (quiet a = true -> undisturbed σ.1 ctx = true) ->
     match st ctx σ.1 with
     | inl e => wp (f (inl e)) Q σ
     | inr (x, db') => wp (f (inr x)) Q (db', σ.2)
     end) ->
  wp (bind (try (sql_locking lk st)) f) Q σ.
Proof.
  intros Hf Hs. apply wp_bind, wp_try, wp_sql_intro. split.
  - intros Hq f'. apply Hf. split; auto.
  - intros ctx Hv Hc. specialize (Hs ctx Hv Hc). by destruct (st ctx σ.1) as [e|[x db']].
Qed.

Lemma wp_wrapf_sql {X} text lk (st : stmt X) Q σ :
  (forall e, faulty e -> Q (Err e) σ) ->
  (forall ctx, Valid (ctx_new_id ctx) = true ->
     (quiet a = true -> undisturbed σ.1 ctx = true) ->
     match st ctx σ.1 with
     | inl e => Q (Err (Wrapped text e)) σ
     | inr (x, db') => Q (Ok x) (db', σ.2)
     end) ->
  wp (wrapf text (sql_locking lk st)) Q σ.
Proof.
  intros Hf Hs. apply wp_wrapf, wp_sql_intro. split.
  - intros Hq f'. apply Hf. split; auto.
  - intros ctx Hv Hc. specialize (Hs ctx Hv Hc). by destruct (st ctx σ.1) as [e|[x db']].
Qed.

(** The rule of loops: an invariant over the processed prefix. *)
Lemma wp_for_each {X S} (l : list X) (body : X -> S -> prog S) (s : S)
    (Inv : list X -> S -> St -> Prop) (Q : res S -> St -> Prop) σ :
  Inv [] s σ ->
  (forall done x rest s σ, l = done ++ x :: rest -> Inv done s σ ->
     wp (body x s) (fun r σ' => match r with
                                | Ok s' => Inv (done ++ [x]) s' σ'
                                | r => Q r σ'
                                end) σ) ->
  (forall s σ, Inv l s σ -> Q (Ok s) σ) ->
  wp (for_each l body s) Q σ.
Proof.
  intros H0 Hstep Hend.
  cut (forall rest dn s σ, l = dn ++ rest -> Inv dn s σ -> wp (for_each rest body s) Q σ).
  { intros Hrest. by apply (Hrest l [] s σ). }
  clear s σ H0. induction rest as [|x rest IH]; intros dn s σ Hl Hs; simpl.
  - rewrite app_nil_r in Hl. subst. auto.
  - apply wp_bind. apply (Hstep dn x rest s σ Hl) in Hs. revert Hs. apply wp_mono.
    intros [s'|e|] σ'; auto. intros Hs'. apply (IH (dn ++ [x])); [|done].
    by rewrite <- app_assoc.
Qed.

(** The rule of transactions: an error of the callback leaves the state in
    which the transaction began; an error of the commit leaves that state or,
    if only the acknowledgement was lost, the state the callback reached. *)
Lemma wp_WithTx {A} (fn : prog A) (Q : res A -> St -> Prop) db :
  (forall e, faulty e -> Q (Err e) (db, None)) ->
  wp fn (fun r σ' =>
    σ'.2 = Some db /\
    match r with
    | Ok x => Q (Ok x) (σ'.1, None) /\ (forall e, faulty e -> Q (Err e) (σ'.1, None))
    | Err e => Q (Err e) (db, None)
    | Panicked => Q Panicked (db, None)
    end) (db, Some db) ->
  wp (WithTx fn) Q (db, None).
Proof.
  intros Hf Hfn. apply wp_bind, wp_try.
  split; [intros Hq f; apply Hf; split; auto|]. cbn [fst snd of_sum wp].
  apply wp_bind, wp_catch. revert Hfn. apply wp_mono.
  intros [x|e|] [db' saved]; cbn [fst snd]; intros [-> HQ]; [|exact HQ..].
  apply wp_bind, wp_try. destruct HQ as [HQ HQf].
  split; [exact HQ|]. intros Hq f.
  split; simpl; unfold wp_rollback; simpl; [apply Hf|apply HQf]; split; auto.
Qed.
End wp.

Arguments wp : simpl never.

(** ** Soundness *)

Section sound.
Context `{Env}.
Variable a : assm.

Definition respects_sql (w : World) : bool :=
  if quiet a then
    match fault (w_tick w) with
    | Some _ => false
    | None => undisturbed (w_db w) (stmt_ctx w)
    end
  else true.

(** The run of [p] from [w] meets the assumption: its clock readings satisfy
    [clock_ok], its random bytes [bytes_ok], and, if quiet, no call fails and no generated id collides. *)
Fixpoint respects {A} (p : prog A) (w : World) : bool :=
  match p with
  | Ret _ | Fail _ | Panic => true
  | Now k =>
      clock_ok a (wall_clock (w_tick w)) &&
      respects (k (wall_clock (w_tick w))) (next_world (w_db w) (w_saved w) w)
  | RandRead n k =>
      match rand_result n (rand_read (w_tick w) n) with inl _ => negb (quiet a) | inr bs => bytes_ok a bs end &&
      respects (k (rand_result n (rand_read (w_tick w) n))) (next_world (w_db w) (w_saved w) w)
  | Sql _ st k =>
      respects_sql w && let '(r, w') := step_sql st w in respects (k r) w'
  | Begin k =>
      (negb (quiet a) || match fault (w_tick w) with None => true | Some _ => false end) &&
      let '(r, w') := step_begin w in respects (k r) w'
  | Commit k =>
      (negb (quiet a) || match commit_outcome (w_tick w) with Acked => true | _ => false end) &&
      let '(r, w') := step_commit w in respects (k r) w'
  | Rollback k => respects k (step_rollback w)
  end.

Lemma wp_sound {A} (p : prog A) Q w :
  wp a p Q (st_of w) -> respects p w = true ->
  Q (run p w).1 (st_of (run p w).2).
Proof.
  revert w.
  induction p as [x|e| |k IH|n k IH|X lk st k IH|k IH|k IH|k IH]; intros w; simpl;
    try (intros HQ _; exact HQ).
  - intros Hk [Hc Hr]%andb_true_iff. apply IH; [apply (Hk _ Hc)|done].
  - intros [Hf Hk] [Hq Hr]%andb_true_iff.
    destruct (rand_read (w_tick w) n) as [text|bs]; simpl in *.
    + destruct (quiet a); [done|]. apply IH; [by apply Hf|done].
    + apply IH; [apply Hk; [apply length_rand_result|done]|done].
  - intros [Hf Hs] [Hq Hr]%andb_true_iff. unfold step_sql, respects_sql in *.
    destruct (fault (w_tick w)) as [f|].
    + destruct (quiet a); [done|]. apply IH; [by apply Hf|done].
    + specialize (Hs (stmt_ctx w) eq_refl).
      destruct (st (stmt_ctx w) (w_db w)) as [e|[x db']] eqn:Hst; simpl in Hs; rewrite Hst in Hs;
        (apply IH; [apply Hs; intros Hq'; by rewrite Hq' in Hq|done]).
  - intros [Hf Hs] [Hq Hr]%andb_true_iff. unfold step_begin in *.
    destruct (fault (w_tick w)) as [f|].
    + destruct (quiet a) eqn:Ha; [done|]. apply IH; [by apply Hf|done].
    + simpl in Hs. destruct (w_saved w) as [[db0 t]|] eqn:Hw; simpl in Hs;
        (apply IH; [|done]); unfold st_of in *; rewrite ?Hw in *; exact Hs.
  - intros Hs [Hq Hr]%andb_true_iff. unfold step_commit, wp_commit, st_of in *.
    destruct (w_saved w) as [[db0 t]|] eqn:Hw; simpl in Hs.
    + destruct Hs as [Hs Hf]. destruct (quiet a), (commit_outcome (w_tick w)) as [|f|f];
        try done; (apply IH; [|done]); try apply Hs; by apply (Hf eq_refl f).
    + apply IH; [|done]. exact Hs.
  - unfold step_rollback, wp_rollback, st_of. cbn [fst snd].
    destruct (w_saved w) as [[db0 t]|]; apply (IH (next_world _ None w)).
Qed.
End sound.

Lemma respects_adversary `{Env} {A} (p : prog A) w : respects adversary p w = true.
Proof.
  revert w. induction p as [x|e| |k IH|n k IH|X lk st k IH|k IH|k IH|k IH]; intros w; simpl; auto.
  - rewrite IH. by destruct (rand_result _ _).
  - destruct (step_sql st w). apply IH.
  - destruct (step_begin w). apply IH.
  - destruct (step_commit w). apply IH.
Qed.

(** What holds against the adversary holds in every environment. *)
Lemma wp_adversary `{Env} {A} (p : prog A) Q w :
  wp adversary p Q (st_of w) -> Q (run p w).1 (st_of (run p w).2).
Proof. intros Hp. eapply wp_sound; [exact Hp|apply respects_adversary]. Qed.

(** ** Runs *)

Lemma run_bind `{Env} {A B} (p : prog A) (f : A -> prog B) w :
  run (bind p f) w =
  match run p w with
  | (Ok x, w') => run (f x) w'
  | (Err e, w') => (Err e, w')
  | (Panicked, w') => (Panicked, w')
  end.
Proof.
  revert w. induction p as [x|e| |k IH|n k IH|X lk st k IH|k IH|k IH|k IH]; intros w; simpl; auto.
  - destruct (step_sql st w). apply IH.
  - destruct (step_begin w). apply IH.
  - destruct (step_commit w). apply IH.
Qed.

Lemma run_catch `{Env} {A} (p : prog A) w : run (catch p) w = (Ok (run p w).1, (run p w).2).
Proof.
  revert w. induction p as [x|e| |k IH|n k IH|X lk st k IH|k IH|k IH|k IH]; intros w; simpl; auto.
  - destruct (step_sql st w). apply IH.
  - destruct (step_begin w). apply IH.
  - destruct (step_commit w). apply IH.
Qed.

Lemma run_adversary_schema `{Env} {A} (p : prog A) Q w r w' :
  w_saved w = None -> wp adversary p Q (w_db w, None) -> run p w = (r, w') -> Q r (st_of w').
Proof.
  intros Hs Hp Hrun. assert (Hst : st_of w = (w_db w, None)) by (unfold st_of; by rewrite Hs).
  rewrite <- Hst in Hp. pose proof (wp_adversary p Q w Hp) as HQ. by rewrite Hrun in HQ.
Qed.

Lemma run_calm_schema `{Env} {A} a (p : prog A) Q w r w' :
  w_saved w = None -> wp a p Q (w_db w, None) -> respects a p w = true -> run p w = (r, w') ->
  Q r (st_of w').
Proof.
  intros Hs Hp Hresp Hrun. assert (Hst : st_of w = (w_db w, None)) by (unfold st_of; by rewrite Hs).
  rewrite <- Hst in Hp. pose proof (wp_sound a p Q w Hp Hresp) as HQ. by rewrite Hrun in HQ.
Qed.

(** An environment whose clock always satisfies [clock_ok] stays within an
    assumption that allows faults. *)
Lemma respects_clock `{Env} {A} a (p : prog A) w :
  quiet a = false -> (forall n, clock_ok a (wall_clock n) = true) -> (forall bs, bytes_ok a bs = true) ->
  respects a p w = true.
Proof.
  intros Hq Hc Hb. revert w.
  induction p as [x|e| |k IH|n k IH|X lk st k IH|k IH|k IH|k IH]; intros w; simpl; auto.
  - by rewrite Hc, IH.
  - rewrite IH. destruct (rand_result _ _); [by rewrite Hq|by rewrite Hb].
  - unfold respects_sql. rewrite Hq. destruct (step_sql st w). apply IH.
  - rewrite Hq. destruct (step_begin w). apply IH.
  - rewrite Hq. destruct (step_commit w). apply IH.
Qed.
