(* ===== verification/SqlcReservations.v ===== *)
(** * internal/sqlc/reservations.sql.go: the reservation statements

    One definition per generated query: the SQL text of its constant as a
    function on the tables, with the constraints PostgreSQL checks and the error
    it answers. A [:one] query with no row is pgx.ErrNoRows. The rows a statement
    locks are listed beside it ([X_locks]); SKIP LOCKED passes over the rows that
    [ctx_skip] says are locked by other transactions. Columns compared with
    [=] are NOT NULL, so equality of values is SQL equality; a key lookup with a
    NULL argument finds nothing because no row is stored under one. *)

From S2P Require Import Prelude GoRuntime DbTypes Schema Prog.
Local Open Scope string_scope.
Local Open Scope list_scope.
Local Open Scope Z_scope.

(** ** Helpers shared by the statements *)

Notation "'let?' x ':=' e 'in' q" :=
  (match e with inl err => inl err | inr x => q end)
  (at level 10, x name, q at level 200) : go_scope.

(** The single row of a [:one] query. *)
Definition one {X} (o : option X) : error + X :=
  match o with Some x => inr x | None => inl PgNoRows end.

(** A query that reads. *)
Definition reading {X} (f : Database -> error + X) : stmt X :=
  fun _ db => let? x := f db in inr (x, db).

(** The rows an UPDATE selects are changed, the others kept. *)
Definition update_where {V} (sel : V -> bool) (upd : V -> V) (m : gmap UUID V) : gmap UUID V :=
  (fun r => if sel r then upd r else r) <$> m.

(** INSERT: CHECK constraints first, then unique indexes (the primary key
    among them), then foreign keys. *)
Definition insert_row {V} (m : gmap UUID V) (id : UUID) (row : V)
    (check uniq fk : bool) : error + gmap UUID V :=
  if negb check then inl check_violation
  else match m !! id with
  | Some _ => inl unique_violation
  | None =>
      if negb uniq then inl unique_violation
      else if negb fk then inl foreign_key_violation
      else inr (<[id:=row]> m)
  end.

Definition has_row {V} (m : gmap UUID V) (id : UUID) : bool :=
  match m !! id with Some _ => true | None => false end.

Definition ts_le (a b : Timestamptz) : bool := TsValid a && TsValid b && (Time a <=? Time b).
Definition ts_lt (a b : Timestamptz) : bool := TsValid a && TsValid b && (Time a <? Time b).

(** seat_id of the rows the partial index uq_active_reservation_seat covers. *)
Definition active_seat_ids (m : gmap UUID ReservationSeat) : list UUID :=
  ReservationSeat_SeatID <$> List.filter active_seat (rows m).

Definition uq_active_reservation_seat (m : gmap UUID ReservationSeat) : bool :=
  bool_decide (NoDup (active_seat_ids m)).

(** ** Row types of the queries *)

Record TicketQuantityRow := MkTicketQuantityRow {
  TQ_ID : UUID; TQ_TotalQuantity : Z; TQ_SoldQuantity : Z; TQ_ReservedQuantity : Z }.

Record GetQuantityReservationByIdempotencyKeyRow := MkQuantityRow {
  QR_ReservationID : UUID; QR_Status : string; QR_ReservationType : string;
  QR_ExpiresAt : Timestamptz; QR_TicketTypeID : UUID; QR_Quantity : Z }.

Record GetSeatReservationByIdempotencyKeyRow := MkSeatRow {
  SR_ReservationID : UUID; SR_Status : string; SR_ReservationType : string;
  SR_ExpiresAt : Timestamptz; SR_SeatID : UUID }.

(** ** UPDATE ticket_types ... RETURNING *)

Definition ticket_row (t : TicketType) : TicketQuantityRow :=
  MkTicketQuantityRow (TicketType_ID t) (TicketType_TotalQuantity t)
    (TicketType_SoldQuantity t) (TicketType_ReservedQuantity t).

Definition with_counters (sold reserved : Z) (updated : Timestamptz) (t : TicketType) : TicketType :=
  MkTicketType (TicketType_ID t) (TicketType_EventID t) (TicketType_Name t)
    (TicketType_TotalQuantity t) sold reserved (TicketType_CreatedAt t) updated.

(** The row [ID], if [where_ok] holds of it, becomes [set] of it, provided the
    result satisfies the CHECK constraints. *)
Definition update_ticket_type (ID : UUID) (where_ok : TicketType -> error + bool)
    (set : TicketType -> error + TicketType) (db : Database)
    : error + TicketQuantityRow * Database :=
  match ticket_types db !! ID with
  | None => inl PgNoRows
  | Some t =>
      let? ok := where_ok t in
      if negb ok then inl PgNoRows else
      let? t' := set t in
      let? _ := ck_ticket_type t' in
      inr (ticket_row t', set_ticket_types (<[ID:=t']> (ticket_types db)) db)
  end.

Definition ReserveTicketQuantity (ID EventID : UUID) (ReservedQuantity : Z)
    : stmt TicketQuantityRow := fun _ db =>
  update_ticket_type ID
    (fun t =>
       let? unsold := int4 (TicketType_TotalQuantity t - TicketType_SoldQuantity t) in
       let? available := int4 (unsold - TicketType_ReservedQuantity t) in
       inr ((TicketType_EventID t ==? EventID) && (ReservedQuantity <=? available)))
    (fun t =>
       let? reserved := int4 (TicketType_ReservedQuantity t + ReservedQuantity) in
       inr (with_counters (TicketType_SoldQuantity t) reserved (TicketType_UpdatedAt t) t))
    db.

Definition ReleaseTicketQuantity (ID : UUID) (ReservedQuantity : Z)
    : stmt TicketQuantityRow := fun ctx db =>
  update_ticket_type ID
    (fun t => inr (ReservedQuantity <=? TicketType_ReservedQuantity t))
    (fun t =>
       let? reserved := int4 (TicketType_ReservedQuantity t - ReservedQuantity) in
       inr (with_counters (TicketType_SoldQuantity t) reserved (ctx_now ctx) t))
    db.

Definition ConfirmTicketQuantity (ID : UUID) (ReservedQuantity : Z)
    : stmt TicketQuantityRow := fun ctx db =>
  update_ticket_type ID
    (fun t => inr (ReservedQuantity <=? TicketType_ReservedQuantity t))
    (fun t =>
       let? reserved := int4 (TicketType_ReservedQuantity t - ReservedQuantity) in
       let? sold := int4 (TicketType_SoldQuantity t + ReservedQuantity) in
       inr (with_counters sold reserved (ctx_now ctx) t))
    db.

(** ** INSERT ... RETURNING *)

Section inserts.
Context `{Pgtype}.

Definition encode_ts (t : Timestamptz) : Timestamptz :=
  MkTs (timestamptz_encode (Time t)) (TsValid t).

(** The rows the three INSERTs build: the given columns, and defaults for id,
    created_at and updated_at. *)
Definition new_reservation (ctx : sctx) (EventID VisitorSessionID UserID : UUID)
    (Status ReservationType IdempotencyKey : string) (ExpiresAt : Timestamptz) : Reservation :=
  MkReservation (ctx_new_id ctx) EventID VisitorSessionID UserID Status
    ReservationType IdempotencyKey (encode_ts ExpiresAt) (ctx_now ctx) (ctx_now ctx).

Definition new_item (ctx : sctx) (ReservationID TicketTypeID : UUID) (Quantity : Z)
    (Status : string) : ReservationItem :=
  MkReservationItem (ctx_new_id ctx) ReservationID TicketTypeID Quantity Status
    (ctx_now ctx) (ctx_now ctx).

Definition new_seat (ctx : sctx) (ReservationID SeatID : UUID) (Status : string)
    (ExpiresAt : Timestamptz) : ReservationSeat :=
  MkReservationSeat (ctx_new_id ctx) ReservationID SeatID Status
    (encode_ts ExpiresAt) (ctx_now ctx) (ctx_now ctx).

(** uq_reservations_visitor_session_id_idempotency_key admits this key. *)
Definition session_key_free (VisitorSessionID : UUID) (IdempotencyKey : string)
    (m : gmap UUID Reservation) : bool :=
  negb (existsb (fun r => session_key r ==? (VisitorSessionID, IdempotencyKey)) (rows m)).

Definition CreateReservation (EventID VisitorSessionID UserID : UUID)
    (Status ReservationType IdempotencyKey : string) (ExpiresAt : Timestamptz)
    : stmt Reservation := fun ctx db =>
  let row := new_reservation ctx EventID VisitorSessionID UserID Status ReservationType
               IdempotencyKey ExpiresAt in
  let? m := insert_row (reservations db) (ctx_new_id ctx) row
    (ck_status Status && ck_reservation_type ReservationType)
    (session_key_free VisitorSessionID IdempotencyKey (reservations db))
    (has_row (events db) EventID && has_row (visitor_sessions db) VisitorSessionID &&
     (negb (Valid UserID) || has_row (users db) UserID)) in
  inr (row, set_reservations m db).

Definition CreateReservationItem (ReservationID TicketTypeID : UUID) (Quantity : Z)
    (Status : string) : stmt ReservationItem := fun ctx db =>
  let row := new_item ctx ReservationID TicketTypeID Quantity Status in
  let? m := insert_row (reservation_items db) (ctx_new_id ctx) row
    ((0 <? Quantity) && ck_status Status) true
    (has_row (reservations db) ReservationID && has_row (ticket_types db) TicketTypeID) in
  inr (row, set_reservation_items m db).

Definition CreateReservationSeat (ReservationID SeatID : UUID) (Status : string)
    (ExpiresAt : Timestamptz) : stmt ReservationSeat := fun ctx db =>
  let row := new_seat ctx ReservationID SeatID Status ExpiresAt in
  let? m := insert_row (reservation_seats db) (ctx_new_id ctx) row
    (ck_status Status)
    (negb (active_seat row) || bool_decide (SeatID ∉ active_seat_ids (reservation_seats db)))
    (has_row (reservations db) ReservationID && has_row (seats db) SeatID) in
  inr (row, set_reservation_seats m db).
End inserts.

(** ** UPDATE of statuses *)

Definition with_reservation_status (status : string) (updated : Timestamptz) (r : Reservation)
    : Reservation :=
  MkReservation (Reservation_ID r) (Reservation_EventID r) (Reservation_VisitorSessionID r)
    (Reservation_UserID r) status (Reservation_ReservationType r)
    (Reservation_IdempotencyKey r) (Reservation_ExpiresAt r) (Reservation_CreatedAt r) updated.

Definition with_item_status (status : string) (updated : Timestamptz) (i : ReservationItem)
    : ReservationItem :=
  MkReservationItem (ReservationItem_ID i) (ReservationItem_ReservationID i)
    (ReservationItem_TicketTypeID i) (ReservationItem_Quantity i) status
    (ReservationItem_CreatedAt i) updated.

Definition with_seat_status (status : string) (updated : Timestamptz) (s : ReservationSeat)
    : ReservationSeat :=
  MkReservationSeat (ReservationSeat_ID s) (ReservationSeat_ReservationID s)
    (ReservationSeat_SeatID s) status (ReservationSeat_ExpiresAt s)
    (ReservationSeat_CreatedAt s) updated.

Definition UpdateReservationStatus (ID : UUID) (Status : string) : stmt Reservation :=
  fun ctx db =>
  match reservations db !! ID with
  | None => inl PgNoRows
  | Some r =>
      if negb (ck_status Status) then inl check_violation else
      let r' := with_reservation_status Status (ctx_now ctx) r in
      inr (r', set_reservations (<[ID:=r']> (reservations db)) db)
  end.

Definition UpdateReservationItemsStatus (ReservationID : UUID) (Status Status_2 : string)
    : stmt unit := fun ctx db =>
  let sel i := (ReservationItem_ReservationID i ==? ReservationID) &&
               (ReservationItem_Status i ==? Status_2) in
  if existsb sel (rows (reservation_items db)) && negb (ck_status Status)
  then inl check_violation
  else inr (tt, set_reservation_items
    (update_where sel (with_item_status Status (ctx_now ctx)) (reservation_items db)) db).

(** The seat rows that [sel] selects get [Status]; the partial unique index is
    checked on the result. *)
Definition update_seat_rows (sel : ReservationSeat -> bool) (Status : string) : stmt unit :=
  fun ctx db =>
  let m := update_where sel (with_seat_status Status (ctx_now ctx)) (reservation_seats db) in
  if existsb sel (rows (reservation_seats db)) && negb (ck_status Status)
  then inl check_violation
  else if negb (uq_active_reservation_seat m) then inl unique_violation
  else inr (tt, set_reservation_seats m db).

Definition UpdateReservationSeatsStatus (ReservationID : UUID) (Status Status_2 : string)
    : stmt unit :=
  update_seat_rows (fun s => (ReservationSeat_ReservationID s ==? ReservationID) &&
                             (ReservationSeat_Status s ==? Status_2)) Status.

Definition ExpireReservationSeatsByReservationIDs (ids : list UUID) : stmt unit :=
  update_seat_rows (fun s => bool_decide (ReservationSeat_ReservationID s ∈ ids) &&
                             (ReservationSeat_Status s ==? StatusReserved)) StatusExpired.

Definition ExpireReservationsByIDs (ids : list UUID) : stmt unit := fun ctx db =>
  let sel r := bool_decide (Reservation_ID r ∈ ids) &&
               (Reservation_Status r ==? StatusReserved) in
  inr (tt, set_reservations
    (update_where sel (with_reservation_status StatusExpired (ctx_now ctx)) (reservations db)) db).

(** ** SELECT *)

Section selects.
Context `{Pgtype}.

Definition GetReservationByID (id : UUID) : stmt Reservation :=
  reading (fun db => one (reservations db !! id)).

(** Generated, but used by no service. *)
Definition GetReservationByIdempotencyKey (VisitorSessionID : UUID) (IdempotencyKey : string)
    : stmt Reservation :=
  reading (fun db => one (head (select
    (fun r => (Reservation_VisitorSessionID r ==? VisitorSessionID) &&
              (Reservation_IdempotencyKey r ==? IdempotencyKey))
    (by_key (fun r => uuid_bytes (Reservation_ID r))) (reservations db)))).

(** The constraint makes the key identify the row. *)
Lemma GetReservationByIdempotencyKey_unique ctx db rid r :
  schema_ok db -> reservations db !! rid = Some r ->
  GetReservationByIdempotencyKey (Reservation_VisitorSessionID r) (Reservation_IdempotencyKey r) ctx db = inr (r, db).
Proof.
  intros Hdb Hr. unfold GetReservationByIdempotencyKey, reading. set (l := select _ _ _).
  assert (Hl : forall x, x ∈ l <-> x = r).
  { intros x. unfold l. rewrite elem_of_select. split.
    - intros (k & Hk & Hx). to_prop.
      assert (k = rid) as ->; [|congruence].
      apply (reservations_unique _ Hdb k rid x r Hk Hr eq_refl eq_refl). unfold session_key. congruence.
    - intros ->. exists rid. split; [done|]. by rewrite !bool_decide_eq_true_2. }
  destruct l as [|x l']; [by specialize (proj2 (Hl r) eq_refl); intros ?%elem_of_nil|].
  simpl. by rewrite (proj1 (Hl x)) by left.
Qed.

Definition LockReservationForUpdate (id : UUID) : stmt Reservation :=
  reading (fun db => one (reservations db !! id)).

(** The reservation an item or a seat row is joined with, if it has this
    owner, key and type. *)
Definition join_key (db : Database) (VisitorSessionID : UUID) (IdempotencyKey type : string)
    (rid : UUID) : option Reservation :=
  match reservations db !! rid with
  | Some r =>
      if (Reservation_VisitorSessionID r ==? VisitorSessionID) &&
         (Reservation_IdempotencyKey r ==? IdempotencyKey) &&
         (Reservation_ReservationType r ==? type)
      then Some r else None
  | None => None
  end.

Definition is_Some_b {A} (o : option A) : bool :=
  match o with Some _ => true | None => false end.

Definition quantity_row (r : Reservation) (i : ReservationItem)
    : GetQuantityReservationByIdempotencyKeyRow :=
  MkQuantityRow (Reservation_ID r) (Reservation_Status r) (Reservation_ReservationType r)
    (Reservation_ExpiresAt r) (ReservationItem_TicketTypeID i) (ReservationItem_Quantity i).

Definition GetQuantityReservationByIdempotencyKey (VisitorSessionID : UUID)
    (IdempotencyKey : string) : stmt GetQuantityReservationByIdempotencyKeyRow :=
  reading (fun db =>
    let j i := join_key db VisitorSessionID IdempotencyKey ReservationTypeQuantity
                 (ReservationItem_ReservationID i) in
    let items := select (fun i => is_Some_b (j i))
                   (by_key (fun i => uuid_bytes (ReservationItem_ID i))) (reservation_items db) in
    one (head (omap (fun i => (fun r => quantity_row r i) <$> j i) items))).

Definition seat_row (r : Reservation) (s : ReservationSeat)
    : GetSeatReservationByIdempotencyKeyRow :=
  MkSeatRow (Reservation_ID r) (Reservation_Status r) (Reservation_ReservationType r)
    (Reservation_ExpiresAt r) (ReservationSeat_SeatID s).

Definition GetSeatReservationByIdempotencyKey (VisitorSessionID : UUID)
    (IdempotencyKey : string) : stmt (list GetSeatReservationByIdempotencyKeyRow) :=
  reading (fun db =>
    let j s := join_key db VisitorSessionID IdempotencyKey ReservationTypeSeats
                 (ReservationSeat_ReservationID s) in
    let srows := select (fun s => is_Some_b (j s))
                   (by_key (fun s => uuid_bytes (ReservationSeat_SeatID s)))
                   (reservation_seats db) in
    inr (omap (fun s => (fun r => seat_row r s) <$> j s) srows)).

Definition ListReservationItems (ReservationID : UUID) : stmt (list ReservationItem) :=
  reading (fun db => inr (select
    (fun i => ReservationItem_ReservationID i ==? ReservationID)
    (by_key (fun i => uuid_bytes (ReservationItem_TicketTypeID i) ++
                      uuid_bytes (ReservationItem_ID i)))
    (reservation_items db))).

Definition ListReservationSeats (ReservationID : UUID) : stmt (list ReservationSeat) :=
  reading (fun db => inr (select
    (fun s => ReservationSeat_ReservationID s ==? ReservationID)
    (by_key (fun s => uuid_bytes (ReservationSeat_SeatID s) ++
                      uuid_bytes (ReservationSeat_ID s)))
    (reservation_seats db))).

Definition LockEventSeats (EventID : UUID) (ids : list UUID) : stmt (list UUID) :=
  reading (fun db => inr (Seat_ID <$> select
    (fun s => (Seat_EventID s ==? EventID) && bool_decide (Seat_ID s ∈ ids))
    (by_key (fun s => uuid_bytes (Seat_ID s)))
    (seats db))).

Definition LockReservationsByID (ids : list UUID) : stmt (list UUID) :=
  reading (fun db => inr (Reservation_ID <$> select
    (fun r => bool_decide (Reservation_ID r ∈ ids))
    (by_key (fun r => uuid_bytes (Reservation_ID r)))
    (reservations db))).

Definition ListExpiredActiveReservationIDsForSeats (seatIDs : list UUID)
    (ExpiresAt : Timestamptz) : stmt (list UUID) :=
  reading (fun db => inr (merge_sort uuid_le (remove_dups (ReservationSeat_ReservationID <$>
    List.filter (fun s => bool_decide (ReservationSeat_SeatID s ∈ seatIDs) &&
                          (ReservationSeat_Status s ==? StatusReserved) &&
                          ts_le (ReservationSeat_ExpiresAt s) (encode_ts ExpiresAt))
      (rows (reservation_seats db)))))).

(** ORDER BY expires_at, id *)
Definition expiry_leb (r s : Reservation) : bool :=
  (Time (Reservation_ExpiresAt r) <? Time (Reservation_ExpiresAt s)) ||
  ((Time (Reservation_ExpiresAt r) =? Time (Reservation_ExpiresAt s)) &&
   uuid_leb (Reservation_ID r) (Reservation_ID s)).
Definition expiry_le : relation Reservation := fun r s => expiry_leb r s = true.

#[export] Instance expiry_le_dec : RelDecision expiry_le.
Proof. intros r s. unfold expiry_le. apply _. Defined.

Definition overdue (ExpiresAt : Timestamptz) (r : Reservation) : bool :=
  (Reservation_Status r ==? StatusReserved) &&
  ts_lt (Reservation_ExpiresAt r) (encode_ts ExpiresAt).

(** FOR UPDATE SKIP LOCKED: the LIMIT counts the rows that are not locked. *)
Definition ListExpiredReservationsForUpdate (ExpiresAt : Timestamptz) (Limit : Z)
    : stmt (list Reservation) := fun ctx =>
  reading (fun db => inr (take (Z.to_nat Limit)
    (select (fun r => overdue ExpiresAt r && bool_decide (Reservation_ID r ∉ ctx_skip ctx))
       expiry_le (reservations db)))) ctx.
End selects.

(** ** The rows the statements lock *)

(** UPDATE ticket_types ... WHERE id = $1 *)
Definition locks_ticket (row : TicketQuantityRow) : list row_lock := [LockTicketType (TQ_ID row)].

(** LockReservationForUpdate and UpdateReservationStatus *)
Definition locks_reservation (r : Reservation) : list row_lock := [LockReservation (Reservation_ID r)].

(** LockEventSeats *)
Definition locks_seats (ids : list UUID) : list row_lock := LockSeat <$> ids.

(** LockReservationsByID *)
Definition locks_ids (ids : list UUID) : list row_lock := LockReservation <$> ids.

(** ListExpiredReservationsForUpdate *)
Definition locks_listed (l : list Reservation) : list row_lock :=
  (fun r => LockReservation (Reservation_ID r)) <$> l.

(** ** What the statements do on a database that satisfies its constraints

    Each lemma [X_ok] characterises the outcomes of the statement [X]: the rows
    it changes, the errors it can answer, and that the constraints still hold. *)

Ltac schema_tac :=
  match goal with H : schema_ok _ |- schema_ok _ => destruct H end;
  constructor; simpl; eauto 3 with schema.

Lemma has_row_spec {V} (m : gmap UUID V) id : has_row m id = true <-> is_Some (m !! id).
Proof. unfold has_row. destruct (m !! id); split; intros Hx; done. Qed.

Lemma int4_in z : int32_range z = true -> int4 z = inr z.
Proof. unfold int4. by intros ->. Qed.

Lemma int32_range_spec z : int32_range z = true <-> - 2 ^ 31 <= z <= 2 ^ 31 - 1.
Proof. unfold int32_range, int32_min, int32_max. rewrite andb_true_iff, !Z.leb_le. done. Qed.

(** The arithmetic of a row that satisfies its constraints stays in range. *)
Lemma ticket_bounds db k t :
  schema_ok db -> ticket_types db !! k = Some t ->
  0 <= TicketType_SoldQuantity t /\ 0 <= TicketType_ReservedQuantity t /\
  TicketType_SoldQuantity t + TicketType_ReservedQuantity t <= TicketType_TotalQuantity t /\
  TicketType_TotalQuantity t <= 2 ^ 31 - 1 /\ TicketType_ID t = k.
Proof.
  intros Hdb Hk. pose proof (tickets_int4 _ Hdb k t Hk) as HT.
  pose proof (tickets_check _ Hdb k t Hk) as HC. simpl in *.
  apply (ck_ticket_type_spec t HT) in HC. apply int32_range_spec in HT.
  pose proof (tickets_keyed _ Hdb k t Hk) as [HID _]. repeat split; lia || done.
Qed.

Lemma set_counters_schema db k t sold reserved ts :
  schema_ok db -> ticket_types db !! k = Some t ->
  0 <= sold -> 0 <= reserved -> sold + reserved <= TicketType_TotalQuantity t ->
  ck_ticket_type (with_counters sold reserved ts t) = inr tt /\
  schema_ok (set_ticket_types (<[k:=with_counters sold reserved ts t]> (ticket_types db)) db).
Proof.
  intros Hdb Hk Hs Hr Ht.
  pose proof (tickets_int4 _ Hdb k t Hk) as HT. simpl in HT.
  assert (HC : ck_ticket_type (with_counters sold reserved ts t) = inr tt)
    by (by apply ck_ticket_type_spec).
  split; [done|].
  pose proof (tickets_keyed _ Hdb k t Hk) as [HID HV].
  pose proof (tickets_event _ Hdb k t Hk) as HE.
  schema_tac.
Qed.

(** The guarded UPDATE of ReserveTicketQuantity: it takes [q] units exactly when
    the ticket type belongs to the event and has [q] unallocated units, and
    otherwise finds no row. No other outcome exists, overflow included. *)
Lemma ReserveTicketQuantity_ok ctx db id ev q :
  schema_ok db -> 0 < q ->
  match ReserveTicketQuantity id ev q ctx db with
  | inl e =>
      e = PgNoRows /\
      forall t, ticket_types db !! id = Some t -> TicketType_EventID t = ev ->
        TicketType_TotalQuantity t - TicketType_SoldQuantity t -
          TicketType_ReservedQuantity t < q
  | inr (_, db') => exists t,
      ticket_types db !! id = Some t /\ TicketType_EventID t = ev /\
      q <= TicketType_TotalQuantity t - TicketType_SoldQuantity t - TicketType_ReservedQuantity t /\
      db' = set_ticket_types (<[id:=with_counters (TicketType_SoldQuantity t)
        (TicketType_ReservedQuantity t + q) (TicketType_UpdatedAt t) t]> (ticket_types db)) db /\
      schema_ok db'
  end.
Proof.
  intros Hdb Hq. unfold ReserveTicketQuantity, update_ticket_type.
  destruct (ticket_types db !! id) as [t|] eqn:Ht; [|done].
  pose proof (ticket_bounds db id t Hdb Ht).
  rewrite (int4_in (_ - TicketType_SoldQuantity t)) by (apply int32_range_spec; lia).
  rewrite int4_in by (apply int32_range_spec; lia).
  destruct ((TicketType_EventID t ==? ev) && _) eqn:Hok; simpl; to_prop.
  - rewrite int4_in by (apply int32_range_spec; lia).
    destruct (set_counters_schema db id t (TicketType_SoldQuantity t)
      (TicketType_ReservedQuantity t + q) (TicketType_UpdatedAt t)) as [-> ?]; try lia; try done.
    exists t. split_and!; auto; lia.
  - split; [done|]. intros t' [= <-] Hev. apply andb_false_iff in Hok as [Hok|Hok]; to_prop; [done|lia].
Qed.

Lemma ReleaseTicketQuantity_ok ctx db id q :
  schema_ok db -> 0 < q ->
  match ReleaseTicketQuantity id q ctx db with
  | inl e =>
      e = PgNoRows /\
      forall t, ticket_types db !! id = Some t -> TicketType_ReservedQuantity t < q
  | inr (_, db') => exists t,
      ticket_types db !! id = Some t /\ q <= TicketType_ReservedQuantity t /\
      db' = set_ticket_types (<[id:=with_counters (TicketType_SoldQuantity t)
        (TicketType_ReservedQuantity t - q) (ctx_now ctx) t]> (ticket_types db)) db /\
      schema_ok db'
  end.
Proof.
  intros Hdb Hq. unfold ReleaseTicketQuantity, update_ticket_type.
  destruct (ticket_types db !! id) as [t|] eqn:Ht; [|done].
  pose proof (ticket_bounds db id t Hdb Ht).
  destruct (q <=? _) eqn:Hok; simpl; to_prop; [|split; [done|by intros t' [= <-]]].
  rewrite int4_in by (apply int32_range_spec; lia).
  destruct (set_counters_schema db id t (TicketType_SoldQuantity t)
    (TicketType_ReservedQuantity t - q) (ctx_now ctx)) as [-> ?]; try lia; try done.
  exists t. auto.
Qed.

Lemma ConfirmTicketQuantity_ok ctx db id q :
  schema_ok db -> 0 < q ->
  match ConfirmTicketQuantity id q ctx db with
  | inl e =>
      e = PgNoRows /\
      forall t, ticket_types db !! id = Some t -> TicketType_ReservedQuantity t < q
  | inr (_, db') => exists t,
      ticket_types db !! id = Some t /\ q <= TicketType_ReservedQuantity t /\
      db' = set_ticket_types (<[id:=with_counters (TicketType_SoldQuantity t + q)
        (TicketType_ReservedQuantity t - q) (ctx_now ctx) t]> (ticket_types db)) db /\
      schema_ok db'
  end.
Proof.
  intros Hdb Hq. unfold ConfirmTicketQuantity, update_ticket_type.
  destruct (ticket_types db !! id) as [t|] eqn:Ht; [|done].
  pose proof (ticket_bounds db id t Hdb Ht).
  destruct (q <=? _) eqn:Hok; simpl; to_prop; [|split; [done|by intros t' [= <-]]].
  rewrite !int4_in by (apply int32_range_spec; lia).
  destruct (set_counters_schema db id t (TicketType_SoldQuantity t + q)
    (TicketType_ReservedQuantity t - q) (ctx_now ctx)) as [-> ?]; try lia; try done.
  exists t. auto.
Qed.

(** *** INSERT *)

Lemma insert_row_ok {V} (m : gmap UUID V) id row check uniq fk :
  match insert_row m id row check uniq fk with
  | inl e =>
      (check = false /\ e = check_violation) \/
      (e = unique_violation /\ (is_Some (m !! id) \/ uniq = false)) \/
      (fk = false /\ e = foreign_key_violation)
  | inr m' => m !! id = None /\ check = true /\ uniq = true /\ fk = true /\ m' = <[id:=row]> m
  end.
Proof.
  unfold insert_row. destruct check; simpl; [|auto].
  destruct (m !! id) as [r|] eqn:Hm; [right; left; eauto|].
  destruct uniq; simpl; [|right; left; auto]. destruct fk; simpl; auto 6.
Qed.

Lemma session_key_free_spec sid key m :
  session_key_free sid key m = true <->
  forall k r, m !! k = Some r -> session_key r <> (sid, key).
Proof.
  unfold session_key_free. rewrite negb_true_iff. split.
  - intros Hf k r Hk Heq. apply not_true_iff_false in Hf. apply Hf.
    apply existsb_exists. exists r. split; [|by apply bool_decide_eq_true].
    apply list_elem_of_In, elem_of_rows. eauto.
  - intros Hf. apply not_true_iff_false. intros (r & Hr & Heq)%existsb_exists.
    apply list_elem_of_In, elem_of_rows in Hr as [k Hk]. to_prop. by apply (Hf k r).
Qed.

Lemma active_seat_ids_spec m x :
  x ∈ active_seat_ids m <->
  exists k s, m !! k = Some s /\ active_seat s = true /\ ReservationSeat_SeatID s = x.
Proof.
  unfold active_seat_ids. rewrite list_elem_of_fmap. split.
  - intros (s & -> & Hs). apply list_elem_of_In, filter_In in Hs as [Hs Ha].
    apply list_elem_of_In, elem_of_rows in Hs as [k Hk]. eauto.
  - intros (k & s & Hk & Ha & <-). exists s. split; [done|].
    apply list_elem_of_In, filter_In. split; [|done].
    apply list_elem_of_In, elem_of_rows. eauto.
Qed.

Section insert_specs.
Context `{Pgtype}.

Lemma CreateReservation_ok ctx db ev sid uid st ty key exp :
  schema_ok db -> Valid (ctx_new_id ctx) = true ->
  ck_status st = true -> ck_reservation_type ty = true ->
  match CreateReservation ev sid uid st ty key exp ctx db with
  | inl e =>
      (e = unique_violation /\
       (is_Some (reservations db !! ctx_new_id ctx) \/
        session_key_free sid key (reservations db) = false)) \/
      (e = foreign_key_violation /\
       (has_row (events db) ev && has_row (visitor_sessions db) sid &&
        (negb (Valid uid) || has_row (users db) uid)) = false)
  | inr (row, db') =>
      row = new_reservation ctx ev sid uid st ty key exp /\
      reservations db !! ctx_new_id ctx = None /\
      session_key_free sid key (reservations db) = true /\
      db' = set_reservations (<[ctx_new_id ctx:=row]> (reservations db)) db /\
      schema_ok db'
  end.
Proof.
  intros Hdb Hv Hst Hty. unfold CreateReservation.
  pose proof (insert_row_ok (reservations db) (ctx_new_id ctx)
    (new_reservation ctx ev sid uid st ty key exp)
    (ck_status st && ck_reservation_type ty)
    (session_key_free sid key (reservations db))
    (has_row (events db) ev && has_row (visitor_sessions db) sid &&
     (negb (Valid uid) || has_row (users db) uid))) as Hins.
  rewrite Hst, Hty in *. simpl in Hins |- *.
  destruct (insert_row _ _ _ _ _ _) as [e|m].
  { destruct Hins as [[??]|[[-> [Hi|Hi]]|[Hi ->]]]; [done|auto..]. }
  destruct Hins as (Hnone & _ & Hkey & Hfk & ->). split_and!; auto.
  pose proof (proj1 (session_key_free_spec _ _ _) Hkey) as Hk.
  to_prop. apply has_row_spec in H0, H2.
  assert (Hu : Valid uid = true -> is_Some (users db !! uid)).
  { intros HV. rewrite HV in H1. by apply has_row_spec. }
  schema_tac. apply unique_insert; eauto.
Qed.

Lemma CreateReservationItem_ok ctx db rid tt q st :
  schema_ok db -> Valid (ctx_new_id ctx) = true ->
  ck_status st = true -> 0 < q ->
  is_Some (reservations db !! rid) -> is_Some (ticket_types db !! tt) ->
  match CreateReservationItem rid tt q st ctx db with
  | inl e => e = unique_violation /\ is_Some (reservation_items db !! ctx_new_id ctx)
  | inr (row, db') =>
      row = new_item ctx rid tt q st /\
      reservation_items db !! ctx_new_id ctx = None /\
      db' = set_reservation_items (<[ctx_new_id ctx:=row]> (reservation_items db)) db /\
      schema_ok db'
  end.
Proof.
  intros Hdb Hv Hst Hq Hr Ht. unfold CreateReservationItem.
  pose proof (proj2 (has_row_spec _ _) Hr) as Hr'. pose proof (proj2 (has_row_spec _ _) Ht) as Ht'.
  assert (Hq' : (0 <? q) = true) by (by apply Z.ltb_lt).
  pose proof (insert_row_ok (reservation_items db) (ctx_new_id ctx) (new_item ctx rid tt q st)
    true true true) as Hins.
  rewrite Hst, Hq', Hr', Ht'. simpl. destruct (insert_row _ _ _ _ _ _) as [e|m].
  { destruct Hins as [[??]|[[-> [Hi|Hi]]|[Hi ->]]]; done. }
  destruct Hins as (Hnone & _ & _ & _ & ->). split_and!; auto. schema_tac.
Qed.

(** Inserting an active seat row: refused exactly when the seat is held (or
    the generated id is taken), by the partial unique index. *)
Lemma CreateReservationSeat_ok ctx db rid seat st exp :
  schema_ok db -> Valid (ctx_new_id ctx) = true ->
  active_status st = true ->
  is_Some (reservations db !! rid) -> is_Some (seats db !! seat) ->
  match CreateReservationSeat rid seat st exp ctx db with
  | inl e =>
      e = unique_violation /\
      (is_Some (reservation_seats db !! ctx_new_id ctx) \/
       seat ∈ active_seat_ids (reservation_seats db))
  | inr (row, db') =>
      row = new_seat ctx rid seat st exp /\
      reservation_seats db !! ctx_new_id ctx = None /\
      (seat ∉ active_seat_ids (reservation_seats db)) /\
      db' = set_reservation_seats (<[ctx_new_id ctx:=row]> (reservation_seats db)) db /\
      schema_ok db'
  end.
Proof.
  intros Hdb Hv Hst Hr Hs. unfold CreateReservationSeat.
  pose proof (proj2 (has_row_spec _ _) Hr) as Hr'. pose proof (proj2 (has_row_spec _ _) Hs) as Hs'.
  assert (Hck : ck_status st = true).
  { unfold active_status in Hst. unfold ck_status.
    apply orb_true_iff in Hst as [->| ->]; [done|]. by rewrite orb_true_r. }
  assert (Hact : active_seat (new_seat ctx rid seat st exp) = true) by done.
  pose proof (insert_row_ok (reservation_seats db) (ctx_new_id ctx)
    (new_seat ctx rid seat st exp) true
    (bool_decide (seat ∉ active_seat_ids (reservation_seats db))) true) as Hins.
  rewrite Hck, Hr', Hs', Hact. simpl. destruct (insert_row _ _ _ _ _ _) as [e|m].
  { destruct Hins as [[??]|[[-> [Hi|Hi]]|[Hi ->]]]; try done; [auto|].
    split; [done|]. right. apply bool_decide_eq_false in Hi. by apply dec_stable. }
  destruct Hins as (Hnone & _ & Huniq & _ & ->). to_prop. split_and!; auto.
  schema_tac. apply unique_insert; [done|]. intros j s _ Hj Ha _ Heq. simpl in Heq.
  apply Huniq, active_seat_ids_spec. eauto.
Qed.
End insert_specs.

(** *** UPDATE of statuses *)

Lemma update_where_lookup {V} (sel : V -> bool) upd (m : gmap UUID V) k r' :
  update_where sel upd m !! k = Some r' <->
  exists r, m !! k = Some r /\ r' = if sel r then upd r else r.
Proof.
  unfold update_where. rewrite lookup_fmap, fmap_Some. split; intros (r & ? & ->); eauto.
Qed.

Lemma unique_NoDup m :
  unique active_seat ReservationSeat_SeatID m -> NoDup (active_seat_ids m).
Proof.
  induction m as [|k x m Hk IH] using map_ind; intros Hu.
  - unfold active_seat_ids, rows. rewrite map_to_list_empty. constructor.
  - assert (Hm : unique active_seat ReservationSeat_SeatID m).
    { intros i j r s Hi Hj. apply Hu; rewrite lookup_insert_ne; try done; intros <-; congruence. }
    unfold active_seat_ids. rewrite (rows_insert m k x Hk). cbn [List.filter].
    destruct (active_seat x) eqn:Ha; [|by apply IH].
    rewrite fmap_cons. apply NoDup_cons. split; [|by apply IH].
    intros (j & s & Hj & Hs & Heq)%active_seat_ids_spec.
    assert (k <> j) by (intros ->; congruence).
    assert (j = k); [|done].
    apply (Hu j k s x); [by rewrite lookup_insert_ne|apply lookup_insert_eq|done..].
Qed.

Lemma UpdateReservationStatus_ok ctx db id st :
  schema_ok db -> ck_status st = true ->
  match UpdateReservationStatus id st ctx db with
  | inl e => e = PgNoRows /\ reservations db !! id = None
  | inr (r', db') => exists r,
      reservations db !! id = Some r /\
      r' = with_reservation_status st (ctx_now ctx) r /\
      db' = set_reservations (<[id:=r']> (reservations db)) db /\ schema_ok db'
  end.
Proof.
  intros Hdb Hst. unfold UpdateReservationStatus. rewrite Hst. simpl.
  destruct (reservations db !! id) as [r|] eqn:Hr; [|done].
  exists r. split_and!; auto.
  pose proof (reservations_keyed _ Hdb id r Hr) as [HID HV].
  pose proof (reservations_event _ Hdb id r Hr). pose proof (reservations_session _ Hdb id r Hr).
  pose proof (reservations_user _ Hdb id r Hr). pose proof (reservations_type _ Hdb id r Hr).
  schema_tac.
Qed.

Lemma UpdateReservationItemsStatus_ok ctx db rid st st2 :
  schema_ok db -> ck_status st = true ->
  let db' := set_reservation_items
    (update_where (fun i => (ReservationItem_ReservationID i ==? rid) &&
                            (ReservationItem_Status i ==? st2))
       (with_item_status st (ctx_now ctx)) (reservation_items db)) db in
  UpdateReservationItemsStatus rid st st2 ctx db = inr (tt, db') /\ schema_ok db'.
Proof.
  intros Hdb Hst db'. unfold UpdateReservationItemsStatus. rewrite Hst, andb_false_r.
  split; [done|]. subst db'. destruct Hdb; constructor; simpl; auto.
  - apply keyed_fmap; [done|]. intros r. by destruct (_ && _).
  - apply refers_fmap; [done|]. intros r. by destruct (_ && _).
  - apply refers_fmap; [done|]. intros r. by destruct (_ && _).
  - apply all_rows_fmap; [done|]. intros r. by destruct (_ && _).
  - apply all_rows_fmap; [done|]. intros r. by destruct (_ && _).
Qed.

(** Rows leaving or changing their active status never break the index. *)
Lemma update_seat_rows_ok ctx db sel st :
  schema_ok db -> ck_status st = true ->
  (forall s, sel s = true -> active_seat s = true) ->
  let db' := set_reservation_seats
    (update_where sel (with_seat_status st (ctx_now ctx)) (reservation_seats db)) db in
  update_seat_rows sel st ctx db = inr (tt, db') /\ schema_ok db'.
Proof.
  intros Hdb Hst Hsel db'. unfold update_seat_rows.
  rewrite Hst, andb_false_r.
  assert (Hu : unique active_seat ReservationSeat_SeatID
    (update_where sel (with_seat_status st (ctx_now ctx)) (reservation_seats db))).
  { apply unique_fmap; [apply rseats_unique, Hdb| |].
    - intros r. by destruct (sel r).
    - intros r. destruct (sel r) eqn:E; [|done]. intros _. by apply Hsel. }
  unfold uq_active_reservation_seat. rewrite bool_decide_eq_true_2 by (by apply unique_NoDup).
  split; [done|]. subst db'. destruct Hdb; constructor; simpl; auto.
  - apply keyed_fmap; [done|]. intros r. by destruct (sel r).
  - apply refers_fmap; [done|]. intros r. by destruct (sel r).
  - apply refers_fmap; [done|]. intros r. by destruct (sel r).
  - apply all_rows_fmap; [done|]. intros r. by destruct (sel r).
Qed.

Lemma ExpireReservationsByIDs_ok ctx db ids :
  schema_ok db ->
  let db' := set_reservations
    (update_where (fun r => bool_decide (Reservation_ID r ∈ ids) &&
                            (Reservation_Status r ==? StatusReserved))
       (with_reservation_status StatusExpired (ctx_now ctx)) (reservations db)) db in
  ExpireReservationsByIDs ids ctx db = inr (tt, db') /\ schema_ok db'.
Proof.
  intros Hdb db'. split; [done|]. subst db'. destruct Hdb; constructor; simpl; auto.
  - apply keyed_fmap; [done|]. intros r. by destruct (_ && _).
  - apply refers_fmap; [done|]. intros r. by destruct (_ && _).
  - apply refers_fmap; [done|]. intros r. by destruct (_ && _).
  - apply refers_opt_fmap; [done|]. intros r. by destruct (_ && _).
  - apply all_rows_fmap; [done|]. intros r. by destruct (_ && _).
  - apply all_rows_fmap; [done|]. intros r. by destruct (_ && _).
  - apply unique_fmap; [done| |done]. intros r. by destruct (_ && _).
  - by apply refers_target_fmap.
  - by apply refers_target_fmap.
Qed.
