(* ===== verification/ReservationService.v ===== *)
(** * internal/modules/reservations: requests, responses and the service

    The data of dto.go, the functions of service.go and repository.go, one
    definition per Go function, with the same guards, early returns and error
    wrapping. A Go function that returns (T, error) is a [prog T] whose [Fail]
    is the non-nil error; the two lifecycle operations, which can return a
    response together with an error, return the pair. *)

From S2P Require Import Prelude GoRuntime DbTypes Schema Prog SqlcReservations.
Local Open Scope string_scope.
Local Open Scope list_scope.
Local Open Scope Z_scope.

(** ** dto.go *)

Record QuantityReservationRequest := MkQuantityReservationRequest {
  QReq_EventID : string; QReq_TicketTypeID : string; QReq_Quantity : Z;
  QReq_IdempotencyKey : string }.

Record QuantityReservationItemResponse := MkQuantityItemResponse {
  QItem_TicketTypeID : string; QItem_Quantity : Z }.

Record QuantityReservationResponse := MkQuantityReservationResponse {
  QResp_ReservationID : string; QResp_Status : string; QResp_ReservationType : string;
  QResp_ExpiresAt : Z; QResp_Items : list QuantityReservationItemResponse }.

Record SeatReservationRequest := MkSeatReservationRequest {
  SReq_EventID : string; SReq_SeatIDs : list string; SReq_IdempotencyKey : string }.

Record SeatReservationItemResponse := MkSeatItemResponse { SItem_SeatID : string }.

Record SeatReservationResponse := MkSeatReservationResponse {
  SResp_ReservationID : string; SResp_Status : string; SResp_ReservationType : string;
  SResp_ExpiresAt : Z; SResp_Seats : list SeatReservationItemResponse }.

Record ReservationItemDetailResponse := MkItemDetail {
  IDet_TicketTypeID : string; IDet_Quantity : Z; IDet_Status : string }.

Record ReservationSeatDetailResponse := MkSeatDetail { SDet_SeatID : string; SDet_Status : string }.

Record ReservationResponse := MkReservationResponse {
  RResp_ReservationID : string; RResp_Status : string; RResp_ReservationType : string;
  RResp_ExpiresAt : Z; RResp_Items : list ReservationItemDetailResponse;
  RResp_Seats : list ReservationSeatDetailResponse }.

(** ** Conversions of rows to responses *)

Definition quantityReservationToResponse (reservation : Reservation) (item : ReservationItem)
    : QuantityReservationResponse :=
  MkQuantityReservationResponse (UUIDToString (Reservation_ID reservation))
    (Reservation_Status reservation) (Reservation_ReservationType reservation)
    (TimestamptzToTime (Reservation_ExpiresAt reservation))
    [MkQuantityItemResponse (UUIDToString (ReservationItem_TicketTypeID item))
       (ReservationItem_Quantity item)].

Definition quantityRowToResponse (row : GetQuantityReservationByIdempotencyKeyRow)
    : QuantityReservationResponse :=
  MkQuantityReservationResponse (UUIDToString (QR_ReservationID row))
    (QR_Status row) (QR_ReservationType row) (TimestamptzToTime (QR_ExpiresAt row))
    [MkQuantityItemResponse (UUIDToString (QR_TicketTypeID row)) (QR_Quantity row)].

Definition seatReservationToResponse (reservation : Reservation) (seats : list ReservationSeat)
    : SeatReservationResponse :=
  MkSeatReservationResponse (UUIDToString (Reservation_ID reservation))
    (Reservation_Status reservation) (Reservation_ReservationType reservation)
    (TimestamptzToTime (Reservation_ExpiresAt reservation))
    ((fun seat => MkSeatItemResponse (UUIDToString (ReservationSeat_SeatID seat))) <$> seats).

(** rows[0] panics on an empty slice. *)
Definition seatRowsToResponse (srows : list GetSeatReservationByIdempotencyKeyRow)
    : res SeatReservationResponse :=
  match srows with
  | [] => Panicked
  | row0 :: _ => Ok (MkSeatReservationResponse (UUIDToString (SR_ReservationID row0))
      (SR_Status row0) (SR_ReservationType row0) (TimestamptzToTime (SR_ExpiresAt row0))
      ((fun row => MkSeatItemResponse (UUIDToString (SR_SeatID row))) <$> srows))
  end.

(** ** Predicates *)

Definition sameUUID (left right : UUID) : bool :=
  Valid left && Valid right && (Bytes left ==? Bytes right).

Definition canAccessReservation (reservation : Reservation) (visitorSession : VisitorSession)
    : bool :=
  if sameUUID (Reservation_VisitorSessionID reservation) (VisitorSession_ID visitorSession)
  then true
  else Valid (Reservation_UserID reservation) && Valid (VisitorSession_UserID visitorSession) &&
       sameUUID (Reservation_UserID reservation) (VisitorSession_UserID visitorSession).

Definition reservationExpired (reservation : Reservation) (now : Z) : bool :=
  TsValid (Reservation_ExpiresAt reservation) &&
  negb (now <? Time (Reservation_ExpiresAt reservation)).

(** The loop over [right] looks every key up in the set built from [left]. *)
Definition sameUUIDSet (left right : list UUID) : bool :=
  if negb (length left =? length right)%nat then false
  else
    let leftKeys : gset string := list_to_set (UUIDToString <$> left) in
    forallb (fun id => bool_decide (UUIDToString id ∈ leftKeys)) right.

Section parse.
Context `{Pgtype}.

Definition parse_or {A} (s : sentinel) (value : string) (k : UUID -> res A) : res A :=
  match ParseUUID value with
  | Ok id => k id
  | _ => Err (Sentinel s)
  end.

Definition parseQuantityInput (input : QuantityReservationRequest) : res (UUID * UUID) :=
  if (QReq_Quantity input <=? 0) || (TrimSpace (QReq_IdempotencyKey input) ==? "")
  then Err (Sentinel ErrInvalidQuantityReservation)
  else
    parse_or ErrInvalidQuantityReservation (QReq_EventID input) (fun eventID =>
    parse_or ErrInvalidQuantityReservation (QReq_TicketTypeID input) (fun ticketTypeID =>
    Ok (eventID, ticketTypeID))).

(** The loop of parseSeatInput: [seen] holds the textual forms met so far. *)
Fixpoint parseSeatIDs (raw : list string) (seen : gset string) (seatIDs : list UUID)
    : res (list UUID) :=
  match raw with
  | [] => Ok seatIDs
  | rawSeatID :: raw' =>
      parse_or ErrInvalidSeatReservation (TrimSpace rawSeatID) (fun seatID =>
        let key := UUIDToString seatID in
        if bool_decide (key ∈ seen) then Err (Sentinel ErrInvalidSeatReservation)
        else parseSeatIDs raw' ({[key]} ∪ seen) (seatIDs ++ [seatID]))
  end.

Definition by_text : relation UUID :=
  fun a b => string_leb (UUIDToString a) (UUIDToString b) = true.

#[export] Instance by_text_dec : RelDecision by_text.
Proof. intros a b. unfold by_text. apply _. Defined.

Definition parseSeatInput (input : SeatReservationRequest) : res (UUID * list UUID) :=
  if (TrimSpace (SReq_IdempotencyKey input) ==? "") || (length (SReq_SeatIDs input) =? 0)%nat
  then Err (Sentinel ErrInvalidSeatReservation)
  else
    parse_or ErrInvalidSeatReservation (SReq_EventID input) (fun eventID =>
    match parseSeatIDs (SReq_SeatIDs input) ∅ [] with
    | Ok seatIDs => Ok (eventID, merge_sort by_text seatIDs)
    | Err e => Err e
    | Panicked => Panicked
    end).
End parse.

(** ** Reading a reservation with its children *)

Definition item_detail (item : ReservationItem) : ReservationItemDetailResponse :=
  MkItemDetail (UUIDToString (ReservationItem_TicketTypeID item))
    (ReservationItem_Quantity item) (ReservationItem_Status item).

Definition seat_detail (seat : ReservationSeat) : ReservationSeatDetailResponse :=
  MkSeatDetail (UUIDToString (ReservationSeat_SeatID seat)) (ReservationSeat_Status seat).

Definition buildReservationResponse (reservation : Reservation) : prog ReservationResponse :=
  let response := MkReservationResponse (UUIDToString (Reservation_ID reservation))
    (Reservation_Status reservation) (Reservation_ReservationType reservation)
    (TimestamptzToTime (Reservation_ExpiresAt reservation)) in
  if Reservation_ReservationType reservation ==? ReservationTypeQuantity then
    let* items := wrapf "list reservation items"
      (sql (ListReservationItems (Reservation_ID reservation))) in
    Ret (response (item_detail <$> items) [])
  else if Reservation_ReservationType reservation ==? ReservationTypeSeats then
    let* seats := wrapf "list reservation seats"
      (sql (ListReservationSeats (Reservation_ID reservation))) in
    Ret (response [] (seat_detail <$> seats))
  else Fail (Sentinel ErrReservationInvariantBroken).

(** ** Moving the stock of a locked reservation *)

Definition release_item (item : ReservationItem) (releasedAny : bool) : prog bool :=
  if ReservationItem_Status item !=? StatusReserved then Ret releasedAny
  else
    let* r := try (sql_locking locks_ticket (ReleaseTicketQuantity (ReservationItem_TicketTypeID item)
                          (ReservationItem_Quantity item))) in
    match r with
    | inl err =>
        if isNoRows err then Fail (Sentinel ErrReservationInvariantBroken)
        else Fail (Wrapped "release ticket quantity" err)
    | inr _ => Ret true
    end.

Definition releaseReservedQuantityItems (reservationID : UUID) (targetStatus : string)
    : prog unit :=
  let* items := wrapf "list reservation items" (sql (ListReservationItems reservationID)) in
  let* releasedAny := for_each items release_item false in
  if (length items =? 0)%nat || negb releasedAny
  then Fail (Sentinel ErrReservationInvariantBroken)
  else wrapf ("mark reservation items " ++ targetStatus)%string
    (sql (UpdateReservationItemsStatus reservationID targetStatus StatusReserved)).

Definition confirm_item (item : ReservationItem) (confirmedAny : bool) : prog bool :=
  if ReservationItem_Status item !=? StatusReserved then Ret confirmedAny
  else
    let* r := try (sql_locking locks_ticket (ConfirmTicketQuantity (ReservationItem_TicketTypeID item)
                          (ReservationItem_Quantity item))) in
    match r with
    | inl err =>
        if isNoRows err then Fail (Sentinel ErrReservationInvariantBroken)
        else Fail (Wrapped "confirm ticket quantity" err)
    | inr _ => Ret true
    end.

Definition confirmReservedQuantityItems (reservationID : UUID) : prog unit :=
  let* items := wrapf "list reservation items" (sql (ListReservationItems reservationID)) in
  let* confirmedAny := for_each items confirm_item false in
  if (length items =? 0)%nat || negb confirmedAny
  then Fail (Sentinel ErrReservationInvariantBroken)
  else wrapf "mark reservation items confirmed"
    (sql (UpdateReservationItemsStatus reservationID StatusConfirmed StatusReserved)).

Definition cancelLockedReservation (reservation : Reservation) : prog Reservation :=
  let* _ :=
    if Reservation_ReservationType reservation ==? ReservationTypeQuantity then
      releaseReservedQuantityItems (Reservation_ID reservation) StatusCancelled
    else if Reservation_ReservationType reservation ==? ReservationTypeSeats then
      wrapf "cancel reservation seats" (sql (UpdateReservationSeatsStatus
        (Reservation_ID reservation) StatusCancelled StatusReserved))
    else Fail (Sentinel ErrReservationInvariantBroken) in
  wrapf "mark reservation cancelled"
    (sql_locking locks_reservation (UpdateReservationStatus (Reservation_ID reservation) StatusCancelled)).

Definition confirmLockedReservation (reservation : Reservation) : prog Reservation :=
  let* _ :=
    if Reservation_ReservationType reservation ==? ReservationTypeQuantity then
      confirmReservedQuantityItems (Reservation_ID reservation)
    else if Reservation_ReservationType reservation ==? ReservationTypeSeats then
      wrapf "confirm reservation seats" (sql (UpdateReservationSeatsStatus
        (Reservation_ID reservation) StatusConfirmed StatusReserved))
    else Fail (Sentinel ErrReservationInvariantBroken) in
  wrapf "mark reservation confirmed"
    (sql_locking locks_reservation (UpdateReservationStatus (Reservation_ID reservation) StatusConfirmed)).

Definition expireLockedReservation (reservation : Reservation) : prog Reservation :=
  let* _ :=
    if Reservation_ReservationType reservation ==? ReservationTypeQuantity then
      releaseReservedQuantityItems (Reservation_ID reservation) StatusExpired
    else if Reservation_ReservationType reservation ==? ReservationTypeSeats then
      wrapf "expire reservation seats" (sql (UpdateReservationSeatsStatus
        (Reservation_ID reservation) StatusExpired StatusReserved))
    else Fail (Sentinel ErrReservationInvariantBroken) in
  wrapf "mark reservation expired"
    (sql_locking locks_reservation (UpdateReservationStatus (Reservation_ID reservation) StatusExpired)).

(** ** Operations of the service *)

(** ** The repository *)

(** What the service calls outside its transactions. *)
Module ReservationRepository.

(** The callback gets the queries of the transaction. *)
Definition WithinTx {A} (fn : prog A) : prog A := WithTx fn.

Definition GetQuantityByIdempotencyKey (visitorSessionID : UUID) (idempotencyKey : string)
    : prog GetQuantityReservationByIdempotencyKeyRow :=
  sql (GetQuantityReservationByIdempotencyKey visitorSessionID idempotencyKey).

Definition GetReservationByID (reservationID : UUID) : prog Reservation :=
  sql (SqlcReservations.GetReservationByID reservationID).

Definition GetSeatsByIdempotencyKey (visitorSessionID : UUID) (idempotencyKey : string)
    : prog (list GetSeatReservationByIdempotencyKeyRow) :=
  sql (GetSeatReservationByIdempotencyKey visitorSessionID idempotencyKey).
End ReservationRepository.

Section service.
Context `{Pgtype}.

(** The reservationTTL field of the Service, in nanoseconds. *)
Variable reservationTTL : Z.

Definition replayQuantity (visitorSessionID : UUID) (idempotencyKey : string)
    : prog QuantityReservationResponse :=
  let* r := try (ReservationRepository.GetQuantityByIdempotencyKey visitorSessionID idempotencyKey) in
  match r with
  | inl err =>
      if isNoRows err then Fail (Sentinel ErrIdempotencyKeyConflict)
      else Fail (Wrapped "replay idempotent reservation" err)
  | inr existing => Ret (quantityRowToResponse existing)
  end.

Definition replaySeats (visitorSessionID : UUID) (idempotencyKey : string)
    : prog SeatReservationResponse :=
  let* existing := wrapf "replay idempotent seat reservation"
    (ReservationRepository.GetSeatsByIdempotencyKey visitorSessionID idempotencyKey) in
  if (length existing =? 0)%nat then Fail (Sentinel ErrIdempotencyKeyConflict)
  else of_res (seatRowsToResponse existing).

(** The callback of the transaction of ReserveQuantity. *)
Definition reserveQuantityTx (visitorSession : VisitorSession) (eventID ticketTypeID : UUID)
    (quantity : Z) (idempotencyKey : string) (expiresAt : Z)
    : prog QuantityReservationResponse :=
  let* r := try (sql (GetQuantityReservationByIdempotencyKey
                        (VisitorSession_ID visitorSession) idempotencyKey)) in
  match r with
  | inr existing => Ret (quantityRowToResponse existing)
  | inl err =>
      if negb (isNoRows err)
      then Fail (Wrapped "get idempotent quantity reservation" err)
      else
        let* r := try (sql_locking locks_ticket (ReserveTicketQuantity ticketTypeID eventID quantity)) in
        match r with
        | inl err =>
            if isNoRows err then Fail (Sentinel ErrInsufficientStock)
            else Fail (Wrapped "reserve ticket quantity" err)
        | inr _ =>
            let* r := try (sql (CreateReservation eventID (VisitorSession_ID visitorSession)
              (VisitorSession_UserID visitorSession) StatusReserved ReservationTypeQuantity
              idempotencyKey (MkTs expiresAt true))) in
            match r with
            | inl err =>
                if isUniqueViolation err then Fail (Sentinel ErrIdempotencyReplayRequired)
                else Fail (Wrapped "create reservation" err)
            | inr reservation =>
                let* item := wrapf "create reservation item" (sql (CreateReservationItem
                  (Reservation_ID reservation) ticketTypeID quantity StatusReserved)) in
                Ret (quantityReservationToResponse reservation item)
            end
        end
  end.

Definition ReserveQuantity (visitorSession : VisitorSession)
    (input : QuantityReservationRequest) : prog QuantityReservationResponse :=
  let* ids := of_res (parseQuantityInput input) in
  let '(eventID, ticketTypeID) := ids in
  let* now := time_Now in
  let expiresAt := now + reservationTTL in
  let idempotencyKey := TrimSpace (QReq_IdempotencyKey input) in
  let* r := try (ReservationRepository.WithinTx (reserveQuantityTx visitorSession eventID ticketTypeID
                           (QReq_Quantity input) idempotencyKey expiresAt)) in
  match r with
  | inl err =>
      if errors_Is err (Sentinel ErrIdempotencyReplayRequired)
      then replayQuantity (VisitorSession_ID visitorSession) idempotencyKey
      else Fail err
  | inr response => Ret response
  end.

(** The overdue holds on the requested seats are released first. *)
Definition releaseExpiredHolds (seatIDs : list UUID) : prog unit :=
  let* now := time_Now in
  let* expiredReservationIDs := wrapf "list expired active seat reservations"
    (sql (ListExpiredActiveReservationIDsForSeats seatIDs (MkTs now true))) in
  if negb (length expiredReservationIDs =? 0)%nat then
    wrapf "lock expired seat reservations" (sql_locking locks_ids (LockReservationsByID expiredReservationIDs)) ;;;
    wrapf "expire reservation seats"
      (sql (ExpireReservationSeatsByReservationIDs expiredReservationIDs)) ;;;
    wrapf "expire reservations" (sql (ExpireReservationsByIDs expiredReservationIDs))
  else Ret tt.

(** The body of the loop that inserts one row per locked seat. *)
Definition reserve_seat (reservationID : UUID) (expiresAt : Z) (seatID : UUID)
    (reservedSeats : list ReservationSeat) : prog (list ReservationSeat) :=
  let* r := try (sql (CreateReservationSeat reservationID seatID StatusReserved
                        (MkTs expiresAt true))) in
  match r with
  | inl err =>
      if isUniqueViolation err then Fail (Sentinel ErrSeatUnavailable)
      else Fail (Wrapped "create reservation seat" err)
  | inr reservationSeat => Ret (reservedSeats ++ [reservationSeat])
  end.

(** The callback of the transaction of ReserveSeats. *)
Definition reserveSeatsTx (visitorSession : VisitorSession) (eventID : UUID)
    (seatIDs : list UUID) (idempotencyKey : string) (expiresAt : Z)
    : prog SeatReservationResponse :=
  let* existing := wrapf "get idempotent seat reservation"
    (sql (GetSeatReservationByIdempotencyKey (VisitorSession_ID visitorSession)
            idempotencyKey)) in
  if negb (length existing =? 0)%nat then of_res (seatRowsToResponse existing)
  else
    let* lockedSeatIDs := wrapf "lock event seats" (sql_locking locks_seats (LockEventSeats eventID seatIDs)) in
    if negb (sameUUIDSet lockedSeatIDs seatIDs) then Fail (Sentinel ErrSeatsNotFound)
    else
      releaseExpiredHolds seatIDs ;;;
      let* r := try (sql (CreateReservation eventID (VisitorSession_ID visitorSession)
        (VisitorSession_UserID visitorSession) StatusReserved ReservationTypeSeats
        idempotencyKey (MkTs expiresAt true))) in
      match r with
      | inl err =>
          if isUniqueViolation err then Fail (Sentinel ErrIdempotencyReplayRequired)
          else Fail (Wrapped "create seat reservation" err)
      | inr reservation =>
          let* reservedSeats := for_each lockedSeatIDs
            (reserve_seat (Reservation_ID reservation) expiresAt) [] in
          Ret (seatReservationToResponse reservation reservedSeats)
      end.

Definition ReserveSeats (visitorSession : VisitorSession) (input : SeatReservationRequest)
    : prog SeatReservationResponse :=
  let* ids := of_res (parseSeatInput input) in
  let '(eventID, seatIDs) := ids in
  let idempotencyKey := TrimSpace (SReq_IdempotencyKey input) in
  let* now := time_Now in
  let expiresAt := now + reservationTTL in
  let* r := try (ReservationRepository.WithinTx (reserveSeatsTx visitorSession eventID seatIDs
                           idempotencyKey expiresAt)) in
  match r with
  | inl err =>
      if errors_Is err (Sentinel ErrIdempotencyReplayRequired)
      then replaySeats (VisitorSession_ID visitorSession) idempotencyKey
      else Fail err
  | inr response => Ret response
  end.

Definition GetReservation (visitorSession : VisitorSession) (reservationID : UUID)
    : prog ReservationResponse :=
  let* r := try (ReservationRepository.GetReservationByID reservationID) in
  match r with
  | inl err =>
      if isNoRows err then Fail (Sentinel ErrReservationNotFound)
      else Fail (Wrapped "get reservation" err)
  | inr reservation =>
      if negb (canAccessReservation reservation visitorSession)
      then Fail (Sentinel ErrReservationNotFound)
      else wrapf "build reservation response" (buildReservationResponse reservation)
  end.

(** The callbacks of the two lifecycle transactions return the response and
    the transitionErr variable they assign. *)
Definition lockReservation (visitorSession : VisitorSession) (reservationID : UUID)
    : prog Reservation :=
  let* r := try (sql_locking locks_reservation (LockReservationForUpdate reservationID)) in
  match r with
  | inl err =>
      if isNoRows err then Fail (Sentinel ErrReservationNotFound)
      else Fail (Wrapped "lock reservation" err)
  | inr reservation =>
      if negb (canAccessReservation reservation visitorSession)
      then Fail (Sentinel ErrReservationNotFound)
      else Ret reservation
  end.

Definition respond (reservation : Reservation) (transitionErr : option error)
    : prog (ReservationResponse * option error) :=
  let* response := buildReservationResponse reservation in
  Ret (response, transitionErr).

Definition cancelTx (visitorSession : VisitorSession) (reservationID : UUID)
    : prog (ReservationResponse * option error) :=
  let* reservation := lockReservation visitorSession reservationID in
  let status := Reservation_Status reservation in
  if status ==? StatusCancelled then respond reservation None
  else if (status ==? StatusConfirmed) || (status ==? StatusExpired) then
    respond reservation (Some (Sentinel ErrReservationCannotCancel))
  else if status ==? StatusReserved then
    let* now := time_Now in
    if reservationExpired reservation now then
      let* updated := expireLockedReservation reservation in
      respond updated (Some (Sentinel ErrReservationCannotCancel))
    else
      let* updated := cancelLockedReservation reservation in
      respond updated None
  else Fail (Sentinel ErrReservationInvariantBroken).

Definition CancelReservation (visitorSession : VisitorSession) (reservationID : UUID)
    : prog (ReservationResponse * option error) :=
  ReservationRepository.WithinTx (cancelTx visitorSession reservationID).

Definition confirmTx (visitorSession : VisitorSession) (reservationID : UUID)
    : prog (ReservationResponse * option error) :=
  let* reservation := lockReservation visitorSession reservationID in
  let status := Reservation_Status reservation in
  if status ==? StatusConfirmed then respond reservation None
  else if (status ==? StatusCancelled) || (status ==? StatusExpired) then
    respond reservation (Some (Sentinel ErrReservationCannotConfirm))
  else if status ==? StatusReserved then
    let* now := time_Now in
    if reservationExpired reservation now then
      let* updated := expireLockedReservation reservation in
      respond updated (Some (Sentinel ErrReservationCannotConfirm))
    else
      let* updated := confirmLockedReservation reservation in
      respond updated None
  else Fail (Sentinel ErrReservationInvariantBroken).

Definition ConfirmReservation (visitorSession : VisitorSession) (reservationID : UUID)
    : prog (ReservationResponse * option error) :=
  ReservationRepository.WithinTx (confirmTx visitorSession reservationID).

(** The callback of the transaction of the worker: every listed reservation
    is expired, and [processed] counts them. *)
Definition expireBatchTx (batchSize : Z) : prog Z :=
  let* now := time_Now in
  let* expiredReservations := wrapf "list expired reservations"
    (sql_locking locks_listed (ListExpiredReservationsForUpdate (MkTs now true) batchSize)) in
  for_each expiredReservations
    (fun reservation processed =>
       let* _ := expireLockedReservation reservation in Ret (processed + 1)) 0.

Definition ExpireExpiredReservations (batchSize : Z) : prog Z :=
  if batchSize <=? 0 then Fail (Sentinel ErrReservationInvariantBroken)
  else ReservationRepository.WithinTx (expireBatchTx batchSize).
End service.
