(* ===== verification/Inventory.v ===== *)
(** * The inventory invariant

    What the reservation service keeps true of the tables beyond the declared
    constraints: the counters of a ticket type are the sums of the items that
    hold them, and the rows of a reservation follow its header. Each change the
    service makes to the tables is a relation here, with the proof that it
    preserves the invariant; that the programs make these changes and no others
    is proved in [Lifecycle], [Settlement], [Creation] and [SeatCreation]. *)

From S2P Require Import Prelude GoRuntime DbTypes Schema Prog SqlcReservations.
Local Open Scope string_scope.
Local Open Scope list_scope.
Local Open Scope Z_scope.

(** ** Stock held by items *)

(** The quantity item [i] contributes to ticket type [k] in status [status]. *)
Definition item_units (status : string) (k : UUID) (i : ReservationItem) : Z :=
  if (ReservationItem_Status i ==? status) && (ReservationItem_TicketTypeID i ==? k)
  then ReservationItem_Quantity i else 0.

Definition units (status : string) (k : UUID) (db : Database) : Z :=
  map_sum (item_units status k) (reservation_items db).

(** The quantity reservation [rid] holds of ticket type [k], whatever its status. *)
Definition held_units (rid k : UUID) (i : ReservationItem) : Z :=
  if (ReservationItem_ReservationID i ==? rid) && (ReservationItem_TicketTypeID i ==? k)
  then ReservationItem_Quantity i else 0.

Definition held (rid k : UUID) (db : Database) : Z :=
  map_sum (held_units rid k) (reservation_items db).

(** ** The invariant *)

Record stock_ok (db : Database) : Prop := {
  reserved_units : forall k t, ticket_types db !! k = Some t ->
    TicketType_ReservedQuantity t = units StatusReserved k db;
  sold_units : forall k t, ticket_types db !! k = Some t ->
    TicketType_SoldQuantity t = units StatusConfirmed k db;
}.

(** A row of reservation_items belongs to a quantity reservation, has its
    status, and its ticket type is of the event of the reservation. *)
Definition item_follows (db : Database) (i : ReservationItem) : Prop :=
  exists r t,
    reservations db !! ReservationItem_ReservationID i = Some r /\
    Reservation_ReservationType r = ReservationTypeQuantity /\
    ReservationItem_Status i = Reservation_Status r /\
    ticket_types db !! ReservationItem_TicketTypeID i = Some t /\
    TicketType_EventID t = Reservation_EventID r.

(** A row of reservation_seats belongs to a seats reservation, has its status
    and deadline, and its seat is of the event of the reservation. *)
Definition rseat_follows (db : Database) (s : ReservationSeat) : Prop :=
  exists r p,
    reservations db !! ReservationSeat_ReservationID s = Some r /\
    Reservation_ReservationType r = ReservationTypeSeats /\
    ReservationSeat_Status s = Reservation_Status r /\
    ReservationSeat_ExpiresAt s = Reservation_ExpiresAt r /\
    seats db !! ReservationSeat_SeatID s = Some p /\
    Seat_EventID p = Reservation_EventID r.

(** A reservation has a deadline and at least one row of its type. *)
Definition header_ok (db : Database) (r : Reservation) : Prop :=
  TsValid (Reservation_ExpiresAt r) = true /\
  (Reservation_ReservationType r = ReservationTypeQuantity ->
   exists k i, reservation_items db !! k = Some i /\
     ReservationItem_ReservationID i = Reservation_ID r) /\
  (Reservation_ReservationType r = ReservationTypeSeats ->
   exists k s, reservation_seats db !! k = Some s /\
     ReservationSeat_ReservationID s = Reservation_ID r).

Record lifecycle_ok (db : Database) : Prop := {
  items_follow : all_rows (item_follows db) (reservation_items db);
  rseats_follow : all_rows (rseat_follows db) (reservation_seats db);
  headers_ok : all_rows (header_ok db) (reservations db);
  items_single : unique (fun _ => true) ReservationItem_ReservationID (reservation_items db);
}.

Record db_inv (db : Database) : Prop := {
  inv_schema : schema_ok db;
  inv_stock : stock_ok db;
  inv_lifecycle : lifecycle_ok db;
}.

Lemma empty_db_inv : db_inv empty_db.
Proof.
  split; [apply empty_schema_ok|split|split]; unfold all_rows, unique; simpl; intros; simplify_map_eq.
Qed.

(** ** Elementary facts *)

Lemma item_units_nonneg db status k :
  schema_ok db -> forall j i, reservation_items db !! j = Some i -> 0 <= item_units status k i.
Proof.
  intros Hdb j i Hi. pose proof (items_quantity _ Hdb j i Hi) as Hq. simpl in Hq.
  unfold item_units. split_if; lia.
Qed.

Lemma held_nonneg db rid k : schema_ok db -> 0 <= held rid k db.
Proof.
  intros Hdb. apply map_sum_nonneg. intros j i Hi.
  pose proof (items_quantity _ Hdb j i Hi) as Hq. simpl in Hq. unfold held_units. split_if; lia.
Qed.

(** A reserved reservation holds no more than what is reserved. *)
Lemma held_le_reserved db rid r k t :
  db_inv db -> reservations db !! rid = Some r -> Reservation_Status r = StatusReserved ->
  ticket_types db !! k = Some t -> held rid k db <= TicketType_ReservedQuantity t.
Proof.
  intros Hinv Hr Hst Ht. rewrite (reserved_units _ (inv_stock _ Hinv) k t Ht).
  apply map_sum_le. intros j i Hi. unfold held_units, item_units.
  destruct (items_follow _ (inv_lifecycle _ Hinv) j i Hi) as (r' & t' & Hr' & _ & Hs & _).
  pose proof (items_quantity _ (inv_schema _ Hinv) j i Hi) as Hq. simpl in Hq.
  destruct (bool_decide (ReservationItem_ReservationID i = rid)) eqn:E1; simpl; [|split_if; lia].
  to_prop. subst. rewrite Hr in Hr'. simplify_eq. rewrite Hs, Hst.
  repeat case_bool_decide; simpl; lia || done.
Qed.

(** ** Transitions of a reservation *)

(** The new row of a ticket type is the old one up to counters and updated_at. *)
Definition same_ticket (t t' : TicketType) : Prop :=
  TicketType_ID t' = TicketType_ID t /\ TicketType_EventID t' = TicketType_EventID t /\
  TicketType_Name t' = TicketType_Name t /\
  TicketType_TotalQuantity t' = TicketType_TotalQuantity t.

(** The counters move by [amount]: out of reserved, and into sold on a
    confirmation. *)
Definition stock_moved (to_sold : bool) (amount : UUID -> Z)
    (m m' : gmap UUID TicketType) : Prop :=
  forall k, match m !! k, m' !! k with
  | None, None => True
  | Some t, Some t' =>
      same_ticket t t' /\
      TicketType_ReservedQuantity t' = TicketType_ReservedQuantity t - amount k /\
      TicketType_SoldQuantity t' = TicketType_SoldQuantity t + (if to_sold then amount k else 0)
  | _, _ => False
  end.

Definition of_reservation (rid : UUID) (i : ReservationItem) : bool :=
  ReservationItem_ReservationID i ==? rid.
Definition rseat_of_reservation (rid : UUID) (s : ReservationSeat) : bool :=
  ReservationSeat_ReservationID s ==? rid.

(** Reservation [rid] goes to [status], its rows with it, and the counters of
    the ticket types move by what it held; nothing else changes. *)
Record transitioned (status : string) (rid : UUID) (db db' : Database) : Prop := {
  tr_others : users db' = users db /\ visitor_sessions db' = visitor_sessions db /\
    events db' = events db /\ seats db' = seats db;
  tr_header : exists r ts, reservations db !! rid = Some r /\
    Reservation_Status r = StatusReserved /\
    reservations db' = <[rid:=with_reservation_status status ts r]> (reservations db);
  tr_items : exists ts, reservation_items db' =
    update_where (of_reservation rid) (with_item_status status ts) (reservation_items db);
  tr_rseats : exists ts, reservation_seats db' =
    update_where (rseat_of_reservation rid) (with_seat_status status ts) (reservation_seats db);
  tr_tickets : stock_moved (status ==? StatusConfirmed) (fun k => held rid k db)
    (ticket_types db) (ticket_types db');
}.

(** The statuses a reserved reservation can move to. *)
Definition final_status (status : string) : Prop :=
  status = StatusConfirmed \/ status = StatusCancelled \/ status = StatusExpired.

Lemma final_ck status : final_status status -> ck_status status = true.
Proof. by intros [-> |[-> | ->]]. Qed.

Lemma final_not_reserved status : final_status status -> status <> StatusReserved.
Proof. by intros [-> |[-> | ->]]. Qed.

Lemma stock_moved_some to_sold amount m m' k t' :
  stock_moved to_sold amount m m' -> m' !! k = Some t' ->
  exists t, m !! k = Some t /\ same_ticket t t' /\
    TicketType_ReservedQuantity t' = TicketType_ReservedQuantity t - amount k /\
    TicketType_SoldQuantity t' = TicketType_SoldQuantity t + (if to_sold then amount k else 0).
Proof. intros Hm Hk. specialize (Hm k). rewrite Hk in Hm. destruct (m !! k); [eauto|done]. Qed.

Lemma stock_moved_back to_sold amount m m' k t :
  stock_moved to_sold amount m m' -> m !! k = Some t -> exists t', m' !! k = Some t' /\ same_ticket t t'.
Proof.
  intros Hm Hk. specialize (Hm k). rewrite Hk in Hm. destruct (m' !! k) as [t'|]; [|done].
  exists t'. split; [done|apply Hm].

Qed.

(** What a transition does to the units of a status. *)
Lemma transitioned_units status rid db db' st k :
  db_inv db -> transitioned status rid db db' -> status <> StatusReserved ->
  units st k db' =
    units st k db - (if st ==? StatusReserved then held rid k db else 0)
                  + (if st ==? status then held rid k db else 0).
Proof.
  intros Hinv [_ (r & ts0 & Hr & Hrs & _) (ts & Hitems) _ _] Hne.
  unfold units. rewrite Hitems. unfold update_where. rewrite map_sum_fmap.
  transitivity (map_sum (fun i => item_units st k i
     - (if st ==? StatusReserved then held_units rid k i else 0)
     + (if st ==? status then held_units rid k i else 0)) (reservation_items db)).
  - apply map_sum_ext. intros j i Hi.
    destruct (items_follow _ (inv_lifecycle _ Hinv) j i Hi) as (r' & t' & Hr' & _ & Hs & _).
    unfold of_reservation, item_units, held_units, with_item_status.
    destruct (bool_decide (ReservationItem_ReservationID i = rid)) eqn:E1; simpl.
    + to_prop. subst. rewrite Hr in Hr'. simplify_eq. rewrite Hs, Hrs.
      destruct (bool_decide (ReservationItem_TicketTypeID i = k)); rewrite ?andb_false_r, ?andb_true_r;
        repeat case_bool_decide; simplify_eq; try lia.
    + repeat case_bool_decide; simpl; lia.
  - rewrite map_sum_add, map_sum_sub. unfold held. f_equal; [f_equal|].
    + case_bool_decide; [done|]. by apply map_sum_zero.
    + case_bool_decide; [done|]. by apply map_sum_zero.
Qed.

(** The header that a row sees after a transition. *)
Lemma transitioned_header status rid db db' :
  transitioned status rid db db' ->
  exists r ts, reservations db !! rid = Some r /\ Reservation_Status r = StatusReserved /\
    forall k, reservations db' !! k =
      if k ==? rid then Some (with_reservation_status status ts r) else reservations db !! k.
Proof.
  intros [_ (r & ts & Hr & Hs & Hdb') _ _ _]. exists r, ts. split_and!; auto.
  intros k. rewrite Hdb', lookup_insert. repeat case_bool_decide; case_decide; congruence.
Qed.

Lemma transitioned_stock status rid db db' :
  db_inv db -> final_status status -> transitioned status rid db db' -> stock_ok db'.
Proof.
  intros Hinv Hf Htr. pose proof (final_not_reserved _ Hf) as Hne.
  split; intros k t' Ht'.
  - apply (stock_moved_some _ _ _ _ k t' (tr_tickets _ _ _ _ Htr)) in Ht' as (t & Ht & _ & -> & _).
    rewrite (transitioned_units status rid db db' _ k Hinv Htr Hne).
    rewrite (reserved_units _ (inv_stock _ Hinv) k t Ht). repeat case_bool_decide; simplify_eq; lia.
  - apply (stock_moved_some _ _ _ _ k t' (tr_tickets _ _ _ _ Htr)) in Ht' as (t & Ht & _ & _ & ->).
    rewrite (transitioned_units status rid db db' _ k Hinv Htr Hne).
    rewrite (sold_units _ (inv_stock _ Hinv) k t Ht). repeat case_bool_decide; simplify_eq; lia.
Qed.

Lemma transitioned_lifecycle status rid db db' :
  db_inv db -> transitioned status rid db db' -> lifecycle_ok db'.
Proof.
  intros Hinv Htr. destruct (transitioned_header _ _ _ _ Htr) as (r & ts & Hr & Hrs & Hres).
  destruct Htr as [(_ & _ & _ & Hseats) _ (ti & Hitems) (tss & Hrseats) Htk].
  destruct (inv_lifecycle _ Hinv) as [HI HS HH HU].
  assert (HID : Reservation_ID r = rid)
    by apply (reservations_keyed _ (inv_schema _ Hinv) rid r Hr).
  split.
  - intros k i'. rewrite Hitems. intros (i & Hi & ->)%update_where_lookup.
    destruct (HI k i Hi) as (r0 & t & Hr0 & Hty & Hs & Ht & He).
    destruct (stock_moved_back _ _ _ _ _ _ Htk Ht) as (t' & Ht' & _ & He' & _).
    pose proof (Hres (ReservationItem_ReservationID i)) as Hk.
    unfold item_follows, of_reservation.
    destruct (bool_decide (ReservationItem_ReservationID i = rid)) eqn:E; to_prop; simpl.
    + eexists _, t'. split; [exact Hk|]. simplify_eq. split_and!; simpl; congruence.
    + exists r0, t'. split_and!; congruence.
  - intros k s'. rewrite Hrseats. intros (s & Hs & ->)%update_where_lookup.
    destruct (HS k s Hs) as (r0 & p & Hr0 & Hty & Hst & Hex & Hp & He).
    pose proof (Hres (ReservationSeat_ReservationID s)) as Hk.
    unfold rseat_follows, rseat_of_reservation. rewrite Hseats.
    destruct (bool_decide (ReservationSeat_ReservationID s = rid)) eqn:E; to_prop; simpl.
    + eexists _, p. split; [exact Hk|]. simplify_eq. split_and!; simpl; congruence.
    + exists r0, p. split_and!; congruence.
  - assert (Hhdr : forall k0 r0, reservations db !! k0 = Some r0 -> header_ok db' r0).
    { intros k0 r0 Hk0. destruct (HH k0 r0 Hk0) as (Hv & Hq & Hse). split_and!; [done| |].
      - intros Hty. destruct (Hq Hty) as (j & i & Hi & Hid). eexists j, _. rewrite Hitems.
        split; [apply update_where_lookup; eauto|]. by destruct (of_reservation rid i).
      - intros Hty. destruct (Hse Hty) as (j & i & Hi & Hid). eexists j, _. rewrite Hrseats.
        split; [apply update_where_lookup; eauto|]. by destruct (rseat_of_reservation rid i). }
    intros k0 r0. rewrite Hres. destruct (bool_decide (k0 = rid)); [|apply Hhdr].
    intros [= <-]. exact (Hhdr rid r Hr).
  - rewrite Hitems. apply unique_fmap; [done| |done]. intros i. by destruct (of_reservation rid i).
Qed.

Lemma transitioned_inv status rid db db' :
  db_inv db -> final_status status -> transitioned status rid db db' -> schema_ok db' -> db_inv db'.
Proof.
  intros Hinv Hf Htr Hs. split; [done| |].
  - by apply (transitioned_stock status rid db).
  - by apply (transitioned_lifecycle status rid db).
Qed.

(** ** New reservations *)

(** The header a creation inserts; [exp] is the stored deadline. *)
Definition fresh_reservation (rid ev sid uid : UUID) (type key : string) (exp ts : Timestamptz)
    : Reservation :=
  MkReservation rid ev sid uid StatusReserved type key exp ts ts.

Definition available (t : TicketType) : Z :=
  TicketType_TotalQuantity t - TicketType_SoldQuantity t - TicketType_ReservedQuantity t.

(** [q] units of ticket type [tid] go to a new reservation [rid] with one item. *)
Record quantity_reserved (ev sid uid tid : UUID) (q : Z) (key : string) (exp : Timestamptz)
    (rid : UUID) (db db' : Database) : Prop := {
  qr_exp : TsValid exp = true;
  qr_positive : 0 < q;
  qr_header_new : reservations db !! rid = None;
  qr_key_new : session_key_free sid key (reservations db) = true;
  qr_tables : exists t iid ts ts',
    ticket_types db !! tid = Some t /\ TicketType_EventID t = ev /\ q <= available t /\
    reservation_items db !! iid = None /\
    db' = set_reservation_items
            (<[iid:=MkReservationItem iid rid tid q StatusReserved ts' ts']> (reservation_items db))
          (set_reservations (<[rid:=fresh_reservation rid ev sid uid ReservationTypeQuantity key exp ts]>
            (reservations db))
          (set_ticket_types (<[tid:=with_counters (TicketType_SoldQuantity t)
            (TicketType_ReservedQuantity t + q) (TicketType_UpdatedAt t) t]> (ticket_types db)) db));
}.

(** The seat table gains one reserved row of [rid] for each seat of [sids]. *)
Record seats_added (rid : UUID) (exp : Timestamptz) (sids : list UUID)
    (m m' : gmap UUID ReservationSeat) : Prop := {
  sa_kept : forall k s, m !! k = Some s -> m' !! k = Some s;
  sa_new : forall k s, m' !! k = Some s -> m !! k = Some s \/
    (m !! k = None /\ ReservationSeat_ReservationID s = rid /\
     ReservationSeat_Status s = StatusReserved /\
     ReservationSeat_ExpiresAt s = exp /\ ReservationSeat_SeatID s ∈ sids);
  sa_all : forall x, x ∈ sids -> exists k s, m' !! k = Some s /\ m !! k = None /\
    ReservationSeat_SeatID s = x /\ ReservationSeat_ReservationID s = rid /\
    ReservationSeat_Status s = StatusReserved;
}.

(** The seats [sids], all of event [ev], go to a new reservation [rid]. *)
Record seats_reserved (ev sid uid : UUID) (sids : list UUID) (key : string) (exp : Timestamptz)
    (rid : UUID) (db db' : Database) : Prop := {
  sr_exp : TsValid exp = true;
  sr_some : sids <> [];
  sr_header_new : reservations db !! rid = None;
  sr_key_new : session_key_free sid key (reservations db) = true;
  sr_event : forall x, x ∈ sids -> exists p, seats db !! x = Some p /\ Seat_EventID p = ev;
  sr_free : forall x, x ∈ sids -> x ∉ active_seat_ids (reservation_seats db);
  sr_tables : exists m' ts,
    seats_added rid exp sids (reservation_seats db) m' /\
    db' = set_reservation_seats m'
          (set_reservations (<[rid:=fresh_reservation rid ev sid uid ReservationTypeSeats key exp ts]>
            (reservations db)) db);
}.

(** The seats reservations [ids], all still reserved, expire together. *)
Record holds_expired (ids : list UUID) (db db' : Database) : Prop := {
  he_ids : forall id, id ∈ ids -> exists r, reservations db !! id = Some r /\
    Reservation_Status r = StatusReserved /\ Reservation_ReservationType r = ReservationTypeSeats;
  he_tables : exists ts ts',
    db' = set_reservations
      (update_where (fun r => bool_decide (Reservation_ID r ∈ ids) &&
                              (Reservation_Status r ==? StatusReserved))
         (with_reservation_status StatusExpired ts') (reservations db))
      (set_reservation_seats
        (update_where (fun s => bool_decide (ReservationSeat_ReservationID s ∈ ids) &&
                                (ReservationSeat_Status s ==? StatusReserved))
           (with_seat_status StatusExpired ts) (reservation_seats db)) db);
}.

(** ** The inventory machine

    The changes the service may make to the tables, one constructor each: the
    abstract specification that its operations refine. *)
Inductive inventory_step (db db' : Database) : Prop :=
  | step_reserve_quantity ev sid uid tid q key exp rid
      (Hstep : quantity_reserved ev sid uid tid q key exp rid db db')
      (Hschema : schema_ok db')
  | step_reserve_seats ev sid uid sids key exp rid
      (Hstep : seats_reserved ev sid uid sids key exp rid db db')
      (Hschema : schema_ok db')
  | step_expire_holds ids
      (Hstep : holds_expired ids db db')
      (Hschema : schema_ok db')
  | step_transition status rid
      (Hfinal : final_status status)
      (Hstep : transitioned status rid db db')
      (Hschema : schema_ok db').

(** ** The invariant is inductive *)

Lemma item_follows_mono db db' i :
  (forall k r, reservations db !! k = Some r -> reservations db' !! k = Some r) ->
  (forall k t, ticket_types db !! k = Some t -> exists t', ticket_types db' !! k = Some t' /\
     TicketType_EventID t' = TicketType_EventID t) ->
  item_follows db i -> item_follows db' i.
Proof.
  intros Hr Ht (r & t & Hr0 & Hty & Hs & Ht0 & He). destruct (Ht _ _ Ht0) as (t' & Ht' & He').
  exists r, t'. split_and!; auto. congruence.
Qed.

Lemma rseat_follows_mono db db' s :
  (forall k r, reservations db !! k = Some r -> reservations db' !! k = Some r) ->
  seats db' = seats db -> rseat_follows db s -> rseat_follows db' s.
Proof.
  intros Hr Hse (r & p & Hr0 & Hty & Hs & Hx & Hp & He). exists r, p. rewrite Hse. auto 7.
Qed.

Lemma header_ok_mono db db' r :
  (forall k i, reservation_items db !! k = Some i -> reservation_items db' !! k = Some i) ->
  (forall k s, reservation_seats db !! k = Some s -> reservation_seats db' !! k = Some s) ->
  header_ok db r -> header_ok db' r.
Proof.
  intros Hi Hs (Hv & Hq & Hse). split_and!; [done| |].
  - intros Hty. destruct (Hq Hty) as (k & i & ? & ?). eauto.
  - intros Hty. destruct (Hse Hty) as (k & s & ? & ?). eauto.
Qed.

Lemma lookup_insert_fresh {V} (m : gmap UUID V) k x j y :
  m !! k = None -> m !! j = Some y -> <[k:=x]> m !! j = Some y.
Proof. intros Hk Hj. rewrite lookup_insert_ne; congruence. Qed.

Lemma units_insert_item st k db iid i :
  reservation_items db !! iid = None ->
  map_sum (item_units st k) (<[iid:=i]> (reservation_items db)) = units st k db + item_units st k i.
Proof. intros Hi. rewrite map_sum_insert by done. unfold units. lia. Qed.

Lemma quantity_reserved_inv ev sid uid tid q key exp rid db db' :
  db_inv db -> quantity_reserved ev sid uid tid q key exp rid db db' -> schema_ok db' -> db_inv db'.
Proof.
  intros [Hsch [HR HC] [HI HS HH HU]] [Hexp Hq Hrid Hkey (t & iid & ts & ts' & Ht & He & Hav & Hiid & ->)] Hdb'.
  assert (Htk : forall k t0, ticket_types db !! k = Some t0 -> exists t', <[tid:=with_counters
      (TicketType_SoldQuantity t) (TicketType_ReservedQuantity t + q) (TicketType_UpdatedAt t) t]>
      (ticket_types db) !! k = Some t' /\ TicketType_EventID t' = TicketType_EventID t0).
  { intros k t0 Hk. rewrite lookup_insert. case_decide; [|eauto].
    subst. simplify_eq. eexists. split; done. }
  split; [done|split|split]; simpl in *.
  - intros k t'. unfold units. simpl. rewrite units_insert_item by done. rewrite lookup_insert_Some.
    unfold item_units. simpl. intros [[<- <-]|[Hne Hk]]; simpl.
    + rewrite (HR _ t Ht). repeat case_bool_decide; simpl; done || lia.
    + rewrite (HR _ t' Hk). repeat case_bool_decide; simpl; done || lia.
  - intros k t'. unfold units. simpl. rewrite units_insert_item by done. rewrite lookup_insert_Some.
    unfold item_units. simpl. intros [[<- <-]|[Hne Hk]]; simpl.
    + rewrite (HC _ t Ht). lia.
    + rewrite (HC _ t' Hk). lia.
  - apply all_rows_insert.
    + intros k i Hk. apply (item_follows_mono db); simpl; eauto using lookup_insert_fresh.
    + destruct (Htk tid t Ht) as (t' & Ht' & He').
      eexists _, t'. simpl. rewrite lookup_insert_eq. split_and!; [done..|exact Ht'|]. simpl. congruence.
  - intros k s Hk. apply (rseat_follows_mono db); simpl; eauto using lookup_insert_fresh.
  - apply all_rows_insert.
    + intros k r Hk. apply (header_ok_mono db); simpl; eauto using lookup_insert_fresh.
    + split_and!; simpl; [done| |done]. intros _. exists iid. eexists.
      rewrite lookup_insert_eq. by split.
  - apply unique_insert; [done|]. intros j i _ Hi _ _ Heq. simpl in Heq.
    destruct (HI j i Hi) as (r & _ & Hr & _). congruence.
Qed.

Lemma seats_reserved_inv ev sid uid sids key exp rid db db' :
  db_inv db -> seats_reserved ev sid uid sids key exp rid db db' -> schema_ok db' -> db_inv db'.
Proof.
  intros [Hsch [HR HC] [HI HS HH HU]] [Hexp Hne Hrid Hkey Hev Hfree (m' & ts & [Hkept Hnew Hall] & ->)] Hdb'.
  split; [done|split|split]; simpl in *; [done|done| | | |done].
  - intros k i Hk. apply (item_follows_mono db); simpl; eauto using lookup_insert_fresh.
  - intros k s Hk. destruct (Hnew k s Hk) as [Hold|(_ & Hid & Hst & Hex & Hs)].
    + apply (rseat_follows_mono db); simpl; eauto using lookup_insert_fresh.
    + destruct (Hev _ Hs) as (p & Hp & Hpe). eexists _, p. simpl.
      rewrite Hid, lookup_insert_eq. split_and!; done.
  - apply all_rows_insert.
    + intros k r Hk. apply (header_ok_mono db); simpl; eauto.
    + split_and!; simpl; [done|done|]. intros _. destruct sids as [|x sids]; [done|].
      destruct (Hall x) as (k & s & Hk & _ & _ & Hid & _); [set_solver|]. eauto.
Qed.

Lemma holds_expired_inv ids db db' :
  db_inv db -> holds_expired ids db db' -> schema_ok db' -> db_inv db'.
Proof.
  intros [Hsch [HR HC] [HI HS HH HU]] [Hids (ts & ts' & ->)] Hdb'.
  split; [done|split|split]; simpl in *; [done|done| | | |done].
  - intros k i Hk. destruct (HI k i Hk) as (r & t & Hr & Hty & Hs & Ht & He).
    exists r, t. split; [|done]. apply update_where_lookup. exists r. split; [done|].
    destruct (bool_decide (Reservation_ID r ∈ ids)) eqn:E; simpl; [|done]. to_prop.
    pose proof (reservations_keyed _ Hsch _ r Hr) as [HID _].
    destruct (Hids _ E) as (r' & Hr' & _ & Hty'). rewrite HID, Hr in Hr'. simplify_eq. by rewrite Hty in Hty'.
  - intros k s'. intros (s & Hk & ->)%update_where_lookup.
    destruct (HS k s Hk) as (r & p & Hr & Hty & Hst & Hx & Hp & He).
    pose proof (reservations_keyed _ Hsch _ r Hr) as [HID _].
    pose proof (proj2 (update_where_lookup (fun r => bool_decide (Reservation_ID r ∈ ids) &&
      (Reservation_Status r ==? StatusReserved)) (with_reservation_status StatusExpired ts')
      (reservations db) (ReservationSeat_ReservationID s) _) (ex_intro _ r (conj Hr eq_refl))) as Hr'.
    rewrite HID, <- Hst in Hr'.
    destruct (bool_decide (ReservationSeat_ReservationID s ∈ ids) &&
      (ReservationSeat_Status s ==? StatusReserved)).
    + eexists _, p. split; [exact Hr'|]. done.
    + exists r, p. done.
  - intros k r'. intros (r & Hk & ->)%update_where_lookup.
    assert (Hhdr : header_ok (set_reservations (update_where (fun r => bool_decide
      (Reservation_ID r ∈ ids) && (Reservation_Status r ==? StatusReserved))
      (with_reservation_status StatusExpired ts') (reservations db)) (set_reservation_seats
      (update_where (fun s => bool_decide (ReservationSeat_ReservationID s ∈ ids) &&
      (ReservationSeat_Status s ==? StatusReserved)) (with_seat_status StatusExpired ts)
      (reservation_seats db)) db)) r); [|by destruct (_ && _)].
    destruct (HH k r Hk) as (Hv & Hq & Hse). split_and!; [done|done|]. simpl.
    intros Hty. destruct (Hse Hty) as (j & s & Hj & Hid). eexists j, _.
    split; [apply update_where_lookup; eauto|]. by destruct (_ && _).
Qed.

Lemma inventory_step_inv db db' : db_inv db -> inventory_step db db' -> db_inv db'.
Proof.
  intros Hinv Hstep. destruct Hstep.
  - by eapply quantity_reserved_inv.
  - by eapply seats_reserved_inv.
  - by eapply holds_expired_inv.
  - by eapply transitioned_inv.
Qed.

Lemma inventory_steps_inv db db' : rtc inventory_step db db' -> db_inv db -> db_inv db'.
Proof. induction 1 as [|db1 db2 db3 H12 _ IH]; [done|]. intros. eauto using inventory_step_inv. Qed.

(** ** Final reservations do not change *)

Lemma inventory_step_final db db' rid r :
  schema_ok db -> inventory_step db db' -> reservations db !! rid = Some r ->
  Reservation_Status r <> StatusReserved -> reservations db' !! rid = Some r.
Proof.
  intros Hdb Hstep Hr Hst. destruct Hstep as [ev sid uid tid q key exp rid' Hs _
    |ev sid uid sids key exp rid' Hs _|ids Hs _|status rid' _ Hs _].
  - destruct (qr_tables _ _ _ _ _ _ _ _ _ _ Hs) as (t & iid & ts & ts' & _ & _ & _ & _ & ->).
    apply lookup_insert_fresh; [apply Hs|done].
  - destruct (sr_tables _ _ _ _ _ _ _ _ _ Hs) as (m & ts & _ & ->).
    apply lookup_insert_fresh; [apply Hs|done].
  - destruct (he_tables _ _ _ Hs) as (ts & ts' & ->). apply update_where_lookup.
    exists r. split; [done|]. rewrite (bool_decide_eq_false_2 (Reservation_Status r = _)) by done.
    by rewrite andb_false_r.
  - destruct (transitioned_header _ _ _ _ Hs) as (r0 & ts & Hr0 & Hst0 & ->).
    destruct (bool_decide (rid = rid')) eqn:E; [|done]. to_prop. congruence.
Qed.

Lemma inventory_steps_final db db' rid r :
  rtc inventory_step db db' -> db_inv db -> reservations db !! rid = Some r ->
  Reservation_Status r <> StatusReserved -> reservations db' !! rid = Some r.
Proof.
  induction 1 as [|db1 db2 db3 H12 _ IH]; [done|]. intros Hinv Hr Hst.
  apply IH; [by eapply inventory_step_inv| |done]. by eapply inventory_step_final, Hst; [apply Hinv|..].
Qed.
