(* ===== verification/Lifecycle.v ===== *)
(** * The transitions of a reservation, proved

    The programs that cancel, confirm and expire a locked reservation make
    exactly the transition of [Inventory]: the loops over the items move the
    units the reservation holds, and the rows follow the header. *)

From S2P Require Import Prelude GoRuntime DbTypes Schema Prog Wp SqlcReservations ReservationService Inventory.
Local Open Scope string_scope.
Local Open Scope list_scope.
Local Open Scope Z_scope.

Section lifecycle.
Context `{Pgtype}.
Variable a : assm.

(** ** The loops over the items *)

(** The units of ticket type [k] in a list of items. *)
Definition moved (l : list ReservationItem) (k : UUID) : Z :=
  Zsum ((fun i => if ReservationItem_TicketTypeID i ==? k
                  then ReservationItem_Quantity i else 0) <$> l).

Lemma moved_app l1 l2 k : moved (l1 ++ l2) k = moved l1 k + moved l2 k.
Proof. unfold moved. by rewrite fmap_app, Zsum_app. Qed.

Lemma moved_nonneg l k :
  (forall i, i ∈ l -> 0 < ReservationItem_Quantity i) -> 0 <= moved l k.
Proof.
  unfold moved. induction l as [|i l IH]; intros Hq; [done|].
  rewrite fmap_cons, Zsum_cons. pose proof (Hq i ltac:(set_solver)).
  assert (0 <= Zsum ((fun i => if ReservationItem_TicketTypeID i ==? k
    then ReservationItem_Quantity i else 0) <$> l)) by (apply IH; set_solver).
  split_if; lia.
Qed.

(** What one iteration does to a reserved item whose units are reserved. *)
Definition moves_item (to_sold : bool) (body : ReservationItem -> bool -> prog bool) : Prop :=
  forall i any db saved t,
    schema_ok db -> ReservationItem_Status i = StatusReserved ->
    0 < ReservationItem_Quantity i ->
    ticket_types db !! ReservationItem_TicketTypeID i = Some t ->
    ReservationItem_Quantity i <= TicketType_ReservedQuantity t ->
    wp a (body i any) (fun r σ' =>
      σ'.2 = saved /\
      match r with
      | Ok b => b = true /\ schema_ok σ'.1 /\ exists t',
          σ'.1 = set_ticket_types (<[ReservationItem_TicketTypeID i:=t']> (ticket_types db)) db /\
          same_ticket t t' /\
          TicketType_ReservedQuantity t' =
            TicketType_ReservedQuantity t - ReservationItem_Quantity i /\
          TicketType_SoldQuantity t' =
            TicketType_SoldQuantity t + (if to_sold then ReservationItem_Quantity i else 0)
      | Err e => faulty a e
      | Panicked => False
      end) (db, saved).

Lemma release_item_moves : moves_item false release_item.
Proof.
  intros i any db saved t Hdb Hst Hq Ht Hr. unfold release_item.
  rewrite Hst. cbn -[wp bind try sql_locking]. apply wp_try_sql.
  - intros e [Hqu He]. rewrite (fault_err_rows _ He). cbn. by repeat constructor.
  - intros ctx _ _. cbn [fst snd].
    pose proof (ReleaseTicketQuantity_ok ctx db (ReservationItem_TicketTypeID i) _ Hdb Hq) as Hok.
    destruct (ReleaseTicketQuantity _ _ _ _) as [e|[row db']].
    + destruct Hok as [_ Hlt]. specialize (Hlt t Ht). lia.
    + destruct Hok as (t0 & Ht0 & _ & -> & Hs). simplify_eq. cbn. split; [done|].
      split; [done|]. split; [done|]. eexists. split; [done|]. by rewrite Z.add_0_r.
Qed.

Lemma confirm_item_moves : moves_item true confirm_item.
Proof.
  intros i any db saved t Hdb Hst Hq Ht Hr. unfold confirm_item.
  rewrite Hst. cbn -[wp bind try sql_locking]. apply wp_try_sql.
  - intros e [Hqu He]. rewrite (fault_err_rows _ He). cbn. by repeat constructor.
  - intros ctx _ _. cbn [fst snd].
    pose proof (ConfirmTicketQuantity_ok ctx db (ReservationItem_TicketTypeID i) _ Hdb Hq) as Hok.
    destruct (ConfirmTicketQuantity _ _ _ _) as [e|[row db']].
    + destruct Hok as [_ Hlt]. specialize (Hlt t Ht). lia.
    + destruct Hok as (t0 & Ht0 & _ & -> & Hs). simplify_eq. cbn. split; [done|].
      split; [done|]. split; [done|]. by eexists.
Qed.

Lemma stock_moved_refl to_sold m : stock_moved to_sold (fun _ => 0) m m.
Proof.
  intros k. destruct (m !! k) as [t|]; [|done]. split; [done|]. destruct to_sold; lia.
Qed.

Lemma stock_moved_ext to_sold f g m m' :
  (forall k, f k = g k) -> stock_moved to_sold f m m' -> stock_moved to_sold g m m'.
Proof. intros Hfg Hm k. rewrite <- Hfg. apply Hm. Qed.

(** One more item moved after the units [f]. *)
Lemma stock_moved_step to_sold f m m' k t t' q :
  stock_moved to_sold f m m' -> m' !! k = Some t -> same_ticket t t' ->
  TicketType_ReservedQuantity t' = TicketType_ReservedQuantity t - q ->
  TicketType_SoldQuantity t' = TicketType_SoldQuantity t + (if to_sold then q else 0) ->
  stock_moved to_sold (fun j => f j + (if k ==? j then q else 0)) m (<[k:=t']> m').
Proof.
  intros Hm Hk (Hi & He & Hn & Ht) Hr Hs j. specialize (Hm j). rewrite lookup_insert.
  destruct (decide (k = j)) as [->|Hne].
  - rewrite Hk in Hm. rewrite bool_decide_eq_true_2 by done.
    destruct (m !! j) as [t0|]; [|done]. destruct Hm as ((Hi0 & He0 & Hn0 & Ht0) & Hr0 & Hs0).
    split; [repeat split; congruence|]. destruct to_sold; lia.
  - rewrite bool_decide_eq_false_2 by done. destruct (m !! j), (m' !! j); try done.
    destruct Hm as (? & ? & ?). split; [done|]. destruct to_sold; lia.
Qed.

(** The loop over reserved items, all covered by the reserved counters,
    moves the units of all of them and sets its flag. *)
Lemma items_loop to_sold body l db saved :
  moves_item to_sold body ->
  schema_ok db ->
  (forall i, i ∈ l -> ReservationItem_Status i = StatusReserved /\
     0 < ReservationItem_Quantity i /\ exists t,
       ticket_types db !! ReservationItem_TicketTypeID i = Some t /\
       moved l (ReservationItem_TicketTypeID i) <= TicketType_ReservedQuantity t) ->
  wp a (for_each l body false) (fun r σ' =>
    σ'.2 = saved /\
    match r with
    | Ok b => b = negb (length l =? 0)%nat /\ schema_ok σ'.1 /\
        exists m, σ'.1 = set_ticket_types m db /\
                  stock_moved to_sold (moved l) (ticket_types db) m
    | Err e => faulty a e
    | Panicked => False
    end) (db, saved).
Proof.
  intros Hbody Hdb Hl.
  apply (wp_for_each a _ _ _ (fun dn b σ =>
    σ.2 = saved /\ b = negb (length dn =? 0)%nat /\ schema_ok σ.1 /\
    exists m, σ.1 = set_ticket_types m db /\
              stock_moved to_sold (moved dn) (ticket_types db) m)).
  - split_and!; [done..|]. exists (ticket_types db). split; [by destruct db|].
    apply stock_moved_refl.
  - intros dn i rest b [db1 saved1] -> HI. cbn [fst snd] in HI. destruct HI as (-> & -> & Hs & m & -> & Hm).
    destruct (Hl i) as (Hst & Hq & t & Ht & Hle); [apply elem_of_app; right; by left|].
    rewrite !moved_app in Hle. change (i :: rest) with ([i] ++ rest) in Hle.
    rewrite moved_app in Hle.
    assert (Hrest : 0 <= moved rest (ReservationItem_TicketTypeID i)).
    { apply moved_nonneg. intros j Hj. apply (Hl j). apply elem_of_app. right. by right. }
    assert (Hone : forall k, moved [i] k = if ReservationItem_TicketTypeID i ==? k
      then ReservationItem_Quantity i else 0).
    { intros k. unfold moved. simpl. lia. }
    rewrite Hone, bool_decide_eq_true_2 in Hle by done.
    pose proof (Hm (ReservationItem_TicketTypeID i)) as Hmi. rewrite Ht in Hmi.
    destruct (m !! ReservationItem_TicketTypeID i) as [t1|] eqn:Ht1; [|done].
    destruct Hmi as (_ & Hr1 & _).
    eapply wp_mono, (Hbody i _ (set_ticket_types m db) saved t1); [|done..|lia].
    intros [b'|e|] [db2 saved2]; cbn [fst snd]; [|done..].
    intros (-> & -> & Hs' & t' & -> & Hsame & Hr' & Hsold).
    split; [done|]. split; [by rewrite length_app, Nat.add_comm|]. split; [done|].
    eexists. split; [done|].
    eapply stock_moved_ext; [|eapply stock_moved_step; eauto].
    intros k. by rewrite moved_app, Hone.
  - intros b [db1 saved1]. cbn [fst snd]. by intros (-> & -> & Hrest).
Qed.

(** ** The rows of a reserved reservation *)

Lemma update_where_ext {V} (sel sel' : V -> bool) upd (m : gmap UUID V) :
  (forall k x, m !! k = Some x -> sel x = sel' x) ->
  update_where sel upd m = update_where sel' upd m.
Proof.
  intros Hs. unfold update_where. apply map_fmap_ext. intros k x Hk. by rewrite (Hs k x Hk).
Qed.

Lemma update_where_none {V} (sel : V -> bool) upd (m : gmap UUID V) :
  (forall k x, m !! k = Some x -> sel x = false) -> update_where sel upd m = m.
Proof.
  intros Hs. unfold update_where. rewrite <- (map_fmap_id m) at 2.
  apply map_fmap_ext. intros k x Hk. by rewrite (Hs k x Hk).
Qed.

Definition items_of (rid : UUID) (db : Database) : list ReservationItem :=
  select (fun i => ReservationItem_ReservationID i ==? rid)
    (by_key (fun i => uuid_bytes (ReservationItem_TicketTypeID i) ++
                      uuid_bytes (ReservationItem_ID i)))
    (reservation_items db).

Lemma items_of_moved rid db k : moved (items_of rid db) k = held rid k db.
Proof.
  unfold moved, items_of, held. rewrite select_sum. apply map_sum_ext. intros j i _.
  unfold held_units. by repeat case_bool_decide.
Qed.

Lemma items_of_reserved rid r db :
  db_inv db -> reservations db !! rid = Some r -> Reservation_Status r = StatusReserved ->
  forall i, i ∈ items_of rid db -> ReservationItem_Status i = StatusReserved /\
    0 < ReservationItem_Quantity i /\ exists t,
      ticket_types db !! ReservationItem_TicketTypeID i = Some t /\
      moved (items_of rid db) (ReservationItem_TicketTypeID i) <= TicketType_ReservedQuantity t.
Proof.
  intros Hinv Hr Hst i (k & Hk & Hi)%elem_of_select. to_prop.
  destruct (items_follow _ (inv_lifecycle _ Hinv) k i Hk) as (r' & t & Hr' & _ & Hs & Ht & _).
  rewrite Hi, Hr in Hr'. simplify_eq. split; [congruence|].
  split; [exact (items_quantity _ (inv_schema _ Hinv) k i Hk)|].
  exists t. split; [done|]. rewrite items_of_moved. by eapply held_le_reserved.
Qed.

Lemma items_of_some rid r db :
  db_inv db -> reservations db !! rid = Some r ->
  Reservation_ReservationType r = ReservationTypeQuantity -> items_of rid db <> [].
Proof.
  intros Hinv Hr Hty. destruct (headers_ok _ (inv_lifecycle _ Hinv) rid r Hr) as (_ & Hq & _).
  destruct (Hq Hty) as (k & i & Hi & Hid).
  pose proof (reservations_keyed _ (inv_schema _ Hinv) rid r Hr) as [HID _].
  intros Hnil. pose proof (proj1 (select_nil _ _ _) Hnil k i Hi) as Hf.
  cbv beta in Hf. to_prop. congruence.
Qed.

(** The rows of a reservation are of the kind of its type only. *)
Lemma quantity_no_rseats rid r db :
  db_inv db -> reservations db !! rid = Some r ->
  Reservation_ReservationType r = ReservationTypeQuantity ->
  forall k s, reservation_seats db !! k = Some s -> rseat_of_reservation rid s = false.
Proof.
  intros Hinv Hr Hty k s Hk. apply bool_decide_eq_false_2. intros Hid.
  destruct (rseats_follow _ (inv_lifecycle _ Hinv) k s Hk) as (r' & p & Hr' & Hty' & _).
  rewrite Hid, Hr in Hr'. simplify_eq. by rewrite Hty in Hty'.
Qed.

Lemma seats_no_items rid r db :
  db_inv db -> reservations db !! rid = Some r ->
  Reservation_ReservationType r = ReservationTypeSeats ->
  forall k i, reservation_items db !! k = Some i -> of_reservation rid i = false.
Proof.
  intros Hinv Hr Hty k i Hk. apply bool_decide_eq_false_2. intros Hid.
  destruct (items_follow _ (inv_lifecycle _ Hinv) k i Hk) as (r' & t & Hr' & Hty' & _).
  rewrite Hid, Hr in Hr'. simplify_eq. by rewrite Hty in Hty'.
Qed.

Lemma seats_held_zero rid r db k :
  db_inv db -> reservations db !! rid = Some r ->
  Reservation_ReservationType r = ReservationTypeSeats -> held rid k db = 0.
Proof.
  intros Hinv Hr Hty. apply map_sum_zero. intros j i Hi. unfold held_units.
  pose proof (seats_no_items rid r db Hinv Hr Hty j i Hi) as Hno.
  unfold of_reservation in Hno. by rewrite Hno.
Qed.

(** ** Releasing and confirming the items *)

(** What remains of both functions once the items are read. *)
Definition move_items (body : ReservationItem -> bool -> prog bool) (text status : string)
    (rid : UUID) : prog unit :=
  let* items := wrapf "list reservation items" (sql (ListReservationItems rid)) in
  let* any := for_each items body false in
  if (length items =? 0)%nat || negb any
  then Fail (Sentinel ErrReservationInvariantBroken)
  else wrapf text (sql (UpdateReservationItemsStatus rid status StatusReserved)).

Lemma move_items_wp to_sold body text status rid r db saved :
  moves_item to_sold body -> ck_status status = true -> db_inv db ->
  reservations db !! rid = Some r -> Reservation_Status r = StatusReserved ->
  Reservation_ReservationType r = ReservationTypeQuantity ->
  wp a (move_items body text status rid) (fun res σ' =>
    σ'.2 = saved /\
    match res with
    | Ok _ => schema_ok σ'.1 /\ exists m ts,
        stock_moved to_sold (fun k => held rid k db) (ticket_types db) m /\
        σ'.1 = set_reservation_items
          (update_where (of_reservation rid) (with_item_status status ts) (reservation_items db))
          (set_ticket_types m db)
    | Err e => faulty a e
    | Panicked => False
    end) (db, saved).
Proof.
  intros Hbody Hck Hinv Hr Hst Hty. unfold move_items.
  apply wp_bind, wp_wrapf_sql; [done|]. intros ctx _ _. cbn [fst snd ListReservationItems reading].
  change (select _ _ _) with (items_of rid db).
  apply wp_bind. eapply wp_mono, items_loop; [|done|apply Hinv|by eapply items_of_reserved].
  intros [b|e|] [db1 saved1]; cbn [fst snd]; [|done..].
  intros (-> & -> & Hs & m & -> & Hm).
  pose proof (items_of_some rid r db Hinv Hr Hty) as Hne.
  destruct (items_of rid db) as [|i l] eqn:Hitems; [done|]. rewrite <- Hitems in Hm. cbn -[wp wrapf sql_locking].
  apply wp_wrapf_sql; [done|]. intros ctx' _ _. cbn [fst snd].
  destruct (UpdateReservationItemsStatus_ok ctx' (set_ticket_types m db) rid status
    StatusReserved Hs Hck) as [-> Hs'].
  split; [done|]. split; [done|]. exists m, (ctx_now ctx'). split.
  - eapply stock_moved_ext, Hm. intros k. apply items_of_moved.
  - simpl. f_equal. apply update_where_ext. intros k j Hj. unfold of_reservation.
    destruct (bool_decide (ReservationItem_ReservationID j = rid)) eqn:E; [|done]. to_prop.
    destruct (items_follow _ (inv_lifecycle _ Hinv) k j Hj) as (r' & t & Hr' & _ & Hs0 & _).
    rewrite E, Hr in Hr'. simplify_eq. rewrite Hs0, Hst. by rewrite bool_decide_eq_true_2.
Qed.

(** ** The three transitions *)

Definition locked_transition (body : ReservationItem -> bool -> prog bool)
    (items_text seats_text mark_text status : string) (reservation : Reservation)
    : prog Reservation :=
  let* _ :=
    if Reservation_ReservationType reservation ==? ReservationTypeQuantity then
      move_items body items_text status (Reservation_ID reservation)
    else if Reservation_ReservationType reservation ==? ReservationTypeSeats then
      wrapf seats_text (sql (UpdateReservationSeatsStatus
        (Reservation_ID reservation) status StatusReserved))
    else Fail (Sentinel ErrReservationInvariantBroken) in
  wrapf mark_text (sql_locking locks_reservation (UpdateReservationStatus (Reservation_ID reservation) status)).

(** The outcome of a transition of the locked reservation [r]: done, or
    interrupted by the environment. *)
Definition transition_post (status : string) (r : Reservation) (db : Database)
    (saved : option Database) (res : res Reservation) (σ : St) : Prop :=
  σ.2 = saved /\
  match res with
  | Ok r' => (exists ts, r' = with_reservation_status status ts r) /\
      transitioned status (Reservation_ID r) db σ.1 /\ schema_ok σ.1
  | Err e => faulty a e
  | Panicked => False
  end.

Lemma transition_rows_wp body items_text seats_text status r db saved :
  moves_item (status ==? StatusConfirmed) body -> final_status status -> db_inv db ->
  reservations db !! Reservation_ID r = Some r -> Reservation_Status r = StatusReserved ->
  wp a (if Reservation_ReservationType r ==? ReservationTypeQuantity then
          move_items body items_text status (Reservation_ID r)
        else if Reservation_ReservationType r ==? ReservationTypeSeats then
          wrapf seats_text (sql (UpdateReservationSeatsStatus
            (Reservation_ID r) status StatusReserved))
        else Fail (Sentinel ErrReservationInvariantBroken))
    (fun res σ' => σ'.2 = saved /\
       match res with
       | Ok _ => schema_ok σ'.1 /\ exists m ts ts',
           stock_moved (status ==? StatusConfirmed) (fun k => held (Reservation_ID r) k db)
             (ticket_types db) m /\
           σ'.1 = set_reservation_items (update_where (of_reservation (Reservation_ID r))
                    (with_item_status status ts) (reservation_items db))
                  (set_reservation_seats (update_where (rseat_of_reservation (Reservation_ID r))
                    (with_seat_status status ts') (reservation_seats db))
                  (set_ticket_types m db))
       | Err e => faulty a e
       | Panicked => False
       end) (db, saved).
Proof.
  intros Hbody Hf Hinv Hr Hst. pose proof (final_ck _ Hf) as Hck.
  pose proof (reservations_type _ (inv_schema _ Hinv) _ _ Hr) as Hty. simpl in Hty.
  destruct (bool_decide (Reservation_ReservationType r = ReservationTypeQuantity)) eqn:Eq; to_prop.
  - eapply wp_mono, move_items_wp; eauto. intros [b|e|] [db1 saved1]; cbn [fst snd]; [|done..].
    intros (-> & Hs & m & ts & Hm & ->). split_and!; [done..|].
    exists m, ts, ts. split; [done|]. rewrite (update_where_none (rseat_of_reservation _)) by
      eauto using quantity_no_rseats. done.
  - destruct (bool_decide (Reservation_ReservationType r = ReservationTypeSeats)) eqn:Es; to_prop.
    2: { exfalso. unfold ck_reservation_type in Hty.
         apply orb_true_iff in Hty as [Hty|Hty]; to_prop; done. }
    apply wp_wrapf_sql; [done|]. intros ctx _ _. cbn [fst snd].
    unfold UpdateReservationSeatsStatus.
    edestruct (update_seat_rows_ok ctx db) as [Heq Hs]; [apply Hinv|exact Hck| |rewrite Heq].
    { intros s [_ Hsel]%andb_true_iff. to_prop. unfold active_seat. by rewrite Hsel. }
    split; [done|]. split; [done|]. exists (ticket_types db), (ctx_now ctx), (ctx_now ctx). split.
    + eapply stock_moved_ext; [|apply stock_moved_refl]. intros k. symmetry.
      by eapply seats_held_zero.
    + rewrite (update_where_none (of_reservation _)) by eauto using seats_no_items.
      unfold set_reservation_items, set_reservation_seats, set_ticket_types. simpl. f_equal.
      apply update_where_ext. intros k s Hk. unfold rseat_of_reservation.
      destruct (bool_decide (ReservationSeat_ReservationID s = _)) eqn:E; [|done]. to_prop.
      destruct (rseats_follow _ (inv_lifecycle _ Hinv) k s Hk) as (r' & p & Hr' & _ & Hs0 & _).
      rewrite E, Hr in Hr'. simplify_eq. rewrite Hs0, Hst. by rewrite bool_decide_eq_true_2.
Qed.

Lemma locked_transition_wp body items_text seats_text mark_text status r db saved :
  moves_item (status ==? StatusConfirmed) body -> final_status status -> db_inv db ->
  reservations db !! Reservation_ID r = Some r -> Reservation_Status r = StatusReserved ->
  wp a (locked_transition body items_text seats_text mark_text status r)
    (transition_post status r db saved) (db, saved).
Proof.
  intros Hbody Hf Hinv Hr Hst. apply wp_bind.
  eapply wp_mono, transition_rows_wp; eauto.
  intros [b|e|] [db1 saved1]; cbn [fst snd]; [|by intros [-> ?]..].
  intros (-> & Hs & m & ts & ts' & Hm & ->). apply wp_wrapf_sql; [done|].
  intros ctx _ _. cbn [fst snd].
  pose proof (UpdateReservationStatus_ok ctx _ (Reservation_ID r) status Hs (final_ck _ Hf)) as Hok.
  destruct (UpdateReservationStatus _ _ _ _) as [e|[r' db']].
  - destruct Hok as [_ Hnone]. simpl in Hnone. congruence.
  - destruct Hok as (r0 & Hr0 & -> & -> & Hs'). simpl in Hr0. simplify_eq.
    split; [done|]. split; [eauto|]. split; [|done]. split; simpl; eauto 6.
Qed.

Lemma cancelLocked_wp r db saved :
  db_inv db -> reservations db !! Reservation_ID r = Some r ->
  Reservation_Status r = StatusReserved ->
  wp a (cancelLockedReservation r) (transition_post StatusCancelled r db saved) (db, saved).
Proof.
  intros. apply (locked_transition_wp release_item); [apply release_item_moves| |done..].
  right. by left.
Qed.

Lemma expireLocked_wp r db saved :
  db_inv db -> reservations db !! Reservation_ID r = Some r ->
  Reservation_Status r = StatusReserved ->
  wp a (expireLockedReservation r) (transition_post StatusExpired r db saved) (db, saved).
Proof.
  intros. apply (locked_transition_wp release_item); [apply release_item_moves| |done..].
  right. by right.
Qed.

Lemma confirmLocked_wp r db saved :
  db_inv db -> reservations db !! Reservation_ID r = Some r ->
  Reservation_Status r = StatusReserved ->
  wp a (confirmLockedReservation r) (transition_post StatusConfirmed r db saved) (db, saved).
Proof.
  intros. apply (locked_transition_wp confirm_item); [apply confirm_item_moves| |done..].
  by left.
Qed.
End lifecycle.
