(* ===== verification/Settlement.v ===== *)
(** * CancelReservation, ConfirmReservation, GetReservation and the worker's batch

    What the operations on existing reservations answer and do, for any
    environment: the outcomes of the two lifecycle operations as the inductive
    specification [settled], the batch of expirations as a sequence of
    transitions. *)

From S2P Require Import Prelude GoRuntime DbTypes Schema Prog Wp SqlcReservations ReservationService Inventory Lifecycle.
Local Open Scope string_scope.
Local Open Scope list_scope.
Local Open Scope Z_scope.

(** ** Specifications *)

(** The response that shows reservation [r] as the tables hold it. *)
Definition response_of (db : Database) (r : Reservation) : ReservationResponse :=
  MkReservationResponse (UUIDToString (Reservation_ID r)) (Reservation_Status r)
    (Reservation_ReservationType r) (TimestamptzToTime (Reservation_ExpiresAt r))
    (if Reservation_ReservationType r ==? ReservationTypeQuantity then
       item_detail <$> items_of (Reservation_ID r) db
     else [])
    (if Reservation_ReservationType r ==? ReservationTypeQuantity then []
     else seat_detail <$> select
       (fun s => ReservationSeat_ReservationID s ==? Reservation_ID r)
       (by_key (fun s => uuid_bytes (ReservationSeat_SeatID s) ++
                         uuid_bytes (ReservationSeat_ID s)))
       (reservation_seats db)).

(** No reservation [rid] that the session may see. *)
Definition invisible (vs : VisitorSession) (rid : UUID) (db : Database) : Prop :=
  forall r, reservations db !! rid = Some r -> canAccessReservation r vs = false.

(** What settling reservation [rid] to [target] answers and does: nothing when
    it already is [target], a refusal when it is in another final status, the
    transition when it is reserved and within its deadline, and the transition
    to expired together with a refusal when it is overdue. *)
Inductive settled (clock : Z -> bool) (target : string) (cannot : sentinel)
    (vs : VisitorSession) (rid : UUID) (db : Database)
    : ReservationResponse * option error -> Database -> Prop :=
  | settled_already r :
      reservations db !! rid = Some r -> canAccessReservation r vs = true ->
      Reservation_Status r = target ->
      settled clock target cannot vs rid db (response_of db r, None) db
  | settled_otherwise r :
      reservations db !! rid = Some r -> canAccessReservation r vs = true ->
      final_status (Reservation_Status r) -> Reservation_Status r <> target ->
      settled clock target cannot vs rid db (response_of db r, Some (Sentinel cannot)) db
  | settled_now r now db' ts :
      reservations db !! rid = Some r -> canAccessReservation r vs = true ->
      Reservation_Status r = StatusReserved -> clock now = true ->
      reservationExpired r now = false ->
      transitioned target rid db db' -> schema_ok db' ->
      settled clock target cannot vs rid db
        (response_of db' (with_reservation_status target ts r), None) db'
  | settled_overdue r now db' ts :
      reservations db !! rid = Some r -> canAccessReservation r vs = true ->
      Reservation_Status r = StatusReserved -> clock now = true ->
      reservationExpired r now = true ->
      transitioned StatusExpired rid db db' -> schema_ok db' ->
      settled clock target cannot vs rid db
        (response_of db' (with_reservation_status StatusExpired ts r),
         Some (Sentinel cannot)) db'.

(** One expiration the worker performs at clock reading [now]. *)
Definition expired_at `{Pgtype} (now : Z) (db db' : Database) : Prop :=
  exists rid r, reservations db !! rid = Some r /\
    overdue (MkTs now true) r = true /\
    transitioned StatusExpired rid db db' /\ schema_ok db'.

Section settlement.
Context `{Pgtype}.
Variable a : assm.

(** ** Reading *)

Lemma buildReservationResponse_wp r db saved :
  ck_reservation_type (Reservation_ReservationType r) = true ->
  wp a (buildReservationResponse r) (fun res σ' => σ' = (db, saved) /\
    match res with
    | Ok resp => resp = response_of db r
    | Err e => faulty a e
    | Panicked => False
    end) (db, saved).
Proof.
  intros Hty. unfold buildReservationResponse, response_of.
  destruct (bool_decide (Reservation_ReservationType r = ReservationTypeQuantity)) eqn:Eq.
  - apply wp_bind, wp_wrapf_sql; [done|]. by intros ctx _ _.
  - destruct (bool_decide (Reservation_ReservationType r = ReservationTypeSeats)) eqn:Es.
    + apply wp_bind, wp_wrapf_sql; [done|]. by intros ctx _ _.
    + unfold ck_reservation_type in Hty. by rewrite Eq, Es in Hty.
Qed.

Lemma respond_wp r terr db saved :
  ck_reservation_type (Reservation_ReservationType r) = true ->
  wp a (respond r terr) (fun res σ' => σ' = (db, saved) /\
    match res with
    | Ok out => out = (response_of db r, terr)
    | Err e => faulty a e
    | Panicked => False
    end) (db, saved).
Proof.
  intros Hty. apply wp_bind. eapply wp_mono, buildReservationResponse_wp; [|done].
  intros [resp|e|] σ'; [|done..]. by intros [-> ->].
Qed.

Lemma lockReservation_wp vs rid db saved :
  wp a (lockReservation vs rid) (fun res σ' => σ' = (db, saved) /\
    match res with
    | Ok r => reservations db !! rid = Some r /\ canAccessReservation r vs = true
    | Err e => faulty a e \/ (e = Sentinel ErrReservationNotFound /\ invisible vs rid db)
    | Panicked => False
    end) (db, saved).
Proof.
  apply wp_try_sql.
  - intros e [Hq He]. rewrite (fault_err_rows _ He). split; [done|]. left. repeat constructor; auto.
  - intros ctx _ _. cbn [fst snd LockReservationForUpdate reading one].
    unfold LockReservationForUpdate, reading.
    destruct (reservations db !! rid) as [r|] eqn:Hr; simpl one; cbv iota beta.
    + destruct (canAccessReservation r vs) eqn:Ha; simpl; [done|].
      split; [done|]. right. split; [done|]. intros r'. congruence.
    + split; [done|]. right. split; [done|]. intros r'. congruence.
Qed.

(** ** Settling *)

(** The common shape of the two callbacks. *)
Definition settleTx (locked : Reservation -> prog Reservation) (target other : string)
    (cannot : sentinel) (vs : VisitorSession) (rid : UUID)
    : prog (ReservationResponse * option error) :=
  let* reservation := lockReservation vs rid in
  let status := Reservation_Status reservation in
  if status ==? target then respond reservation None
  else if (status ==? other) || (status ==? StatusExpired) then
    respond reservation (Some (Sentinel cannot))
  else if status ==? StatusReserved then
    let* now := time_Now in
    if reservationExpired reservation now then
      let* updated := expireLockedReservation reservation in
      respond updated (Some (Sentinel cannot))
    else
      let* updated := locked reservation in
      respond updated None
  else Fail (Sentinel ErrReservationInvariantBroken).

(** The outcome of settling, transaction included or not. *)
Definition settle_post (target : string) (cannot : sentinel) (vs : VisitorSession) (rid : UUID)
    (db : Database) (res : res (ReservationResponse * option error)) (db' : Database) : Prop :=
  match res with
  | Ok out => settled (clock_ok a) target cannot vs rid db out db'
  | Err e => faulty a e \/ (e = Sentinel ErrReservationNotFound /\ invisible vs rid db)
  | Panicked => False
  end.

(** A failed call passes its error on. *)
Ltac passes := intros [-> ?]; split; [done|first [done|by left]].

(** A transition followed by the response. *)
Lemma transition_respond_wp status terr r db saved p (Q : _ -> St -> Prop) :
  wp a p (transition_post a status r db saved) (db, saved) ->
  ck_reservation_type (Reservation_ReservationType r) = true ->
  (forall e σ', σ'.2 = saved -> faulty a e -> Q (Err e) σ') ->
  (forall ts db', transitioned status (Reservation_ID r) db db' -> schema_ok db' ->
     Q (Ok (response_of db' (with_reservation_status status ts r), terr)) (db', saved)) ->
  wp a (let* updated := p in respond updated terr) Q (db, saved).
Proof.
  intros Hp Hty Hfail HQ. apply wp_bind. eapply wp_mono, Hp.
  intros [r'|e|] [db' saved']; unfold transition_post; cbn [fst snd]; [|by intros [-> ?]; auto..].
  intros (-> & (ts & ->) & Htr & Hs). eapply wp_mono, respond_wp; [|exact Hty].
  intros [out|e|] σ'; [|by intros [-> ?]; auto..]. intros [-> ->]. auto.
Qed.

Lemma settleTx_wp locked target other cannot vs rid db saved :
  (forall r, reservations db !! Reservation_ID r = Some r ->
     Reservation_Status r = StatusReserved ->
     wp a (locked r) (transition_post a target r db saved) (db, saved)) ->
  db_inv db -> final_status target -> other <> target -> target <> StatusExpired ->
  (forall s, final_status s <-> s = target \/ s = other \/ s = StatusExpired) ->
  wp a (settleTx locked target other cannot vs rid) (fun res σ' =>
    σ'.2 = saved /\ settle_post target cannot vs rid db res σ'.1) (db, saved).
Proof.
  intros Hlocked Hinv Hf Hot Hte Hfinal. apply wp_bind. eapply wp_mono, lockReservation_wp.
  intros [r|e|] σ'; [|by intros [-> ?]..]. intros (-> & Hr & Hacc). cbv beta iota zeta.
  pose proof (reservations_type _ (inv_schema _ Hinv) _ _ Hr) as Hty. simpl in Hty.
  pose proof (reservations_status _ (inv_schema _ Hinv) _ _ Hr) as Hck. simpl in Hck.
  pose proof (reservations_keyed _ (inv_schema _ Hinv) _ _ Hr) as [HID _].
  pose proof (final_not_reserved _ Hf) as Hnr.
  destruct (bool_decide (Reservation_Status r = target)) eqn:E1; to_prop.
  { eapply wp_mono, respond_wp; [|done]. intros [out|e|] σ'; [|passes..].
    intros [-> ->]. split; [done|]. by constructor. }
  destruct (_ || _) eqn:E2.
  { eapply wp_mono, respond_wp; [|done]. intros [out|e|] σ'; [|passes..].
    intros [-> ->]. split; [done|]. constructor; try done. apply Hfinal.
    apply orb_true_iff in E2 as [E2|E2]; to_prop; auto. }
  to_prop. destruct (bool_decide (Reservation_Status r = StatusReserved)) eqn:E3; to_prop.
  2: { exfalso. assert (Hfr : final_status (Reservation_Status r)).
       { unfold ck_status in Hck. repeat (apply orb_true_iff in Hck as [Hck|Hck]);
           to_prop; [done|left|right; left|right; right]; done. }
       apply Hfinal in Hfr as [?|[?|?]]; done. }
  apply wp_bind, wp_time_Now. intros now Hnow. rewrite <- HID in Hr.
  destruct (reservationExpired r now) eqn:E4.
  - eapply transition_respond_wp; [by apply expireLocked_wp|done|intros e σ' ? ?; by split; [|left]|].
    intros ts db' Htr Hs. split; [done|]. rewrite HID in *. by eapply settled_overdue.
  - eapply transition_respond_wp; [by apply Hlocked|done|intros e σ' ? ?; by split; [|left]|].
    intros ts db' Htr Hs. split; [done|]. rewrite HID in *. by eapply settled_now.
Qed.

Lemma cancelTx_wp vs rid db saved :
  db_inv db ->
  wp a (cancelTx vs rid) (fun res σ' => σ'.2 = saved /\
    settle_post StatusCancelled ErrReservationCannotCancel vs rid db res σ'.1) (db, saved).
Proof.
  intros Hinv. apply (settleTx_wp cancelLockedReservation _ StatusConfirmed); try done.
  - intros r. by apply cancelLocked_wp.
  - right. by left.
  - unfold final_status. intros s. tauto.
Qed.

Lemma confirmTx_wp vs rid db saved :
  db_inv db ->
  wp a (confirmTx vs rid) (fun res σ' => σ'.2 = saved /\
    settle_post StatusConfirmed ErrReservationCannotConfirm vs rid db res σ'.1) (db, saved).
Proof.
  intros Hinv. apply (settleTx_wp confirmLockedReservation _ StatusCancelled); try done.
  - intros r. by apply confirmLocked_wp.
  - by left.
Qed.

(** In its transaction: an interrupted commit may or may not have settled. *)
Definition settleOp_post (target : string) (cannot : sentinel) (vs : VisitorSession)
    (rid : UUID) (db : Database) (res : res (ReservationResponse * option error)) (σ : St)
    : Prop :=
  σ.2 = None /\
  match res with
  | Err e => (faulty a e /\ (σ.1 = db \/ exists out, settled (clock_ok a) target cannot vs rid db out σ.1))
      \/ (e = Sentinel ErrReservationNotFound /\ invisible vs rid db /\ σ.1 = db)
  | _ => settle_post target cannot vs rid db res σ.1
  end.

Lemma settle_WithTx p target cannot vs rid db :
  (forall saved, wp a p (fun res σ' => σ'.2 = saved /\
     settle_post target cannot vs rid db res σ'.1) (db, saved)) ->
  wp a (WithTx p) (settleOp_post target cannot vs rid db) (db, None).
Proof.
  intros Hp. apply wp_WithTx.
  - intros e He. split; [done|]. by left; auto.
  - eapply wp_mono, Hp. intros [out|e|] [db' saved']; cbn [fst snd]; [|
      intros [-> Hpost]; split; [done|]..].
    + intros [-> Hset]. split; [done|]. split; [by split|].
      intros e He. split; [done|]. left. eauto.
    + split; [done|]. cbn [fst]. destruct Hpost as [He|[-> Hv]]; [left|right]; auto.
    + done.
Qed.

Lemma CancelReservation_wp vs rid db :
  db_inv db ->
  wp a (CancelReservation vs rid)
    (settleOp_post StatusCancelled ErrReservationCannotCancel vs rid db) (db, None).
Proof. intros Hinv. apply settle_WithTx. intros saved. by apply cancelTx_wp. Qed.

Lemma ConfirmReservation_wp vs rid db :
  db_inv db ->
  wp a (ConfirmReservation vs rid)
    (settleOp_post StatusConfirmed ErrReservationCannotConfirm vs rid db) (db, None).
Proof. intros Hinv. apply settle_WithTx. intros saved. by apply confirmTx_wp. Qed.

Lemma GetReservation_wp vs rid db :
  db_inv db ->
  wp a (GetReservation vs rid) (fun res σ' => σ' = (db, None) /\
    match res with
    | Ok resp => exists r, reservations db !! rid = Some r /\
        canAccessReservation r vs = true /\ resp = response_of db r
    | Err e => faulty a e \/ (e = Sentinel ErrReservationNotFound /\ invisible vs rid db)
    | Panicked => False
    end) (db, None).
Proof.
  intros Hinv. apply wp_try_sql.
  - intros e [Hq He]. rewrite (fault_err_rows _ He). split; [done|]. left. repeat constructor; auto.
  - intros ctx _ _. cbn [fst snd]. unfold GetReservationByID, reading.
    destruct (reservations db !! rid) as [r|] eqn:Hr; simpl one; cbv iota beta.
    + destruct (canAccessReservation r vs) eqn:Hacc; simpl.
      * apply wp_wrapf. eapply wp_mono, buildReservationResponse_wp.
        -- intros [resp|e|] σ'; [intros [-> ->]|intros [-> [? ?]]|by intros [_ []]].
           ++ split; [done|]. eauto.
           ++ split; [done|]. left. by repeat constructor.
        -- exact (reservations_type _ (inv_schema _ Hinv) _ _ Hr).
      * split; [done|]. right. split; [done|]. intros r'. congruence.
    + split; [done|]. right. split; [done|]. intros r'. congruence.
Qed.

(** ** The worker's batch *)

Definition overdue_list (now : Z) (db : Database) : list Reservation :=
  select (overdue (MkTs now true)) expiry_le (reservations db).

Definition overdue_count (now : Z) (db : Database) : nat := length (overdue_list now db).

(** The overdue reservations that no other transaction has locked. *)
Definition unlocked_overdue (now : Z) (skip : list UUID) (db : Database) : list Reservation :=
  select (fun r => overdue (MkTs now true) r && bool_decide (Reservation_ID r ∉ skip))
    expiry_le (reservations db).

Lemma unlocked_overdue_nil now db : unlocked_overdue now [] db = overdue_list now db.
Proof. apply select_ext. intros k r _. by rewrite bool_decide_eq_true_2, andb_true_r by set_solver. Qed.

(** What a batch at clock reading [now] has done when it returns [n], if it had
    to pass over the reservations [skip]. *)
Record batch_done (now : Z) (skip : list UUID) (batchSize n : Z) (db db' : Database) : Prop := {
  batch_count : n = Z.of_nat (length (take (Z.to_nat batchSize) (unlocked_overdue now skip db)));
  batch_steps : nsteps (expired_at now) (Z.to_nat n) db db';
  batch_rows : forall k r', reservations db' !! k = Some r' ->
    exists r, reservations db !! k = Some r /\
      ((r ∈ take (Z.to_nat batchSize) (unlocked_overdue now skip db) /\
        exists ts, r' = with_reservation_status StatusExpired ts r) \/
       ((r ∉ take (Z.to_nat batchSize) (unlocked_overdue now skip db)) /\ r' = r));
}.

Definition batch_post (batchSize : Z) (db : Database) (res : res Z) (db' : Database) : Prop :=
  match res with
  | Ok n => exists now skip, clock_ok a now = true /\ (quiet a = true -> skip = []) /\
      batch_done now skip batchSize n db db'
  | Err e => faulty a e
  | Panicked => False
  end.

Lemma expired_at_inv now db db' : db_inv db -> expired_at now db db' -> db_inv db'.
Proof.
  intros Hinv (rid & r & _ & _ & Htr & Hs). eapply transitioned_inv; eauto. right. by right.
Qed.

Lemma nsteps_expired_inv now n db db' :
  nsteps (expired_at now) n db db' -> db_inv db -> db_inv db'.
Proof. induction 1; eauto using expired_at_inv. Qed.

(** The invariant of the loop: the rows of the processed prefix are expired,
    the others are as at the start. *)
Definition batch_inv (now : Z) (db : Database) (saved : option Database)
    (dn : list Reservation) (processed : Z) (σ : St) : Prop :=
  σ.2 = saved /\ processed = Z.of_nat (length dn) /\ nsteps (expired_at now) (length dn) db σ.1 /\
  forall k r', reservations σ.1 !! k = Some r' ->
    exists r, reservations db !! k = Some r /\
      ((r ∈ dn /\ exists ts, r' = with_reservation_status StatusExpired ts r) \/
       ((r ∉ dn) /\ r' = r)).

Lemma transitioned_lookup status rid db db' k :
  transitioned status rid db db' -> is_Some (reservations db !! k) <-> is_Some (reservations db' !! k).
Proof.
  intros Htr. destruct (transitioned_header _ _ _ _ Htr) as (r & ts & Hr & _ & Hk).
  rewrite Hk. destruct (bool_decide (k = rid)) eqn:E; to_prop; [subst|done].
  rewrite Hr. split; eauto.
Qed.

Lemma expired_steps_lookup now n db db' k :
  nsteps (expired_at now) n db db' ->
  is_Some (reservations db !! k) -> is_Some (reservations db' !! k).
Proof.
  induction 1 as [|m db0 db1 db2 (rid & r & _ & _ & Htr & _) _ IH]; [done|].
  intros Hk. by apply IH, (transitioned_lookup _ _ _ _ k Htr).
Qed.

Lemma batch_lookup now db saved dn n σ r :
  batch_inv now db saved dn n σ -> reservations db !! Reservation_ID r = Some r ->
  r ∉ dn -> reservations σ.1 !! Reservation_ID r = Some r.
Proof.
  intros (_ & _ & Hsteps & Hrows) Hr Hnin.
  destruct (expired_steps_lookup _ _ _ _ (Reservation_ID r) Hsteps) as [r' Hr']; [eauto|].
  rewrite Hr'. destruct (Hrows _ _ Hr') as (r0 & Hr0 & Hcase). simplify_eq.
  by destruct Hcase as [[? _]|[_ ->]].
Qed.

Lemma batch_step_wp now db saved dn r rest processed σ :
  db_inv db -> NoDup (dn ++ r :: rest) ->
  reservations db !! Reservation_ID r = Some r -> overdue (MkTs now true) r = true ->
  batch_inv now db saved dn processed σ ->
  wp a (let* _ := expireLockedReservation r in Ret (processed + 1))
    (fun res σ' => match res with
       | Ok n => batch_inv now db saved (dn ++ [r]) n σ'
       | Err e => σ'.2 = saved /\ faulty a e
       | Panicked => False
       end) σ.
Proof.
  intros Hinv Hnd Hr Hover HI.
  assert (Hnin : r ∉ dn).
  { apply NoDup_app in Hnd as (_ & Hd & _). intros Hin. apply (Hd r Hin). by left. }
  pose proof (batch_lookup _ _ _ _ _ _ _ HI Hr Hnin) as Hr1.
  destruct σ as [db1 saved1]. destruct HI as (Hsv & Hn & Hsteps & Hrows). cbn [fst snd] in *. subst.
  assert (Hst : Reservation_Status r = StatusReserved).
  { unfold overdue in Hover. by to_prop. }
  apply wp_bind. eapply wp_mono, expireLocked_wp; [|by eapply nsteps_expired_inv|done|done].
  intros [r2|e|] [db2 saved2]; unfold transition_post; cbn [fst snd]; [|by intros [? ?]..].
  intros (-> & _ & Htr & Hs). split; [done|].
  destruct (transitioned_header _ _ _ _ Htr) as (r0 & ts & Hr0 & _ & Hk). simplify_eq.
  split; [rewrite length_app; simpl; lia|]. split.
  { rewrite length_app, Nat.add_comm. simpl. eapply nsteps_r; [done|].
    exists (Reservation_ID r), r. done. }
  intros k r'. cbn [fst]. rewrite Hk. destruct (bool_decide (k = Reservation_ID r)) eqn:E; to_prop.
  - intros [= <-]. subst. exists r. split; [done|]. left.
    split; [apply elem_of_app; right; by left|eauto].
  - intros Hk'. destruct (Hrows _ _ Hk') as (r1 & Hr1' & Hcase). exists r1. split; [done|].
    destruct Hcase as [[? ?]|[? ->]]; [left; split; [by apply elem_of_app; left|done]|].
    right. split; [|done]. intros [?|Heq]%elem_of_app; [done|].
    apply list_elem_of_singleton in Heq as ->.
    apply E. symmetry. apply (reservations_keyed _ (inv_schema _ Hinv) _ _ Hr1').
Qed.

Lemma expireBatchTx_wp batchSize db saved :
  db_inv db ->
  wp a (expireBatchTx batchSize)
    (fun res σ' => σ'.2 = saved /\ batch_post batchSize db res σ'.1) (db, saved).
Proof.
  intros Hinv. apply wp_bind, wp_time_Now. intros now Hnow. cbv beta iota.
  apply wp_bind, wp_wrapf_sql; [done|]. intros ctx _ Hctx. cbn [fst snd reading].
  unfold ListExpiredReservationsForUpdate, reading. cbn [fst snd].
  set (skip := ctx_skip ctx). change (select _ _ _) with (unlocked_overdue now skip db).
  assert (Hnd : NoDup (take (Z.to_nat batchSize) (unlocked_overdue now skip db))).
  { eapply sublist_NoDup, sublist_take. apply (NoDup_fmap_1 Reservation_ID).
    apply select_ids_NoDup, (inv_schema _ Hinv). }
  assert (Hin : forall r, r ∈ take (Z.to_nat batchSize) (unlocked_overdue now skip db) ->
    reservations db !! Reservation_ID r = Some r /\ overdue (MkTs now true) r = true).
  { intros r Hr. assert (Hsel : r ∈ unlocked_overdue now skip db)
      by (by eapply elem_of_sublist, sublist_take).
    apply (elem_of_select_key Reservation_ID) in Hsel as [Hk Hsel]; [|apply (inv_schema _ Hinv)].
    by apply andb_true_iff in Hsel as [Hov _]. }
  eapply (wp_for_each a _ _ _ (batch_inv now db saved)).
  - split_and!; [done..|constructor|]. intros k r' Hk. exists r'. split; [done|]. right.
    split; [apply not_elem_of_nil|done].
  - intros dn r rest n σ Hl HI. rewrite Hl in Hnd, Hin.
    destruct (Hin r) as [Hr Hover]; [apply elem_of_app; right; by left|].
    eapply wp_mono, batch_step_wp; eauto. intros [m|e|] σ'; done.
  - intros n [db' saved'] (-> & -> & Hsteps & Hrows). split; [done|]. exists now, skip.
    split; [done|]. split; [by apply (undisturbed_skip _ db)|]. split; [done| |done]. by rewrite Nat2Z.id.
Qed.

(** Each expiration takes one reservation off the overdue ones. *)
Lemma overdue_count_sum now db :
  Z.of_nat (overdue_count now db) =
  map_sum (fun r => if overdue (MkTs now true) r then 1 else 0) (reservations db).
Proof.
  unfold overdue_count, overdue_list. rewrite <- (select_sum (fun _ => 1) _ expiry_le).
  generalize (select (overdue (MkTs now true)) expiry_le (reservations db)).
  intros l. induction l as [|r l IH]; [done|]. rewrite fmap_cons, Zsum_cons. simpl length. lia.
Qed.

Lemma expired_at_count now db db' :
  expired_at now db db' -> overdue_count now db = S (overdue_count now db').
Proof.
  intros (rid & r & Hr & Hov & Htr & _).
  destruct (tr_header _ _ _ _ Htr) as (r0 & ts & Hr0 & _ & Hdb'). simplify_eq.
  pose proof (overdue_count_sum now db) as Hc. pose proof (overdue_count_sum now db') as Hc'.
  rewrite Hdb', (map_sum_update _ _ _ r) in Hc' by done. rewrite Hov in Hc'.
  assert (Hno : overdue (MkTs now true) (with_reservation_status StatusExpired ts r) = false) by done.
  rewrite Hno in Hc'. lia.
Qed.

Lemma expired_steps_count now n db db' :
  nsteps (expired_at now) n db db' -> overdue_count now db = (n + overdue_count now db')%nat.
Proof.
  induction 1 as [|n db0 db1 db2 Hstep _ IH]; [done|].
  rewrite (expired_at_count _ _ _ Hstep), IH. done.
Qed.

Lemma batch_done_count now b n db db' :
  0 < b -> batch_done now [] b n db db' ->
  n = Z.min b (Z.of_nat (overdue_count now db)) /\
  Z.of_nat (overdue_count now db') = Z.of_nat (overdue_count now db) - n.
Proof.
  intros Hb [Hn Hsteps _]. rewrite unlocked_overdue_nil, length_take in Hn. fold (overdue_count now db) in Hn.
  pose proof (expired_steps_count _ _ _ _ Hsteps). lia.
Qed.

(** The overdue reservations come in the order of their deadlines. *)
#[export] Instance expiry_le_trans : Transitive expiry_le.
Proof.
  intros r s t. unfold expiry_le, expiry_leb. rewrite !orb_true_iff, !andb_true_iff, !Z.ltb_lt, !Z.eqb_eq.
  intros [?|[? Hrs]] [?|[? Hst]]; [left; lia|left; lia|left; lia|right].
  split; [lia|]. by eapply lex_leb_trans.
Qed.

#[export] Instance expiry_le_total : Total expiry_le.
Proof.
  intros r s. unfold expiry_le, expiry_leb. rewrite !orb_true_iff, !andb_true_iff, !Z.ltb_lt, !Z.eqb_eq.
  destruct (Z.lt_trichotomy (Time (Reservation_ExpiresAt r)) (Time (Reservation_ExpiresAt s))) as [?|[?|?]];
    [by auto| |by auto].
  destruct (lex_leb_total (uuid_bytes (Reservation_ID r)) (uuid_bytes (Reservation_ID s))); auto.
Qed.

Lemma take_drop_ordered {X} (R : relation X) l n x y :
  StronglySorted R l -> x ∈ take n l -> y ∈ l -> y ∉ take n l -> R x y.
Proof.
  intros Hs. revert n. induction Hs as [|z l Hs IH Hz]; intros [|n] Hx Hy Hn; simpl in *;
    try by apply not_elem_of_nil in Hx.
  rewrite Forall_forall in Hz. apply not_elem_of_cons in Hn as [Hne Hn].
  apply elem_of_cons in Hy as [?|Hy]; [done|].
  apply elem_of_cons in Hx as [->|Hx]; [by apply Hz|]. by eapply IH.
Qed.
End settlement.
