(* ===== verification/Requests.v ===== *)
(** * What the request parsers and the set comparison promise

    parseSeatInput returns the requested seats without repetition in the order
    in which the database locks them, and sameUUIDSet decides equality of sets
    on the lists it is given. *)

From S2P Require Import Prelude GoRuntime DbTypes Schema Prog SqlcReservations ReservationService.
Local Open Scope string_scope.
Local Open Scope list_scope.
Local Open Scope Z_scope.

(** ** Lists of identifiers in lock order *)

Definition all_valid (l : list UUID) : Prop := forall x, x ∈ l -> Valid x = true.

#[export] Instance by_text_total : Total by_text.
Proof. intros x y. apply lex_leb_total. Qed.
#[export] Instance by_text_trans : Transitive by_text.
Proof. intros x y z. apply lex_leb_trans. Qed.

(** Sorting by textual form is sorting by bytes. *)
Lemma by_text_sorted l :
  all_valid l -> StronglySorted by_text l -> StronglySorted uuid_le l.
Proof.
  intros Hv Hs. induction Hs as [|x l Hs IH Hx]; [constructor|].
  constructor; [apply IH; intros y ?; apply Hv, elem_of_cons; by right|].
  rewrite Forall_forall in *. intros y Hy. specialize (Hx y Hy). unfold by_text in Hx.
  rewrite UUIDToString_leb in Hx; [exact Hx|apply Hv, elem_of_cons; by left|].
  apply Hv, elem_of_cons. right. done.
Qed.

(** Two sorted lists of distinct keys with the same elements are equal. *)
Lemma lock_order_unique l1 l2 :
  all_valid l1 -> all_valid l2 -> NoDup l1 -> NoDup l2 ->
  StronglySorted uuid_le l1 -> StronglySorted uuid_le l2 ->
  (forall x, x ∈ l1 <-> x ∈ l2) -> l1 = l2.
Proof.
  intros Hv1 Hv2 Hn1 Hn2 Hs1 Hs2 Hin.
  apply (sorted_unique uuid_le); [|done|done|by apply NoDup_Permutation].
  intros x y Hx Hy. apply uuid_le_antisymm. rewrite (Hv1 x Hx). symmetry. by apply Hv1.
Qed.

(** ** sameUUIDSet *)

(** On lists of non-NULL identifiers the second of which has no repetition,
    the comparison of lengths and memberships decides set equality. *)
Lemma sameUUIDSet_true left right :
  all_valid left -> all_valid right ->
  sameUUIDSet left right = true <->
  length left = length right /\ (forall x, x ∈ right -> x ∈ left).
Proof.
  intros Hl Hr. unfold sameUUIDSet. destruct (length left =? length right)%nat eqn:E; simpl.
  2: { apply Nat.eqb_neq in E. split; [done|]. by intros [? _]. }
  apply Nat.eqb_eq in E. rewrite forallb_forall. split.
  - intros Hall. split; [done|]. intros x Hx. apply list_elem_of_In in Hx as Hx'.
    specialize (Hall x Hx'). to_prop. apply elem_of_list_to_set, list_elem_of_fmap in Hall as (y & Heq & Hy).
    by rewrite (UUIDToString_inj x y (Hr x Hx) (Hl y Hy) Heq).
  - intros [_ Hsub] x Hx. apply bool_decide_eq_true, elem_of_list_to_set, list_elem_of_fmap.
    exists x. split; [done|]. by apply Hsub, list_elem_of_In.
Qed.

(** ** parseSeatInput *)

Section parse_specs.
Context `{PgtypeLaws}.

Lemma ParseUUID_valid s id : ParseUUID s = Ok id -> Valid id = true.
Proof.
  unfold ParseUUID. destruct (uuid_Scan s) eqn:E; [done|]. intros [= <-].
  by eapply uuid_Scan_valid.
Qed.

(** The loop accepts a list exactly when every string parses and no
    identifier repeats; it appends the identifiers in order. *)
Lemma parseSeatIDs_spec raw seen acc :
  (forall x, Valid x = true -> (UUIDToString x ∈ seen <-> x ∈ acc)) ->
  NoDup acc -> all_valid acc ->
  match parseSeatIDs raw seen acc with
  | Ok ids => exists new, ids = acc ++ new /\ length new = length raw /\ NoDup ids /\
      all_valid ids /\
      Forall2 (fun s id => ParseUUID (TrimSpace s) = Ok id) raw new
  | Err e => e = Sentinel ErrInvalidSeatReservation
  | Panicked => False
  end.
Proof.
  revert seen acc. induction raw as [|s raw IH]; intros seen acc Hseen Hnd Hv; simpl.
  { exists []. rewrite app_nil_r. by repeat constructor. }
  unfold parse_or. destruct (ParseUUID (TrimSpace s)) as [x|e|] eqn:Hx; [|done..].
  pose proof (ParseUUID_valid _ _ Hx) as Hxv.
  destruct (bool_decide (UUIDToString x ∈ seen)) eqn:E; [done|]. to_prop.
  assert (Hnin : x ∉ acc) by (intros ?; by apply E, Hseen).
  assert (Hseen' : forall y, Valid y = true ->
    (UUIDToString y ∈ ({[UUIDToString x]} ∪ seen : gset string) <-> y ∈ acc ++ [x])).
  { intros y Hy. rewrite elem_of_union, elem_of_singleton, elem_of_app, list_elem_of_singleton.
    rewrite (Hseen y Hy). split; intros [?|?]; auto; [|subst; auto].
    right. by apply UUIDToString_inj. }
  assert (Hnd' : NoDup (acc ++ [x])).
  { apply NoDup_app. split_and!; [done| |apply NoDup_singleton].
    by intros y Hy ->%list_elem_of_singleton. }
  assert (Hv' : all_valid (acc ++ [x])).
  { intros y [?|Hy]%elem_of_app; [auto|]. by apply list_elem_of_singleton in Hy as ->. }
  specialize (IH _ _ Hseen' Hnd' Hv'). destruct (parseSeatIDs raw _ _) as [ids|e|]; [|done..].
  destruct IH as (new & -> & Hlen & Hnd'' & Hv'' & Hall).
  exists (x :: new). rewrite <- app_assoc in *. split_and!; [done|simpl; lia|done|done|].
  by constructor.
Qed.

(** The accepted seats: parsed from the request, distinct, sorted as the
    database locks them. *)
Lemma parseSeatInput_cases input :
  match parseSeatInput input with
  | Ok (ev, sids) => ParseUUID (SReq_EventID input) = Ok ev /\ sids <> [] /\ NoDup sids /\
      all_valid sids /\ StronglySorted uuid_le sids /\
      TrimSpace (SReq_IdempotencyKey input) <> "" /\
      exists parsed, sids ≡ₚ parsed /\
        Forall2 (fun s id => ParseUUID (TrimSpace s) = Ok id) (SReq_SeatIDs input) parsed
  | Err e => e = Sentinel ErrInvalidSeatReservation
  | Panicked => False
  end.
Proof.
  unfold parseSeatInput. destruct (_ || _) eqn:E; [done|]. to_prop. apply Nat.eqb_neq in H2.
  unfold parse_or. destruct (ParseUUID (SReq_EventID input)) as [ev|e|] eqn:Hev; [|done..].
  pose proof (parseSeatIDs_spec (SReq_SeatIDs input) ∅ []
    ltac:(intros x _; split; [by intros ?%not_elem_of_empty|by intros ?%not_elem_of_nil])
    (NoDup_nil_2) ltac:(by intros x ?%not_elem_of_nil)) as Hloop.
  destruct (parseSeatIDs _ _ _) as [ids|e|]; [|done..].
  destruct Hloop as (new & -> & Hlen & Hnd & Hv & Hall). simpl in *.
  pose proof (merge_sort_Permutation by_text new) as Hperm.
  assert (Hv' : all_valid (merge_sort by_text new)) by (intros x; rewrite Hperm; apply Hv).
  split_and!; [done| |by rewrite Hperm|done| |done|by exists new].
  - intros Hnil. rewrite Hnil in Hperm. apply Permutation_length in Hperm. simpl in *. lia.
  - apply by_text_sorted; [done|]. apply StronglySorted_merge_sort; apply _.
Qed.

(** Conversely, the loop accepts every list of distinct identifiers. *)
Lemma parseSeatIDs_complete raw new seen acc :
  (forall x, Valid x = true -> UUIDToString x ∈ seen -> x ∈ acc) ->
  NoDup (acc ++ new) -> Forall2 (fun s id => ParseUUID (TrimSpace s) = Ok id) raw new ->
  parseSeatIDs raw seen acc = Ok (acc ++ new).
Proof.
  revert new seen acc. induction raw as [|s raw IH]; intros new seen acc Hseen Hnd Hall;
    inversion Hall as [|? x ? new' Hx Hall']; subst; simpl; [by rewrite app_nil_r|].
  unfold parse_or. rewrite Hx. pose proof (ParseUUID_valid _ _ Hx) as Hxv.
  rewrite bool_decide_eq_false_2.
  2: { intros Hin. apply Hseen in Hin; [|done]. apply NoDup_app in Hnd as (_ & Hd & _).
       apply (Hd x Hin). by left. }
  change (x :: new') with ([x] ++ new') in *. rewrite app_assoc in *. apply IH; [|done|done].
  intros y Hy. rewrite elem_of_union, elem_of_singleton, elem_of_app, list_elem_of_singleton.
  intros [?|?]; [right|left; auto]. by apply UUIDToString_inj.
Qed.

Lemma parsed_valid raw new :
  Forall2 (fun s id => ParseUUID (TrimSpace s) = Ok id) raw new -> all_valid new.
Proof.
  induction 1 as [|s x raw new Hx _ IH]; [by intros y ?%not_elem_of_nil|].
  intros y [->|Hy]%elem_of_cons; [by eapply ParseUUID_valid|auto].
Qed.
End parse_specs.
