(* ===== verification/Creation.v ===== *)
(** * ReserveQuantity

    What reserving units of a ticket type answers and does, for any
    environment. The inductive specification [quantity_outcome] lists every
    outcome with the condition under which it happens; [ReserveQuantity_wp]
    proves that there is no other. *)

From S2P Require Import Prelude GoRuntime DbTypes Schema Prog Wp SqlcReservations ReservationService Inventory Lifecycle.
Local Open Scope string_scope.
Local Open Scope list_scope.
Local Open Scope Z_scope.

(** ** Replays *)

(** No reservation of this type was made under the key. *)
Definition no_reservation_of (type : string) (sid : UUID) (key : string) (db : Database) : Prop :=
  forall k r, reservations db !! k = Some r -> session_key r = (sid, key) ->
    Reservation_ReservationType r <> type.

Definition made_under (type : string) (sid : UUID) (key : string) (db : Database)
    (r : Reservation) : Prop :=
  reservations db !! Reservation_ID r = Some r /\ session_key r = (sid, key) /\
  Reservation_ReservationType r = type.

(** The answer of a retry: the reservation made under the key, with its item. *)
Definition quantity_replay (sid : UUID) (key : string) (db : Database)
    (resp : QuantityReservationResponse) : Prop :=
  exists r k i, made_under ReservationTypeQuantity sid key db r /\
    reservation_items db !! k = Some i /\ ReservationItem_ReservationID i = Reservation_ID r /\
    resp = quantityRowToResponse (quantity_row r i).

Lemma session_key_unique db type type' sid key r r' :
  schema_ok db -> made_under type sid key db r -> made_under type' sid key db r' -> r = r'.
Proof.
  intros Hdb (Hr & Hk & _) (Hr' & Hk' & _).
  assert (Reservation_ID r = Reservation_ID r').
  { eapply (reservations_unique _ Hdb); eauto. congruence. }
  congruence.
Qed.

(** A key has one answer. *)
Lemma quantity_replay_unique sid key db resp resp' :
  db_inv db -> quantity_replay sid key db resp -> quantity_replay sid key db resp' -> resp = resp'.
Proof.
  intros Hinv (r & k & i & Hm & Hi & Hid & ->) (r' & k' & i' & Hm' & Hi' & Hid' & ->).
  rewrite <- (session_key_unique db _ _ _ _ _ _ (inv_schema _ Hinv) Hm Hm') in *.
  assert (k = k') as <-.
  { eapply (items_single _ (inv_lifecycle _ Hinv)); eauto. congruence. }
  by simplify_eq.
Qed.

Section creation.
Context `{Pgtype}.
Variable a : assm.

Lemma join_key_Some db sid key type rid r :
  schema_ok db ->
  join_key db sid key type rid = Some r <-> made_under type sid key db r /\ Reservation_ID r = rid.
Proof.
  intros Hdb. unfold join_key, made_under, session_key. split.
  - destruct (reservations db !! rid) as [r0|] eqn:Hr; [|done].
    destruct (_ && _) eqn:E; [|done]. intros [= <-]. to_prop.
    destruct (reservations_keyed _ Hdb _ _ Hr) as [<- _]. split_and!; congruence.
  - intros ((Hr & Hk & Hty) & <-). rewrite Hr. injection Hk as -> ->. rewrite Hty.
    by rewrite !bool_decide_eq_true_2.
Qed.

Lemma head_omap_None {X Y} (f : X -> option Y) l :
  (forall x, x ∈ l -> is_Some (f x)) -> head (omap f l) = None -> l = [].
Proof.
  intros Hf. destruct l as [|x l]; [done|]. destruct (Hf x) as [y Hy]; [by left|].
  simpl. by rewrite Hy.
Qed.

Lemma GetQuantity_ok ctx db sid key :
  db_inv db ->
  match GetQuantityReservationByIdempotencyKey sid key ctx db with
  | inl e => e = PgNoRows /\ no_reservation_of ReservationTypeQuantity sid key db
  | inr (row, db') => db' = db /\ quantity_replay sid key db (quantityRowToResponse row)
  end.
Proof.
  intros Hinv. unfold GetQuantityReservationByIdempotencyKey, reading, one.
  set (j := fun i => join_key db sid key ReservationTypeQuantity (ReservationItem_ReservationID i)).
  set (l := select _ _ _).
  destruct (head (omap _ l)) as [row|] eqn:Hhead.
  - split; [done|]. assert (Hrow : row ∈ omap (fun i => (fun r => quantity_row r i) <$> j i) l).
    { revert Hhead. destruct (omap _ l); [done|]. intros [= ->]. by left. }
    apply list_elem_of_omap in Hrow as (i & Hi & Hrow).
    apply elem_of_select in Hi as (k & Hk & _).
    destruct (j i) as [r|] eqn:Hj; [|done]. injection Hrow as <-.
    apply join_key_Some in Hj as [Hmade Hid]; [|apply Hinv]. by exists r, k, i.
  - split; [done|]. intros k r Hr Hkey Hty.
    destruct (reservations_keyed _ (inv_schema _ Hinv) _ _ Hr) as [<- _].
    destruct (headers_ok _ (inv_lifecycle _ Hinv) _ _ Hr) as (_ & Hq & _).
    destruct (Hq Hty) as (ki & i & Hi & Hid).
    assert (Hl : l = []).
    { eapply head_omap_None, Hhead. intros x (kx & _ & Hx)%elem_of_select. cbv beta in Hx.
      by destruct (join_key _ _ _ _ _) as [r0|]; [eexists|]. }
    pose proof (proj1 (select_nil _ _ _) Hl ki i Hi) as Hno. cbv beta in Hno.
    assert (Hj : j i = Some r); [|unfold j in Hj; by rewrite Hj in Hno].
    apply join_key_Some; [apply Hinv|]. by split.
Qed.

(** ** Errors the environment is responsible for *)

(** Faults, and the collisions of generated identifiers. *)
Definition hostile (e : error) : Prop :=
  quiet a = false /\ errors_Is e (Sentinel ErrReservationInvariantBroken) = false.

Lemma faulty_hostile e : faulty a e -> hostile e.
Proof. intros [Hq He]. split; [done|]. by apply fault_err_sentinel. Qed.

(** The owner of the session does not exist. *)
Definition owner_unknown (sid uid : UUID) (db : Database) : Prop :=
  visitor_sessions db !! sid = None \/ (Valid uid = true /\ users db !! uid = None).

Lemma has_row_false {V} (m : gmap UUID V) id : has_row m id = false <-> m !! id = None.
Proof. unfold has_row. by destruct (m !! id). Qed.

Lemma CreateReservation_outcome ctx db ev sid uid ty key exp :
  schema_ok db -> Valid (ctx_new_id ctx) = true ->
  (quiet a = true -> fresh_id db (ctx_new_id ctx) = true) ->
  ck_reservation_type ty = true -> is_Some (events db !! ev) ->
  match CreateReservation ev sid uid StatusReserved ty key exp ctx db with
  | inl e =>
      (e = unique_violation /\
        (session_key_free sid key (reservations db) = false \/ quiet a = false)) \/
      (e = foreign_key_violation /\ owner_unknown sid uid db)
  | inr (row, db') =>
      row = new_reservation ctx ev sid uid StatusReserved ty key exp /\
      reservations db !! ctx_new_id ctx = None /\
      session_key_free sid key (reservations db) = true /\
      db' = set_reservations (<[ctx_new_id ctx:=row]> (reservations db)) db /\
      schema_ok db'
  end.
Proof.
  intros Hdb Hv Hfresh Hty Hev.
  pose proof (CreateReservation_ok ctx db ev sid uid StatusReserved ty key exp Hdb Hv eq_refl Hty) as Hok.
  destruct (CreateReservation _ _ _ _ _ _ _ _ _) as [e|[row db']]; [|done].
  destruct Hok as [[-> [Hid|Hk]]|[-> Hfk]]; [|by auto|].
  - left. split; [done|]. right. apply not_true_iff_false. intros Hq. specialize (Hfresh Hq).
    unfold fresh_id in Hfresh. to_prop. apply absent_None in H3. rewrite H3 in Hid. by destruct Hid.
  - right. split; [done|]. apply has_row_spec in Hev. rewrite Hev in Hfk. simpl in Hfk.
    apply andb_false_iff in Hfk as [Hs|[Hu1 Hu2]%orb_false_iff].
    + left. by apply has_row_false.
    + right. split; [by apply negb_false_iff|by apply has_row_false].
Qed.

(** ** ReserveQuantity *)

(** The answer for a new reservation [rid]; the deadline is the one stored. *)
Definition quantity_receipt (rid tid : UUID) (q expiresAt : Z) : QuantityReservationResponse :=
  MkQuantityReservationResponse (UUIDToString rid) StatusReserved ReservationTypeQuantity
    (timestamptz_encode expiresAt) [MkQuantityItemResponse (UUIDToString tid) q].

(** No ticket type [tid] of event [ev] has [q] units left. *)
Definition stock_short (ev tid : UUID) (q : Z) (db : Database) : Prop :=
  forall t, ticket_types db !! tid = Some t -> TicketType_EventID t = ev -> available t < q.

Inductive quantity_outcome (vs : VisitorSession) (ev tid : UUID) (q : Z) (key : string)
    (expiresAt : Z) (db : Database) : res QuantityReservationResponse -> Database -> Prop :=
  | qo_replayed resp :
      quantity_replay (VisitorSession_ID vs) key db resp ->
      quantity_outcome vs ev tid q key expiresAt db (Ok resp) db
  | qo_reserved rid db' :
      no_reservation_of ReservationTypeQuantity (VisitorSession_ID vs) key db ->
      quantity_reserved ev (VisitorSession_ID vs) (VisitorSession_UserID vs) tid q key
        (encode_ts (MkTs expiresAt true)) rid db db' ->
      schema_ok db' ->
      quantity_outcome vs ev tid q key expiresAt db (Ok (quantity_receipt rid tid q expiresAt)) db'
  | qo_no_stock :
      no_reservation_of ReservationTypeQuantity (VisitorSession_ID vs) key db ->
      stock_short ev tid q db ->
      quantity_outcome vs ev tid q key expiresAt db (Err (Sentinel ErrInsufficientStock)) db
  | qo_key_taken :
      no_reservation_of ReservationTypeQuantity (VisitorSession_ID vs) key db ->
      session_key_free (VisitorSession_ID vs) key (reservations db) = false ->
      ~ stock_short ev tid q db ->
      quantity_outcome vs ev tid q key expiresAt db (Err (Sentinel ErrIdempotencyKeyConflict)) db
  | qo_owner_unknown :
      no_reservation_of ReservationTypeQuantity (VisitorSession_ID vs) key db ->
      owner_unknown (VisitorSession_ID vs) (VisitorSession_UserID vs) db ->
      quantity_outcome vs ev tid q key expiresAt db
        (Err (Wrapped "create reservation" foreign_key_violation)) db
  | qo_hostile e :
      hostile e -> quantity_outcome vs ev tid q key expiresAt db (Err e) db
  | qo_commit_unknown e rid db' :
      faulty a e ->
      no_reservation_of ReservationTypeQuantity (VisitorSession_ID vs) key db ->
      quantity_reserved ev (VisitorSession_ID vs) (VisitorSession_UserID vs) tid q key
        (encode_ts (MkTs expiresAt true)) rid db db' ->
      schema_ok db' ->
      quantity_outcome vs ev tid q key expiresAt db (Err e) db'.

(** The error of the callback; ErrIdempotencyReplayRequired is the caller's cue. *)
Definition quantity_tx_error (vs : VisitorSession) (ev tid : UUID) (q : Z) (key : string)
    (db : Database) (e : error) : Prop :=
  faulty a e \/
  (no_reservation_of ReservationTypeQuantity (VisitorSession_ID vs) key db /\
    (hostile e \/ (e = Sentinel ErrInsufficientStock /\ stock_short ev tid q db) \/
     (e = Sentinel ErrIdempotencyReplayRequired /\ ~ stock_short ev tid q db /\
        session_key_free (VisitorSession_ID vs) key (reservations db) = false) \/
     (e = Wrapped "create reservation" foreign_key_violation /\
        owner_unknown (VisitorSession_ID vs) (VisitorSession_UserID vs) db))).

Definition quantity_tx_post (vs : VisitorSession) (ev tid : UUID) (q : Z) (key : string)
    (expiresAt : Z) (db : Database) (res : res QuantityReservationResponse) (db' : Database)
    : Prop :=
  match res with
  | Ok resp => quantity_outcome vs ev tid q key expiresAt db (Ok resp) db' /\
      ((db' = db) \/ exists rid,
         no_reservation_of ReservationTypeQuantity (VisitorSession_ID vs) key db /\
         quantity_reserved ev (VisitorSession_ID vs) (VisitorSession_UserID vs) tid q key
           (encode_ts (MkTs expiresAt true)) rid db db' /\ schema_ok db')
  | Err e => quantity_tx_error vs ev tid q key db e
  | Panicked => False
  end.

Lemma hostile_intro e :
  quiet a = false -> errors_Is e (Sentinel ErrReservationInvariantBroken) = false -> hostile e.
Proof. by split. Qed.

(** The insertions that follow the guarded update of the ticket type. *)
Lemma quantity_inserts_wp vs ev tid q key expiresAt db saved t :
  schema_ok db -> 0 < q ->
  no_reservation_of ReservationTypeQuantity (VisitorSession_ID vs) key db ->
  ticket_types db !! tid = Some t -> TicketType_EventID t = ev -> q <= available t ->
  let db1 := set_ticket_types (<[tid:=with_counters (TicketType_SoldQuantity t)
    (TicketType_ReservedQuantity t + q) (TicketType_UpdatedAt t) t]> (ticket_types db)) db in
  schema_ok db1 ->
  wp a (let* r := try (sql (CreateReservation ev (VisitorSession_ID vs)
          (VisitorSession_UserID vs) StatusReserved ReservationTypeQuantity
          key (MkTs expiresAt true))) in
        match r with
        | inl err =>
            if isUniqueViolation err then Fail (Sentinel ErrIdempotencyReplayRequired)
            else Fail (Wrapped "create reservation" err)
        | inr reservation =>
            let* item := wrapf "create reservation item" (sql (CreateReservationItem
              (Reservation_ID reservation) tid q StatusReserved)) in
            Ret (quantityReservationToResponse reservation item)
        end)
    (fun res σ' => σ'.2 = saved /\ quantity_tx_post vs ev tid q key expiresAt db res σ'.1)
    (db1, saved).
Proof.
  intros Hdb Hq Hno Ht Hev Hav db1 Hs1. apply wp_try_sql; cbn [fst snd].
  { intros e He. destruct (isUniqueViolation e); (split; [done|]).
    - right. split; [done|]. left. apply hostile_intro; [apply He|done].
    - left. by destruct He; repeat constructor. }
  intros ctx Hv Hc0; pose proof (undisturbed_fresh _ _ _ Hc0) as Hfr; clear Hc0.
  assert (Hevent : is_Some (events db1 !! ev)).
  { subst db1. simpl. rewrite <- Hev. exact (tickets_event _ Hdb tid t Ht). }
  pose proof (CreateReservation_outcome ctx db1 ev (VisitorSession_ID vs)
    (VisitorSession_UserID vs) ReservationTypeQuantity key (MkTs expiresAt true)
    Hs1 Hv Hfr eq_refl Hevent) as Hout.
  destruct (CreateReservation _ _ _ _ _ _ _ _ _) as [e|[row db2]].
  { destruct Hout as [[-> Hk]|[-> Hown]]; simpl; (split; [done|]).
    - destruct Hk as [Hk|Hqu]; [|right; split; [done|]; left; by apply hostile_intro].
      right. split; [done|]. right; right; left. split_and!; [done| |done]. intros Hshort. specialize (Hshort t Ht Hev). lia.
    - right. split; [done|]. by right; right; right. }
  destruct Hout as (-> & Hnone & Hfree & -> & Hs2).
  apply wp_bind, wp_wrapf_sql; cbn [fst snd].
  { intros e He. split; [done|]. by left. }
  intros ctx2 Hv2 Hfr2.
  set (row := new_reservation ctx ev (VisitorSession_ID vs) (VisitorSession_UserID vs)
    StatusReserved ReservationTypeQuantity key (MkTs expiresAt true)) in *.
  pose proof (CreateReservationItem_ok ctx2 (set_reservations
    (<[ctx_new_id ctx:=row]> (reservations db1)) db1) (Reservation_ID row) tid q StatusReserved
    Hs2 Hv2 eq_refl Hq) as Hitem. simpl in Hitem. rewrite !lookup_insert_eq in Hitem.
  specialize (Hitem ltac:(eauto) ltac:(eauto)).
  destruct (CreateReservationItem _ _ _ _ _ _) as [e|[item db3]].
  { destruct Hitem as [-> Hid]. split; [done|]. right. split; [done|]. left.
    apply hostile_intro; [|done].
    apply not_true_iff_false. intros Hqu. pose proof (undisturbed_fresh _ _ _ Hfr2 Hqu) as Hid2. unfold fresh_id in Hid2. to_prop.
    simpl in *. apply absent_None in H2. rewrite H2 in Hid. by destruct Hid. }
  destruct Hitem as (-> & Hi & -> & Hs3).
  assert (Hqr : quantity_reserved ev (VisitorSession_ID vs) (VisitorSession_UserID vs) tid q key
    (encode_ts (MkTs expiresAt true)) (ctx_new_id ctx) db
    (set_reservation_items (<[ctx_new_id ctx2:=new_item ctx2 (ctx_new_id ctx) tid q StatusReserved]>
      (reservation_items db)) (set_reservations (<[ctx_new_id ctx:=row]> (reservations db1)) db1))).
  { split; [done..|]. exists t, (ctx_new_id ctx2), (ctx_now ctx), (ctx_now ctx2). by split_and!. }
  split; [done|]. split; [|eauto].
  by apply (qo_reserved _ _ _ _ _ _ _ (ctx_new_id ctx)).
Qed.

Lemma reserveQuantityTx_wp vs ev tid q key expiresAt db saved :
  db_inv db -> 0 < q ->
  wp a (reserveQuantityTx vs ev tid q key expiresAt) (fun res σ' =>
    σ'.2 = saved /\ quantity_tx_post vs ev tid q key expiresAt db res σ'.1) (db, saved).
Proof.
  intros Hinv Hq. unfold reserveQuantityTx. apply wp_try_sql; cbn [fst snd].
  { intros e He. rewrite (fault_err_rows _ (proj2 He)). split; [done|]. left.
    by destruct He; repeat constructor. }
  intros ctx _ _. pose proof (GetQuantity_ok ctx db (VisitorSession_ID vs) key Hinv) as Hget.
  destruct (GetQuantityReservationByIdempotencyKey _ _ _ _) as [e|[row db0]].
  2: { destruct Hget as [-> Hrep]. split; [done|]. split; [by constructor|by left]. }
  destruct Hget as [-> Hno]. cbn [isNoRows negb]. change (negb (isNoRows PgNoRows)) with false.
  cbv iota. apply wp_try_sql; cbn [fst snd].
  { intros e He. rewrite (fault_err_rows _ (proj2 He)). split; [done|]. left.
    by destruct He; repeat constructor. }
  intros ctx2 _ _.
  pose proof (ReserveTicketQuantity_ok ctx2 db tid ev q (inv_schema _ Hinv) Hq) as Hupd.
  destruct (ReserveTicketQuantity _ _ _ _ _) as [e|[row db1]].
  - destruct Hupd as [-> Hshort]. split; [done|]. right. split; [done|]. by right; left.
  - destruct Hupd as (t & Ht & Hev & Hav & -> & Hs1).
    apply (quantity_inserts_wp vs ev tid q key expiresAt db saved t); auto. apply Hinv.
Qed.

Lemma replayQuantity_wp sid key db saved :
  db_inv db -> no_reservation_of ReservationTypeQuantity sid key db ->
  wp a (replayQuantity sid key) (fun res σ' => σ' = (db, saved) /\
    match res with
    | Ok _ => False
    | Err e => e = Sentinel ErrIdempotencyKeyConflict \/ faulty a e
    | Panicked => False
    end) (db, saved).
Proof.
  intros Hinv Hno. apply wp_try_sql; cbn [fst snd].
  - intros e [Hq He]. rewrite (fault_err_rows _ He). split; [done|]. right. by repeat constructor.
  - intros ctx _ _. pose proof (GetQuantity_ok ctx db sid key Hinv) as Hget.
    destruct (GetQuantityReservationByIdempotencyKey _ _ _ _) as [e|[row db0]].
    + destruct Hget as [-> _]. split; [done|]. by left.
    + destruct Hget as (-> & r & k & i & (Hr & Hk & Hty) & _). by destruct (Hno _ _ Hr Hk).
Qed.

Variable reservationTTL : Z.

(** What ReserveQuantity may answer and do on [input]. *)
Inductive ReserveQuantity_outcome (vs : VisitorSession) (input : QuantityReservationRequest)
    (db : Database) : res QuantityReservationResponse -> Database -> Prop :=
  | rq_invalid :
      parseQuantityInput input = Err (Sentinel ErrInvalidQuantityReservation) ->
      ReserveQuantity_outcome vs input db (Err (Sentinel ErrInvalidQuantityReservation)) db
  | rq_valid ev tid now res db' :
      parseQuantityInput input = Ok (ev, tid) -> 0 < QReq_Quantity input ->
      clock_ok a now = true ->
      quantity_outcome vs ev tid (QReq_Quantity input) (TrimSpace (QReq_IdempotencyKey input))
        (now + reservationTTL) db res db' ->
      ReserveQuantity_outcome vs input db res db'.

Lemma parseQuantityInput_cases input :
  match parseQuantityInput input with
  | Ok _ => 0 < QReq_Quantity input /\ TrimSpace (QReq_IdempotencyKey input) <> ""
  | Err e => e = Sentinel ErrInvalidQuantityReservation
  | Panicked => False
  end.
Proof.
  unfold parseQuantityInput, parse_or. destruct (_ || _) eqn:E; [done|]. to_prop.
  repeat (match goal with |- context [ParseUUID ?v] => destruct (ParseUUID v) end; try done).
Qed.

Lemma ReserveQuantity_wp vs input db :
  db_inv db ->
  wp a (ReserveQuantity reservationTTL vs input) (fun res σ' =>
    σ'.2 = None /\ ReserveQuantity_outcome vs input db res σ'.1) (db, None).
Proof.
  intros Hinv. unfold ReserveQuantity. pose proof (parseQuantityInput_cases input) as Hin.
  destruct (parseQuantityInput input) as [[ev tid]|e|] eqn:Hparse; [|subst|done].
  2: { split; [done|]. by constructor. }
  destruct Hin as [Hq _]. cbn [of_res bind]. apply wp_bind, wp_time_Now. intros now Hnow.
  cbv beta iota zeta. set (key := TrimSpace _).
  apply wp_bind, wp_try, wp_WithTx.
  { intros e He. rewrite (fault_err_sentinel _ _ (proj2 He)). split; [done|].
    eapply rq_valid; [done..|]. by apply qo_hostile, faulty_hostile. }
  eapply wp_mono, reserveQuantityTx_wp; [|done..].
  intros [resp|e|] [db' saved']; cbn [fst snd]; [intros [-> [Hok Hdb']]|intros [-> He]|by intros [_ []]];
    (split; [done|]).
  - split; [split; [done|]; by eapply rq_valid|]. intros e He.
    rewrite (fault_err_sentinel _ _ (proj2 He)). split; [done|]. eapply rq_valid; [done..|].
    destruct Hdb' as [->|(rid & Hno & Hqr & Hs)]; [by apply qo_hostile, faulty_hostile|].
    by eapply qo_commit_unknown.
  - destruct He as [He|[Hno He]].
    { rewrite (fault_err_sentinel _ _ (proj2 He)). split; [done|].
      eapply rq_valid; [done..|]. by apply qo_hostile, faulty_hostile. }
    destruct (errors_Is e (Sentinel ErrIdempotencyReplayRequired)) eqn:Eis.
    + eapply wp_mono, replayQuantity_wp; [|done..].
      intros [resp|e'|] σ'; intros [-> He']; [done| |done]. split; [done|].
      eapply rq_valid; [done..|].
      destruct He' as [->|He']; [|by apply qo_hostile, faulty_hostile].
      destruct He as [[Hqu _]|[[-> _]|[(-> & Hst & Hk)|[-> _]]]]; [|done| |done].
      * by apply qo_hostile, hostile_intro.
      * by apply qo_key_taken.
    + split; [done|]. eapply rq_valid; [done..|].
      destruct He as [He|[[-> Hst]|[(-> & _)|[-> Hown]]]].
      * by apply qo_hostile.
      * by apply qo_no_stock.
      * done.
      * by apply qo_owner_unknown.
Qed.

(** A retry of the request that made a reservation gets its receipt. *)
Lemma quantity_reserved_replay ev sid uid tid q key expiresAt rid db db' :
  schema_ok db -> schema_ok db' ->
  quantity_reserved ev sid uid tid q key (encode_ts (MkTs expiresAt true)) rid db db' ->
  quantity_replay sid key db' (quantity_receipt rid tid q expiresAt).
Proof.
  intros Hdb Hdb' [_ _ _ _ (t & iid & ts & ts' & _ & _ & _ & Hiid & ->)].
  eexists _, iid, _. simpl. rewrite !lookup_insert_eq. split; [|split; [done|]].
  - split; [apply lookup_insert_eq|]. done.
  - done.
Qed.

(** Whatever is answered is the answer of a retry. *)
Lemma quantity_outcome_replay vs ev tid q key exp db resp db' :
  schema_ok db -> quantity_outcome vs ev tid q key exp db (Ok resp) db' ->
  quantity_replay (VisitorSession_ID vs) key db' resp.
Proof. intros Hdb Hout. inversion Hout; subst; [done|]. by eapply quantity_reserved_replay; [exact Hdb|..]. Qed.
End creation.
