(* ===== verification/SeatCreation.v ===== *)
(** * ReserveSeats

    The seats are locked in the order of their identifiers, the overdue holds
    on them expire, and each seat gets a row that the partial unique index
    admits only if nobody else holds it. [seats_outcome] lists the outcomes. *)

From S2P Require Import Prelude GoRuntime DbTypes Schema Prog Wp SqlcReservations ReservationService Inventory Lifecycle Requests Creation.
Local Open Scope string_scope.
Local Open Scope list_scope.
Local Open Scope Z_scope.

(** ** What the tables say about seats *)

(** The seat rows of a reservation, in the order a replay shows them. *)
Definition seats_of (rid : UUID) (db : Database) : list ReservationSeat :=
  select (fun s => ReservationSeat_ReservationID s ==? rid)
    (by_key (fun s => uuid_bytes (ReservationSeat_SeatID s))) (reservation_seats db).

(** The answer of a retry: the reservation made under the key, with its seats. *)
Definition seats_replay (sid : UUID) (key : string) (db : Database)
    (resp : SeatReservationResponse) : Prop :=
  exists r, made_under ReservationTypeSeats sid key db r /\
    resp = seatReservationToResponse r (seats_of (Reservation_ID r) db).

(** Some requested seat is not a seat of the event. *)
Definition seats_missing (ev : UUID) (sids : list UUID) (db : Database) : Prop :=
  exists x, x ∈ sids /\ forall p, seats db !! x = Some p -> Seat_EventID p <> ev.

Section seat_tables.
Context `{Pgtype}.

(** At clock reading [now], seat [x] is sold or within its hold. *)
Definition seat_taken (now : Z) (x : UUID) (db : Database) : Prop :=
  exists k s, reservation_seats db !! k = Some s /\ ReservationSeat_SeatID s = x /\
    (ReservationSeat_Status s = StatusConfirmed \/
     (ReservationSeat_Status s = StatusReserved /\
      ts_le (ReservationSeat_ExpiresAt s) (encode_ts (MkTs now true)) = false)).

(** The reservations whose overdue holds cover some of the seats. *)
Definition overdue_holders (now : Z) (sids : list UUID) (db : Database) : list UUID :=
  merge_sort uuid_le (remove_dups (ReservationSeat_ReservationID <$>
    List.filter (fun s => bool_decide (ReservationSeat_SeatID s ∈ sids) &&
                          (ReservationSeat_Status s ==? StatusReserved) &&
                          ts_le (ReservationSeat_ExpiresAt s) (encode_ts (MkTs now true)))
      (rows (reservation_seats db)))).

Lemma overdue_holders_spec now sids db rid :
  rid ∈ overdue_holders now sids db <->
  exists k s, reservation_seats db !! k = Some s /\ ReservationSeat_ReservationID s = rid /\
    ReservationSeat_SeatID s ∈ sids /\ ReservationSeat_Status s = StatusReserved /\
    ts_le (ReservationSeat_ExpiresAt s) (encode_ts (MkTs now true)) = true.
Proof.
  unfold overdue_holders. rewrite merge_sort_Permutation, elem_of_remove_dups, list_elem_of_fmap.
  split.
  - intros (s & -> & Hs). apply list_elem_of_In, filter_In in Hs as [Hs Hb].
    apply list_elem_of_In, elem_of_rows in Hs as [k Hk]. to_prop. eauto 8.
  - intros (k & s & Hk & <- & Hin & Hst & Hle). exists s. split; [done|].
    apply list_elem_of_In, filter_In. split; [by apply list_elem_of_In, elem_of_rows; exists k|].
    by rewrite !bool_decide_eq_true_2.
Qed.

(** What releasing the overdue holds leads to. *)
Definition holds_released (now : Z) (sids : list UUID) (db db' : Database) : Prop :=
  schema_ok db' /\
  ((overdue_holders now sids db = [] /\ db' = db) \/
   (overdue_holders now sids db <> [] /\ holds_expired (overdue_holders now sids db) db db')).

(** After the release, a seat is held exactly if it was taken. *)
Lemma holds_released_active now sids db db' x :
  db_inv db -> holds_released now sids db db' -> x ∈ sids ->
  x ∈ active_seat_ids (reservation_seats db') -> seat_taken now x db.
Proof.
  intros Hinv [_ Hrel] Hx (k & s' & Hk & Ha & Hs)%active_seat_ids_spec.
  assert (Hcase : exists s, reservation_seats db !! k = Some s /\ ReservationSeat_SeatID s = x /\
    active_seat s = true /\ (ReservationSeat_Status s = StatusReserved ->
      ReservationSeat_ReservationID s ∉ overdue_holders now sids db)).
  { destruct Hrel as [[Hnil ->]|[_ [_ (ts & ts' & ->)]]].
    - exists s'. split_and!; [done..|]. rewrite Hnil. intros _. apply not_elem_of_nil.
    - simpl in Hk. apply update_where_lookup in Hk as (s & Hk & ->). exists s.
      destruct (bool_decide (ReservationSeat_ReservationID s ∈ _)) eqn:E1;
        destruct (bool_decide (ReservationSeat_Status s = StatusReserved)) eqn:E2; simpl in *;
        to_prop; done. }
  destruct Hcase as (s & Hk0 & Hs0 & Ha0 & Hno). exists k, s. split_and!; [done..|].
  unfold active_seat, active_status in Ha0. apply orb_true_iff in Ha0 as [Hr|Hc]; to_prop; [|by left].
  right. split; [done|]. apply not_true_iff_false. intros Hle. apply (Hno Hr).
  apply overdue_holders_spec. exists k, s. by rewrite Hs0.
Qed.

Lemma holds_released_taken now sids db db' x :
  db_inv db -> holds_released now sids db db' -> seat_taken now x db ->
  x ∈ active_seat_ids (reservation_seats db').
Proof.
  intros Hinv [_ Hrel] (k & s & Hk & Hs & Hst). apply active_seat_ids_spec.
  destruct Hrel as [[_ ->]|[_ [_ (ts & ts' & ->)]]].
  { exists k, s. split_and!; [done| |done]. unfold active_seat.
    by destruct Hst as [-> |[-> _]]. }
  exists k, s. split_and!; [|unfold active_seat; by destruct Hst as [-> |[-> _]]|done].
  simpl. apply update_where_lookup. exists s. split; [done|].
  destruct (_ && _) eqn:E; [exfalso|done]. to_prop.
  destruct Hst as [Hst|[_ Hle]]; [by rewrite Hst in *|].
  apply overdue_holders_spec in H0 as (k' & s' & Hk' & Hid & _ & _ & Hle').
  destruct (rseats_follow _ (inv_lifecycle _ Hinv) k s Hk) as (r & p & Hr & _ & _ & Hx & _).
  destruct (rseats_follow _ (inv_lifecycle _ Hinv) k' s' Hk') as (r' & p' & Hr' & _ & _ & Hx' & _).
  rewrite Hid, Hr in Hr'. simplify_eq. by rewrite Hx, <- Hx', Hle' in Hle.
Qed.

Lemma session_key_released now sids sid key db db' :
  holds_released now sids db db' ->
  session_key_free sid key (reservations db') = session_key_free sid key (reservations db).
Proof.
  intros [_ [[_ ->]|[_ [_ (ts & ts' & ->)]]]]; [done|]. simpl.
  apply eq_true_iff_eq. rewrite !session_key_free_spec. split; intros Hf k r Hk.
  - pose proof (Hf k _ (proj2 (update_where_lookup _ _ _ k _) (ex_intro _ r (conj Hk eq_refl)))) as Hr.
    by destruct (_ && _).
  - apply update_where_lookup in Hk as (r0 & Hk & ->). specialize (Hf k r0 Hk).
    by destruct (_ && _).
Qed.

Lemma owner_unknown_released now sids sid uid db db' :
  holds_released now sids db db' -> owner_unknown sid uid db' -> owner_unknown sid uid db.
Proof. by intros [_ [[_ ->]|[_ [_ (ts & ts' & ->)]]]]. Qed.

Lemma holds_released_inv now sids db db' :
  db_inv db -> holds_released now sids db db' -> db_inv db'.
Proof. intros Hinv [Hs [[_ ->]|[_ Hexp]]]; [done|]. by eapply holds_expired_inv. Qed.

Lemma holds_released_seats now sids db db' : holds_released now sids db db' -> seats db' = seats db.
Proof. by intros [_ [[_ ->]|[_ [_ (ts & ts' & ->)]]]]. Qed.

Lemma holds_released_events now sids db db' : holds_released now sids db db' -> events db' = events db.
Proof. by intros [_ [[_ ->]|[_ [_ (ts & ts' & ->)]]]]. Qed.
End seat_tables.

Section seat_creation.
Context `{PgtypeLaws}.
Variable a : assm.

(** ** Queries *)

Lemma omap_all {X Y} (f : X -> option Y) (g : X -> Y) (l : list X) :
  (forall x, x ∈ l -> f x = Some (g x)) -> omap f l = g <$> l.
Proof.
  induction l as [|x l IH]; intros Hf; [done|]. rewrite fmap_cons. simpl.
  rewrite (Hf x) by by left. f_equal. apply IH. intros y Hy. apply Hf. by right.
Qed.

(** The lookup by key answers with the seats of the reservation made under
    it, and with nothing when there is none. *)
Lemma GetSeat_ok ctx db sid key :
  db_inv db ->
  exists srows, GetSeatReservationByIdempotencyKey sid key ctx db = inr (srows, db) /\
    ((srows = [] /\ no_reservation_of ReservationTypeSeats sid key db) \/
     (exists r, made_under ReservationTypeSeats sid key db r /\
        srows = seat_row r <$> seats_of (Reservation_ID r) db /\ srows <> [])).
Proof.
  intros Hinv. unfold GetSeatReservationByIdempotencyKey, reading. cbn [fst snd].
  set (j := fun s => join_key db sid key ReservationTypeSeats (ReservationSeat_ReservationID s)).
  set (l := select _ _ _). eexists. split; [done|].
  assert (Hl : forall s, s ∈ l -> exists r, j s = Some r).
  { intros s (k & _ & Hs)%elem_of_select. unfold j.
    destruct (join_key _ _ _ _ _) as [r|]; [by exists r|done]. }
  destruct l as [|s0 l0] eqn:Hl0.
  - left. split; [done|]. intros k r Hr Hkey Hty.
    destruct (reservations_keyed _ (inv_schema _ Hinv) _ _ Hr) as [<- _].
    destruct (headers_ok _ (inv_lifecycle _ Hinv) _ _ Hr) as (_ & _ & Hse).
    destruct (Hse Hty) as (ks & s & Hs & Hid).
    pose proof (proj1 (select_nil _ _ _) Hl0 ks s Hs) as Hno. cbv beta in Hno.
    assert (Hj : j s = Some r) by (apply join_key_Some; [apply Hinv|by split]).
    unfold j in Hj. by rewrite Hj in Hno.
  - destruct (Hl s0) as [r Hj]; [by left|].
    apply join_key_Some in Hj as [Hmade Hid]; [|apply Hinv].
    assert (Hjs : forall s r', j s = Some r' <-> r' = r /\ ReservationSeat_ReservationID s = Reservation_ID r).
    { intros s r'. unfold j. rewrite join_key_Some by apply Hinv. split.
      - intros [Hm <-]. by rewrite (session_key_unique db _ _ _ _ _ _ (inv_schema _ Hinv) Hm Hmade).
      - intros [-> ->]. done. }
    right. exists r. split; [done|].
    assert (Hsel : s0 :: l0 = seats_of (Reservation_ID r) db).
    { rewrite <- Hl0. unfold seats_of. apply select_ext. intros k s _.
      fold (j s). destruct (j s) as [r'|] eqn:Hj.
      - apply Hjs in Hj as [_ ->]. by rewrite bool_decide_eq_true_2.
      - simpl. symmetry. apply bool_decide_eq_false_2. intros Heq.
        assert (j s = Some r) by (by apply Hjs). congruence. }
    assert (Hom : omap (fun s => (fun r => seat_row r s) <$> j s) (s0 :: l0) =
      seat_row r <$> (s0 :: l0)).
    { apply omap_all. intros s Hs. destruct (Hl s Hs) as [r' Hj].
      pose proof (proj1 (Hjs s r') Hj) as [-> _]. by rewrite Hj. }
    change (omap _ (s0 :: l0)) with (omap (fun s => (fun r => seat_row r s) <$> j s) (s0 :: l0)).
    rewrite Hom. split; [by rewrite Hsel|done].
Qed.

(** ** Locking the seats *)

Definition locked_seats (ev : UUID) (sids : list UUID) (db : Database) : list UUID :=
  Seat_ID <$> select (fun s => (Seat_EventID s ==? ev) && bool_decide (Seat_ID s ∈ sids))
    (by_key (fun s => uuid_bytes (Seat_ID s))) (seats db).

Lemma elem_of_locked_seats ev sids db x :
  schema_ok db ->
  x ∈ locked_seats ev sids db <->
  x ∈ sids /\ exists p, seats db !! x = Some p /\ Seat_EventID p = ev.
Proof.
  intros Hdb. unfold locked_seats. rewrite list_elem_of_fmap. split.
  - intros (p & -> & Hp). apply (elem_of_select_key Seat_ID) in Hp as [Hp Hb]; [|apply Hdb].
    to_prop. eauto.
  - intros (Hx & p & Hp & Hev). destruct (seats_keyed _ Hdb _ _ Hp) as [HID _].
    exists p. split; [done|]. apply (elem_of_select_key Seat_ID); [apply Hdb|].
    rewrite HID. split; [done|]. by rewrite !bool_decide_eq_true_2.
Qed.

Lemma locked_seats_valid ev sids db : schema_ok db -> all_valid (locked_seats ev sids db).
Proof.
  intros Hdb x (_ & p & Hp & _)%elem_of_locked_seats; [|done].
  apply (seats_keyed _ Hdb _ _ Hp).
Qed.

Lemma fmap_sorted {X Y} (R : relation Y) (f : X -> Y) l :
  StronglySorted (fun x y => R (f x) (f y)) l -> StronglySorted R (f <$> l).
Proof.
  induction 1 as [|x l Hs IH Hx]; [constructor|]. rewrite fmap_cons. constructor; [done|].
  apply Forall_fmap. exact Hx.
Qed.

Lemma locked_seats_sorted ev sids db : StronglySorted uuid_le (locked_seats ev sids db).
Proof. apply fmap_sorted. unfold select. apply StronglySorted_merge_sort; apply _. Qed.

Lemma locked_seats_NoDup ev sids db : schema_ok db -> NoDup (locked_seats ev sids db).
Proof. intros Hdb. apply select_ids_NoDup, Hdb. Qed.

(** The check after the lock passes exactly when every requested seat is a
    seat of the event, and then the seats are locked in request order. *)
Lemma lock_check ev sids db :
  schema_ok db -> all_valid sids -> NoDup sids -> StronglySorted uuid_le sids ->
  if sameUUIDSet (locked_seats ev sids db) sids
  then locked_seats ev sids db = sids /\
       forall x, x ∈ sids -> exists p, seats db !! x = Some p /\ Seat_EventID p = ev
  else seats_missing ev sids db.
Proof.
  intros Hdb Hv Hnd Hs. pose proof (locked_seats_valid ev sids db Hdb) as Hlv.
  pose proof (sameUUIDSet_true (locked_seats ev sids db) sids Hlv Hv) as Hsame.
  destruct (sameUUIDSet _ _).
  - destruct Hsame as [[Hlen Hsub] _]; [done|]. split.
    + apply lock_order_unique; auto using locked_seats_NoDup, locked_seats_sorted.
      intros x. split; [|apply Hsub]. by intros [? _]%elem_of_locked_seats.
    + intros x Hx. by apply Hsub, elem_of_locked_seats in Hx as [_ ?].
  - destruct (decide (Forall (fun x => x ∈ locked_seats ev sids db) sids)) as [Hall|Hex].
    + exfalso. apply diff_false_true, Hsame. rewrite Forall_forall in Hall. split.
      * apply Permutation_length, NoDup_Permutation; [by apply locked_seats_NoDup|done|].
        intros x. split; [by intros [? _]%elem_of_locked_seats|].
        intros Hx. by apply Hall.
      * intros x Hx. by apply Hall.
    + apply not_Forall_Exists in Hex; [|apply _]. apply Exists_exists in Hex as (x & Hx & Hnin).
      exists x. split; [done|]. intros p Hp Hev. apply Hnin, elem_of_locked_seats; [done|].
      split; [done|eauto].
Qed.

(** ** Releasing the overdue holds *)

Definition released_post (sids : list UUID) (db : Database) (saved : option Database)
    (res : res unit) (σ : St) : Prop :=
  σ.2 = saved /\
  match res with
  | Ok _ => exists now, clock_ok a now = true /\ holds_released now sids db σ.1
  | Err e => faulty a e
  | Panicked => False
  end.

Lemma overdue_holders_reserved now sids db :
  db_inv db -> forall rid, rid ∈ overdue_holders now sids db -> exists r,
    reservations db !! rid = Some r /\ Reservation_Status r = StatusReserved /\
    Reservation_ReservationType r = ReservationTypeSeats.
Proof.
  intros Hinv rid (k & s & Hk & <- & _ & Hst & _)%overdue_holders_spec.
  destruct (rseats_follow _ (inv_lifecycle _ Hinv) k s Hk) as (r & p & Hr & Hty & Hs & _).
  exists r. split_and!; [done|congruence|done].
Qed.

Lemma releaseExpiredHolds_wp sids db saved :
  db_inv db -> wp a (releaseExpiredHolds sids) (released_post sids db saved) (db, saved).
Proof.
  intros Hinv. apply wp_bind, wp_time_Now. intros now Hnow. cbv beta iota.
  apply wp_bind, wp_wrapf_sql; [done|]. intros ctx _ _.
  unfold ListExpiredActiveReservationIDsForSeats, reading. cbn [fst snd].
  change (merge_sort uuid_le _) with (overdue_holders now sids db).
  destruct (overdue_holders now sids db) as [|id ids] eqn:Hids.
  { split; [done|]. exists now. split; [done|]. split; [apply Hinv|]. by left. }
  rewrite <- Hids. cbv beta iota. assert (Hne : overdue_holders now sids db <> []) by (by rewrite Hids).
  clear Hids. set (l := overdue_holders now sids db) in *.
  destruct (negb _) eqn:Elen; [|apply negb_false_iff, Nat.eqb_eq, length_zero_iff_nil in Elen; done].
  apply wp_bind, wp_wrapf_sql; [done|]. intros ctx1 _ _.
  unfold LockReservationsByID, reading. cbn [fst snd].
  apply wp_bind, wp_wrapf_sql; [done|]. intros ctx2 _ _. cbn [fst snd].
  unfold ExpireReservationSeatsByReservationIDs.
  edestruct (update_seat_rows_ok ctx2 db) as [Heq Hs]; [apply Hinv| | |rewrite Heq].
  { done. }
  { intros s [_ Hsel]%andb_true_iff. to_prop. unfold active_seat. by rewrite Hsel. }
  apply wp_wrapf_sql; [done|]. intros ctx3 _ _. cbn [fst snd].
  destruct (ExpireReservationsByIDs_ok ctx3 _ l Hs) as [-> Hs'].
  split; [done|]. exists now. split; [done|]. split; [done|]. right. split; [done|].
  split; [intros rid Hrid; by eapply overdue_holders_reserved|].
  by exists (ctx_now ctx2), (ctx_now ctx3).
Qed.

(** ** One row per seat *)

(** The error of the loop: the environment, or a seat that is held. *)
Definition seat_error (sids : list UUID) (db : Database) (e : error) : Prop :=
  (hostile a e /\ errors_Is e (Sentinel ErrIdempotencyReplayRequired) = false) \/
  (e = Sentinel ErrSeatUnavailable /\
   exists x, x ∈ sids /\ x ∈ active_seat_ids (reservation_seats db)).

(** The state of the loop: [dn] seats have a row, none of them was held. *)
Definition seats_inv (rid : UUID) (expiresAt : Z) (db : Database) (saved : option Database)
    (dn : list UUID) (acc : list ReservationSeat) (σ : St) : Prop :=
  σ.2 = saved /\ ReservationSeat_SeatID <$> acc = dn /\ schema_ok σ.1 /\
  (forall x, x ∈ dn -> x ∉ active_seat_ids (reservation_seats db)) /\
  exists m, σ.1 = set_reservation_seats m db /\
    seats_added rid (encode_ts (MkTs expiresAt true)) dn (reservation_seats db) m.

Lemma seats_added_nil rid exp m : seats_added rid exp [] m m.
Proof. split; [done|by left|]. by intros x ?%not_elem_of_nil. Qed.

Lemma seats_added_step rid exp dn m m' k s :
  seats_added rid exp dn m m' -> m' !! k = None ->
  ReservationSeat_ReservationID s = rid -> ReservationSeat_Status s = StatusReserved ->
  ReservationSeat_ExpiresAt s = exp ->
  seats_added rid exp (dn ++ [ReservationSeat_SeatID s]) m (<[k:=s]> m').
Proof.
  intros [Hk Hn Ha] Hfresh Hrid Hst Hexp.
  assert (Hmk : m !! k = None).
  { destruct (m !! k) as [s0|] eqn:E; [|done]. apply Hk in E. congruence. }
  split.
  - intros j t Hj. rewrite lookup_insert_ne by congruence. auto.
  - intros j t [[<- <-]|[Hne Hj]]%lookup_insert_Some.
    + right. split_and!; try done. apply elem_of_app. right. by apply list_elem_of_singleton.
    + destruct (Hn j t Hj) as [?|(? & ? & ? & ? & ?)]; [by left|right].
      split_and!; try done. apply elem_of_app. by left.
  - intros x [Hx| ->%list_elem_of_singleton]%elem_of_app.
    + destruct (Ha x Hx) as (j & t & Hj & ? & ? & ?). exists j, t.
      rewrite lookup_insert_ne by congruence. done.
    + exists k, s. by rewrite lookup_insert_eq.
Qed.

(** A seat that is active after the loop's insertions was active before, or
    has just been inserted. *)
Lemma seats_added_active rid exp dn m m' x :
  seats_added rid exp dn m m' -> x ∈ active_seat_ids m' -> x ∈ active_seat_ids m \/ x ∈ dn.
Proof.
  intros [_ Hn _] (k & s & Hk & Ha & <-)%active_seat_ids_spec.
  destruct (Hn k s Hk) as [Hold|(_ & _ & _ & _ & Hin)]; [|by right].
  left. apply active_seat_ids_spec. eauto.
Qed.

Lemma seats_loop rid expiresAt sids db saved :
  schema_ok db -> NoDup sids ->
  is_Some (reservations db !! rid) -> (forall x, x ∈ sids -> is_Some (seats db !! x)) ->
  wp a (for_each sids (reserve_seat rid expiresAt) [])
    (fun res σ' => match res with
       | Ok acc => seats_inv rid expiresAt db saved sids acc σ'
       | Err e => σ'.2 = saved /\ seat_error sids db e
       | Panicked => False
       end) (db, saved).
Proof.
  intros Hdb Hnd Hr Hse. eapply (wp_for_each a _ _ _ (seats_inv rid expiresAt db saved)); [| |done].
  { split_and!; [done..| |]; [by intros x ?%not_elem_of_nil|].
    exists (reservation_seats db). split; [by destruct db|apply seats_added_nil]. }
  intros dn x rest acc [db1 saved1] Hsids HI. subst sids.
  destruct HI as (Hsv & Hacc & Hs1 & Hfree & m & Hdb1 & Hm). cbn [fst snd] in *. subst.
  apply wp_try_sql; cbn [fst snd].
  { intros e He. destruct (isUniqueViolation e); (split; [done|]; left).
    - split; [|done]. apply hostile_intro; [apply He|done].
    - assert (He' : faulty a (Wrapped "create reservation seat" e)) by
        (by destruct He; repeat constructor).
      split; [by apply faulty_hostile|by apply fault_err_sentinel, He']. }
  intros ctx Hv Hc0; pose proof (undisturbed_fresh _ _ _ Hc0) as Hfr; clear Hc0.
  assert (Hx : x ∈ (ReservationSeat_SeatID <$> acc) ++ x :: rest) by (apply elem_of_app; right; by left).
  pose proof (CreateReservationSeat_ok ctx (set_reservation_seats m db) rid x StatusReserved
    (MkTs expiresAt true) Hs1 Hv eq_refl Hr (Hse x Hx)) as Hins.
  destruct (CreateReservationSeat _ _ _ _ _ _) as [e|[row db2]].
  - destruct Hins as [-> Hcol]. split; [done|]. destruct Hcol as [Hid|Hact].
    + left. split; [|done]. apply hostile_intro; [|done]. apply not_true_iff_false. intros Hq.
      specialize (Hfr Hq). unfold fresh_id in Hfr. to_prop.
      apply absent_None in H2. rewrite H2 in Hid. by destruct Hid.
    + right. split; [done|]. exists x. split; [done|].
      destruct (seats_added_active _ _ _ _ _ _ Hm Hact) as [?|Hdn]; [done|].
      apply NoDup_app in Hnd as (_ & Hd & _). exfalso. apply (Hd x Hdn). by left.
  - destruct Hins as (-> & Hnone & Hnact & -> & Hs2). simpl in Hnone, Hnact.
    split_and!; [done|by rewrite fmap_app|done| |].
    + intros y [Hy| ->%list_elem_of_singleton]%elem_of_app; [auto|]. intros Hy. apply Hnact.
      apply active_seat_ids_spec in Hy as (k & s & Hk & Ha & Hs). apply active_seat_ids_spec.
      exists k, s. split; [|done]. by apply (sa_kept _ _ _ _ _ Hm).
    + eexists. split; [done|]. simpl.
      apply (seats_added_step _ _ _ _ _ _ (new_seat ctx rid x StatusReserved (MkTs expiresAt true)) Hm);
        done.
Qed.

(** ** The transaction *)

Definition seats_receipt (rid : UUID) (sids : list UUID) (expiresAt : Z)
    : SeatReservationResponse :=
  MkSeatReservationResponse (UUIDToString rid) StatusReserved ReservationTypeSeats
    (timestamptz_encode expiresAt) ((fun x => MkSeatItemResponse (UUIDToString x)) <$> sids).

(** The seats are reserved after the overdue holds on them expired. *)
Definition seats_granted (vs : VisitorSession) (ev : UUID) (sids : list UUID) (key : string)
    (expiresAt now : Z) (rid : UUID) (db db' : Database) : Prop :=
  clock_ok a now = true /\
  no_reservation_of ReservationTypeSeats (VisitorSession_ID vs) key db /\
  exists db1, holds_released now sids db db1 /\
    seats_reserved ev (VisitorSession_ID vs) (VisitorSession_UserID vs) sids key
      (encode_ts (MkTs expiresAt true)) rid db1 db' /\ schema_ok db'.

Inductive seats_outcome (vs : VisitorSession) (ev : UUID) (sids : list UUID) (key : string)
    (expiresAt : Z) (db : Database) : res SeatReservationResponse -> Database -> Prop :=
  | so_replayed resp :
      seats_replay (VisitorSession_ID vs) key db resp ->
      seats_outcome vs ev sids key expiresAt db (Ok resp) db
  | so_reserved now rid db' :
      seats_granted vs ev sids key expiresAt now rid db db' ->
      seats_outcome vs ev sids key expiresAt db (Ok (seats_receipt rid sids expiresAt)) db'
  | so_missing :
      no_reservation_of ReservationTypeSeats (VisitorSession_ID vs) key db ->
      seats_missing ev sids db ->
      seats_outcome vs ev sids key expiresAt db (Err (Sentinel ErrSeatsNotFound)) db
  | so_taken now x :
      no_reservation_of ReservationTypeSeats (VisitorSession_ID vs) key db ->
      session_key_free (VisitorSession_ID vs) key (reservations db) = true ->
      clock_ok a now = true -> x ∈ sids -> seat_taken now x db ->
      seats_outcome vs ev sids key expiresAt db (Err (Sentinel ErrSeatUnavailable)) db
  | so_key_taken :
      no_reservation_of ReservationTypeSeats (VisitorSession_ID vs) key db ->
      session_key_free (VisitorSession_ID vs) key (reservations db) = false ->
      seats_outcome vs ev sids key expiresAt db (Err (Sentinel ErrIdempotencyKeyConflict)) db
  | so_owner_unknown :
      no_reservation_of ReservationTypeSeats (VisitorSession_ID vs) key db ->
      owner_unknown (VisitorSession_ID vs) (VisitorSession_UserID vs) db ->
      seats_outcome vs ev sids key expiresAt db
        (Err (Wrapped "create seat reservation" foreign_key_violation)) db
  | so_hostile e :
      hostile a e -> seats_outcome vs ev sids key expiresAt db (Err e) db
  | so_commit_unknown e now rid db' :
      faulty a e -> seats_granted vs ev sids key expiresAt now rid db db' ->
      seats_outcome vs ev sids key expiresAt db (Err e) db'.

(** The outcomes of the callback: its error is final, except the cue to
    replay, which is given only when the key names no seat reservation. *)
Definition seats_tx_post (vs : VisitorSession) (ev : UUID) (sids : list UUID) (key : string)
    (expiresAt : Z) (db : Database) (res : res SeatReservationResponse) (db' : Database) : Prop :=
  match res with
  | Ok resp => (db' = db /\ seats_replay (VisitorSession_ID vs) key db resp) \/
      exists now rid, resp = seats_receipt rid sids expiresAt /\
        seats_granted vs ev sids key expiresAt now rid db db'
  | Err e =>
      (errors_Is e (Sentinel ErrIdempotencyReplayRequired) = false /\
       seats_outcome vs ev sids key expiresAt db (Err e) db) \/
      (e = Sentinel ErrIdempotencyReplayRequired /\
       no_reservation_of ReservationTypeSeats (VisitorSession_ID vs) key db /\
       (quiet a = false \/
        session_key_free (VisitorSession_ID vs) key (reservations db) = false))
  | Panicked => False
  end.

Lemma seats_tx_faulty vs ev sids key expiresAt db db' e :
  faulty a e -> seats_tx_post vs ev sids key expiresAt db (Err e) db'.
Proof.
  intros He. left. split; [by apply fault_err_sentinel, He|]. by apply so_hostile, faulty_hostile.
Qed.

(** The part of the callback after the release of the overdue holds. *)
Lemma seats_inserts_wp vs ev sids key expiresAt now db db1 saved :
  db_inv db -> NoDup sids -> sids <> [] ->
  no_reservation_of ReservationTypeSeats (VisitorSession_ID vs) key db ->
  (forall x, x ∈ sids -> exists p, seats db !! x = Some p /\ Seat_EventID p = ev) ->
  clock_ok a now = true -> holds_released now sids db db1 ->
  wp a (let* r := try (sql (CreateReservation ev (VisitorSession_ID vs)
          (VisitorSession_UserID vs) StatusReserved ReservationTypeSeats
          key (MkTs expiresAt true))) in
        match r with
        | inl err =>
            if isUniqueViolation err then Fail (Sentinel ErrIdempotencyReplayRequired)
            else Fail (Wrapped "create seat reservation" err)
        | inr reservation =>
            let* reservedSeats := for_each sids
              (reserve_seat (Reservation_ID reservation) expiresAt) [] in
            Ret (seatReservationToResponse reservation reservedSeats)
        end)
    (fun res σ' => σ'.2 = saved /\ seats_tx_post vs ev sids key expiresAt db res σ'.1)
    (db1, saved).
Proof.
  intros Hinv Hnd Hne Hno Hseats Hnow Hrel.
  pose proof (holds_released_inv _ _ _ _ Hinv Hrel) as Hinv1.
  pose proof (holds_released_seats _ _ _ _ Hrel) as Hse.
  apply wp_try_sql; cbn [fst snd].
  { intros e He. destruct (isUniqueViolation e); (split; [done|]).
    - right. split; [done|]. split; [done|]. left. apply He.
    - apply seats_tx_faulty. by destruct He; repeat constructor. }
  intros ctx Hv Hc0; pose proof (undisturbed_fresh _ _ _ Hc0) as Hfr; clear Hc0.
  assert (Hevent : is_Some (events db1 !! ev)).
  { destruct sids as [|x sids]; [done|]. destruct (Hseats x) as (p & Hp & <-); [by left|].
    rewrite (holds_released_events _ _ _ _ Hrel). exact (seats_event _ (inv_schema _ Hinv) x p Hp). }
  pose proof (CreateReservation_outcome a ctx db1 ev (VisitorSession_ID vs)
    (VisitorSession_UserID vs) ReservationTypeSeats key (MkTs expiresAt true)
    (inv_schema _ Hinv1) Hv Hfr eq_refl Hevent) as Hout.
  rewrite (session_key_released now sids _ _ db db1 Hrel) in Hout.
  destruct (CreateReservation _ _ _ _ _ _ _ _ _) as [e|[row db2]].
  { destruct Hout as [[-> Hk]|[-> Hown]]; simpl; (split; [done|]).
    - right. split; [done|]. split; [done|]. by destruct Hk; [right|left].
    - left. split; [done|]. apply so_owner_unknown; [done|]. by eapply owner_unknown_released. }
  destruct Hout as (Hrow & Hnone & Hfree & -> & Hs2).
  assert (HID : Reservation_ID row = ctx_new_id ctx) by (by rewrite Hrow).
  apply wp_bind. eapply wp_mono, seats_loop; [|exact Hs2|done| |].
  2: { simpl. rewrite HID, lookup_insert_eq. eauto. }
  2: { intros x Hx. simpl. rewrite Hse. destruct (Hseats x Hx) as (p & Hp & _). eauto. }
  intros [acc|e|] [db3 saved3]; cbn [fst snd]; [| |done].
  - intros (Hsv & Hacc & Hs3 & Hfree3 & m & Hdb3 & Hm). cbn [fst snd] in *. simpl in Hm, Hfree3.
    split; [done|]. right. exists now, (ctx_new_id ctx). split.
    + unfold seatReservationToResponse, seats_receipt. rewrite <- Hacc, Hrow. simpl.
      by rewrite <- list_fmap_compose.
    + split; [done|]. split; [done|]. exists db1. split; [done|]. split; [|done].
      rewrite HID in Hm. rewrite Hdb3. split; try done.
      * by rewrite (session_key_released now sids _ _ db db1 Hrel).
      * by rewrite Hse.
      * exists m, (ctx_now ctx). by rewrite Hrow.
  - intros [-> He]. split; [done|]. left. destruct He as [He|(-> & x & Hx & Hact)].
    + split; [apply He|]. by apply so_hostile, He.
    + split; [done|]. eapply so_taken; try done. by eapply holds_released_active.
Qed.

Lemma reserveSeatsTx_wp vs ev sids key expiresAt db saved :
  db_inv db -> NoDup sids -> sids <> [] -> all_valid sids -> StronglySorted uuid_le sids ->
  wp a (reserveSeatsTx vs ev sids key expiresAt) (fun res σ' =>
    σ'.2 = saved /\ seats_tx_post vs ev sids key expiresAt db res σ'.1) (db, saved).
Proof.
  intros Hinv Hnd Hne Hv Hs. apply wp_bind, wp_wrapf_sql; cbn [fst snd].
  { intros e He. split; [done|]. by apply seats_tx_faulty. }
  intros ctx _ _. destruct (GetSeat_ok ctx db (VisitorSession_ID vs) key Hinv) as (srows & -> & Hrows).
  destruct Hrows as [[-> Hno]|(r & Hmade & Hsr & Hsome)].
  2: { destruct srows as [|row rest] eqn:Esr; [done|]. cbn [length Nat.eqb negb seatRowsToResponse of_res].
       split; [done|]. left. split; [done|]. exists r. split; [done|].
       unfold seatReservationToResponse. rewrite Hsr.
       destruct (seats_of _ db) as [|s l]; [done|]. rewrite fmap_cons in Hsr.
       injection Hsr as -> ->. simpl. by rewrite <- list_fmap_compose. }
  cbn [length Nat.eqb negb]. apply wp_bind, wp_wrapf_sql; cbn [fst snd].
  { intros e He. split; [done|]. by apply seats_tx_faulty. }
  intros ctx1 _ _. unfold LockEventSeats, reading. cbn [fst snd].
  change (Seat_ID <$> _) with (locked_seats ev sids db).
  pose proof (lock_check ev sids db (inv_schema _ Hinv) Hv Hnd Hs) as Hlock.
  destruct (sameUUIDSet (locked_seats ev sids db) sids); cbn [negb].
  2: { split; [done|]. left. split; [done|]. by apply so_missing. }
  destruct Hlock as [-> Hseats]. apply wp_bind. eapply wp_mono, releaseExpiredHolds_wp; [|done].
  intros [u|e|] [db1 saved1]; unfold released_post; cbn [fst snd]; [| |by intros [_ []]].
  - intros (-> & now & Hnow & Hrel). by eapply seats_inserts_wp.
  - intros [-> He]. split; [done|]. by apply seats_tx_faulty.
Qed.

Lemma replaySeats_wp sid key db saved :
  db_inv db -> no_reservation_of ReservationTypeSeats sid key db ->
  wp a (replaySeats sid key) (fun res σ' => σ' = (db, saved) /\
    match res with
    | Ok _ => False
    | Err e => e = Sentinel ErrIdempotencyKeyConflict \/ faulty a e
    | Panicked => False
    end) (db, saved).
Proof.
  intros Hinv Hno. apply wp_bind, wp_wrapf_sql; cbn [fst snd].
  - intros e He. split; [done|]. by right.
  - intros ctx _ _. destruct (GetSeat_ok ctx db sid key Hinv) as (srows & -> & Hrows).
    destruct Hrows as [[-> _]|(r & (Hr & Hk & Hty) & _)].
    + split; [done|]. by left.
    + by destruct (Hno _ _ Hr Hk).
Qed.

Variable reservationTTL : Z.

(** What ReserveSeats may answer and do on [input]. *)
Inductive ReserveSeats_outcome (vs : VisitorSession) (input : SeatReservationRequest)
    (db : Database) : res SeatReservationResponse -> Database -> Prop :=
  | rs_invalid :
      parseSeatInput input = Err (Sentinel ErrInvalidSeatReservation) ->
      ReserveSeats_outcome vs input db (Err (Sentinel ErrInvalidSeatReservation)) db
  | rs_valid ev sids now res db' :
      parseSeatInput input = Ok (ev, sids) -> clock_ok a now = true ->
      seats_outcome vs ev sids (TrimSpace (SReq_IdempotencyKey input))
        (now + reservationTTL) db res db' ->
      ReserveSeats_outcome vs input db res db'.

Lemma ReserveSeats_wp vs input db :
  db_inv db ->
  wp a (ReserveSeats reservationTTL vs input) (fun res σ' =>
    σ'.2 = None /\ ReserveSeats_outcome vs input db res σ'.1) (db, None).
Proof.
  intros Hinv. unfold ReserveSeats. pose proof (parseSeatInput_cases input) as Hin.
  destruct (parseSeatInput input) as [[ev sids]|e|] eqn:Hparse; [|subst|done].
  2: { split; [done|]. by constructor. }
  destruct Hin as (_ & Hne & Hnd & Hv & Hs & _). cbn [of_res bind]. cbv beta iota zeta.
  apply wp_bind, wp_time_Now. intros now Hnow. cbv beta iota zeta. set (key := TrimSpace _).
  apply wp_bind, wp_try, wp_WithTx.
  { intros e He. rewrite (fault_err_sentinel _ _ (proj2 He)). split; [done|].
    eapply rs_valid; [done..|]. by apply so_hostile, faulty_hostile. }
  eapply wp_mono, reserveSeatsTx_wp; [|done..].
  intros [resp|e|] [db' saved']; cbn [fst snd]; [intros [-> Hok]|intros [-> He]|by intros [_ []]];
    (split; [done|]).
  - split; [split; [done|]; eapply rs_valid; [done..|]|].
    + destruct Hok as [[-> Hrep]|(now2 & rid & -> & Hgr)]; [by apply so_replayed|by eapply so_reserved].
    + intros e He. rewrite (fault_err_sentinel _ _ (proj2 He)). split; [done|].
      eapply rs_valid; [done..|]. cbn [fst].
      destruct Hok as [[-> _]|(now2 & rid & _ & Hgr)]; [by apply so_hostile, faulty_hostile|].
      by eapply so_commit_unknown.
  - destruct He as [[Hnr He]|(-> & Hno & Hk)].
    + rewrite Hnr. split; [done|]. by eapply rs_valid.
    + change (errors_Is (Sentinel ErrIdempotencyReplayRequired) _) with true. cbv iota.
      eapply wp_mono, replaySeats_wp; [|done..].
      intros [resp|e'|] σ'; intros [-> He']; [done| |done]. split; [done|].
      eapply rs_valid; [done..|].
      destruct He' as [->|He']; [|by apply so_hostile, faulty_hostile].
      destruct Hk as [Hq|Hk]; [|by apply so_key_taken]. by apply so_hostile, hostile_intro.
Qed.

(** ** Retries *)

Lemma seats_replay_unique sid key db resp resp' :
  schema_ok db -> seats_replay sid key db resp -> seats_replay sid key db resp' -> resp = resp'.
Proof.
  intros Hdb (r & Hm & ->) (r' & Hm' & ->).
  by rewrite (session_key_unique db _ _ _ _ _ _ Hdb Hm Hm').
Qed.

(** The rows of a new reservation name its seats, in lock order. *)
Lemma seats_reserved_rows ev sid uid sids key exp rid db db' :
  schema_ok db -> schema_ok db' -> NoDup sids -> all_valid sids -> StronglySorted uuid_le sids ->
  seats_reserved ev sid uid sids key exp rid db db' ->
  ReservationSeat_SeatID <$> seats_of rid db' = sids.
Proof.
  intros Hdb Hdb' Hnd Hv Hsorted Hres.
  destruct (sr_tables _ _ _ _ _ _ _ _ _ Hres) as (m & ts & [_ Hnew Hall] & Heq).
  assert (Hin : forall s, s ∈ seats_of rid db' <->
    (exists k, reservation_seats db' !! k = Some s) /\ ReservationSeat_ReservationID s = rid).
  { intros s. unfold seats_of. rewrite elem_of_select. split.
    - intros (k & Hk & Hs). to_prop. eauto.
    - intros [[k Hk] Hs]. exists k. by rewrite bool_decide_eq_true_2. }
  assert (Hrow : forall k s, reservation_seats db' !! k = Some s ->
    ReservationSeat_ReservationID s = rid ->
    ReservationSeat_Status s = StatusReserved /\ ReservationSeat_SeatID s ∈ sids).
  { intros k s Hk Hid. rewrite Heq in Hk. simpl in Hk.
    destruct (Hnew k s Hk) as [Hold|(_ & _ & Hst & _ & Hs)]; [|done].
    destruct (rseats_reservation _ Hdb k s Hold) as [r Hr]. rewrite Hid in Hr.
    rewrite (sr_header_new _ _ _ _ _ _ _ _ _ Hres) in Hr. done. }
  assert (Hmem : forall x, x ∈ ReservationSeat_SeatID <$> seats_of rid db' <-> x ∈ sids).
  { intros x. rewrite list_elem_of_fmap. split.
    - intros (s & -> & [[k Hk] Hs]%Hin). by eapply Hrow.
    - intros Hx. destruct (Hall x Hx) as (k & s & Hk & _ & Hs & Hid & _). exists s.
      split; [done|]. apply Hin. split; [|done]. exists k. by rewrite Heq. }
  apply lock_order_unique; [by intros x Hx%Hmem; apply Hv|done| |done| |done|done].
  - apply NoDup_fmap_2_strong.
    + intros s s' [[k Hk] Hs]%Hin [[k' Hk'] Hs']%Hin Heqs.
      destruct (Hrow _ _ Hk Hs) as [Ha _]. destruct (Hrow _ _ Hk' Hs') as [Ha' _].
      assert (k = k') as <-; [|by simplify_eq].
      eapply (rseats_unique _ Hdb'); try done; unfold active_seat; by rewrite ?Ha, ?Ha'.
    + apply (NoDup_fmap_1 ReservationSeat_ID), select_ids_NoDup, Hdb'.
  - apply fmap_sorted. unfold seats_of, select. apply StronglySorted_merge_sort; apply _.
Qed.

Lemma seats_reserved_replay ev sid uid sids key expiresAt rid db db' :
  schema_ok db -> schema_ok db' -> NoDup sids -> all_valid sids -> StronglySorted uuid_le sids ->
  seats_reserved ev sid uid sids key (encode_ts (MkTs expiresAt true)) rid db db' ->
  seats_replay sid key db' (seats_receipt rid sids expiresAt).
Proof.
  intros Hdb Hdb' Hnd Hv Hsorted Hres.
  pose proof (seats_reserved_rows _ _ _ _ _ _ _ _ _ Hdb Hdb' Hnd Hv Hsorted Hres) as Hrows.
  destruct (sr_tables _ _ _ _ _ _ _ _ _ Hres) as (m & ts & _ & Heq).
  exists (fresh_reservation rid ev sid uid ReservationTypeSeats key
    (encode_ts (MkTs expiresAt true)) ts). split.
  - split; [|done]. rewrite Heq. apply lookup_insert_eq.
  - unfold seatReservationToResponse, seats_receipt. simpl. f_equal.
    rewrite <- Hrows at 1. by rewrite <- list_fmap_compose.
Qed.

(** Whatever is answered is the answer of a retry. *)
Lemma seats_outcome_replay vs input ev sids key exp db resp db' :
  parseSeatInput input = Ok (ev, sids) -> seats_outcome vs ev sids key exp db (Ok resp) db' ->
  seats_replay (VisitorSession_ID vs) key db' resp.
Proof.
  intros Hparse Hout. pose proof (parseSeatInput_cases input) as Hin. rewrite Hparse in Hin.
  destruct Hin as (_ & _ & Hnd & Hv & Hsort & _).
  inversion Hout as [|now2 rid db2 (_ & _ & db1 & [Hs1 _] & Hres & Hs2)| | | | | |]; subst; [done|].
  by apply (seats_reserved_replay _ _ _ _ _ _ _ _ _ Hs1 Hs2 Hnd Hv Hsort Hres).
Qed.
End seat_creation.
