(* ===== verification/Service.v ===== *)
(** * The reservation service as a whole

    The requests the service serves, one after the other, in any environment:
    every outcome proved in [Creation], [SeatCreation] and [Settlement] is a
    sequence of steps of the inventory machine of [Inventory]. *)

From S2P Require Import Prelude GoRuntime DbTypes Schema Prog Wp SqlcReservations ReservationService Inventory Lifecycle Settlement Requests Creation SeatCreation.
Local Open Scope string_scope.
Local Open Scope list_scope.
Local Open Scope Z_scope.

(** ** Requests *)

(** The calls the HTTP handlers and the worker make. *)
Inductive request :=
  | ReqReserveQuantity (vs : VisitorSession) (input : QuantityReservationRequest)
  | ReqReserveSeats (vs : VisitorSession) (input : SeatReservationRequest)
  | ReqGet (vs : VisitorSession) (rid : UUID)
  | ReqCancel (vs : VisitorSession) (rid : UUID)
  | ReqConfirm (vs : VisitorSession) (rid : UUID)
  | ReqExpire (batchSize : Z).

Definition discard {A} (p : prog A) : prog unit := let* _ := p in Ret tt.

Section service.
Context `{PgtypeLaws}.
Variable reservationTTL : Z.

Definition handle (req : request) : prog unit :=
  match req with
  | ReqReserveQuantity vs input => discard (ReserveQuantity reservationTTL vs input)
  | ReqReserveSeats vs input => discard (ReserveSeats reservationTTL vs input)
  | ReqGet vs rid => discard (GetReservation vs rid)
  | ReqCancel vs rid => discard (CancelReservation vs rid)
  | ReqConfirm vs rid => discard (ConfirmReservation vs rid)
  | ReqExpire batchSize => discard (ExpireExpiredReservations batchSize)
  end.

(** The requests of a history, answered in order. *)
Definition serve `{Env} (reqs : list request) (w : World) : World :=
  fold_left (fun w req => (run (handle req) w).2) reqs w.

(** A batch size the worker's configuration accepts. *)
Definition sensible (req : request) : Prop :=
  match req with ReqExpire batchSize => 0 < batchSize | _ => True end.

Definition broken (e : error) : bool := errors_Is e (Sentinel ErrReservationInvariantBroken).

Variable a : assm.

(** ** Outcomes are steps of the machine *)

Lemma quantity_outcome_steps vs ev tid q key exp db res db' :
  quantity_outcome a vs ev tid q key exp db res db' -> rtc inventory_step db db'.
Proof.
  assert (Hstep : forall rid, quantity_reserved ev (VisitorSession_ID vs)
    (VisitorSession_UserID vs) tid q key (encode_ts (MkTs exp true)) rid db db' ->
    schema_ok db' -> rtc inventory_step db db').
  { intros rid Hqr Hs. by eapply rtc_once, step_reserve_quantity. }
  intros Hout. destruct Hout; eauto using rtc_refl.
Qed.

Lemma seats_granted_steps vs ev sids key exp now rid db db' :
  seats_granted a vs ev sids key exp now rid db db' -> rtc inventory_step db db'.
Proof.
  intros (_ & _ & db1 & [Hs1 Hrel] & Hres & Hs).
  apply rtc_r with db1; [|by eapply step_reserve_seats].
  destruct Hrel as [[_ ->]|[_ Hexp]]; [done|]. by eapply rtc_once, step_expire_holds.
Qed.

Lemma seats_outcome_steps vs ev sids key exp db res db' :
  seats_outcome a vs ev sids key exp db res db' -> rtc inventory_step db db'.
Proof. intros Hout. destruct Hout; eauto using rtc_refl, seats_granted_steps. Qed.

Lemma settled_steps target cannot vs rid db out db' :
  final_status target -> settled (clock_ok a) target cannot vs rid db out db' ->
  rtc inventory_step db db'.
Proof.
  intros Hf Hset. destruct Hset; [done|done| |].
  - by eapply rtc_once, step_transition.
  - eapply rtc_once, (step_transition _ _ StatusExpired); [|done..]. right. by right.
Qed.

Lemma expired_steps now n db db' : nsteps (expired_at now) n db db' -> rtc inventory_step db db'.
Proof.
  induction 1 as [|n db0 db1 db2 (rid & r & _ & _ & Htr & Hs) _ IH]; [done|].
  eapply rtc_l, IH. eapply (step_transition _ _ StatusExpired); [|done..]. right. by right.
Qed.

(** ** Every request *)

Definition ExpireExpired_post (batchSize : Z) (db : Database) (res : res Z) (σ : St) : Prop :=
  σ.2 = None /\
  match res with
  | Ok n => exists now skip, clock_ok a now = true /\ (quiet a = true -> skip = []) /\
      batch_done now skip batchSize n db σ.1
  | Err e => faulty a e /\ (σ.1 = db \/ exists now skip n, batch_done now skip batchSize n db σ.1)
  | Panicked => False
  end.

Lemma ExpireExpired_wp batchSize db :
  db_inv db -> 0 < batchSize ->
  wp a (ExpireExpiredReservations batchSize) (ExpireExpired_post batchSize db) (db, None).
Proof.
  intros Hinv Hb. unfold ExpireExpiredReservations. apply Z.leb_gt in Hb as ->.
  apply wp_WithTx.
  - intros e He. split; [done|]. auto.
  - eapply wp_mono, expireBatchTx_wp; [|done]. intros [n|e|] [db' saved']; cbn [fst snd];
      unfold batch_post; intros [-> Hpost]; (split; [done|]).
    + destruct Hpost as (now & skip & Hnow & Hskip & Hdone). split; [split; [done|]; eauto 6|].
      intros e He. split; [done|]. split; [done|]. eauto 6.
    + split; [done|]. auto.
    + done.
Qed.

(** What every request guarantees. *)
Definition request_post (req : request) (db : Database) (res : res unit) (σ : St) : Prop :=
  σ.2 = None /\ rtc inventory_step db σ.1 /\
  match res with
  | Ok _ => True
  | Err e => sensible req -> broken e = false
  | Panicked => False
  end.

Lemma hostile_not_broken e : hostile a e -> broken e = false.
Proof. by intros [_ ?]. Qed.

Lemma quantity_outcome_error vs ev tid q key exp db res db' :
  quantity_outcome a vs ev tid q key exp db res db' ->
  match res with Ok _ => True | Err e => broken e = false | Panicked => False end.
Proof.
  intros Hout. destruct Hout; eauto using hostile_not_broken.
  by apply hostile_not_broken, faulty_hostile.
Qed.

Lemma seats_outcome_error vs ev sids key exp db res db' :
  seats_outcome a vs ev sids key exp db res db' ->
  match res with Ok _ => True | Err e => broken e = false | Panicked => False end.
Proof.
  intros Hout. destruct Hout; eauto using hostile_not_broken.
  by apply hostile_not_broken, faulty_hostile.
Qed.

Lemma faulty_not_broken e : faulty a e -> broken e = false.
Proof. intros He. by apply hostile_not_broken, faulty_hostile. Qed.

Lemma wp_discard {A} (p : prog A) req db (Post : res A -> St -> Prop) :
  wp a p Post (db, None) ->
  (forall r σ, Post r σ -> σ.2 = None /\ rtc inventory_step db σ.1 /\
     match r with Ok _ => True | Err e => sensible req -> broken e = false | Panicked => False end) ->
  wp a (discard p) (request_post req db) (db, None).
Proof.
  intros Hp HQ. apply wp_bind. revert Hp. apply wp_mono. intros [x|e|] σ HP; apply HQ in HP; done.
Qed.

Lemma settleOp_request target cannot vs rid db req r σ :
  final_status target -> settleOp_post a target cannot vs rid db r σ ->
  σ.2 = None /\ rtc inventory_step db σ.1 /\
  match r with Ok _ => True | Err e => sensible req -> broken e = false | Panicked => False end.
Proof.
  intros Hf [Hσ Hr]. split; [done|]. destruct r as [out|e|]; [| |done].
  - split; [|done]. by eapply settled_steps.
  - destruct Hr as [[He Hdb]|(-> & _ & ->)]; [|done].
    split; [|intros _; by apply faulty_not_broken].
    destruct Hdb as [->|[out Hset]]; [done|]. by eapply settled_steps.
Qed.

Lemma handle_wp req db : db_inv db -> wp a (handle req) (request_post req db) (db, None).
Proof.
  intros Hinv. destruct req as [vs input|vs input|vs rid|vs rid|vs rid|batchSize]; simpl.
  - eapply wp_discard; [by apply ReserveQuantity_wp|]. intros r σ [Hσ Hr]. split; [done|].
    destruct Hr; [done|]. split; [by eapply quantity_outcome_steps|].
    apply quantity_outcome_error in H4. by destruct res.
  - eapply wp_discard; [by apply ReserveSeats_wp|]. intros r σ [Hσ Hr]. split; [done|].
    destruct Hr; [done|]. split; [by eapply seats_outcome_steps|].
    apply seats_outcome_error in H3. by destruct res.
  - eapply wp_discard; [by apply GetReservation_wp|]. intros r σ [-> Hr]. split; [done|].
    split; [done|]. destruct r as [resp|e|]; [done| |done]. intros _.
    destruct Hr as [He|[-> _]]; [by apply faulty_not_broken|done].
  - eapply wp_discard; [by apply CancelReservation_wp|]. intros r σ.
    apply settleOp_request. right. by left.
  - eapply wp_discard; [by apply ConfirmReservation_wp|]. intros r σ.
    apply settleOp_request. by left.
  - destruct (Z.leb_spec batchSize 0) as [Hb|Hb].
    + unfold ExpireExpiredReservations. apply Z.leb_le in Hb as Hb'. rewrite Hb'.
      split; [done|]. split; [done|]. simpl. lia.
    + eapply wp_discard; [by apply ExpireExpired_wp|]. intros r σ [Hσ Hr]. split; [done|].
      destruct r as [n|e|]; [| |done].
      * destruct Hr as (now & skip & _ & _ & Hd). split; [|done]. by eapply expired_steps, Hd.
      * destruct Hr as [He Hd]. split; [|intros _; by apply faulty_not_broken].
        destruct Hd as [->|(now & skip & n & Hd)]; [done|]. by eapply expired_steps, Hd.
Qed.
End service.
