(* ===== verification/ServiceFacts.v ===== *)
(** * From outcomes to runs

    The lemmas behind the properties of [Correctness]: the outcome of each
    operation for a run in a given environment, the invariant along a history,
    and runs that respect a calm environment. *)

From S2P Require Import Prelude GoRuntime DbTypes Schema Prog Wp SqlcReservations ReservationService Inventory Lifecycle Settlement Requests Creation SeatCreation Service.
Local Open Scope string_scope.
Local Open Scope list_scope.
Local Open Scope Z_scope.

(** No transaction is open and the tables satisfy the invariant. *)
Definition ready (w : World) : Prop := w_saved w = None /\ db_inv (w_db w).

Lemma ready_st w : ready w -> st_of w = (w_db w, None).
Proof. intros [Hs _]. unfold st_of. by rewrite Hs. Qed.

Lemma st_of_saved w : (st_of w).2 = None -> w_saved w = None.
Proof. unfold st_of. simpl. by destruct (w_saved w). Qed.

(** The clock shows [now], nothing fails and generated identifiers are new. *)
Definition calm_at (now : Z) : assm := calm (fun t => t =? now).

Section facts.
Context `{PgtypeLaws} `{Env}.
Variable reservationTTL : Z.

(** The rule that connects [wp] to a run from a ready world. *)
Lemma run_wp {A} a (p : prog A) Q w r w' :
  ready w -> wp a p Q (w_db w, None) -> respects a p w = true -> run p w = (r, w') ->
  Q r (st_of w').
Proof.
  intros Hw Hp Hr Hrun. rewrite <- (ready_st w Hw) in Hp.
  pose proof (wp_sound a p Q w Hp Hr) as HQ. by rewrite Hrun in HQ.
Qed.

Lemma run_adversary {A} (p : prog A) Q w r w' :
  ready w -> wp adversary p Q (w_db w, None) -> run p w = (r, w') -> Q r (st_of w').
Proof. intros Hw Hp. apply (run_wp adversary); [done|done|]. apply respects_adversary. Qed.

Lemma handle_run req w r w' :
  ready w -> run (handle reservationTTL req) w = (r, w') ->
  ready w' /\ rtc inventory_step (w_db w) (w_db w') /\
  match r with Ok _ => True | Err e => sensible req -> broken e = false | Panicked => False end.
Proof.
  intros Hw Hrun.
  pose proof (run_adversary _ _ w r w' Hw (handle_wp reservationTTL adversary req _ (proj2 Hw)) Hrun)
    as (Hs & Hsteps & Hr).
  split; [|done]. split; [by apply st_of_saved|]. by eapply inventory_steps_inv, Hw.
Qed.

Lemma serve_run reqs w :
  ready w -> ready (serve reservationTTL reqs w) /\
    rtc inventory_step (w_db w) (w_db (serve reservationTTL reqs w)).
Proof.
  revert w. induction reqs as [|req reqs IH]; intros w Hw; [done|]. simpl.
  destruct (run (handle reservationTTL req) w) as [r w1] eqn:Hrun. cbn [snd].
  destruct (handle_run req w r w1 Hw Hrun) as (Hw1 & Hsteps & _).
  destruct (IH w1 Hw1) as [Hw2 Hsteps2]. split; [done|]. by etrans.
Qed.

Lemma ReserveQuantity_run a vs input w r w' :
  ready w -> respects a (ReserveQuantity reservationTTL vs input) w = true ->
  run (ReserveQuantity reservationTTL vs input) w = (r, w') ->
  w_saved w' = None /\ ReserveQuantity_outcome a reservationTTL vs input (w_db w) r (w_db w').
Proof.
  intros Hw Hresp Hrun.
  pose proof (run_wp a _ _ w r w' Hw (ReserveQuantity_wp a reservationTTL vs input _ (proj2 Hw))
    Hresp Hrun) as [Hs Hout].
  split; [by apply st_of_saved|done].
Qed.

Lemma ReserveSeats_run a vs input w r w' :
  ready w -> respects a (ReserveSeats reservationTTL vs input) w = true ->
  run (ReserveSeats reservationTTL vs input) w = (r, w') ->
  w_saved w' = None /\ ReserveSeats_outcome a reservationTTL vs input (w_db w) r (w_db w').
Proof.
  intros Hw Hresp Hrun.
  pose proof (run_wp a _ _ w r w' Hw (ReserveSeats_wp a reservationTTL vs input _ (proj2 Hw))
    Hresp Hrun) as [Hs Hout].
  split; [by apply st_of_saved|done].
Qed.

Lemma CancelReservation_run a vs rid w r w' :
  ready w -> respects a (CancelReservation vs rid) w = true ->
  run (CancelReservation vs rid) w = (r, w') ->
  settleOp_post a StatusCancelled ErrReservationCannotCancel vs rid (w_db w) r (st_of w').
Proof. intros Hw. by apply run_wp, CancelReservation_wp, Hw. Qed.

Lemma ConfirmReservation_run a vs rid w r w' :
  ready w -> respects a (ConfirmReservation vs rid) w = true ->
  run (ConfirmReservation vs rid) w = (r, w') ->
  settleOp_post a StatusConfirmed ErrReservationCannotConfirm vs rid (w_db w) r (st_of w').
Proof. intros Hw. by apply run_wp, ConfirmReservation_wp, Hw. Qed.

Lemma ExpireExpired_run a b w r w' :
  ready w -> 0 < b -> respects a (ExpireExpiredReservations b) w = true ->
  run (ExpireExpiredReservations b) w = (r, w') -> ExpireExpired_post a b (w_db w) r (st_of w').
Proof. intros Hw Hb. by apply run_wp, ExpireExpired_wp; [|apply Hw|]. Qed.

(** Nothing is the environment's doing in a calm one. *)
Lemma calm_hostile clock e : ~ hostile (calm clock) e.
Proof. by intros [? _]. Qed.

Lemma calm_faulty clock e : ~ faulty (calm clock) e.
Proof. by intros [? _]. Qed.

(** Settling in a calm environment. *)
Lemma settle_calm clock target cannot vs rid db r w' :
  settleOp_post (calm clock) target cannot vs rid db r (st_of w') ->
  w_saved w' = None /\
  ((exists out, r = Ok out /\ settled clock target cannot vs rid db out (w_db w')) \/
   (r = Err (Sentinel ErrReservationNotFound) /\ invisible vs rid db /\ w_db w' = db)).
Proof.
  intros [Hs Hr]. split; [by apply st_of_saved|]. destruct r as [out|e|]; [by left; eauto| |done].
  destruct Hr as [[He _]|(-> & Hv & Hdb)]; [by destruct (calm_faulty _ _ He)|by right].
Qed.

(** What settling does to a reservation the session may see. *)
Lemma settled_visible clock target cannot vs rid db out db' r :
  settled clock target cannot vs rid db out db' -> reservations db !! rid = Some r ->
  (Reservation_Status r = target /\ out = (response_of db r, None) /\ db' = db) \/
  (Reservation_Status r <> target /\ final_status (Reservation_Status r) /\
     out = (response_of db r, Some (Sentinel cannot)) /\ db' = db) \/
  (Reservation_Status r = StatusReserved /\ exists now ts, clock now = true /\
     if reservationExpired r now
     then transitioned StatusExpired rid db db' /\
          out = (response_of db' (with_reservation_status StatusExpired ts r), Some (Sentinel cannot))
     else transitioned target rid db db' /\
          out = (response_of db' (with_reservation_status target ts r), None)).
Proof.
  intros Hset Hr. destruct Hset as [r0 Hr0|r0 Hr0|r0 now db' ts Hr0 _ Hst Hn Hexp|r0 now db' ts Hr0 _ Hst Hn Hexp];
    simplify_eq; [by left|by right; left|right; right; split; [done|]..];
    exists now, ts; by rewrite Hexp.
Qed.

Lemma transitioned_ticket status rid db db' k t :
  transitioned status rid db db' -> ticket_types db !! k = Some t ->
  exists t', ticket_types db' !! k = Some t' /\
    TicketType_TotalQuantity t' = TicketType_TotalQuantity t /\
    TicketType_ReservedQuantity t' = TicketType_ReservedQuantity t - held rid k db /\
    TicketType_SoldQuantity t' = TicketType_SoldQuantity t +
      (if status ==? StatusConfirmed then held rid k db else 0).
Proof.
  intros Htr Ht. pose proof (tr_tickets _ _ _ _ Htr k) as Hk. rewrite Ht in Hk.
  destruct (ticket_types db' !! k) as [t'|]; [|done]. destruct Hk as ((_ & _ & _ & ?) & ? & ?). eauto.
Qed.

(** After a transition no row of the reservation has another status. *)
Lemma transitioned_rows status rid db db' k s :
  transitioned status rid db db' -> reservation_seats db' !! k = Some s ->
  ReservationSeat_ReservationID s = rid -> ReservationSeat_Status s = status.
Proof.
  intros Htr Hk Hid. destruct (tr_rseats _ _ _ _ Htr) as [ts Heq]. rewrite Heq in Hk.
  apply update_where_lookup in Hk as (s0 & _ & ->). unfold rseat_of_reservation in *.
  destruct (bool_decide (ReservationSeat_ReservationID s0 = rid)) eqn:E; [done|]. by to_prop.
Qed.
End facts.
