(* ===== verification/Crypto.v ===== *)
(** * Digests and encodings of the standard library

    What the session service uses of crypto/sha256, encoding/hex and
    encoding/base64: SHA-256 on 32-bit words with their wrap-around, lower-case
    hexadecimal, and the unpadded URL alphabet of base64. *)

From S2P Require Import Prelude GoRuntime DbTypes.
Local Open Scope string_scope.
Local Open Scope list_scope.
Local Open Scope Z_scope.

(** ** SHA-256 *)

Definition u32 (z : Z) : Z := Z.land z (2 ^ 32 - 1).
Definition rotr (x n : Z) : Z := Z.lor (Z.shiftr x n) (u32 (Z.shiftl x (32 - n))).

(** The primes below [n], by trial division. *)
Definition is_prime (p : nat) : bool :=
  (2 <=? p)%nat && forallb (fun d => negb (p mod d =? 0)%nat) (seq 2 (p - 2)).

Definition primes_below (n : nat) : list Z := Z.of_nat <$> List.filter is_prime (seq 0 n).

(** The integer cube root, bit by bit from bit [n] downwards. *)
Fixpoint cube_root_from (n : nat) (root z : Z) : Z :=
  let bit := Z.lor root (Z.shiftl 1 (Z.of_nat n)) in
  let root' := if bit ^ 3 <=? z then bit else root in
  match n with O => root' | S n' => cube_root_from n' root' z end.

(** The round constants: the first 32 bits of the fractional parts of the cube
    roots of the first 64 primes; the initial state: those of the square roots
    of the first 8. *)
Definition sha_K : list Z :=
  Eval vm_compute in (fun p => u32 (cube_root_from 40 0 (Z.shiftl p 96))) <$> primes_below 312.

Definition sha_H0 : list Z :=
  Eval vm_compute in (fun p => u32 (Z.sqrt (Z.shiftl p 64))) <$> primes_below 20.

Example sha_K_length : (length sha_K, nth 63 sha_K 0) = (64%nat, 0xc67178f2).
Proof. reflexivity. Qed.

(** The message schedule, newest word first: [n] words are added to [w]. *)
Fixpoint sha_schedule (n : nat) (w : list Z) : list Z :=
  match n with
  | O => w
  | S n' =>
      let at_ i := nth i w 0 in
      let s0 := Z.lxor (Z.lxor (rotr (at_ 14%nat) 7) (rotr (at_ 14%nat) 18)) (Z.shiftr (at_ 14%nat) 3) in
      let s1 := Z.lxor (Z.lxor (rotr (at_ 1%nat) 17) (rotr (at_ 1%nat) 19)) (Z.shiftr (at_ 1%nat) 10) in
      sha_schedule n' (u32 (at_ 15%nat + s0 + at_ 6%nat + s1) :: w)
  end.

Definition sha_round (st : list Z) (kw : Z * Z) : list Z :=
  match st with
  | [a; b; c; d; e; f; g; h] =>
      let s1 := Z.lxor (Z.lxor (rotr e 6) (rotr e 11)) (rotr e 25) in
      let ch := Z.lxor (Z.land e f) (Z.land (Z.lxor e (2 ^ 32 - 1)) g) in
      let t1 := u32 (h + s1 + ch + kw.1 + kw.2) in
      let s0 := Z.lxor (Z.lxor (rotr a 2) (rotr a 13)) (rotr a 22) in
      let maj := Z.lxor (Z.lxor (Z.land a b) (Z.land a c)) (Z.land b c) in
      [u32 (t1 + u32 (s0 + maj)); a; b; c; u32 (d + t1); e; f; g]
  | _ => st
  end.

Definition sha_block (st : list Z) (block : list Z) : list Z :=
  let w := rev (sha_schedule 48 (rev block)) in
  zip_with (fun x y => u32 (x + y)) st (fold_left sha_round (zip sha_K w) st).

(** Big-endian bytes of the low [n] bytes of [z]. *)
Fixpoint be_bytes (n : nat) (z : Z) : list Z :=
  match n with O => [] | S n' => be_bytes n' (Z.shiftr z 8) ++ [Z.land z 255] end.

Fixpoint be_words (bs : list Z) : list Z :=
  match bs with
  | a :: b :: c :: d :: bs' =>
      Z.lor (Z.lor (Z.shiftl a 24) (Z.shiftl b 16)) (Z.lor (Z.shiftl c 8) d) :: be_words bs'
  | _ => []
  end.

(** The padding brings the length to a multiple of 64 bytes. *)
Definition sha_pad (msg : list Z) : list Z :=
  let len := Z.of_nat (length msg) in
  msg ++ [128] ++ replicate (Z.to_nat ((55 - len) mod 64)) 0 ++ be_bytes 8 (8 * len).

Fixpoint sha_blocks (n : nat) (st : list Z) (words : list Z) : list Z :=
  match n with
  | O => st
  | S n' => sha_blocks n' (sha_block st (take 16 words)) (drop 16 words)
  end.

(** sha256.Sum256 *)
Definition Sum256 (msg : list Z) : list Z :=
  let padded := sha_pad msg in
  flat_map (be_bytes 4) (sha_blocks (length padded / 64) sha_H0 (be_words padded)).

(** ** Encodings *)

(** hex.EncodeToString *)
Definition hex_EncodeToString (bs : list Z) : string :=
  string_of_list_ascii
    (flat_map (fun b => [hex_digit (Z.to_N (Z.shiftr b 4)); hex_digit (Z.to_N (Z.land b 15))]) bs).

Definition byte_value (b : byte) : Z := Z.of_N (Byte.to_N b).

Definition bytes_of_string (s : string) : list Z := byte_of_ascii <$> list_ascii_of_string s.

(** The URL alphabet of base64. *)
Definition base64_digit (z : Z) : ascii :=
  let n := Z.to_N z in
  if (n <? 26)%N then ascii_of_N (65 + n)
  else if (n <? 52)%N then ascii_of_N (71 + n)
  else if (n <? 62)%N then ascii_of_N (n - 4)
  else if (n =? 62)%N then "-"%char else "_"%char.

(** base64.RawURLEncoding *)
Fixpoint base64_encode (bs : list Z) : list ascii :=
  match bs with
  | a :: b :: c :: bs' =>
      [base64_digit (Z.shiftr a 2);
       base64_digit (Z.lor (Z.shiftl (Z.land a 3) 4) (Z.shiftr b 4));
       base64_digit (Z.lor (Z.shiftl (Z.land b 15) 2) (Z.shiftr c 6));
       base64_digit (Z.land c 63)] ++ base64_encode bs'
  | [a; b] =>
      [base64_digit (Z.shiftr a 2);
       base64_digit (Z.lor (Z.shiftl (Z.land a 3) 4) (Z.shiftr b 4));
       base64_digit (Z.shiftl (Z.land b 15) 2)]
  | [a] => [base64_digit (Z.shiftr a 2); base64_digit (Z.shiftl (Z.land a 3) 4)]
  | [] => []
  end.

Definition RawURLEncoding_EncodeToString (bs : list Z) : string :=
  string_of_list_ascii (base64_encode bs).

(** ** Known answers *)

Example Sum256_empty : hex_EncodeToString (Sum256 []) =
  "e3b0c44298fc1c149afbf4c8996fb92427ae41e4649b934ca495991b7852b855".
Proof. vm_compute. reflexivity. Qed.

Example Sum256_abc : hex_EncodeToString (Sum256 (bytes_of_string "abc")) =
  "ba7816bf8f01cfea414140de5dae2223b00361a396177a9cb410ff61f20015ad".
Proof. vm_compute. reflexivity. Qed.

(** A message of two blocks. *)
Example Sum256_two_blocks : hex_EncodeToString (Sum256 (bytes_of_string
  "abcdbcdecdefdefgefghfghighijhijkijkljklmklmnlmnomnopnopq")) =
  "248d6a61d20638b8e5c026930c3e6039a33ce45964ff2167f6ecedd419db06c1".
Proof. vm_compute. reflexivity. Qed.

Example base64_answer :
  RawURLEncoding_EncodeToString [251; 255; 190; 97] = "-_--YQ".
Proof. vm_compute. reflexivity. Qed.
