(* ===== verification/NetHttp.v ===== *)
(** * net/http, as far as the program uses it

    Requests, cookies, and a response writer with the rules of net/http: the
    first WriteHeader sends the status line with a snapshot of the headers, and
    later changes to the headers or the status do not reach the client. An
    [http] computation is a handler's code: it threads the writer and the log
    through a [prog], and keeps both when the code panics. *)

From S2P Require Import Prelude GoRuntime DbTypes Schema Prog Wp.
Local Open Scope string_scope.
Local Open Scope list_scope.
Local Open Scope Z_scope.

(** ** Requests *)

(** The cookies in the order of the header, the X-Request-ID header ("" when
    absent), the parameters of the matched route, the body, and the request
    identifier that the middleware stores in the context. *)
Record Request := MkRequest {
  Method : string;
  URLPath : string;
  Cookies : list (string * string);
  XRequestID : string;
  URLParams : list (string * string);
  Body : string;
  context_request_id : option string }.

Fixpoint assoc (name : string) (l : list (string * string)) : option string :=
  match l with
  | [] => None
  | (n, v) :: rest => if n ==? name then Some v else assoc name rest
  end.

(** r.Cookie: the first cookie of that name. *)
Definition Cookie (r : Request) (name : string) : option string := assoc name (Cookies r).

(** chi.URLParam: "" when the route has no such parameter. *)
Definition URLParam (r : Request) (name : string) : string := default "" (assoc name (URLParams r)).

(** The fields of http.Cookie that the program sets. *)
Record HttpCookie := MkHttpCookie {
  cookie_Name : string; cookie_Value : string; cookie_Path : string; cookie_MaxAge : Z;
  cookie_Expires : option Z; cookie_HttpOnly : bool; cookie_SameSiteLax : bool;
  cookie_Secure : bool }.

(** ** The response writer *)

Section writer.
Context {B : Type}.

(** [header] and [cookies] are Header(); [sent] is what has gone out: the
    status and the headers at that moment. [recorder] is the status code of the
    statusRecorder that wraps the writer, if one does. *)
Record ResponseWriter := MkWriter {
  header : gmap string string;
  cookies : list HttpCookie;
  sent : option (Z * gmap string string * list HttpCookie);
  body : list B;
  recorder : option Z }.

Definition new_writer : ResponseWriter := MkWriter ∅ [] None [] None.

Definition set_header (key value : string) (w : ResponseWriter) : ResponseWriter :=
  MkWriter (<[key:=value]> (header w)) (cookies w) (sent w) (body w) (recorder w).

Definition add_cookie (c : HttpCookie) (w : ResponseWriter) : ResponseWriter :=
  MkWriter (header w) (cookies w ++ [c]) (sent w) (body w) (recorder w).

Definition send (statusCode : Z) (w : ResponseWriter) : ResponseWriter :=
  MkWriter (header w) (cookies w)
    (match sent w with Some s => Some s | None => Some (statusCode, header w, cookies w) end)
    (body w) (recorder w).

Definition record_status (statusCode : Z) (w : ResponseWriter) : ResponseWriter :=
  MkWriter (header w) (cookies w) (sent w) (body w)
    (match recorder w with Some _ => Some statusCode | None => None end).

Definition set_recorder (rec : option Z) (w : ResponseWriter) : ResponseWriter :=
  MkWriter (header w) (cookies w) (sent w) (body w) rec.

(** w.WriteHeader, through the recorder when there is one. *)
Definition WriteHeader (statusCode : Z) (w : ResponseWriter) : ResponseWriter :=
  send statusCode (record_status statusCode w).

(** w.Write: an unsent response is sent with status 200 first. *)
Definition Write (b : B) (w : ResponseWriter) : ResponseWriter :=
  let w' := send 200 w in
  MkWriter (header w') (cookies w') (sent w') (body w' ++ [b]) (recorder w').

(** Header().Get: "" when absent. *)
Definition get_header (key : string) (w : ResponseWriter) : string := default "" (header w !! key).

(** The status that the client sees. *)
Definition status (w : ResponseWriter) : option Z := (fun s => s.1.1) <$> sent w.
End writer.
Arguments ResponseWriter : clear implicits.

(** ** Handler code *)

(** What the loggers have written: the completion of a request, the recovery of
    a panic and a response that could not be encoded (the texts, the remote
    address, the user agent and the stack are left out). *)
Inductive log_record :=
  | EncodeFailed
  | RequestCompleted (method path : string) (status_code duration_ms : Z) (request_id : string)
  | PanicRecovered (request_id : string).

Record HttpState (B : Type) := MkHttp { writer : ResponseWriter B; logs : list log_record }.
Arguments MkHttp {B}.
Arguments writer {B}.
Arguments logs {B}.

(** [None] is a panic on its way up. *)
Definition http (B A : Type) : Type := HttpState B -> prog (option A * HttpState B).

Section http.
Context {B : Type}.

Definition hret {A} (x : A) : http B A := fun s => Ret (Some x, s).

Definition hbind {A C} (m : http B A) (f : A -> http B C) : http B C := fun s =>
  let* out := m s in
  match out with
  | (Some x, s') => f x s'
  | (None, s') => Ret (None, s')
  end.

(** [x, err := p]: a call that does not touch the writer. *)
Definition call {A} (p : prog A) : http B (error + A) := fun s =>
  let* r := catch p in
  match r with
  | Ok x => Ret (Some (inr x), s)
  | Err e => Ret (Some (inl e), s)
  | Panicked => Ret (None, s)
  end.

Definition modify (f : ResponseWriter B -> ResponseWriter B) : http B unit := fun s =>
  Ret (Some tt, MkHttp (f (writer s)) (logs s)).

Definition get_writer : http B (ResponseWriter B) := fun s => Ret (Some (writer s), s).

Definition log (l : log_record) : http B unit := fun s =>
  Ret (Some tt, MkHttp (writer s) (logs s ++ [l])).

(** A function with a deferred recover: [handler] runs when [m] panics. *)
Definition recovering {A} (m : http B A) (handler : http B A) : http B A := fun s =>
  let* out := m s in
  match out with
  | (Some x, s') => Ret (Some x, s')
  | (None, s') => handler s'
  end.

(** A function whose writer is wrapped while [m] runs and unwrapped after, on
    panics too. *)
Definition recording {A} (rec : Z) (m : http B A) : http B (A * Z) := fun s =>
  let outer := recorder (writer s) in
  let* out := m (MkHttp (set_recorder (Some rec) (writer s)) (logs s)) in
  let s' := MkHttp (set_recorder outer (writer out.2)) (logs out.2) in
  match out.1 with
  | Some x => Ret (Some (x, default rec (recorder (writer out.2))), s')
  | None => Ret (None, s')
  end.
End http.

Definition Handler (B : Type) : Type := Request -> http B unit.

Declare Scope http_scope.
Delimit Scope http_scope with http.
Notation "'let!' x ':=' m 'in' f" := (hbind m (fun x => f))
  (at level 10, x name, f at level 200) : http_scope.

(** ** Rules *)

Section rules.
Context {B : Type}.
Variable a : assm.

Lemma wp_hbind {A C} (m : http B A) (f : A -> http B C) s Q σ :
  wp a (m s) (fun r σ' => match r with
                          | Ok (Some x, s') => wp a (f x s') Q σ'
                          | Ok (None, s') => Q (Ok (None, s')) σ'
                          | Err e => Q (Err e) σ'
                          | Panicked => Q Panicked σ'
                          end) σ ->
  wp a (hbind m f s) Q σ.
Proof.
  intros Hm. apply wp_bind. revert Hm. apply wp_mono. by intros [[[x|] s']|e|] σ'.
Qed.

Lemma wp_call {A} (p : prog A) (s : HttpState B) (Q : res (option (error + A) * HttpState B) -> St -> Prop) σ :
  wp a p (fun r σ' => match r with
                      | Ok x => Q (Ok (Some (inr x), s)) σ'
                      | Err e => Q (Ok (Some (inl e), s)) σ'
                      | Panicked => Q (Ok (None, s)) σ'
                      end) σ ->
  wp a (call p s) Q σ.
Proof.
  intros Hp. apply wp_bind, wp_catch. revert Hp. apply wp_mono. by intros [x|e|] σ'.
Qed.
End rules.
