(* ===== verification/HttpServer.v ===== *)
(** * internal/httpserver: responses, request identifiers, middleware

    response.go, errors.go, middleware.go and NewRouter over the [http]
    computations of [NetHttp]. *)

From S2P Require Import Prelude GoRuntime DbTypes Schema Prog Wp Crypto NetHttp.
Local Open Scope string_scope.
Local Open Scope list_scope.
Local Open Scope Z_scope.
Local Open Scope http_scope.

(** ** Times in UTC *)

(** The civil date of a day count since 1970-01-01 (proleptic Gregorian). *)
Definition civil_from_days (days : Z) : Z * Z * Z :=
  let z := days + 719468 in
  let era := z / 146097 in
  let doe := z mod 146097 in
  let yoe := (doe - doe / 1460 + doe / 36524 - doe / 146096) / 365 in
  let doy := doe - (365 * yoe + yoe / 4 - yoe / 100) in
  let mp := (5 * doy + 2) / 153 in
  let day := doy - (153 * mp + 2) / 5 + 1 in
  let month := if mp <? 10 then mp + 3 else mp - 9 in
  let year := yoe + era * 400 + (if month <=? 2 then 1 else 0) in
  (year, month, day).

Definition year_of (t : Z) : Z := let '(year, _, _) := civil_from_days (t / 10 ^ 9 / 86400) in year.

(** time.Time.MarshalJSON fails unless four digits suffice for the year, in the
    zone of the value; the process is taken to run in UTC. *)
Definition time_encodes (t : Z) : bool := (0 <=? year_of t) && (year_of t <=? 9999).

Example time_encodes_1 : time_encodes 253402300799999999999 = true. Proof. reflexivity. Qed.
Example time_encodes_2 : time_encodes 253402300800000000000 = false. Proof. reflexivity. Qed.

(** ** response.go *)

Record ErrorDetail := MkErrorDetail {
  Detail_Code : string; Detail_Message : string; Detail_RequestID : string }.

(** What WriteJSON encodes: a payload of a handler or an ErrorBody. *)
Inductive json (P : Type) := Payload (p : P) | ErrorBody (d : ErrorDetail).
Arguments Payload {P}.
Arguments ErrorBody {P}.

(** The time.Time values of a payload. The payloads of the program are structs
    of strings, integers and times, and slices and maps of these: nothing but a
    time can make encoding/json fail. *)
Class JsonEncode (P : Type) := json_times : P -> list Z.

Definition payload_times `{JsonEncode P} (payload : json P) : list Z :=
  match payload with Payload p => json_times p | ErrorBody _ => [] end.

Definition encodes `{JsonEncode P} (payload : json P) : bool := forallb time_encodes (payload_times payload).

Lemma time_encodes_spec t : time_encodes t = true <-> 0 <= year_of t <= 9999.
Proof. unfold time_encodes. rewrite andb_true_iff, !Z.leb_le. done. Qed.

Lemma encodes_spec `{JsonEncode P} (payload : json P) :
  encodes payload = true <-> Forall (fun t => 0 <= year_of t <= 9999) (payload_times payload).
Proof.
  unfold encodes. rewrite forallb_forall, Forall_forall. setoid_rewrite list_elem_of_In.
  by setoid_rewrite time_encodes_spec.
Qed.

Definition RequestIDHeader : string := "X-Request-ID".

Section httpserver.
Context `{JsonEncode P}.

(** Encode writes the whole value, or nothing when it cannot be encoded; the
    status has gone out by then. *)
Definition WriteJSON (statusCode : Z) (payload : json P) : http (json P) unit :=
  let! _ := modify (set_header "Content-Type" "application/json") in
  let! _ := modify (WriteHeader statusCode) in
  if encodes payload then modify (Write payload) else log EncodeFailed.

Definition requestIDFromWriter : http (json P) string :=
  let! w := get_writer in hret (get_header RequestIDHeader w).

Definition WriteError (statusCode : Z) (code message : string) : http (json P) unit :=
  let! requestID := requestIDFromWriter in
  WriteJSON statusCode (ErrorBody (MkErrorDetail code message requestID)).

(** ** errors.go *)

Record AppError := MkAppError { App_StatusCode : Z; App_Code : string; App_Message : string }.

Definition NewNotFoundError (code message : string) : AppError := MkAppError 404 code message.
Definition NewConflictError (code message : string) : AppError := MkAppError 409 code message.
Definition NewUnauthorizedError (code message : string) : AppError := MkAppError 401 code message.
Definition NewValidationError (code message : string) : AppError := MkAppError 400 code message.
Definition InternalError (code message : string) : AppError := MkAppError 500 code message.

Definition WriteAppError (err : AppError) : http (json P) unit :=
  WriteError (App_StatusCode err) (App_Code err) (App_Message err).
End httpserver.

(** ** Request identifiers (middleware.go) *)

Definition digit (z : Z) : ascii := ascii_of_N (48 + Z.to_N (z mod 10)).

(** [n] decimal digits with leading zeros. *)
Fixpoint padded (n : nat) (z : Z) : list ascii :=
  match n with O => [] | S n' => padded n' (z / 10) ++ [digit z] end.

(** t.UTC().Format("20060102150405.000000000"), for years of four digits. *)
Definition format_instant (t : Z) : string :=
  let seconds := t / 10 ^ 9 in
  let '(year, month, day) := civil_from_days (seconds / 86400) in
  let s := seconds mod 86400 in
  string_of_list_ascii
    (padded 4 year ++ padded 2 month ++ padded 2 day ++ padded 2 (s / 3600) ++
     padded 2 (s / 60 mod 60) ++ padded 2 (s mod 60) ++ ["."%char] ++ padded 9 (t mod 10 ^ 9)).

Example format_instant_1 : format_instant 1709210096123456789 = "20240229123456.123456789".
Proof. reflexivity. Qed.

(** Go's s[i:j] on a string. *)
Definition substr (i j : nat) (s : string) : string := substring i (j - i) s.

(** The version and variant bits of a random UUID. *)
Definition set_uuid_bits (bs : list Z) : list Z :=
  alter (fun b => Z.lor (Z.land b 0x3f) 0x80) 8%nat
    (alter (fun b => Z.lor (Z.land b 0x0f) 0x40) 6%nat bs).

Definition newRequestID : prog string :=
  let* r := try (RandRead 16 of_sum) in
  match r with
  | inl _ => let* now := time_Now in Ret (format_instant now)
  | inr bytes =>
      let encoded := hex_EncodeToString (set_uuid_bits (byte_value <$> bytes)) in
      Ret (substr 0 8 encoded ++ "-" ++ substr 8 12 encoded ++ "-" ++ substr 12 16 encoded ++ "-" ++
           substr 16 20 encoded ++ "-" ++ substr 20 32 encoded)%string
  end.

(** ** Middleware *)

Section middleware.
Context `{JsonEncode P}.
Implicit Types next : Handler (json P).

(** r.WithContext(context.WithValue(...)) *)
Definition with_request_id (requestID : string) (r : Request) : Request :=
  MkRequest (Method r) (URLPath r) (Cookies r) (XRequestID r) (URLParams r) (Body r) (Some requestID).

Definition RequestIDFromContext (r : Request) : string := default "" (context_request_id r).

(** newRequestID cannot fail: both of its branches return a string. *)
Definition RequestID next : Handler (json P) := fun r =>
  let requestID := TrimSpace (XRequestID r) in
  let! requestID :=
    if requestID ==? "" then
      fun s => let* fresh := newRequestID in Ret (Some fresh, s)
    else hret requestID in
  let! _ := modify (set_header RequestIDHeader requestID) in
  next (with_request_id requestID r).

Definition now_call : http (json P) Z := fun s => let* now := time_Now in Ret (Some now, s).

(** The line is written after next.ServeHTTP returns; a panic skips it. *)
Definition RequestLogger next : Handler (json P) := fun r =>
  let! startedAt := now_call in
  let! out := recording 200 (next r) in
  let! finishedAt := now_call in
  log (RequestCompleted (Method r) (URLPath r) out.2 (Z.quot (finishedAt - startedAt) (10 ^ 6))
    (RequestIDFromContext r)).

Definition Recoverer next : Handler (json P) := fun r =>
  recovering (next r)
    (let! _ := log (PanicRecovered (RequestIDFromContext r)) in
     WriteError 500 "INTERNAL_ERROR" "Internal error").

(** server.go: the first middleware of router.Use is the outermost. *)
Definition NewRouter next : Handler (json P) := Recoverer (RequestID (RequestLogger next)).
End middleware.
