(* ===== verification/SqlcAccounts.v ===== *)
(** * internal/sqlc/sessions.sql.go and users.sql.go: the account statements

    The queries on visitor_sessions and users that the session and auth
    services run, and what they do on a database that satisfies its
    constraints. *)

From S2P Require Import Prelude GoRuntime DbTypes Schema Prog SqlcReservations Inventory.
Local Open Scope string_scope.
Local Open Scope list_scope.
Local Open Scope Z_scope.

(** ** sessions.sql.go *)

Section sessions_queries.
Context `{Pgtype}.

Definition new_session (ctx : sctx) (AnonymousTokenHash : string)
    (LastSeenAt ExpiresAt : Timestamptz) : VisitorSession :=
  MkVisitorSession (ctx_new_id ctx) zero_UUID AnonymousTokenHash (ctx_now ctx) (ctx_now ctx)
    (encode_ts LastSeenAt) (encode_ts ExpiresAt).

(** UNIQUE (anonymous_token_hash) *)
Definition token_hash_free (hash : string) (m : gmap UUID VisitorSession) : bool :=
  negb (existsb (fun s => VisitorSession_AnonymousTokenHash s ==? hash) (rows m)).

Definition CreateVisitorSession (AnonymousTokenHash : string) (LastSeenAt ExpiresAt : Timestamptz)
    : stmt VisitorSession := fun ctx db =>
  let row := new_session ctx AnonymousTokenHash LastSeenAt ExpiresAt in
  let? m := insert_row (visitor_sessions db) (ctx_new_id ctx) row true
    (token_hash_free AnonymousTokenHash (visitor_sessions db)) true in
  inr (row, set_visitor_sessions m db).
End sessions_queries.

(** Generated, but used by no service. *)
Definition GetVisitorSessionByID (id : UUID) : stmt VisitorSession :=
  reading (fun db => one (visitor_sessions db !! id)).

Definition GetVisitorSessionByTokenHash (anonymousTokenHash : string) : stmt VisitorSession :=
  reading (fun db => one (head (select
    (fun s => VisitorSession_AnonymousTokenHash s ==? anonymousTokenHash)
    (by_key (fun s => uuid_bytes (VisitorSession_ID s))) (visitor_sessions db)))).

Definition with_user (user : UUID) (updated : Timestamptz) (s : VisitorSession) : VisitorSession :=
  MkVisitorSession (VisitorSession_ID s) user (VisitorSession_AnonymousTokenHash s)
    (VisitorSession_CreatedAt s) updated (VisitorSession_LastSeenAt s) (VisitorSession_ExpiresAt s).

Definition with_last_seen (now : Timestamptz) (s : VisitorSession) : VisitorSession :=
  MkVisitorSession (VisitorSession_ID s) (VisitorSession_UserID s)
    (VisitorSession_AnonymousTokenHash s) (VisitorSession_CreatedAt s) now now
    (VisitorSession_ExpiresAt s).

Definition AttachUserToVisitorSession (ID UserID : UUID) : stmt VisitorSession := fun ctx db =>
  match visitor_sessions db !! ID with
  | None => inl PgNoRows
  | Some s =>
      if Valid UserID && negb (has_row (users db) UserID) then inl foreign_key_violation else
      let s' := with_user UserID (ctx_now ctx) s in
      inr (s', set_visitor_sessions (<[ID:=s']> (visitor_sessions db)) db)
  end.

Definition TouchVisitorSession (ID : UUID) : stmt VisitorSession := fun ctx db =>
  match visitor_sessions db !! ID with
  | None => inl PgNoRows
  | Some s =>
      let s' := with_last_seen (ctx_now ctx) s in
      inr (s', set_visitor_sessions (<[ID:=s']> (visitor_sessions db)) db)
  end.

(** ** users.sql.go *)

(** UNIQUE (email) *)
Definition email_free (email : string) (m : gmap UUID User) : bool :=
  negb (existsb (fun u => User_Email u ==? email) (rows m)).

Definition new_user (ctx : sctx) (Email PasswordHash : string) : User :=
  MkUser (ctx_new_id ctx) Email PasswordHash (ctx_now ctx) (ctx_now ctx).

Definition CreateUser (Email PasswordHash : string) : stmt User := fun ctx db =>
  let row := new_user ctx Email PasswordHash in
  let? m := insert_row (users db) (ctx_new_id ctx) row true (email_free Email (users db)) true in
  inr (row, set_users m db).

Definition GetUserByEmail (email : string) : stmt User :=
  reading (fun db => one (head (select (fun u => User_Email u ==? email)
    (by_key (fun u => uuid_bytes (User_ID u))) (users db)))).

Definition GetUserByID (id : UUID) : stmt User := reading (fun db => one (users db !! id)).

(** ** What the statements do *)

(** The account statements touch sessions and users only, so the inventory
    invariant survives as far as the constraints do. *)
Definition accounts_changed (db db' : Database) : Prop :=
  events db' = events db /\ ticket_types db' = ticket_types db /\ seats db' = seats db /\
  reservations db' = reservations db /\ reservation_items db' = reservation_items db /\
  reservation_seats db' = reservation_seats db /\ schema_ok db'.

Lemma accounts_changed_inv db db' : db_inv db -> accounts_changed db db' -> db_inv db'.
Proof.
  intros [Hs [HR HC] [HI HS HH HU]] (_ & Ht & Hse & Hr & Hi & Hrs & Hs').
  split; [done| |].
  - split; unfold units; intros k t; rewrite Ht, Hi; [apply HR|apply HC].
  - split; unfold all_rows, item_follows, rseat_follows, header_ok; rewrite ?Hi, ?Hrs, ?Hr, ?Ht, ?Hse;
      [exact HI|exact HS|exact HH|exact HU].
Qed.

Lemma accounts_changed_refl db : schema_ok db -> accounts_changed db db.
Proof. intros ?. unfold accounts_changed. by split_and!. Qed.

Lemma accounts_changed_trans db1 db2 db3 :
  accounts_changed db1 db2 -> accounts_changed db2 db3 -> accounts_changed db1 db3.
Proof.
  intros (? & ? & ? & ? & ? & ? & _) (? & ? & ? & ? & ? & ? & ?).
  unfold accounts_changed. split_and!; congruence || done.
Qed.

Lemma existsb_rows_false {V} (P : V -> bool) (m : gmap UUID V) :
  existsb P (rows m) = false <-> forall k r, m !! k = Some r -> P r = false.
Proof.
  split.
  - intros He k r Hk. apply not_true_iff_false. intros HP. apply not_true_iff_false in He.
    apply He, existsb_exists. exists r. split; [|done]. apply list_elem_of_In, elem_of_rows. eauto.
  - intros HP. apply not_true_iff_false. intros (r & Hr & Ht)%existsb_exists.
    apply list_elem_of_In, elem_of_rows in Hr as [k Hk]. by rewrite (HP k r Hk) in Ht.
Qed.

Section account_specs.
Context `{Pgtype}.

Lemma CreateVisitorSession_ok ctx db hash seen exp :
  schema_ok db -> Valid (ctx_new_id ctx) = true ->
  match CreateVisitorSession hash seen exp ctx db with
  | inl e => e = unique_violation /\
      (is_Some (visitor_sessions db !! ctx_new_id ctx) \/
       exists k s, visitor_sessions db !! k = Some s /\ VisitorSession_AnonymousTokenHash s = hash)
  | inr (row, db') => row = new_session ctx hash seen exp /\
      visitor_sessions db !! ctx_new_id ctx = None /\
      db' = set_visitor_sessions (<[ctx_new_id ctx:=row]> (visitor_sessions db)) db /\
      accounts_changed db db'
  end.
Proof.
  intros Hdb Hv. unfold CreateVisitorSession.
  pose proof (insert_row_ok (visitor_sessions db) (ctx_new_id ctx) (new_session ctx hash seen exp)
    true (token_hash_free hash (visitor_sessions db)) true) as Hins.
  destruct (insert_row _ _ _ _ _ _) as [e|m].
  - destruct Hins as [[??]|[[-> [Hi|Hi]]|[Hi ->]]]; try done; (split; [done|]); [by left|right].
    unfold token_hash_free in Hi. apply negb_false_iff, existsb_exists in Hi as (s & Hs & He).
    apply list_elem_of_In, elem_of_rows in Hs as [k Hk]. to_prop. eauto.
  - destruct Hins as (Hnone & _ & Huniq & _ & ->). split_and!; [done..|].
    unfold accounts_changed. split_and!; [done..|]. schema_tac; [|by apply refers_opt_insert].
    apply unique_insert; [done|]. intros j s _ Hj _ _ Heq.
    unfold token_hash_free in Huniq. apply negb_true_iff in Huniq.
    pose proof (proj1 (existsb_rows_false _ _) Huniq j s Hj) as Hno. cbv beta in Hno. to_prop. done.
Qed.
End account_specs.

Lemma update_session_ok db id s s' :
  schema_ok db -> visitor_sessions db !! id = Some s ->
  VisitorSession_ID s' = VisitorSession_ID s ->
  VisitorSession_AnonymousTokenHash s' = VisitorSession_AnonymousTokenHash s ->
  (Valid (VisitorSession_UserID s') = true -> is_Some (users db !! VisitorSession_UserID s')) ->
  accounts_changed db (set_visitor_sessions (<[id:=s']> (visitor_sessions db)) db).
Proof.
  intros Hdb Hs HID Hh Hu. pose proof (sessions_keyed _ Hdb id s Hs) as [HID' HV].
  unfold accounts_changed. split_and!; [done..|]. schema_tac;
    first [by apply keyed_insert; [|congruence|]|by eapply unique_update; [|exact Hs|..]
          |by apply refers_opt_insert].
Qed.

Lemma AttachUser_ok ctx db id uid :
  schema_ok db ->
  match AttachUserToVisitorSession id uid ctx db with
  | inl e => (e = PgNoRows /\ visitor_sessions db !! id = None) \/
             (e = foreign_key_violation /\ Valid uid = true /\ users db !! uid = None)
  | inr (s', db') => exists s, visitor_sessions db !! id = Some s /\
      s' = with_user uid (ctx_now ctx) s /\
      db' = set_visitor_sessions (<[id:=s']> (visitor_sessions db)) db /\ accounts_changed db db'
  end.
Proof.
  intros Hdb. unfold AttachUserToVisitorSession. destruct (visitor_sessions db !! id) as [s|] eqn:Hs; [|by left].
  destruct (Valid uid && _) eqn:E.
  - right. to_prop. split; [done|]. split; [done|]. unfold has_row in H0. by destruct (users db !! uid).
  - exists s. split_and!; [done..|]. apply (update_session_ok db id s); try done. intros Hv.
    simpl in *. rewrite Hv in E. simpl in E. apply negb_false_iff in E. by apply has_row_spec.
Qed.

Lemma Touch_ok ctx db id :
  schema_ok db ->
  match TouchVisitorSession id ctx db with
  | inl e => e = PgNoRows /\ visitor_sessions db !! id = None
  | inr (s', db') => exists s, visitor_sessions db !! id = Some s /\
      s' = with_last_seen (ctx_now ctx) s /\
      db' = set_visitor_sessions (<[id:=s']> (visitor_sessions db)) db /\ accounts_changed db db'
  end.
Proof.
  intros Hdb. unfold TouchVisitorSession. destruct (visitor_sessions db !! id) as [s|] eqn:Hs; [|done].
  exists s. split_and!; [done..|]. apply (update_session_ok db id s); try done.
  exact (sessions_user _ Hdb id s Hs).
Qed.

Lemma CreateUser_ok ctx db email hash :
  schema_ok db -> Valid (ctx_new_id ctx) = true ->
  match CreateUser email hash ctx db with
  | inl e => e = unique_violation /\
      (is_Some (users db !! ctx_new_id ctx) \/ exists k u, users db !! k = Some u /\ User_Email u = email)
  | inr (row, db') => row = new_user ctx email hash /\ users db !! ctx_new_id ctx = None /\
      (forall k u, users db !! k = Some u -> User_Email u <> email) /\
      db' = set_users (<[ctx_new_id ctx:=row]> (users db)) db /\ accounts_changed db db'
  end.
Proof.
  intros Hdb Hv. unfold CreateUser.
  pose proof (insert_row_ok (users db) (ctx_new_id ctx) (new_user ctx email hash) true
    (email_free email (users db)) true) as Hins.
  destruct (insert_row _ _ _ _ _ _) as [e|m].
  - destruct Hins as [[??]|[[-> [Hi|Hi]]|[Hi ->]]]; try done; (split; [done|]); [by left|right].
    unfold email_free in Hi. apply negb_false_iff, existsb_exists in Hi as (u & Hu & He).
    apply list_elem_of_In, elem_of_rows in Hu as [k Hk]. to_prop. eauto.
  - destruct Hins as (Hnone & _ & Huniq & _ & ->).
    assert (Hfree : forall k u, users db !! k = Some u -> User_Email u <> email).
    { intros k u Hk. unfold email_free in Huniq. apply negb_true_iff in Huniq.
      pose proof (proj1 (existsb_rows_false _ _) Huniq k u Hk) as Hno. cbv beta in Hno. by to_prop. }
    split_and!; [done..|]. unfold accounts_changed. split_and!; [done..|]. schema_tac.
    apply unique_insert; [done|]. intros j u _ Hj _ _ Heq. by apply (Hfree j u Hj).
Qed.

(** A lookup by a unique column finds the row that has it. *)
Lemma head_select_ok {V} (m : gmap UUID V) (P : V -> bool) R `{!RelDecision R} :
  match one (head (select P R m)) with
  | inl e => e = PgNoRows /\ forall k r, m !! k = Some r -> P r = false
  | inr r => P r = true /\ exists k, m !! k = Some r
  end.
Proof.
  destruct (select P R m) as [|r l] eqn:Hl; simpl.
  - split; [done|]. by apply (select_nil P R).
  - assert (Hr : r ∈ select P R m) by (rewrite Hl; by left).
    apply elem_of_select in Hr as (k & Hk & HP). eauto.
Qed.
