(* ===== verification/Sessions.v ===== *)
(** * internal/modules/sessions

    Visitor sessions: an opaque random token in a cookie, its SHA-256 in the
    database. [SessionService] is what the handlers rely on; this file defines
    the service, proves what it does, and instantiates the interface. *)

From S2P Require Import Prelude GoRuntime DbTypes Schema Prog Wp SqlcReservations Inventory Crypto NetHttp SqlcAccounts.
Local Open Scope string_scope.
Local Open Scope list_scope.
Local Open Scope Z_scope.

(** ** The service *)

Definition CookieName : string := "visitor_session".

Record CreatedSession := MkCreatedSession { Session : VisitorSession; Token : string }.

Definition rand_Read (n : nat) : prog (list byte) := RandRead n of_sum.

Definition token_of (bytes : list byte) : string := RawURLEncoding_EncodeToString (byte_value <$> bytes).

Definition GenerateToken : prog string :=
  let* bytes := wrapf "generate secure token" (rand_Read 32) in
  Ret (token_of bytes).

Definition HashToken (token : string) : string := hex_EncodeToString (Sum256 (bytes_of_string token)).

(** ** The repository *)

Module SessionRepository.

Definition Create `{Pgtype} (tokenHash : string) (now expiresAt : Timestamptz) : prog VisitorSession :=
  sql (CreateVisitorSession tokenHash now expiresAt).

Definition GetByTokenHash (tokenHash : string) : prog VisitorSession :=
  sql (GetVisitorSessionByTokenHash tokenHash).

Definition AttachUser (sessionID userID : UUID) : prog VisitorSession :=
  sql (AttachUserToVisitorSession sessionID userID).

Definition Touch (sessionID : UUID) : prog VisitorSession := sql (TouchVisitorSession sessionID).
End SessionRepository.

Section service.
Context `{Pgtype}.

(** The ttl field of the Service, in nanoseconds. *)
Variable ttl : Z.

Definition CreateAnonymousSession : prog CreatedSession :=
  let* token := GenerateToken in
  let* now := time_Now in
  let* session := wrapf "create visitor session"
    (SessionRepository.Create (HashToken token) (MkTs now true) (MkTs (now + ttl) true)) in
  Ret (MkCreatedSession session token).
End service.

Definition AttachUser (session : VisitorSession) (userID : UUID) : prog VisitorSession :=
  SessionRepository.AttachUser (VisitorSession_ID session) userID.

Definition GetCurrentSession (r : Request) : prog VisitorSession :=
  match Cookie r CookieName with
  | None => Fail (Sentinel ErrSessionRequired)
  | Some value =>
      if value ==? "" then Fail (Sentinel ErrSessionRequired)
      else
        let* res := try (SessionRepository.GetByTokenHash (HashToken value)) in
        match res with
        | inl err =>
            if isNoRows err then Fail (Sentinel ErrSessionRequired)
            else Fail (Wrapped "get visitor session" err)
        | inr session =>
            let* now := time_Now in
            if TimestamptzToTime (VisitorSession_ExpiresAt session) <? now
            then Fail (Sentinel ErrSessionRequired)
            else wrapf "touch visitor session" (SessionRepository.Touch (VisitorSession_ID session))
        end
  end.

(** int(ttl.Seconds()) truncates towards zero. *)
Definition BuildCookie (ttl : Z) (cookieSecure : bool) (token : string) : HttpCookie :=
  MkHttpCookie CookieName token "/" (Z.quot ttl (10 ^ 9)) None true true cookieSecure.

Definition ClearCookie (cookieSecure : bool) : HttpCookie :=
  MkHttpCookie CookieName "" "/" (-1) (Some 0) true true cookieSecure.

(** ** dto.go *)

Record SessionResponse := MkSessionResponse {
  Sess_ID : string; Sess_UserID : option string; Sess_CreatedAt : Z; Sess_UpdatedAt : Z;
  Sess_LastSeenAt : Z; Sess_ExpiresAt : Z }.

Definition ToSessionResponse (session : VisitorSession) : SessionResponse :=
  MkSessionResponse (UUIDToString (VisitorSession_ID session))
    (OptionalUUIDToString (VisitorSession_UserID session))
    (TimestamptzToTime (VisitorSession_CreatedAt session))
    (TimestamptzToTime (VisitorSession_UpdatedAt session))
    (TimestamptzToTime (VisitorSession_LastSeenAt session))
    (TimestamptzToTime (VisitorSession_ExpiresAt session)).

(** ** What the service does *)

(** The session the cookie of the request names. *)
Definition cookie_session (r : Request) (db : Database) (s : VisitorSession) : Prop :=
  exists token, Cookie r CookieName = Some token /\ token <> "" /\
    visitor_sessions db !! VisitorSession_ID s = Some s /\
    VisitorSession_AnonymousTokenHash s = HashToken token.

Section session_specs.
Variable a : assm.

Definition current_session_post (r : Request) (db : Database) (res : res VisitorSession) (σ : St)
    : Prop :=
  σ.2 = None /\ accounts_changed db σ.1 /\
  match res with
  | Ok s' => exists s now ts, cookie_session r db s /\ clock_ok a now = true /\
      now <= TimestamptzToTime (VisitorSession_ExpiresAt s) /\ s' = with_last_seen ts s /\
      σ.1 = set_visitor_sessions (<[VisitorSession_ID s:=s']> (visitor_sessions db)) db
  | Err e => σ.1 = db /\ (faulty a e \/ (e = Sentinel ErrSessionRequired /\
      forall s, cookie_session r db s -> exists now, clock_ok a now = true /\
        TimestamptzToTime (VisitorSession_ExpiresAt s) < now))
  | Panicked => False
  end.

Lemma GetCurrentSession_wp r db :
  schema_ok db -> wp a (GetCurrentSession r) (current_session_post r db) (db, None).
Proof.
  intros Hdb. unfold GetCurrentSession.
  assert (Hrefl := accounts_changed_refl db Hdb).
  destruct (Cookie r CookieName) as [value|] eqn:Hc.
  2: { split_and!; [done..|]. right. split; [done|]. intros s (token & Hc' & _). congruence. }
  destruct (bool_decide (value = "")) eqn:E; to_prop.
  { split_and!; [done..|]. right. split; [done|]. intros s (token & Hc' & Hne & _). congruence. }
  apply wp_try_sql; cbn [fst snd].
  { intros e He. rewrite (fault_err_rows _ (proj2 He)). split_and!; [done..|]. left.
    by destruct He; repeat constructor. }
  intros ctx _ _. unfold GetVisitorSessionByTokenHash, reading.
  pose proof (head_select_ok (visitor_sessions db)
    (fun s => VisitorSession_AnonymousTokenHash s ==? HashToken value)
    (by_key (fun s => uuid_bytes (VisitorSession_ID s)))) as Hsel.
  destruct (one _) as [e|s].
  { destruct Hsel as [-> Hnone]. split_and!; [done..|]. right. split; [done|].
    intros s (token & Hc' & _ & Hs & Hh). rewrite Hc in Hc'. injection Hc' as <-.
    specialize (Hnone _ _ Hs). cbv beta in Hnone. to_prop. done. }
  destruct Hsel as [Hh [k Hk]]. to_prop. destruct (sessions_keyed _ Hdb _ _ Hk) as [HID _].
  assert (Hs : cookie_session r db s).
  { exists value. split_and!; try done. by rewrite HID. }
  apply wp_bind, wp_time_Now. intros now Hnow. cbv beta iota.
  destruct (_ <? now) eqn:Eexp; to_prop.
  { split_and!; [done..|]. right. split; [done|]. intros s' (token & Hc' & _ & Hs' & Hh').
    rewrite Hc in Hc'. injection Hc' as <-. exists now. split; [done|].
    assert (VisitorSession_ID s' = VisitorSession_ID s) as Hid.
    { eapply (sessions_unique _ Hdb); [exact Hs'|by rewrite HID|done|done|congruence]. }
    rewrite Hid, HID, Hk in Hs'. by simplify_eq. }
  apply wp_wrapf_sql; cbn [fst snd].
  { intros e He. by split_and!; [..|left]. }
  intros ctx2 _ _. pose proof (Touch_ok ctx2 db (VisitorSession_ID s) Hdb) as Htouch.
  destruct (TouchVisitorSession _ _ _) as [e|[s' db']].
  - destruct Htouch as [_ Hnone]. rewrite HID in Hnone. congruence.
  - destruct Htouch as (s0 & Hs0 & -> & Hdb' & Hacc). rewrite HID, Hk in Hs0. simplify_eq.
    split; [done|]. split; [done|]. exists s0, now, (ctx_now ctx2). by split_and!.
Qed.
End session_specs.

Section create_specs.
Context `{Pgtype}.
Variable a : assm.
Variable ttl : Z.

(** A stored session already has the hash of this token. *)
Definition token_taken (token : string) (db : Database) : Prop :=
  exists k s, visitor_sessions db !! k = Some s /\
    VisitorSession_AnonymousTokenHash s = HashToken token.

(** The random bytes of a new token may be those of a token in use. *)
Definition token_clash (bytes : list byte -> bool) (db : Database) : Prop :=
  exists bs, length bs = 32%nat /\ bytes bs = true /\ token_taken (token_of bs) db.

(** The new session carries the hash of the token, no user, and the end of its
    lifetime; a collision is the only failure that is not the environment's. *)
Definition created_post (db : Database) (res : res CreatedSession) (σ : St) : Prop :=
  σ.2 = None /\ accounts_changed db σ.1 /\
  match res with
  | Ok c => exists now ts, clock_ok a now = true /\ Token c <> "" /\ Valid (VisitorSession_ID (Session c)) = true /\
      visitor_sessions db !! VisitorSession_ID (Session c) = None /\
      Session c = MkVisitorSession (VisitorSession_ID (Session c)) zero_UUID
        (HashToken (Token c)) ts ts (encode_ts (MkTs now true)) (encode_ts (MkTs (now + ttl) true)) /\
      σ.1 = set_visitor_sessions
        (<[VisitorSession_ID (Session c):=Session c]> (visitor_sessions db)) db
  | Err e => σ.1 = db /\ (faulty a e \/ (e = Wrapped "create visitor session" unique_violation /\
      (quiet a = true -> token_clash (bytes_ok a) db)))
  | Panicked => False
  end.

Lemma wp_GenerateToken (Q : res string -> St -> Prop) σ :
  (forall e, faulty a e -> Q (Err e) σ) ->
  (forall bs, length bs = 32%nat -> bytes_ok a bs = true -> token_of bs <> "" -> Q (Ok (token_of bs)) σ) ->
  wp a GenerateToken Q σ.
Proof.
  intros He Hok. apply wp_bind, wp_wrapf. split.
  - intros Hq text. apply He. split; [done|]. constructor. apply (fe_fault (FaultDriver text)).
  - intros bs Hbs Hdrawn. apply Hok; [done|done|]. do 3 (destruct bs as [|? bs]; [done|]). done.
Qed.

Lemma CreateAnonymousSession_wp db :
  schema_ok db -> wp a (CreateAnonymousSession ttl) (created_post db) (db, None).
Proof.
  intros Hdb. assert (Hrefl := accounts_changed_refl db Hdb). apply wp_bind, wp_GenerateToken.
  { intros e He. by split_and!; [..|left]. }
  intros bs Hlen Hdrawn Htoken. apply wp_bind, wp_time_Now. intros now Hnow. apply wp_bind, wp_wrapf_sql; cbn [fst snd].
  { intros e He. by split_and!; [..|left]. }
  intros ctx Hv Hc0; pose proof (undisturbed_fresh _ _ _ Hc0) as Hfresh; clear Hc0.
  pose proof (CreateVisitorSession_ok ctx db (HashToken (token_of bs)) (MkTs now true)
    (MkTs (now + ttl) true) Hdb Hv) as Hc.
  destruct (CreateVisitorSession _ _ _ _ _) as [e|[row db']].
  - destruct Hc as [-> Hc]. split_and!; [done..|]. right. split; [done|]. intros Hq.
    specialize (Hfresh Hq). unfold fresh_id in Hfresh. to_prop.
    destruct Hc as [[s Hs]|(k & s & Hk & Hh)]; [|by exists bs; split_and!; [..|exists k, s]].
    match goal with Ha : absent (visitor_sessions db) _ = true |- _ => apply absent_None in Ha end.
    congruence.
  - destruct Hc as (-> & Hnone & -> & Hacc). split_and!; [done..|].
    exists now, (ctx_now ctx). by split_and!.
Qed.

(** AttachUser sets the user of the session row and nothing else. *)
Definition attached_post (session : VisitorSession) (userID : UUID) (db : Database)
    (res : res VisitorSession) (σ : St) : Prop :=
  σ.2 = None /\ accounts_changed db σ.1 /\
  match res with
  | Ok s' => exists s ts, visitor_sessions db !! VisitorSession_ID session = Some s /\
      s' = with_user userID ts s /\
      σ.1 = set_visitor_sessions (<[VisitorSession_ID session:=s']> (visitor_sessions db)) db
  | Err e => σ.1 = db /\ (faulty a e \/
      (e = PgNoRows /\ visitor_sessions db !! VisitorSession_ID session = None) \/
      (e = foreign_key_violation /\ users db !! userID = None))
  | Panicked => False
  end.

Lemma AttachUser_wp session userID db :
  schema_ok db -> wp a (AttachUser session userID) (attached_post session userID db) (db, None).
Proof.
  intros Hdb. assert (Hrefl := accounts_changed_refl db Hdb). apply wp_sql_intro. split.
  { intros Hq f. split_and!; [done..|]. left. by split; [|constructor]. }
  intros ctx _ _. pose proof (AttachUser_ok ctx db (VisitorSession_ID session) userID Hdb) as Ha.
  cbn [fst snd]. destruct (AttachUserToVisitorSession _ _ _ _) as [e|[s' db']].
  - split_and!; [done..|]. right. destruct Ha as [?|(-> & _ & ?)]; auto.
  - destruct Ha as (s & Hs & -> & -> & Hacc). split_and!; [done..|]. by exists s, (ctx_now ctx).
Qed.
End create_specs.

(** ** The interface the other modules use *)

(** The exported methods of *sessions.Service that take part in other
    modules' operations; [session_ttl] and [cookie_secure] are its fields. *)
Class SessionService := {
  session_ttl : Z;
  cookie_secure : bool;
  svc_CreateAnonymousSession : prog CreatedSession;
  svc_GetCurrentSession : Request -> prog VisitorSession;
  svc_AttachUser : VisitorSession -> UUID -> prog VisitorSession }.

(** What the clients rely on. *)
Class SessionLaws `{Pgtype} (S : SessionService) := {
  create_law : forall a db, schema_ok db ->
    wp a svc_CreateAnonymousSession (created_post a session_ttl db) (db, None);
  current_law : forall a r db, schema_ok db ->
    wp a (svc_GetCurrentSession r) (current_session_post a r db) (db, None);
  attach_law : forall a session userID db, schema_ok db ->
    wp a (svc_AttachUser session userID) (attached_post a session userID db) (db, None) }.

Section instance.
Context `{Pgtype}.
Variables (ttl : Z) (cookieSecure : bool).

Definition NewService : SessionService := {|
  session_ttl := ttl; cookie_secure := cookieSecure;
  svc_CreateAnonymousSession := CreateAnonymousSession ttl;
  svc_GetCurrentSession := GetCurrentSession;
  svc_AttachUser := AttachUser |}.

#[export] Instance NewService_laws : SessionLaws NewService.
Proof.
  split; simpl; intros;
    [by apply CreateAnonymousSession_wp|by apply GetCurrentSession_wp|by apply AttachUser_wp].
Qed.
End instance.
