(* ===== verification/Auth.v ===== *)
(** * internal/modules/auth: registration and login

    The service, with bcrypt as a parameter (golang.org/x/crypto is not part of
    the repository) and the sessions module through its interface. *)

From S2P Require Import Prelude GoRuntime DbTypes Schema Prog Wp SqlcReservations Inventory NetHttp SqlcAccounts Sessions.
Local Open Scope string_scope.
Local Open Scope list_scope.
Local Open Scope Z_scope.

(** ** Libraries *)

(** bcrypt: the encoded hash of a password under a salt, or the text of an
    error (a password of more than 72 bytes), and the comparison with an
    encoded hash. [unicode_ToLower] is strings.ToLower on text that is not
    ASCII, which goes through the tables of package unicode. *)
Class Libraries := {
  bcrypt_hash : list byte -> string -> string + string;
  bcrypt_matches : string -> string -> bool;
  unicode_ToLower : string -> string }.

(** The documented contract: a password matches its own hash. *)
Class LibrariesLaws `{Libraries} := {
  bcrypt_matches_hash : forall salt password hash,
    bcrypt_hash salt password = inr hash -> bcrypt_matches hash password = true }.

Definition ascii_lower (c : ascii) : ascii :=
  let n := N_of_ascii c in
  if (65 <=? n)%N && (n <=? 90)%N then ascii_of_N (n + 32) else c.

Definition is_ascii (c : ascii) : bool := (N_of_ascii c <? 128)%N.

Definition ToLower `{Libraries} (s : string) : string :=
  if forallb is_ascii (list_ascii_of_string s)
  then string_of_list_ascii (ascii_lower <$> list_ascii_of_string s)
  else unicode_ToLower s.

Record LoginResult := MkLoginResult { LoginResult_User : User; SessionToken : string }.

Record UserResponse := MkUserResponse {
  UserResp_ID : string; UserResp_Email : string; UserResp_CreatedAt : Z; UserResp_UpdatedAt : Z }.

Definition ToUserResponse (user : User) : UserResponse :=
  MkUserResponse (UUIDToString (User_ID user)) (User_Email user)
    (TimestamptzToTime (User_CreatedAt user)) (TimestamptzToTime (User_UpdatedAt user)).

(** ** The repository *)

Module AuthRepository.

Definition CreateUser (email passwordHash : string) : prog User :=
  sql (SqlcAccounts.CreateUser email passwordHash).

Definition GetUserByEmail (email : string) : prog User := sql (SqlcAccounts.GetUserByEmail email).

Definition GetUserByID (userID : UUID) : prog User := sql (SqlcAccounts.GetUserByID userID).
End AuthRepository.

(** ** The service *)

Section service.
Context `{Libraries} `{SessionService}.

(** bcrypt.GenerateFromPassword draws its salt from crypto/rand. *)
Definition GenerateFromPassword (password : string) : prog string :=
  let* salt := RandRead 16 of_sum in
  match bcrypt_hash salt password with
  | inl text => Fail (DriverErr text)
  | inr hash => Ret hash
  end.

Definition normalizedEmail (email : string) : string := ToLower (TrimSpace email).

Definition Register (email password : string) : prog User :=
  if (normalizedEmail email ==? "") || (Z.of_nat (String.length password) <? 8)
  then Fail (ErrorString "invalid register request")
  else
    let* passwordHash := wrapf "hash password" (GenerateFromPassword password) in
    let* r := try (AuthRepository.CreateUser (normalizedEmail email) passwordHash) in
    match r with
    | inl err =>
        if isUniqueViolation err then Fail (Sentinel ErrEmailAlreadyRegistered)
        else Fail (Wrapped "create user" err)
    | inr user => Ret user
    end.

Definition Login (r : Request) (email password : string) : prog LoginResult :=
  let* found := try (AuthRepository.GetUserByEmail (normalizedEmail email)) in
  match found with
  | inl err =>
      if isNoRows err then Fail (Sentinel ErrInvalidCredentials)
      else Fail (Wrapped "get user by email" err)
  | inr user =>
      if negb (bcrypt_matches (User_PasswordHash user) password)
      then Fail (Sentinel ErrInvalidCredentials)
      else
        let* current := try (svc_GetCurrentSession r) in
        match current with
        | inl err =>
            if errors_Is err (Sentinel ErrSessionRequired) then
              let* created := svc_CreateAnonymousSession in
              let* _ := wrapf "attach user to new session"
                (svc_AttachUser (Session created) (User_ID user)) in
              Ret (MkLoginResult user (Token created))
            else Fail err
        | inr currentSession =>
            let* _ := wrapf "attach user to visitor session"
              (svc_AttachUser currentSession (User_ID user)) in
            Ret (MkLoginResult user (default "" (Cookie r CookieName)))
        end
  end.
End service.

(** A nil user is [None]. *)
Definition GetOptionalUser (session : VisitorSession) : prog (option User) :=
  if negb (Valid (VisitorSession_UserID session)) then Ret None
  else
    let* r := try (AuthRepository.GetUserByID (VisitorSession_UserID session)) in
    match r with
    | inl err => if isNoRows err then Ret None else Fail err
    | inr user => Ret (Some user)
    end.

Definition GetCurrentUser (session : VisitorSession) : prog User :=
  let* user := GetOptionalUser session in
  match user with
  | None => Fail (Sentinel ErrCurrentUserRequired)
  | Some user => Ret user
  end.

(** ** What the service does *)

Section auth_specs.
Context `{Libraries} `{Pgtype} `{S : SessionService} `{!SessionLaws S}.
Variable a : assm.

Definition acceptable (email password : string) : Prop :=
  normalizedEmail email <> "" /\ 8 <= Z.of_nat (String.length password).

Inductive Register_outcome (email password : string) (db : Database)
    : res User -> Database -> Prop :=
  | reg_faulty e : faulty a e -> Register_outcome email password db (Err e) db
  | reg_invalid :
      ~ acceptable email password ->
      Register_outcome email password db (Err (ErrorString "invalid register request")) db
  | reg_unhashable salt text :
      acceptable email password -> bcrypt_hash salt password = inl text ->
      Register_outcome email password db (Err (Wrapped "hash password" (DriverErr text))) db
  | reg_taken :
      acceptable email password ->
      (quiet a = true -> exists k u, users db !! k = Some u /\ User_Email u = normalizedEmail email) ->
      Register_outcome email password db (Err (Sentinel ErrEmailAlreadyRegistered)) db
  | reg_ok u salt hash ts :
      acceptable email password -> bcrypt_hash salt password = inr hash ->
      (forall k u', users db !! k = Some u' -> User_Email u' <> normalizedEmail email) ->
      users db !! User_ID u = None -> u = MkUser (User_ID u) (normalizedEmail email) hash ts ts ->
      Register_outcome email password db (Ok u) (set_users (<[User_ID u:=u]> (users db)) db).

Definition Register_post (email password : string) (db : Database) (res : res User) (σ : St) : Prop :=
  σ.2 = None /\ accounts_changed db σ.1 /\ Register_outcome email password db res σ.1.

Lemma Register_wp email password db :
  schema_ok db -> wp a (Register email password) (Register_post email password db) (db, None).
Proof.
  intros Hdb. assert (Hrefl := accounts_changed_refl db Hdb). unfold Register, Register_post.
  destruct (_ || _) eqn:E.
  { split_and!; [done..|]. apply reg_invalid. intros [Hne Hlen].
    apply orb_true_iff in E as [E|E]; [by to_prop|]. apply Z.ltb_lt in E. lia. }
  to_prop. assert (Hacc : acceptable email password) by done.
  apply wp_bind, wp_wrapf. split.
  { intros Hq text. split_and!; [done..|]. apply reg_faulty. split; [done|].
    constructor. apply (fe_fault (FaultDriver text)). }
  intros salt _ _. cbn [of_sum bind]. destruct (bcrypt_hash salt password) as [text|hash] eqn:Hh.
  { split; [done|]. split; [done|]. by eapply reg_unhashable. }
  apply wp_try_sql; cbn [fst snd].
  { intros e He. destruct (isUniqueViolation e); split_and!; try done;
      [apply reg_taken; [done|]; destruct He; congruence|].
    apply reg_faulty. by destruct He; repeat constructor. }
  intros ctx Hv Hc0; pose proof (undisturbed_fresh _ _ _ Hc0) as Hfresh; clear Hc0.
  pose proof (CreateUser_ok ctx db (normalizedEmail email) hash Hdb Hv) as Hc.
  destruct (CreateUser _ _ _ _) as [e|[u db']].
  - destruct Hc as [-> Hc]. split_and!; [done..|]. apply reg_taken; [done|]. intros Hq.
    specialize (Hfresh Hq). unfold fresh_id in Hfresh. to_prop.
    destruct Hc as [[u Hu]|Hc]; [|done].
    match goal with Ha : absent (users db) _ = true |- _ => apply absent_None in Ha end. congruence.
  - destruct Hc as (-> & Hnone & Hfree & -> & Hch). split_and!; [done..|].
    by apply (reg_ok _ _ _ (new_user ctx (normalizedEmail email) hash) salt hash (ctx_now ctx)).
Qed.

(** The account that an e-mail and a password identify. *)
Definition authenticates (email password : string) (db : Database) (u : User) : Prop :=
  users db !! User_ID u = Some u /\ User_Email u = normalizedEmail email /\
  bcrypt_matches (User_PasswordHash u) password = true.

(** The session a login leaves behind: the one of the cookie, or a new one. *)
Definition logged_in (r : Request) (db : Database) (uid : UUID) (token : string)
    (s : VisitorSession) : Prop :=
  VisitorSession_UserID s = uid /\ VisitorSession_AnonymousTokenHash s = HashToken token /\
  token <> "" /\
  ((Cookie r CookieName = Some token /\ exists s0 now, cookie_session r db s0 /\
      clock_ok a now = true /\ now <= TimestamptzToTime (VisitorSession_ExpiresAt s0) /\
      VisitorSession_ID s = VisitorSession_ID s0 /\
      VisitorSession_ExpiresAt s = VisitorSession_ExpiresAt s0) \/
   (visitor_sessions db !! VisitorSession_ID s = None /\ exists now, clock_ok a now = true /\
      VisitorSession_ExpiresAt s = encode_ts (MkTs (now + session_ttl) true))).

Definition Login_post (r : Request) (email password : string) (db : Database)
    (res : res LoginResult) (σ : St) : Prop :=
  σ.2 = None /\ accounts_changed db σ.1 /\
  match res with
  | Ok result => exists s, authenticates email password db (LoginResult_User result) /\
      logged_in r db (User_ID (LoginResult_User result)) (SessionToken result) s /\
      σ.1 = set_visitor_sessions (<[VisitorSession_ID s:=s]> (visitor_sessions db)) db
  | Err e => faulty a e \/
      (e = Sentinel ErrInvalidCredentials /\ σ.1 = db /\
         forall u, ~ authenticates email password db u) \/
      (e = Wrapped "create visitor session" unique_violation /\ σ.1 = db /\
         (exists u, authenticates email password db u) /\
         (quiet a = true -> token_clash (bytes_ok a) db))
  | Panicked => False
  end.

Lemma set_sessions_twice m db : set_visitor_sessions m (set_visitor_sessions m db) = set_visitor_sessions m db.
Proof. done. Qed.

(** Attaching the user to a session row just written. *)
Lemma attach_written_wp text r db s db' u (k : VisitorSession -> prog LoginResult) result :
  schema_ok db' -> accounts_changed db db' ->
  db' = set_visitor_sessions (<[VisitorSession_ID s:=s]> (visitor_sessions db)) db ->
  users db !! User_ID u = Some u ->
  (forall s', k s' = Ret result) -> LoginResult_User result = u ->
  forall email password, authenticates email password db u ->
  (forall ts, logged_in r db (User_ID u) (SessionToken result) (with_user (User_ID u) ts s)) ->
  wp a (bind (wrapf text (svc_AttachUser s (User_ID u))) k) (Login_post r email password db) (db', None).
Proof.
  intros Hs' Hch Hdb' Hu Hk Hres email password Hauth Hlog.
  apply wp_bind, wp_wrapf. eapply wp_mono, attach_law; [|done].
  intros [s'|e|] σ (Hσ & Hch' & Hr); [| |done].
  - destruct Hr as (s0 & ts & Hs0 & -> & Hσ1). rewrite Hdb' in Hs0. simpl in Hs0.
    rewrite lookup_insert_eq in Hs0. injection Hs0 as <-. rewrite Hk.
    split_and!; [done|by eapply accounts_changed_trans|].
    exists (with_user (User_ID u) ts s). rewrite Hres. split_and!; [done|done|].
    rewrite Hσ1, Hdb'. simpl. by rewrite insert_insert_eq.
  - destruct Hr as (Hσ1 & Hr). split_and!; [done|by rewrite Hσ1|].
    destruct Hr as [He|[[_ Hnone]|[_ Hnone]]].
    + left. by destruct He; repeat constructor.
    + rewrite Hdb' in Hnone. simpl in Hnone. by rewrite lookup_insert_eq in Hnone.
    + rewrite Hdb' in Hnone. simpl in Hnone. congruence.
Qed.

Lemma Login_wp r email password db :
  schema_ok db -> wp a (Login r email password) (Login_post r email password db) (db, None).
Proof.
  intros Hdb. assert (Hrefl := accounts_changed_refl db Hdb). unfold Login.
  apply wp_try_sql; cbn [fst snd].
  { intros e He. rewrite (fault_err_rows _ (proj2 He)). split_and!; [done..|]. left.
    by destruct He; repeat constructor. }
  intros ctx _ _. unfold GetUserByEmail, reading.
  pose proof (head_select_ok (users db) (fun u => User_Email u ==? normalizedEmail email)
    (by_key (fun u => uuid_bytes (User_ID u)))) as Hsel.
  destruct (one _) as [e|u].
  { destruct Hsel as [-> Hnone]. split_and!; [done..|]. right. left. split_and!; [done..|].
    intros u (Hu & He & _). specialize (Hnone _ _ Hu). cbv beta in Hnone. to_prop. done. }
  destruct Hsel as [He [k Hk]]. to_prop. destruct (users_keyed _ Hdb _ _ Hk) as [HID _]. subst k.
  destruct (negb _) eqn:Hpw; to_prop.
  { split_and!; [done..|]. right. left. split_and!; [done..|]. intros u' (Hu' & He' & Hm).
    assert (User_ID u' = User_ID u) as Hid by (eapply (users_unique _ Hdb); eauto; congruence).
    rewrite Hid, Hk in Hu'. congruence. }
  assert (Hauth : authenticates email password db u) by done.
  apply wp_bind, wp_try. eapply wp_mono, current_law; [|done].
  intros [s'|e|] [db1 saved] (Hσ & Hch & Hr); cbn [fst snd] in *; subst saved; [| |done].
  - destruct Hr as (s & now & ts & Hcs & Hnow & Hexp & -> & Hdb1).
    destruct Hcs as (token & Hcookie & Hne & Hs & Hh) eqn:Ecs. rewrite Hcookie.
    eapply attach_written_wp; try done; [apply Hch|].
    intros ts'. split_and!; [done..|]. left. split; [done|]. by exists s, now.
  - destruct Hr as (-> & Hr). destruct Hr as [Hf|(-> & _)].
    { rewrite (fault_err_sentinel _ _ (proj2 Hf)). by split_and!; [..|left]. }
    cbn [errors_Is]. rewrite bool_decide_eq_true_2 by done. cbn [orb].
    apply wp_bind. eapply wp_mono, create_law; [|done].
    intros [c|e|] [db2 saved] (Hσ & Hch2 & Hr); cbn [fst snd] in *; subst saved; [| |done].
    + destruct Hr as (now & ts & Hnow & Hne & Hv & Hnone & HS & Hdb2).
      eapply attach_written_wp; try done; [apply Hch2|].
      intros ts'. rewrite HS. split_and!; [done..|]. right. split; [done|]. by exists now.
    + destruct Hr as (-> & [Hf|(-> & Hcol)]); split_and!; try done;
        [by left|right; right; split_and!; eauto].
Qed.

(** GetCurrentUser finds the user of the session. *)
Lemma GetCurrentUser_wp session db :
  wp a (GetCurrentUser session) (fun res σ => σ = (db, None) /\
    match res with
    | Ok u => Valid (VisitorSession_UserID session) = true /\
        users db !! VisitorSession_UserID session = Some u
    | Err e => faulty a e \/ (e = Sentinel ErrCurrentUserRequired /\
        (Valid (VisitorSession_UserID session) = true -> users db !! VisitorSession_UserID session = None))
    | Panicked => False
    end) (db, None).
Proof.
  unfold GetCurrentUser, GetOptionalUser. destruct (negb _) eqn:Hv; to_prop.
  { split; [done|]. right. split; [done|]. congruence. }
  apply wp_bind, wp_try_sql; cbn [fst snd].
  { intros e He. rewrite (fault_err_rows _ (proj2 He)). split; [done|]. by left. }
  intros ctx _ _. unfold GetUserByID, reading. cbn [fst snd].
  destruct (users db !! VisitorSession_UserID session) as [u|] eqn:Hu; simpl; [done|].
  split; [done|]. by right.
Qed.
End auth_specs.
