(* ===== verification/Worker.v ===== *)
(** * internal/worker/expiration.go: the expiration worker

    The loop that expires overdue reservations in batches until its context is
    cancelled, behind a ticker that needs a positive interval. The service behind it is an interface, as in the source;
    [ReservationExpiry] is the instance that cmd/worker wires in. *)

From S2P Require Import Prelude GoRuntime DbTypes Schema Prog Wp SqlcReservations ReservationService Inventory Settlement Service ServiceFacts.
Local Open Scope string_scope.
Local Open Scope list_scope.
Local Open Scope Z_scope.

(** ** The interface *)

Class ExpirationService := { svc_ExpireExpiredReservations : Z -> prog Z }.

Class ExpirationLaws `{Pgtype} (S : ExpirationService) := {
  expire_law : forall a batchSize db, db_inv db -> 0 < batchSize ->
    wp a (svc_ExpireExpiredReservations batchSize) (ExpireExpired_post a batchSize db) (db, None) }.

Definition ReservationExpiry `{Pgtype} : ExpirationService :=
  {| svc_ExpireExpiredReservations := ExpireExpiredReservations |}.

#[export] Instance ReservationExpiry_laws `{Pgtype} : ExpirationLaws ReservationExpiry.
Proof. split. intros. by apply ExpireExpired_wp. Qed.

(** ** The worker *)

Record ExpirationWorker := MkExpirationWorker { interval : Z; batchSize : Z }.

Definition NewExpirationWorker (interval batchSize : Z) : ExpirationWorker :=
  MkExpirationWorker interval batchSize.

(** What the worker observes of its context and ticker in one turn of the
    loop: whether ctx.Err() is set after a failed batch, and which case the
    select takes. *)
Inductive select_case := CtxDone | TickerFired.
Record moment := MkMoment { ctx_err : bool; selected : select_case }.

Inductive log_entry := BatchFailed (err : error) | BatchProcessed (count : Z).

(** [Returned]: Run has returned nil. [Running]: the observations are used up. *)
Inductive worker_status := Running | Returned.

Section worker.
Context `{ExpirationService}.

Definition ProcessOnce (w : ExpirationWorker) : prog Z := svc_ExpireExpiredReservations (batchSize w).

(** The for loop of Run. *)
Fixpoint loop (w : ExpirationWorker) (moments : list moment) (log : list log_entry)
    : prog (worker_status * list log_entry) :=
  match moments with
  | [] => Ret (Running, log)
  | m :: moments' =>
      let select log :=
        match selected m with
        | CtxDone => Ret (Returned, log)
        | TickerFired => loop w moments' log
        end in
      let* r := try (ProcessOnce w) in
      match r with
      | inl err => if ctx_err m then Ret (Returned, log) else select (log ++ [BatchFailed err])
      | inr processed =>
          if 0 <? processed then select (log ++ [BatchProcessed processed]) else select log
      end
  end.

(** time.NewTicker panics unless the interval is positive. *)
Definition Run (w : ExpirationWorker) (moments : list moment) : prog (worker_status * list log_entry) :=
  if interval w <=? 0 then Panic else loop w moments [].

(** The configurations with which Run neither panics nor fails every batch. *)
Definition runnable (w : ExpirationWorker) : Prop := 0 < interval w /\ 0 < batchSize w.

Lemma Run_loop w moments : 0 < interval w -> Run w moments = loop w moments [].
Proof. intros Hi. unfold Run. split_if; to_prop; [lia|done]. Qed.
End worker.

(** The reservations a log accounts for. *)
Definition logged_count (log : list log_entry) : Z :=
  Zsum ((fun e => match e with BatchProcessed n => n | BatchFailed _ => 0 end) <$> log).

Lemma logged_count_app log1 log2 : logged_count (log1 ++ log2) = logged_count log1 + logged_count log2.
Proof. unfold logged_count. by rewrite fmap_app, Zsum_app. Qed.

(** ** What the worker does *)

Section worker_specs.
Context `{Pgtype} `{S : ExpirationService} `{!ExpirationLaws S}.

(** One turn of the loop: a batch moves the inventory legally and adds at most
    one line to the log; the worker returns, or goes on when the ticker fires. *)
Lemma loop_turn_wp a w m moments log db (Q : res (worker_status * list log_entry) -> St -> Prop) :
  db_inv db -> 0 < batchSize w ->
  (forall out db1, (length out <= 1)%nat -> rtc inventory_step db db1 ->
     ((selected m = CtxDone \/ ctx_err m = true) -> Q (Ok (Returned, log ++ out)) (db1, None)) /\
     (selected m = TickerFired -> wp a (loop w moments (log ++ out)) Q (db1, None))) ->
  wp a (loop w (m :: moments) log) Q (db, None).
Proof.
  intros Hinv Hb HQ. cbn [loop]. apply wp_bind, wp_try. eapply wp_mono, expire_law; [|done..].
  intros res [db1 saved] [Hσ Hr]; cbn [fst snd] in *; subst saved.
  assert (Hsel : forall out, (length out <= 1)%nat -> rtc inventory_step db db1 -> wp a
    match selected m with CtxDone => Ret (Returned, log ++ out) | TickerFired => loop w moments (log ++ out) end
    Q (db1, None)).
  { intros out Hout Hst. destruct (HQ out db1 Hout Hst) as [Hret Hgo].
    destruct (selected m); [by apply Hret; left|by apply Hgo]. }
  assert (Hnil : log = log ++ []) by (by rewrite app_nil_r).
  destruct res as [n|e|]; [| |done].
  - assert (Hst : rtc inventory_step db db1) by (destruct Hr as (now & skip & _ & _ & Hd); by eapply expired_steps, Hd).
    destruct (0 <? n); [by apply Hsel|]. rewrite Hnil. by apply Hsel; [simpl; lia|].
  - assert (Hst : rtc inventory_step db db1).
    { destruct Hr as [_ [->|(now & skip & n & Hd)]]; [done|]. by eapply expired_steps, Hd. }
    destruct (ctx_err m) eqn:Hctx; [|by apply Hsel].
    rewrite Hnil. apply (HQ [] db1); [simpl; lia|done|by right].
Qed.

(** Whatever it observes and whatever fails, the worker neither panics nor
    stops with an error, and every batch moves the inventory legally. *)
Lemma loop_wp a w moments log db :
  db_inv db -> 0 < batchSize w ->
  wp a (loop w moments log) (fun res σ => σ.2 = None /\ rtc inventory_step db σ.1 /\
    exists out, res = Ok out) (db, None).
Proof.
  intros Hinv Hb. revert log db Hinv.
  induction moments as [|m moments IH]; intros log db Hinv; [by split_and!; [..|eexists]|].
  apply loop_turn_wp; [done..|]. intros out db1 _ Hst. split; [by intros _; split_and!; [..|eexists]|]. intros _.
  eapply wp_mono, IH; [|by eapply inventory_steps_inv].
  intros r σ (? & ? & ?). split_and!; [done|by etrans|done].
Qed.

(** Once the select sees the context done, the loop ends, between two batches. *)
Lemma loop_stops_wp a w before m after log db :
  db_inv db -> 0 < batchSize w -> selected m = CtxDone ->
  wp a (loop w (before ++ m :: after) log) (fun r σ => σ.2 = None /\ rtc inventory_step db σ.1 /\
    exists out, r = Ok (Returned, log ++ out) /\ (length out <= length before + 1)%nat) (db, None).
Proof.
  intros Hinv Hb Hm. revert log db Hinv.
  induction before as [|m0 before IH]; intros log db Hinv; cbn [app]; (apply loop_turn_wp; [done..|]);
    intros out db1 Hout Hst; (split; [by intros _; split_and!; [..|exists out; split; [|simpl; lia]]|]).
  - by rewrite Hm.
  - intros _. eapply wp_mono, IH; [|by eapply inventory_steps_inv].
    intros r σ (? & ? & out' & -> & Hlen). split_and!; [done|by etrans|].
    exists (out ++ out'). rewrite app_assoc, length_app. split; [done|]. simpl. lia.
Qed.

(** Turn after turn the backlog shrinks by a batch, and the log accounts for
    every reservation that left it. *)
Lemma loop_drains_wp now w moments log db :
  db_inv db -> 0 < batchSize w -> Forall (fun m => selected m = TickerFired) moments ->
  Z.of_nat (overdue_count now db) <= Z.of_nat (length moments) * batchSize w ->
  wp (calm_at now) (loop w moments log) (fun res σ =>
    overdue_count now σ.1 = 0%nat /\ exists log', res = Ok (Running, log ++ log') /\
      logged_count log' = Z.of_nat (overdue_count now db)) (db, None).
Proof.
  intros Hinv Hb Hall. revert log db Hinv.
  induction Hall as [|m moments Hm Hall IH]; intros log db Hinv Hle.
  { simpl in Hle. split; [cbn [fst]; lia|]. exists []. rewrite app_nil_r. split; [done|].
    change (logged_count []) with 0. lia. }
  cbn [loop]. apply wp_bind, wp_try. eapply wp_mono, expire_law; [|done..].
  intros res [db1 saved] [Hσ Hr]; cbn [fst snd] in *; subst saved.
  destruct res as [n|e|]; [|by destruct (calm_faulty _ _ (proj1 Hr))|done].
  destruct Hr as (now' & skip & Hn & Hskip & Hd). apply Z.eqb_eq in Hn as ->. rewrite (Hskip eq_refl) in Hd.
  destruct (batch_done_count _ _ _ _ _ Hb Hd) as [Hcount Hleft].
  assert (Hinv1 : db_inv db1) by exact (inventory_steps_inv _ _ (expired_steps _ _ _ _ (batch_steps _ _ _ _ _ _ Hd)) Hinv).
  assert (Hle1 : Z.of_nat (overdue_count now db1) <= Z.of_nat (length moments) * batchSize w).
  { cbn [length] in Hle. rewrite Nat2Z.inj_succ, Z.mul_succ_l in Hle. nia. }
  rewrite Hm. destruct (0 <? n) eqn:Hpos; to_prop.
  - eapply wp_mono, IH; [|done..]. intros r σ (H0 & log' & -> & Hlog). split; [done|].
    exists (BatchProcessed n :: log'). rewrite <- app_assoc. split; [done|].
    change (BatchProcessed n :: log') with ([BatchProcessed n] ++ log').
    rewrite logged_count_app, Hlog. unfold logged_count. simpl. lia.
  - eapply wp_mono, IH; [|done..]. intros r σ (H0 & log' & -> & Hlog). split; [done|].
    exists log'. split; [done|]. lia.
Qed.
End worker_specs.

(** ** Turns in which every batch is refused outright *)

Lemma loop_refused (S : ExpirationService) e wk moments log :
  svc_ExpireExpiredReservations (batchSize wk) = Fail e ->
  Forall (fun m => selected m = TickerFired /\ ctx_err m = false) moments ->
  loop wk moments log = Ret (Running, log ++ replicate (length moments) (BatchFailed e)).
Proof.
  intros Hfail Hall. revert log. induction Hall as [|m moments [Hsel Herr] Hall IH]; intros log.
  - by rewrite app_nil_r.
  - cbn [loop]. unfold ProcessOnce. rewrite Hfail. cbn. rewrite Herr, Hsel, IH. simpl.
    by rewrite <- app_assoc.
Qed.

(** ** Stopping *)

(** What would come after the context is done makes no difference. *)
Lemma loop_cut `{ExpirationService} `{Env} wk before m after log w :
  selected m = CtxDone -> run (loop wk (before ++ m :: after) log) w = run (loop wk (before ++ [m]) log) w.
Proof.
  intros Hm. revert log w. induction before as [|m0 before IH]; intros log w; cbn [loop app]; rewrite !run_bind.
  - destruct (run (try _) w) as [[[e|n]|e|] w1]; [..|done|done]; rewrite Hm; done.
  - destruct (run (try _) w) as [[[e|n]|e|] w1]; [..|done|done].
    + destruct (ctx_err m0); [done|]. by destruct (selected m0).
    + destruct (0 <? n); by destruct (selected m0).
Qed.

(** ** Run with any configuration *)

Lemma loop_refuses (S : ExpirationService) e wk moments log :
  svc_ExpireExpiredReservations (batchSize wk) = Fail e -> exists out, loop wk moments log = Ret out.
Proof.
  intros Hfail. revert log. induction moments as [|m moments IH]; intros log; [by eexists|].
  cbn [loop]. unfold ProcessOnce. rewrite Hfail. simpl.
  destruct (ctx_err m); [by eexists|]. destruct (selected m); [by eexists|apply IH].
Qed.

(** Run panics exactly without an interval; otherwise it returns no error. *)
Lemma Run_wp `{Pgtype} a w moments db :
  db_inv db ->
  wp a (@Run ReservationExpiry w moments) (fun res σ => σ.2 = None /\ rtc inventory_step db σ.1 /\
    if interval w <=? 0 then res = Panicked else exists out, res = Ok out) (db, None).
Proof.
  intros Hinv. unfold Run. destruct (interval w <=? 0); [done|].
  destruct (Z.le_gt_cases (batchSize w) 0) as [Hb|Hb].
  - destruct (loop_refuses ReservationExpiry (Sentinel ErrReservationInvariantBroken) w moments []) as [out ->];
      [|by split_and!; [..|exists out]].
    simpl. unfold ExpireExpiredReservations. split_if; to_prop; [done|lia].
  - by apply loop_wp.
Qed.
