(* ===== verification/SqlcEvents.v ===== *)
(** * internal/sqlc/events.sql.go: the catalog statements

    Events, ticket types and seats: their INSERTs and the reads of the catalog
    and of the inventory. [catalog_step] is what one INSERT does to the tables;
    it preserves the inventory invariant. *)

From S2P Require Import Prelude GoRuntime DbTypes Schema Prog SqlcReservations Inventory.
Local Open Scope string_scope.
Local Open Scope list_scope.
Local Open Scope Z_scope.

(** ** ORDER BY text columns *)

(** The collation of the database is its configuration. *)
Class Collation := text_leb : string -> string -> bool.

(** Column by column; rows equal in every column go on with [rest]. *)
Fixpoint columns_leb `{Collation} (xs ys : list string) (rest : bool) : bool :=
  match xs, ys with
  | x :: xs', y :: ys' => if x ==? y then columns_leb xs' ys' rest else text_leb x y
  | _, _ => rest
  end.

Definition by_columns `{Collation} {V} (columns : V -> list string) (id : V -> UUID) : relation V :=
  fun a b => columns_leb (columns a) (columns b) (uuid_leb (id a) (id b)) = true.

#[export] Instance by_columns_dec `{Collation} {V} (columns : V -> list string) (id : V -> UUID) :
  RelDecision (by_columns columns id).
Proof. intros a b. unfold by_columns. apply _. Defined.

(** ** INSERT ... RETURNING *)

Section inserts.
Context `{Pgtype}.

Definition new_event (ctx : sctx) (Name : string) (StartsAt EndsAt : Timestamptz) : Event :=
  MkEvent (ctx_new_id ctx) Name (encode_ts StartsAt) (encode_ts EndsAt) (ctx_now ctx) (ctx_now ctx).

Definition CreateEvent (Name : string) (StartsAt EndsAt : Timestamptz) : stmt Event := fun ctx db =>
  let row := new_event ctx Name StartsAt EndsAt in
  let? m := insert_row (events db) (ctx_new_id ctx) row true true true in
  inr (row, set_events m db).
End inserts.

Definition new_ticket_type (ctx : sctx) (EventID : UUID) (Name : string) (TotalQuantity : Z)
    : TicketType :=
  MkTicketType (ctx_new_id ctx) EventID Name TotalQuantity 0 0 (ctx_now ctx) (ctx_now ctx).

Definition CreateTicketType (EventID : UUID) (Name : string) (TotalQuantity : Z)
    : stmt TicketType := fun ctx db =>
  let row := new_ticket_type ctx EventID Name TotalQuantity in
  let? _ := ck_ticket_type row in
  let? m := insert_row (ticket_types db) (ctx_new_id ctx) row true true (has_row (events db) EventID) in
  inr (row, set_ticket_types m db).

Definition new_seat_row (ctx : sctx) (EventID : UUID) (Section_ RowName SeatNumber : string) : Seat :=
  MkSeat (ctx_new_id ctx) EventID Section_ RowName SeatNumber (ctx_now ctx) (ctx_now ctx).

(** UNIQUE (event_id, section, row_name, seat_number) *)
Definition place_free (place : UUID * string * string * string) (m : gmap UUID Seat) : bool :=
  negb (existsb (fun s => seat_place s ==? place) (rows m)).

Definition CreateSeat (EventID : UUID) (Section_ RowName SeatNumber : string) : stmt Seat :=
  fun ctx db =>
  let row := new_seat_row ctx EventID Section_ RowName SeatNumber in
  let? m := insert_row (seats db) (ctx_new_id ctx) row true
    (place_free (seat_place row) (seats db)) (has_row (events db) EventID) in
  inr (row, set_seats m db).

(** ** SELECT *)

Definition GetEventByID (id : UUID) : stmt Event := reading (fun db => one (events db !! id)).

Record ListSeatInventoryByEventRow := MkSeatInventoryRow {
  SI_ID : UUID; SI_EventID : UUID; SI_Section : string; SI_RowName : string;
  SI_SeatNumber : string; SI_Status : string }.

Record ListTicketTypeInventoryByEventRow := MkTicketInventoryRow {
  TI_ID : UUID; TI_EventID : UUID; TI_Name : string; TI_TotalQuantity : Z;
  TI_SoldQuantity : Z; TI_ReservedQuantity : Z; TI_AvailableQuantity : Z }.

(** The CASE over the joined reservation_seats row, NULL when there is none. *)
Definition seat_status (rs : option ReservationSeat) : string :=
  match rs with
  | Some rs =>
      if ReservationSeat_Status rs ==? StatusConfirmed then "confirmed"
      else if ReservationSeat_Status rs ==? StatusReserved then "reserved" else "available"
  | None => "available"
  end.

(** LEFT JOIN: a row without partner is joined with NULLs. *)
Definition left_join {A} (partners : list A) : list (option A) :=
  match partners with [] => [None] | _ => Some <$> partners end.

Definition active_rows_of (seat : Seat) (db : Database) : list ReservationSeat :=
  select (fun rs => (ReservationSeat_SeatID rs ==? Seat_ID seat) && active_seat rs)
    (by_key (fun rs => uuid_bytes (ReservationSeat_ID rs))) (reservation_seats db).

Definition seat_inventory_row (s : Seat) (rs : option ReservationSeat) : ListSeatInventoryByEventRow :=
  MkSeatInventoryRow (Seat_ID s) (Seat_EventID s) (Seat_Section s) (Seat_RowName s)
    (Seat_SeatNumber s) (seat_status rs).

(** int4 arithmetic, which fails out of range. *)
Definition ticket_inventory_row (t : TicketType) : error + ListTicketTypeInventoryByEventRow :=
  let? unsold := int4 (TicketType_TotalQuantity t - TicketType_SoldQuantity t) in
  let? available := int4 (unsold - TicketType_ReservedQuantity t) in
  inr (MkTicketInventoryRow (TicketType_ID t) (TicketType_EventID t) (TicketType_Name t)
    (TicketType_TotalQuantity t) (TicketType_SoldQuantity t) (TicketType_ReservedQuantity t) available).

Fixpoint each_row {V W} (f : V -> error + W) (l : list V) : error + list W :=
  match l with
  | [] => inr []
  | x :: l' =>
      let? y := f x in
      let? ys := each_row f l' in
      inr (y :: ys)
  end.

Section selects.
Context `{Collation}.

Definition seats_of (eventID : UUID) (db : Database) : list Seat :=
  select (fun s => Seat_EventID s ==? eventID)
    (by_columns (fun s => [Seat_Section s; Seat_RowName s; Seat_SeatNumber s]) Seat_ID) (seats db).

Definition ticket_types_of (eventID : UUID) (db : Database) : list TicketType :=
  select (fun t => TicketType_EventID t ==? eventID)
    (by_columns (fun t => [TicketType_Name t]) TicketType_ID) (ticket_types db).

Definition ListSeatsByEvent (eventID : UUID) : stmt (list Seat) :=
  reading (fun db => inr (seats_of eventID db)).

Definition ListTicketTypesByEvent (eventID : UUID) : stmt (list TicketType) :=
  reading (fun db => inr (ticket_types_of eventID db)).

Definition ListSeatInventoryByEvent (eventID : UUID) : stmt (list ListSeatInventoryByEventRow) :=
  reading (fun db => inr (flat_map
    (fun s => seat_inventory_row s <$> left_join (active_rows_of s db)) (seats_of eventID db))).

Definition ListTicketTypeInventoryByEvent (eventID : UUID)
    : stmt (list ListTicketTypeInventoryByEventRow) :=
  reading (fun db => each_row ticket_inventory_row (ticket_types_of eventID db)).
End selects.

(** ** What an INSERT does *)

Inductive catalog_step (db : Database) : Database -> Prop :=
  | catalog_event e :
      events db !! Event_ID e = None ->
      schema_ok (set_events (<[Event_ID e:=e]> (events db)) db) ->
      catalog_step db (set_events (<[Event_ID e:=e]> (events db)) db)
  | catalog_ticket t :
      ticket_types db !! TicketType_ID t = None ->
      TicketType_SoldQuantity t = 0 -> TicketType_ReservedQuantity t = 0 ->
      schema_ok (set_ticket_types (<[TicketType_ID t:=t]> (ticket_types db)) db) ->
      catalog_step db (set_ticket_types (<[TicketType_ID t:=t]> (ticket_types db)) db)
  | catalog_seat s :
      seats db !! Seat_ID s = None ->
      schema_ok (set_seats (<[Seat_ID s:=s]> (seats db)) db) ->
      catalog_step db (set_seats (<[Seat_ID s:=s]> (seats db)) db).

Lemma catalog_step_schema db db' : catalog_step db db' -> schema_ok db'.
Proof. by destruct 1. Qed.

(** No item holds a ticket type that does not exist. *)
Lemma units_absent status k db : schema_ok db -> ticket_types db !! k = None -> units status k db = 0.
Proof.
  intros Hdb Hk. apply map_sum_zero. intros j i Hi. unfold item_units.
  pose proof (items_ticket _ Hdb j i Hi) as Ht. simpl in Ht. split_if; [|done]. to_prop. subst.
  rewrite Hk in Ht. by destruct Ht.
Qed.

Lemma catalog_step_inv db db' : catalog_step db db' -> db_inv db -> db_inv db'.
Proof.
  intros Hstep [Hs [HR HC] [HI HS HH HU]]. split; [by eapply catalog_step_schema| |].
  - destruct Hstep; [done| |done]. split; unfold units; simpl;
      intros k t' [[<- <-]|[_ Hk]]%lookup_insert_Some; eauto; symmetry.
    + rewrite H1. by apply (units_absent StatusReserved).
    + rewrite H0. by apply (units_absent StatusConfirmed).
  - assert (Hti : forall k x, ticket_types db !! k = Some x -> ticket_types db' !! k = Some x).
    { destruct Hstep; simpl; [done| |done]. intros k x Hk. rewrite lookup_insert_ne; [done|].
      intros <-. congruence. }
    assert (Hse : forall k x, seats db !! k = Some x -> seats db' !! k = Some x).
    { destruct Hstep; simpl; [done|done|]. intros k x Hk. rewrite lookup_insert_ne; [done|].
      intros <-. congruence. }
    assert (Hr : reservations db' = reservations db) by (by destruct Hstep).
    assert (Hit : reservation_items db' = reservation_items db) by (by destruct Hstep).
    assert (Hrs : reservation_seats db' = reservation_seats db) by (by destruct Hstep).
    split; rewrite ?Hit, ?Hrs, ?Hr; [| |intros k r Hk; unfold header_ok; rewrite Hit, Hrs; by apply (HH k)|done].
    + intros k i Hi. destruct (HI k i Hi) as (r & t & ? & ? & ? & ? & ?). exists r, t.
      rewrite Hr. eauto 6.
    + intros k s Hk. destruct (HS k s Hk) as (r & p & ? & ? & ? & ? & ? & ?). exists r, p.
      rewrite Hr. eauto 7.
Qed.

Lemma catalog_steps_inv db db' : rtc catalog_step db db' -> db_inv db -> db_inv db'.
Proof. induction 1; eauto using catalog_step_inv. Qed.

Lemma CreateEvent_ok `{Pgtype} ctx db name starts ends :
  schema_ok db -> Valid (ctx_new_id ctx) = true ->
  match CreateEvent name starts ends ctx db with
  | inl e => e = unique_violation /\ is_Some (events db !! ctx_new_id ctx)
  | inr (row, db') => row = new_event ctx name starts ends /\
      db' = set_events (<[Event_ID row:=row]> (events db)) db /\
      events db !! Event_ID row = None /\ schema_ok db'
  end.
Proof.
  intros Hdb Hv. unfold CreateEvent.
  pose proof (insert_row_ok (events db) (ctx_new_id ctx) (new_event ctx name starts ends)
    true true true) as Hins.
  destruct (insert_row _ _ _ _ _ _) as [e|m].
  { by destruct Hins as [[??]|[[-> [Hi|Hi]]|[Hi ->]]]. }
  destruct Hins as (Hnone & _ & _ & _ & ->). split_and!; [done..|]. schema_tac.
Qed.

Lemma CreateTicketType_ok ctx db ev name total :
  schema_ok db -> Valid (ctx_new_id ctx) = true -> int32_range total = true -> 0 <= total ->
  match CreateTicketType ev name total ctx db with
  | inl e => (e = unique_violation /\ is_Some (ticket_types db !! ctx_new_id ctx)) \/
             (e = foreign_key_violation /\ events db !! ev = None)
  | inr (row, db') => row = new_ticket_type ctx ev name total /\
      db' = set_ticket_types (<[TicketType_ID row:=row]> (ticket_types db)) db /\
      ticket_types db !! TicketType_ID row = None /\ schema_ok db'
  end.
Proof.
  intros Hdb Hv Hr H0. unfold CreateTicketType.
  assert (Hck : ck_ticket_type (new_ticket_type ctx ev name total) = inr tt)
    by (apply ck_ticket_type_spec; [done|simpl; lia]).
  rewrite Hck.
  pose proof (insert_row_ok (ticket_types db) (ctx_new_id ctx) (new_ticket_type ctx ev name total)
    true true (has_row (events db) ev)) as Hins.
  destruct (insert_row _ _ _ _ _ _) as [e|m].
  { destruct Hins as [[??]|[[-> [Hi|Hi]]|[Hi ->]]]; try done; [by left|right].
    split; [done|]. unfold has_row in Hi. by destruct (events db !! ev). }
  destruct Hins as (Hnone & _ & _ & Hfk & ->). apply has_row_spec in Hfk.
  split_and!; [done..|]. schema_tac.
Qed.

Lemma CreateSeat_ok ctx db ev sec row number :
  schema_ok db -> Valid (ctx_new_id ctx) = true ->
  match CreateSeat ev sec row number ctx db with
  | inl e => (e = unique_violation /\ (is_Some (seats db !! ctx_new_id ctx) \/
                exists k s, seats db !! k = Some s /\ seat_place s = (ev, sec, row, number))) \/
             (e = foreign_key_violation /\ events db !! ev = None)
  | inr (s, db') => s = new_seat_row ctx ev sec row number /\
      db' = set_seats (<[Seat_ID s:=s]> (seats db)) db /\
      seats db !! Seat_ID s = None /\ schema_ok db' /\
      (forall k s', seats db !! k = Some s' -> seat_place s' <> (ev, sec, row, number))
  end.
Proof.
  intros Hdb Hv. unfold CreateSeat.
  pose proof (insert_row_ok (seats db) (ctx_new_id ctx) (new_seat_row ctx ev sec row number)
    true (place_free (ev, sec, row, number) (seats db)) (has_row (events db) ev)) as Hins.
  change (seat_place (new_seat_row ctx ev sec row number)) with (ev, sec, row, number).
  destruct (insert_row _ _ _ _ _ _) as [e|m].
  - destruct Hins as [[??]|[[-> [Hi|Hi]]|[Hi ->]]]; try done.
    + left. by split; [|left].
    + left. split; [done|right]. unfold place_free in Hi.
      apply negb_false_iff, existsb_exists in Hi as (s & Hs & He).
      apply list_elem_of_In, elem_of_rows in Hs as [k Hk]. to_prop. eauto.
    + right. split; [done|]. unfold has_row in Hi. by destruct (events db !! ev).
  - destruct Hins as (Hnone & _ & Huniq & Hfk & ->). apply has_row_spec in Hfk.
    assert (Hfree : forall k s', seats db !! k = Some s' -> seat_place s' <> (ev, sec, row, number)).
    { intros k s' Hk Heq. unfold place_free in Huniq. apply negb_true_iff, not_true_iff_false in Huniq.
      apply Huniq, existsb_exists. exists s'. split; [apply list_elem_of_In, elem_of_rows; eauto|].
      by apply bool_decide_eq_true. }
    split_and!; [done..| |done]. schema_tac. apply unique_insert; [done|].
    intros j s' _ Hj _ _. by apply (Hfree j).
Qed.
