(* ===== verification/Locks.v ===== *)
(** * Uncommitted rows

    Under READ COMMITTED a transaction sees the committed tables with its own
    changes on top, and nobody else sees these before the commit. The rows it has
    changed or locked are kept as a [Database] of their own: [overlay] is what
    the transaction sees, [pend] adds to these rows what a statement changes or
    locks, and [no_conflict] is the test by which PostgreSQL lets a statement
    proceed beside another transaction: no row is locked by both, and no unique
    index would hold two rows with the same key if both committed. *)

From S2P Require Import Prelude GoRuntime DbTypes Schema Prog SqlcReservations.
Local Open Scope string_scope.
Local Open Scope list_scope.
Local Open Scope Z_scope.

#[export] Instance User_eq_dec : EqDecision User.
Proof. solve_decision. Defined.
#[export] Instance VisitorSession_eq_dec : EqDecision VisitorSession.
Proof. solve_decision. Defined.
#[export] Instance Event_eq_dec : EqDecision Event.
Proof. solve_decision. Defined.
#[export] Instance TicketType_eq_dec : EqDecision TicketType.
Proof. solve_decision. Defined.
#[export] Instance Seat_eq_dec : EqDecision Seat.
Proof. solve_decision. Defined.
#[export] Instance Reservation_eq_dec : EqDecision Reservation.
Proof. solve_decision. Defined.
#[export] Instance ReservationItem_eq_dec : EqDecision ReservationItem.
Proof. solve_decision. Defined.
#[export] Instance ReservationSeat_eq_dec : EqDecision ReservationSeat.
Proof. solve_decision. Defined.
#[export] Instance row_lock_eq_dec : EqDecision row_lock.
Proof. solve_decision. Defined.

(** ** One table *)

Section table.
Context {V : Type} `{EqDecision V}.
Implicit Types (W C D : gmap UUID V).

(** The rows of [D'] that are pending already, locked, or not as in [D]. *)
Definition pend_table (locked : UUID -> bool) (W D D' : gmap UUID V) : gmap UUID V :=
  map_imap (fun k r => if has_row W k || locked k || (D !! k !=? Some r)
                       then Some r else None) D'.

(** The rows of [W] are the same in [C] and [C']. *)
Definition agree_table (W C C' : gmap UUID V) : Prop :=
  forall k, is_Some (W !! k) -> C' !! k = C !! k.

Definition grows_table (D D' : gmap UUID V) : Prop :=
  forall k, is_Some (D !! k) -> is_Some (D' !! k).

Lemma lookup_pend locked W D D' k :
  pend_table locked W D D' !! k =
  match D' !! k with
  | Some r => if has_row W k || locked k || (D !! k !=? Some r) then Some r else None
  | None => None
  end.
Proof. unfold pend_table. rewrite map_lookup_imap. by destruct (D' !! k). Qed.

(** A row that is not pending is the committed one. *)
Lemma pend_None locked W C D' k :
  grows_table (W ∪ C) D' -> pend_table locked W (W ∪ C) D' !! k = None ->
  W !! k = None /\ D' !! k = C !! k.
Proof.
  intros Hg. rewrite lookup_pend. specialize (Hg k). rewrite lookup_union in Hg.
  unfold has_row. destruct (W !! k) as [w|] eqn:HW.
  - destruct Hg as [r ->]; [destruct (C !! k); eauto|]. done.
  - rewrite lookup_union, HW. destruct (C !! k) as [c|] eqn:HC, (D' !! k) as [r|] eqn:HD; simpl in *.
    + case_bool_decide as Heq; [by simplify_eq|]. by rewrite orb_true_r.
    + by destruct Hg as [? ?].
    + by rewrite orb_true_r.
    + done.
Qed.

Lemma pend_Some locked W C D' k r :
  pend_table locked W (W ∪ C) D' !! k = Some r -> D' !! k = Some r.
Proof. rewrite lookup_pend. destruct (D' !! k); [|done]. by destruct (_ || _). Qed.

(** The changed tables are the committed ones under the pending rows. *)
Lemma overlay_pend_table locked W C D' :
  grows_table (W ∪ C) D' -> pend_table locked W (W ∪ C) D' ∪ C = D'.
Proof.
  intros Hg. apply map_eq. intros k. rewrite lookup_union.
  destruct (pend_table _ _ _ _ !! k) as [r|] eqn:Hp.
  - apply pend_Some in Hp. rewrite Hp. by destruct (C !! k).
  - apply pend_None in Hp as [_ ->]; [|done]. by destruct (C !! k).
Qed.

Lemma pend_keeps locked W C D' k :
  grows_table (W ∪ C) D' -> is_Some (W !! k) -> is_Some (pend_table locked W (W ∪ C) D' !! k).
Proof.
  intros Hg Hk. destruct (pend_table _ _ _ _ !! k) eqn:Hp; [eauto|].
  apply pend_None in Hp as [Hn _]; [|done]. rewrite Hn in Hk. by destruct Hk.
Qed.

Lemma pend_locked locked W D D' k r :
  locked k = true -> D' !! k = Some r -> pend_table locked W D D' !! k = Some r.
Proof. intros Hl Hr. by rewrite lookup_pend, Hr, Hl, orb_true_r. Qed.

Lemma pend_changed locked W D D' k r :
  D !! k <> Some r -> D' !! k = Some r -> pend_table locked W D D' !! k = Some r.
Proof. intros Hl Hr. rewrite lookup_pend, Hr, bool_decide_eq_false_2 by done. by rewrite orb_true_r. Qed.

(** A statement that treats the rows one by one does the same to the committed
    tables of a later moment, if those rows have not changed that it touches or
    locks and the others are none of its business. *)
Lemma overlay_pend_later (g : UUID -> option V -> option V) locked W C C' D' :
  (forall k, D' !! k = g k ((W ∪ C) !! k)) ->
  grows_table (W ∪ C) D' ->
  agree_table (pend_table locked W (W ∪ C) D') C C' ->
  (forall k, pend_table locked W (W ∪ C) D' !! k = None -> g k (C' !! k) = C' !! k) ->
  forall k, (pend_table locked W (W ∪ C) D' ∪ C') !! k = g k ((W ∪ C') !! k).
Proof.
  intros Hg Hgr Hag Hother k. specialize (Hother k). specialize (Hag k). rewrite !lookup_union.
  destruct (pend_table _ _ _ _ !! k) as [r|] eqn:Hp.
  - specialize (Hag ltac:(eauto)). apply pend_Some in Hp as HD. rewrite Hg, lookup_union in HD.
    rewrite Hag. rewrite HD. by destruct (C !! k).
  - apply pend_None in Hp as [-> _]; [|done]. specialize (Hother eq_refl).
    revert Hother. by destruct (C' !! k).
Qed.

Lemma grows_table_refl D : grows_table D D.
Proof. by intros k. Qed.

Lemma grows_table_insert D k r : grows_table D (<[k:=r]> D).
Proof. intros j Hj. apply lookup_insert_is_Some'. by right. Qed.

Lemma grows_table_fmap D (f : V -> V) : grows_table D (f <$> D).
Proof. intros j Hj. rewrite lookup_fmap. by apply fmap_is_Some. Qed.

Lemma grows_table_trans D1 D2 D3 : grows_table D1 D2 -> grows_table D2 D3 -> grows_table D1 D3.
Proof. unfold grows_table. eauto. Qed.

Lemma agree_table_refl W C : agree_table W C C.
Proof. by intros k. Qed.

Lemma agree_table_trans W C1 C2 C3 : agree_table W C1 C2 -> agree_table W C2 C3 -> agree_table W C1 C3.
Proof. intros H1 H2 k Hk. by rewrite (H2 k Hk), (H1 k Hk). Qed.

Lemma agree_table_mono W W' C C' :
  (forall k, is_Some (W !! k) -> is_Some (W' !! k)) -> agree_table W' C C' -> agree_table W C C'.
Proof. intros HW Ha k Hk. by apply Ha, HW. Qed.

Lemma agree_table_overlay W X C : W ##ₘ X -> agree_table W C (X ∪ C).
Proof.
  intros Hd k [w Hk]. rewrite lookup_union. rewrite (map_disjoint_Some_l _ _ _ _ Hd Hk).
  by destruct (C !! k).
Qed.
End table.

(** ** All tables *)

Definition tables2 (R : forall T, gmap UUID T -> gmap UUID T -> Prop) (d d' : Database) : Prop :=
  R _ (users d) (users d') /\ R _ (visitor_sessions d) (visitor_sessions d') /\
  R _ (events d) (events d') /\ R _ (ticket_types d) (ticket_types d') /\
  R _ (seats d) (seats d') /\ R _ (reservations d) (reservations d') /\
  R _ (reservation_items d) (reservation_items d') /\
  R _ (reservation_seats d) (reservation_seats d').

(** No row disappears. *)
Definition grows : Database -> Database -> Prop := tables2 (@grows_table).

(** The rows of [W] are the same in [C] and [C']. *)
Definition agree (W C C' : Database) : Prop :=
  agree_table (users W) (users C) (users C') /\
  agree_table (visitor_sessions W) (visitor_sessions C) (visitor_sessions C') /\
  agree_table (events W) (events C) (events C') /\
  agree_table (ticket_types W) (ticket_types C) (ticket_types C') /\
  agree_table (seats W) (seats C) (seats C') /\
  agree_table (reservations W) (reservations C) (reservations C') /\
  agree_table (reservation_items W) (reservation_items C) (reservation_items C') /\
  agree_table (reservation_seats W) (reservation_seats C) (reservation_seats C').

(** The tables with the pending rows [W] on top. *)
Definition overlay (W C : Database) : Database := MkDatabase
  (users W ∪ users C) (visitor_sessions W ∪ visitor_sessions C) (events W ∪ events C)
  (ticket_types W ∪ ticket_types C) (seats W ∪ seats C) (reservations W ∪ reservations C)
  (reservation_items W ∪ reservation_items C) (reservation_seats W ∪ reservation_seats C).

(** The pending rows after a statement that led from [D] to [D'] and declares
    the locks [lk]. *)
Definition pend (lk : list row_lock) (W D D' : Database) : Database :=
  let no_lock (_ : UUID) := false in
  MkDatabase
    (pend_table no_lock (users W) (users D) (users D'))
    (pend_table no_lock (visitor_sessions W) (visitor_sessions D) (visitor_sessions D'))
    (pend_table no_lock (events W) (events D) (events D'))
    (pend_table (fun k => bool_decide (LockTicketType k ∈ lk)) (ticket_types W) (ticket_types D) (ticket_types D'))
    (pend_table (fun k => bool_decide (LockSeat k ∈ lk)) (seats W) (seats D) (seats D'))
    (pend_table (fun k => bool_decide (LockReservation k ∈ lk)) (reservations W) (reservations D) (reservations D'))
    (pend_table no_lock (reservation_items W) (reservation_items D) (reservation_items D'))
    (pend_table no_lock (reservation_seats W) (reservation_seats D) (reservation_seats D')).

Lemma overlay_empty C : overlay empty_db C = C.
Proof. unfold overlay. simpl. rewrite !map_empty_union. by destruct C. Qed.

Lemma overlay_pend lk W C D' : grows (overlay W C) D' -> overlay (pend lk W (overlay W C) D') C = D'.
Proof.
  intros (?&?&?&?&?&?&?&?). unfold overlay, pend. simpl.
  rewrite !overlay_pend_table by done. by destruct D'.
Qed.

Lemma grows_refl D : grows D D.
Proof. repeat split; intros k; done. Qed.

Lemma grows_trans D1 D2 D3 : grows D1 D2 -> grows D2 D3 -> grows D1 D3.
Proof.
  unfold grows, tables2. intros. destruct_and!. split_and!; eapply grows_table_trans; eauto.
Qed.

Lemma agree_refl W C : agree W C C.
Proof. unfold agree. split_and!; apply agree_table_refl. Qed.

Lemma agree_trans W C1 C2 C3 : agree W C1 C2 -> agree W C2 C3 -> agree W C1 C3.
Proof. unfold agree. intros. destruct_and!. split_and!; eapply agree_table_trans; eauto. Qed.

(** Every row of [W] has one in [W'], changed or not. *)
Definition covers (W' W : Database) : Prop := grows W W'.

Lemma agree_covers W W' C C' : covers W' W -> agree W' C C' -> agree W C C'.
Proof.
  unfold agree, covers, grows, tables2. intros. destruct_and!.
  split_and!; eapply agree_table_mono; eauto.
Qed.

Lemma pend_covers lk W C D' :
  grows (overlay W C) D' -> covers (pend lk W (overlay W C) D') W.
Proof.
  intros (?&?&?&?&?&?&?&?). unfold covers, grows, tables2.
  split_and!; intros k Hk; by apply pend_keeps.
Qed.

(** ** Conflicts *)

(** The unique indexes of the schema. *)
Record unique_indexes (db : Database) : Prop := {
  uq_users : unique (fun _ => true) User_Email (users db);
  uq_sessions : unique (fun _ => true) VisitorSession_AnonymousTokenHash (visitor_sessions db);
  uq_seats : unique (fun _ => true) seat_place (seats db);
  uq_reservations : unique (fun _ => true) session_key (reservations db);
  uq_rseats : unique active_seat ReservationSeat_SeatID (reservation_seats db);
}.

Definition disjoint_rows : Database -> Database -> Prop := tables2 (fun T m m' => m ##ₘ m').

Record compatible (V W C : Database) : Prop := {
  cp_disjoint : disjoint_rows V W;
  cp_unique : unique_indexes (overlay V (overlay W C));
}.

Definition unique_rows {V K} `{EqDecision K} (P : V -> bool) (key : V -> K) (m : gmap UUID V) : bool :=
  bool_decide (NoDup (key <$> List.filter P (rows m))).

Definition apart {V} (m m' : gmap UUID V) : bool := forallb (fun kr => negb (has_row m' kr.1)) (map_to_list m).

(** A transaction whose pending rows would become [W] may proceed beside one
    that holds [V]. *)
Definition no_conflict (V W C : Database) : bool :=
  apart (users V) (users W) && apart (visitor_sessions V) (visitor_sessions W) &&
  apart (events V) (events W) && apart (ticket_types V) (ticket_types W) &&
  apart (seats V) (seats W) && apart (reservations V) (reservations W) &&
  apart (reservation_items V) (reservation_items W) &&
  apart (reservation_seats V) (reservation_seats W) &&
  let both := overlay V (overlay W C) in
  unique_rows (fun _ => true) User_Email (users both) &&
  unique_rows (fun _ => true) VisitorSession_AnonymousTokenHash (visitor_sessions both) &&
  unique_rows (fun _ => true) seat_place (seats both) &&
  unique_rows (fun _ => true) session_key (reservations both) &&
  unique_rows active_seat ReservationSeat_SeatID (reservation_seats both).

Lemma apart_disjoint {V} (m m' : gmap UUID V) : apart m m' = true -> m ##ₘ m'.
Proof.
  intros Ha. apply map_disjoint_spec. intros k x y Hx Hy.
  pose proof (proj1 (forallb_forall _ _) Ha (k, x)) as Hk. simpl in Hk.
  rewrite <- list_elem_of_In, elem_of_map_to_list in Hk. specialize (Hk Hx).
  unfold has_row in Hk. by rewrite Hy in Hk.
Qed.

Lemma unique_rows_spec {V K} `{EqDecision K} (P : V -> bool) (key : V -> K) m :
  unique_rows P key m = true -> unique P key m.
Proof.
  unfold unique_rows. rewrite bool_decide_eq_true. intros Hnd i j r s Hi Hj HPr HPs Heq.
  destruct (decide (i = j)) as [|Hne]; [done|]. exfalso.
  rewrite <- (insert_delete_id _ _ _ Hi) in Hnd.
  rewrite rows_insert in Hnd by apply lookup_delete_eq. simpl in Hnd. rewrite HPr, fmap_cons in Hnd.
  apply NoDup_cons in Hnd as [Hnin _]. apply Hnin, list_elem_of_fmap. exists s. split; [done|].
  apply list_elem_of_In, filter_In. split; [|done]. apply list_elem_of_In, elem_of_rows.
  exists j. by rewrite lookup_delete_ne.
Qed.

Lemma no_conflict_spec V W C : no_conflict V W C = true -> compatible V W C.
Proof.
  unfold no_conflict. intros. to_prop. split.
  - unfold disjoint_rows, tables2. split_and!; by apply apart_disjoint.
  - split; by apply unique_rows_spec.
Qed.

Lemma schema_unique db : schema_ok db -> unique_indexes db.
Proof. intros []. by split. Qed.

Lemma overlay_swap V W C : disjoint_rows V W -> overlay V (overlay W C) = overlay W (overlay V C).
Proof.
  intros (?&?&?&?&?&?&?&?). unfold overlay. simpl.
  f_equal; rewrite !map_union_assoc; f_equal; by apply map_union_comm.
Qed.

Lemma disjoint_rows_sym V W : disjoint_rows V W -> disjoint_rows W V.
Proof. intros (?&?&?&?&?&?&?&?). split_and!; by apply map_disjoint_sym. Qed.

Lemma compatible_sym V W C : compatible V W C -> compatible W V C.
Proof. intros [Hd Hu]. split; [by apply disjoint_rows_sym|]. by rewrite <- overlay_swap. Qed.

Lemma disjoint_agree W X C : disjoint_rows W X -> agree W C (overlay X C).
Proof.
  intros (?&?&?&?&?&?&?&?). unfold agree. split_and!; by apply agree_table_overlay.
Qed.

(** A row of the union of four tables is in two of the unions of three, so any
    two rows are in one of these together. *)
Section three.
Context {V K : Type}.
Implicit Types (A B X C : gmap UUID V).

Lemma union_two_of_three A B X C i r :
  (A ∪ (B ∪ (X ∪ C))) !! i = Some r ->
  ((A ∪ (B ∪ C)) !! i = Some r /\ (A ∪ (X ∪ C)) !! i = Some r) \/
  ((A ∪ (B ∪ C)) !! i = Some r /\ (B ∪ (X ∪ C)) !! i = Some r) \/
  ((A ∪ (X ∪ C)) !! i = Some r /\ (B ∪ (X ∪ C)) !! i = Some r).
Proof.
  rewrite !lookup_union. destruct (A !! i), (B !! i), (X !! i), (C !! i); simpl; intros [= ->]; auto.
Qed.

Lemma unique_union3 (P : V -> bool) (key : V -> K) A B X C :
  unique P key (A ∪ (B ∪ C)) -> unique P key (A ∪ (X ∪ C)) -> unique P key (B ∪ (X ∪ C)) ->
  unique P key (A ∪ (B ∪ (X ∪ C))).
Proof.
  intros H1 H2 H3 i j r s Hi Hj HPr HPs Heq.
  destruct (union_two_of_three _ _ _ _ _ _ Hi) as [[? ?]|[[? ?]|[? ?]]],
    (union_two_of_three _ _ _ _ _ _ Hj) as [[? ?]|[[? ?]|[? ?]]]; eauto.
Qed.

Lemma union_one_of_two A B C i r :
  (A ∪ (B ∪ C)) !! i = Some r -> (A ∪ C) !! i = Some r \/ (B ∪ C) !! i = Some r.
Proof. rewrite !lookup_union. destruct (A !! i), (B !! i), (C !! i); simpl; intros [= ->]; auto. Qed.

Lemma all_rows_union (P : V -> Prop) A B C :
  all_rows P (A ∪ C) -> all_rows P (B ∪ C) -> all_rows P (A ∪ (B ∪ C)).
Proof. intros HA HB i r [Hi|Hi]%union_one_of_two; eauto. Qed.

Lemma keyed_union (id : V -> UUID) A B C :
  keyed id (A ∪ C) -> keyed id (B ∪ C) -> keyed id (A ∪ (B ∪ C)).
Proof. intros HA HB i r [Hi|Hi]%union_one_of_two; eauto. Qed.

Lemma is_Some_union_l A B C i : is_Some ((A ∪ C) !! i) -> is_Some ((A ∪ (B ∪ C)) !! i).
Proof. rewrite !lookup_union. destruct (A !! i), (B !! i), (C !! i); simpl; eauto. Qed.

Lemma is_Some_union_r A B C i : is_Some ((B ∪ C) !! i) -> is_Some ((A ∪ (B ∪ C)) !! i).
Proof. rewrite !lookup_union. destruct (A !! i), (B !! i), (C !! i); simpl; eauto. Qed.

Lemma refers_union {W} (fk : V -> UUID) A B C (A' B' C' : gmap UUID W) :
  refers fk (A ∪ C) (A' ∪ C') -> refers fk (B ∪ C) (B' ∪ C') ->
  refers fk (A ∪ (B ∪ C)) (A' ∪ (B' ∪ C')).
Proof.
  intros HA HB i r [Hi|Hi]%union_one_of_two.
  - specialize (HA i r Hi). cbv beta in *. revert HA. rewrite !lookup_union.
    destruct (A' !! _), (B' !! _), (C' !! _); simpl; eauto.
  - specialize (HB i r Hi). cbv beta in *. revert HB. rewrite !lookup_union.
    destruct (A' !! _), (B' !! _), (C' !! _); simpl; eauto.
Qed.

Lemma refers_opt_union {W} (fk : V -> UUID) A B C (A' B' C' : gmap UUID W) :
  refers_opt fk (A ∪ C) (A' ∪ C') -> refers_opt fk (B ∪ C) (B' ∪ C') ->
  refers_opt fk (A ∪ (B ∪ C)) (A' ∪ (B' ∪ C')).
Proof.
  intros HA HB i r [Hi|Hi]%union_one_of_two Hv.
  - specialize (HA i r Hi Hv). revert HA. rewrite !lookup_union.
    destruct (A' !! _), (B' !! _), (C' !! _); simpl; eauto.
  - specialize (HB i r Hi Hv). revert HB. rewrite !lookup_union.
    destruct (A' !! _), (B' !! _), (C' !! _); simpl; eauto.
Qed.
End three.

Lemma unique_indexes_three A B X C :
  unique_indexes (overlay A (overlay B C)) -> unique_indexes (overlay A (overlay X C)) ->
  unique_indexes (overlay B (overlay X C)) -> unique_indexes (overlay A (overlay B (overlay X C))).
Proof. intros [] [] []. split; simpl in *; by apply unique_union3. Qed.

(** What two transactions hold stays compatible when a third commits. *)
Lemma compatible_commit V W X C :
  compatible V W C -> compatible V X C -> compatible W X C -> compatible V W (overlay X C).
Proof. intros [Hd ?] [_ ?] [_ ?]. split; [done|]. by apply unique_indexes_three. Qed.

(** What a transaction sees stays well-formed when another commits. *)
Lemma schema_commit V X C :
  schema_ok (overlay V C) -> schema_ok (overlay X C) -> compatible V X C ->
  schema_ok (overlay V (overlay X C)).
Proof.
  intros [] [] [_ []]. unfold overlay in *. simpl in *.
  constructor; simpl;
    first [done | by apply keyed_union | by apply refers_union | by apply refers_opt_union
          | by apply all_rows_union].
Qed.
