(* ===== verification/Interleaving.v ===== *)
(** * Sessions that run at the same time

    [run] executes one program alone. Here any number of programs (requests,
    worker turns), each on its own connection, advance one effect at a time in
    any order on one PostgreSQL server. A statement sees the committed tables and
    the uncommitted rows of its own transaction (READ COMMITTED); it does not
    proceed while it would touch a row that another transaction has changed or
    locked, or add a key that another transaction has added to a unique index; a
    commit publishes the uncommitted rows at once.

    A statement is one step: the step happens when the last lock it needs is
    granted. A transaction keeps the uncommitted rows of every moment of its life
    ([tx_past]), since an index entry blocks others until the transaction ends
    even if the row has changed again. Deadlocks end, as the server ends them, by
    a fault of one of the statements that wait. *)

From S2P Require Import Prelude GoRuntime DbTypes Schema Prog SqlcReservations Locks.
Local Open Scope string_scope.
Local Open Scope list_scope.
Local Open Scope Z_scope.

(** ** The state *)

(** An open transaction: now(), its uncommitted and locked rows, and what these
    were after each earlier statement. *)
Record Tx := MkTx { tx_now : Z; tx_rows : Database; tx_past : list Database }.

Definition versions (t : Tx) : list Database := tx_rows t :: tx_past t.

(** A connection: what is left of its program, and its transaction. A program
    that has ended is [Ret] of its answer, [Fail] or [Panic]. *)
Record Session (A : Type) := MkSession { program : prog A; transaction : option Tx }.
Arguments MkSession {A} program transaction.
Arguments program {A} s.
Arguments transaction {A} s.

(** The server: committed tables, number of effects so far, connections. *)
Record Pool (A : Type) := MkPool { committed : Database; tick : nat; sessions : list (Session A) }.
Arguments MkPool {A} committed tick sessions.
Arguments committed {A} p.
Arguments tick {A} p.
Arguments sessions {A} p.

(** ** One effect of one session *)

Definition open_rows (t : option Tx) : Database :=
  match t with Some t => tx_rows t | None => empty_db end.

Definition held_versions (t : option Tx) : list Database :=
  match t with Some t => versions t | None => [] end.

(** The reservations locked by the transactions [others]. *)
Definition locked_reservations (others : list Database) : list UUID :=
  flat_map (fun W => fst <$> map_to_list (reservations W)) others.

Section step.
Context `{Env} {A : Type}.

Definition session_ctx (n : nat) (t : option Tx) (others : list Database) : sctx :=
  MkSctx (MkTs (match t with Some t => tx_now t | None => db_clock n end) true)
    (MkUUID (gen_random_uuid n) true) (locked_reservations others).

(** What one effect leaves: committed tables, transaction, rest of the program.
    [None]: the program has ended, or the statement waits for a lock. [others]
    are the uncommitted rows, of every moment, of the other transactions. *)
Definition step_session (n : nat) (others : list Database) (C : Database) (t : option Tx)
    (p : prog A) : option (Database * option Tx * prog A) :=
  match p with
  | Ret _ | Fail _ | Panic => None
  | Now k => Some (C, t, k (wall_clock n))
  | RandRead m k => Some (C, t, k (rand_result m (rand_read n m)))
  | Sql lk st k =>
      match fault n with
      | Some f => Some (C, t, k (inl (fault_error f)))
      | None =>
          let seen := overlay (open_rows t) C in
          match st (session_ctx n t others) seen with
          | inl e => Some (C, t, k (inl e))
          | inr (x, seen') =>
              let W := pend (lk x) (open_rows t) seen seen' in
              if forallb (fun V => no_conflict V W C) others then
                match t with
                | Some t => Some (C, Some (MkTx (tx_now t) W (versions t)), k (inr x))
                | None => Some (overlay W C, None, k (inr x))
                end
              else None
          end
      end
  | Begin k =>
      match fault n, t with
      | Some f, _ => Some (C, t, k (inl (fault_error f)))
      | None, Some _ => Some (C, t, k (inl nested_begin))
      | None, None => Some (C, Some (MkTx (db_clock n) empty_db []), k (inr tt))
      end
  | Commit k =>
      match t with
      | None => Some (C, None, k (inl tx_closed))
      | Some t =>
          match commit_outcome n with
          | Acked => Some (overlay (tx_rows t) C, None, k (inr tt))
          | Refused f => Some (C, None, k (inl (fault_error f)))
          | AckLost f => Some (overlay (tx_rows t) C, None, k (inl (fault_error f)))
          end
      end
  | Rollback k => Some (C, None, k)
  end.

(** ** Schedules *)

(** The uncommitted rows of the sessions other than the [i]th. *)
Definition others (i : nat) (ss : list (Session A)) : list Database :=
  flat_map (fun s => held_versions (transaction s)) (take i ss ++ drop (S i) ss).

(** The [i]th session performs its next effect, if it can. *)
Definition step_pool (i : nat) (P : Pool A) : Pool A :=
  match sessions P !! i with
  | None => P
  | Some s =>
      match step_session (tick P) (others i (sessions P)) (committed P) (transaction s) (program s) with
      | None => MkPool (committed P) (S (tick P)) (sessions P)
      | Some (C, t, p) => MkPool C (S (tick P)) (<[i:=MkSession p t]> (sessions P))
      end
  end.

(** A schedule names the session that moves at each moment. *)
Definition interleave (schedule : list nat) (P : Pool A) : Pool A :=
  fold_left (fun P i => step_pool i P) schedule P.
End step.

(** The pool in which programs are about to start. *)
Definition fresh_pool {A} (C : Database) (ps : list (prog A)) : Pool A :=
  MkPool C 0 ((fun p => MkSession p None) <$> ps).
