(* ===== verification/Isolation.v ===== *)
(** * What every session can rely on

    A program is safe beside others if, whatever they commit between its steps,
    each of its own commits takes the committed tables by a legal step to a legal
    state. [safe] says this of a program with an open or no transaction, [rely]
    is what the others may do meanwhile; [interleave_ok] proves that a pool of
    safe programs keeps the invariant of the tables under every schedule, and
    [isolated] are the programs that are safe to start at any moment. *)

From S2P Require Import Prelude GoRuntime DbTypes Schema Prog SqlcReservations Inventory SqlcAccounts SqlcEvents Locks Interleaving.
Local Open Scope string_scope.
Local Open Scope list_scope.
Local Open Scope Z_scope.

(** ** Legal steps of the committed tables *)

Inductive world_step (C C' : Database) : Prop :=
  | ws_inventory (Hstep : inventory_step C C')
  | ws_catalog (Hstep : catalog_step C C')
  | ws_accounts (Hstep : accounts_changed C C') (Hgrows : grows C C').

Lemma world_step_inv C C' : world_step C C' -> db_inv C -> db_inv C'.
Proof.
  intros [H|H|H _] Hinv; [by eapply inventory_step_inv|by eapply catalog_step_inv|by eapply accounts_changed_inv].
Qed.

Lemma world_steps_inv C C' : rtc world_step C C' -> db_inv C -> db_inv C'.
Proof. induction 1; eauto using world_step_inv. Qed.

Lemma inventory_steps_world C C' : rtc inventory_step C C' -> rtc world_step C C'.
Proof. apply rtc_subrel. intros ? ?. apply ws_inventory. Qed.

Lemma grows_table_update {V} (sel : V -> bool) upd (m : gmap UUID V) : grows_table m (update_where sel upd m).
Proof. apply grows_table_fmap. Qed.

#[export] Hint Resolve grows_table_refl grows_table_insert grows_table_fmap grows_table_update : schema.

Lemma transitioned_grows status rid C C' : transitioned status rid C C' -> grows C C'.
Proof.
  intros [(Hu & Hv & He & Hse) (r & ts & _ & _ & Hr) [ti Hi] [tr Hs] Htk].
  unfold grows, tables2. rewrite Hu, Hv, He, Hse, Hr, Hi, Hs. split_and!; eauto with schema.
  intros k [t Hk]. specialize (Htk k). rewrite Hk in Htk. destruct (ticket_types C' !! k); [eauto|done].
Qed.

Lemma inventory_step_grows C C' : inventory_step C C' -> grows C C'.
Proof.
  intros [ev sid uid tid q key exp rid [_ _ _ _ (t & iid & ts & ts' & _ & _ & _ & _ & ->)] _
    |ev sid uid sids key exp rid [_ _ _ _ _ _ (m' & ts & [Hkept _ _] & ->)] _
    |ids [_ (ts & ts' & ->)] _
    |status rid _ Htr _]; [..|by eapply transitioned_grows];
    unfold grows, tables2; simpl; split_and!; eauto with schema.
  intros k [s Hk]. eexists. by apply Hkept.
Qed.

Lemma catalog_step_grows C C' : catalog_step C C' -> grows C C'.
Proof. intros []; unfold grows, tables2; simpl; split_and!; eauto with schema. Qed.

Lemma world_steps_grow C C' : rtc world_step C C' -> grows C C'.
Proof.
  induction 1 as [C|C C1 C2 H _ IH]; [apply grows_refl|]. eapply grows_trans, IH.
  destruct H; auto using inventory_step_grows, catalog_step_grows.
Qed.

(** ** What the lock on a header protects *)

(** The rows of reservation [rid] are the same. *)
Definition same_rows (rid : UUID) (C C' : Database) : Prop :=
  (forall k i, ReservationItem_ReservationID i = rid ->
     reservation_items C !! k = Some i <-> reservation_items C' !! k = Some i) /\
  (forall k s, ReservationSeat_ReservationID s = rid ->
     reservation_seats C !! k = Some s <-> reservation_seats C' !! k = Some s).

Lemma same_rows_trans rid C1 C2 C3 : same_rows rid C1 C2 -> same_rows rid C2 C3 -> same_rows rid C1 C3.
Proof.
  intros [H1 H2] [H3 H4]. split; intros k x Hx; [by rewrite (H1 k x Hx), (H3 k x Hx)|].
  by rewrite (H2 k x Hx), (H4 k x Hx).
Qed.

Lemma same_rows_eq rid C C' :
  reservation_items C' = reservation_items C -> reservation_seats C' = reservation_seats C ->
  same_rows rid C C'.
Proof. intros Hi Hs. unfold same_rows. by rewrite Hi, Hs. Qed.

Lemma update_where_other {V} (sel : V -> bool) upd (key : V -> UUID) rid m k x :
  (forall r, key (upd r) = key r) -> (forall r, sel r = true -> key r <> rid) -> key x = rid ->
  m !! k = Some x <-> update_where sel upd m !! k = Some x.
Proof.
  intros Hupd Hsel Hx. rewrite update_where_lookup. split.
  - intros Hk. exists x. split; [done|]. destruct (sel x) eqn:E; [|done]. by apply Hsel in E.
  - intros (r & Hr & ->). destruct (sel r) eqn:E; [|done]. apply Hsel in E. rewrite Hupd in Hx. done.
Qed.

Lemma fresh_row_other {V} (m : gmap UUID V) (key : V -> UUID) rid id row k x :
  m !! id = None -> key row <> rid -> key x = rid ->
  m !! k = Some x <-> <[id:=row]> m !! k = Some x.
Proof.
  intros Hid Hrow Hx. rewrite lookup_insert_Some. split.
  - intros Hk. right. split; [congruence|done].
  - by intros [[_ <-]|[_ Hk]].
Qed.

(** A step that leaves the header alone leaves the rows alone. *)
Lemma inventory_step_rows rid r C C' :
  schema_ok C -> inventory_step C C' ->
  reservations C !! rid = Some r -> reservations C' !! rid = Some r -> same_rows rid C C'.
Proof.
  intros Hdb Hstep Hr Hr'. destruct Hstep
    as [ev sid uid tid q key exp rid' [_ _ Hnew _ (t & iid & ts & ts' & _ & _ & _ & Hiid & ->)] _
    |ev sid uid sids key exp rid' [_ _ Hnew _ _ _ (m' & ts & [Hkept Hadd _] & ->)] _
    |ids [Hids (ts & ts' & ->)] _
    |status rid' Hf [_ (r0 & ts & Hr0 & Hst & Hres) [ti Hi] [tr Hs] _] _]; simpl in *.
  - split; simpl; [|done]. intros k i Hi. apply (fresh_row_other _ ReservationItem_ReservationID rid); [done| |done].
    simpl. congruence.
  - split; simpl; [done|]. intros k s Hs. split; [apply Hkept|]. intros Hk.
    destruct (Hadd k s Hk) as [?|(_ & Hid & _)]; [done|]. congruence.
  - assert (Hnin : rid ∉ ids).
    { intros Hin. destruct (Hids _ Hin) as (r1 & Hr1 & Hst1 & _). assert (r1 = r) as -> by congruence.
      apply update_where_lookup in Hr' as (r2 & Hr2 & Heq). assert (r2 = r) as -> by congruence.
      destruct (reservations_keyed _ Hdb _ _ Hr) as [HID _].
      rewrite HID, !bool_decide_eq_true_2 in Heq by done. simpl in Heq. by rewrite Heq in Hst1. }
    split; simpl; [done|]. intros k s Hs. apply (update_where_other _ _ ReservationSeat_ReservationID rid); [done| |done].
    intros s' [Hsel _]%andb_true_iff. to_prop. congruence.
  - assert (Hne : rid <> rid').
    { intros <-. rewrite Hres, lookup_insert_eq in Hr'. injection Hr' as Heq.
      assert (r0 = r) as -> by congruence. rewrite <- Heq in Hst. by apply (final_not_reserved _ Hf). }
    unfold same_rows. rewrite Hi, Hs. split; intros k x Hx.
    + apply (update_where_other _ _ ReservationItem_ReservationID rid); [done| |done].
      intros i. unfold of_reservation. intros. to_prop. congruence.
    + apply (update_where_other _ _ ReservationSeat_ReservationID rid); [done| |done].
      intros s. unfold rseat_of_reservation. intros. to_prop. congruence.
Qed.

(** A header stays as it is or becomes final. *)
Lemma inventory_step_header rid r C C' :
  schema_ok C -> inventory_step C C' -> reservations C !! rid = Some r ->
  exists r', reservations C' !! rid = Some r' /\ (r' = r \/ Reservation_Status r' <> StatusReserved).
Proof.
  intros Hdb Hstep Hr. destruct Hstep
    as [ev sid uid tid q key exp rid' [_ _ Hnew _ (t & iid & ts & ts' & _ & _ & _ & Hiid & ->)] _
    |ev sid uid sids key exp rid' [_ _ Hnew _ _ _ (m' & ts & [Hkept Hadd _] & ->)] _
    |ids [Hids (ts & ts' & ->)] _
    |status rid' Hf [_ (r0 & ts & Hr0 & Hst & Hres) _ _ _] _]; simpl in *.
  - exists r. split; [by apply lookup_insert_fresh|by left].
  - exists r. split; [by apply lookup_insert_fresh|by left].
  - eexists. split; [apply update_where_lookup; eauto|]. destruct (_ && _); [by right|by left].
  - rewrite Hres, lookup_insert. case_decide; [|eauto]. eexists. split; [done|]. right.
    by apply final_not_reserved.
Qed.

Definition final_at (rid : UUID) (C : Database) (r : Reservation) : Prop :=
  reservations C !! rid = Some r /\ Reservation_Status r <> StatusReserved.

Lemma world_step_final rid r C C' :
  schema_ok C -> world_step C C' -> final_at rid C r -> final_at rid C' r.
Proof.
  intros Hdb Hstep [Hr Hst]. split; [|done]. destruct Hstep as [Hs|Hs|(_ & _ & _ & -> & _) _].
  - by eapply inventory_step_final.
  - by destruct Hs.
  - done.
Qed.

Lemma world_steps_final rid r C C' :
  rtc world_step C C' -> db_inv C -> final_at rid C r -> final_at rid C' r.
Proof.
  induction 1 as [|C C1 C2 Hs _ IH]; [done|]. intros Hinv Hf.
  apply IH; [by eapply world_step_inv|]. eapply world_step_final; [apply Hinv|done..].
Qed.

Lemma world_step_header rid r C C' :
  schema_ok C -> world_step C C' -> reservations C !! rid = Some r ->
  exists r', reservations C' !! rid = Some r' /\ (r' = r \/ Reservation_Status r' <> StatusReserved).
Proof.
  intros Hdb Hstep Hr. destruct Hstep as [Hs|Hs|(_ & _ & _ & -> & _) _]; [|by destruct Hs; eauto|eauto].
  by eapply inventory_step_header.
Qed.

Lemma no_header_no_rows rid C C' :
  schema_ok C -> schema_ok C' -> reservations C !! rid = None -> reservations C' !! rid = None ->
  same_rows rid C C'.
Proof.
  intros Hdb Hdb' Hr Hr'. split; intros k x Hx; split; intros Hk; exfalso.
  - destruct (items_reservation _ Hdb k x Hk) as [y Hy]. congruence.
  - destruct (items_reservation _ Hdb' k x Hk) as [y Hy]. congruence.
  - destruct (rseats_reservation _ Hdb k x Hk) as [y Hy]. congruence.
  - destruct (rseats_reservation _ Hdb' k x Hk) as [y Hy]. congruence.
Qed.

Lemma world_step_rows rid C C' :
  db_inv C -> world_step C C' -> reservations C' !! rid = reservations C !! rid -> same_rows rid C C'.
Proof.
  intros Hinv Hstep Heq. destruct (reservations C !! rid) as [r|] eqn:Hr.
  - destruct Hstep as [Hs|Hs|(_ & _ & _ & _ & Hi & Hs & _) _].
    + eapply inventory_step_rows; [apply Hinv|done..].
    + apply same_rows_eq; by destruct Hs.
    + by apply same_rows_eq.
  - apply no_header_no_rows; [apply Hinv|by eapply inv_schema, world_step_inv|done..].
Qed.

(** However others move on, the rows of a reservation follow its header. *)
Lemma world_steps_rows rid C C' :
  rtc world_step C C' -> db_inv C -> reservations C' !! rid = reservations C !! rid -> same_rows rid C C'.
Proof.
  induction 1 as [C|C C1 C2 Hs Hrest IH]; intros Hinv Heq; [by apply same_rows_eq|].
  pose proof (world_step_inv _ _ Hs Hinv) as Hinv1.
  assert (Hmid : reservations C1 !! rid = reservations C !! rid).
  { destruct (reservations C !! rid) as [r|] eqn:Hr.
    - destruct (world_step_header rid r C C1 (inv_schema _ Hinv) Hs Hr) as (r1 & Hr1 & [->|Hst]); [done|].
      destruct (decide (Reservation_Status r = StatusReserved)) as [Hrs|Hrs].
      + destruct (world_steps_final rid r1 C1 C2 Hrest Hinv1 (conj Hr1 Hst)) as [Hr2 _]. congruence.
      + by apply (world_step_final rid r C C1 (inv_schema _ Hinv) Hs).
    - destruct (world_steps_grow _ _ Hrest) as (_ & _ & _ & _ & _ & Hg & _).
      destruct (reservations C1 !! rid) eqn:H1; [|done].
      destruct (Hg rid) as [y Hy]; [rewrite H1; eauto|]. congruence. }
  eapply same_rows_trans; [by apply world_step_rows|]. apply IH; [done|]. congruence.
Qed.

(** ** Interference *)

(** The committed tables are legal, and so is what a transaction with the
    uncommitted rows [Vs] saw and sees. *)
Definition well_formed (Vs : list Database) (C : Database) : Prop :=
  db_inv C /\ Forall (fun V => schema_ok (overlay V C)) Vs.

(** What others may have committed while a session held [Vs]: legal steps that
    leave the rows of [Vs] alone. *)
Definition later (Vs : list Database) (C C' : Database) : Prop :=
  rtc world_step C C' /\ Forall (fun V => agree V C C') Vs.

Definition rely (Vs : list Database) (C C' : Database) : Prop :=
  later Vs C C' /\ well_formed Vs C'.

Lemma later_refl Vs C : later Vs C C.
Proof. split; [done|]. apply Forall_true. intros V. apply agree_refl. Qed.

Lemma later_trans Vs C1 C2 C3 : later Vs C1 C2 -> later Vs C2 C3 -> later Vs C1 C3.
Proof.
  intros (H1 & HA1) (H2 & HA2). split; [by etrans|]. rewrite Forall_forall in HA1, HA2.
  apply Forall_forall. intros V HV. exact (agree_trans V C1 C2 C3 (HA1 V HV) (HA2 V HV)).
Qed.

Lemma later_subset Vs Vs' C C' : Vs ⊆ Vs' -> later Vs' C C' -> later Vs C C'.
Proof. intros Hsub [H HA]. split; [done|]. rewrite Forall_forall in HA. apply Forall_forall. eauto. Qed.

Lemma well_formed_subset Vs Vs' C : Vs ⊆ Vs' -> well_formed Vs' C -> well_formed Vs C.
Proof. intros Hsub [H HA]. split; [done|]. rewrite Forall_forall in HA. apply Forall_forall. eauto. Qed.

Lemma rely_refl Vs C : well_formed Vs C -> rely Vs C C.
Proof. intros Hwf. split; [apply later_refl|done]. Qed.

Lemma rely_trans Vs C1 C2 C3 : rely Vs C1 C2 -> rely Vs C2 C3 -> rely Vs C1 C3.
Proof. intros [H1 _] [H2 Hwf]. split; [by eapply later_trans|done]. Qed.

(** ** Safe programs *)

(** The transaction after a statement that changed what it sees to [D]. *)
Definition grown_tx (t : Tx) (lk : list row_lock) (C D : Database) : Tx :=
  MkTx (tx_now t) (pend lk (tx_rows t) (overlay (tx_rows t) C) D) (versions t).

(** [Q]: what holds when the program has ended. *)
Fixpoint safe {A} (p : prog A) (Q : res A -> option Tx -> Database -> Prop) (t : option Tx)
    (C : Database) : Prop :=
  match p with
  | Ret x => Q (Ok x) t C
  | Fail e => Q (Err e) t C
  | Panic => Q Panicked t C
  | Now k => forall z, safe (k z) Q t C
  | RandRead n k => forall r, safe (k r) Q t C
  | Sql lk st k => forall C1, rely (held_versions t) C C1 ->
      (forall f, safe (k (inl (fault_error f))) Q t C1) /\
      forall ctx, Valid (ctx_new_id ctx) = true ->
        match st ctx (overlay (open_rows t) C1) with
        | inl e => safe (k (inl e)) Q t C1
        | inr (x, D) =>
            grows (overlay (open_rows t) C1) D /\ schema_ok D /\
            match t with
            | Some t => safe (k (inr x)) Q (Some (grown_tx t (lk x) C1 D)) C1
            | None => rtc world_step C1 D /\ safe (k (inr x)) Q None D
            end
        end
  | Begin k => forall C1, rely (held_versions t) C C1 ->
      (forall f, safe (k (inl (fault_error f))) Q t C1) /\
      match t with
      | Some _ => safe (k (inl nested_begin)) Q t C1
      | None => forall now, safe (k (inr tt)) Q (Some (MkTx now empty_db [])) C1
      end
  | Commit k => forall C1, rely (held_versions t) C C1 ->
      match t with
      | None => safe (k (inl tx_closed)) Q None C1
      | Some t =>
          let D := overlay (tx_rows t) C1 in
          rtc world_step C1 D /\ safe (k (inr tt)) Q None D /\
          forall f, safe (k (inl (fault_error f))) Q None C1 /\ safe (k (inl (fault_error f))) Q None D
      end
  | Rollback k => forall C1, rely (held_versions t) C C1 -> safe k Q None C1
  end.

Lemma safe_rely {A} (p : prog A) Q t C C' :
  (forall r t C C', Q r t C -> rely (held_versions t) C C' -> Q r t C') ->
  safe p Q t C -> rely (held_versions t) C C' -> safe p Q t C'.
Proof.
  intros HQ. revert C C'. induction p as [x|e| |k IH|n k IH|X lk st k IH|k IH|k IH|k IH];
    simpl; intros C C' Hs Hr; eauto; try (intros; by eapply IH);
    intros C1 HC1; apply Hs; by eapply rely_trans.
Qed.

(** The rules below follow by induction on the program: every case passes the
    hypothesis on. *)
Ltac safe_induction p t C :=
  revert t C; induction p as [x|e| |k IH|n k IH|X lk st k IH|k IH|k IH|k IH];
    simpl; intros t C; auto; intros Hs C1 HC1; specialize (Hs C1 HC1);
  [ destruct Hs as [Hf Hs]; split; [auto|]; intros ctx Hv; specialize (Hs ctx Hv);
    destruct (st _ _) as [|[? ?]]; [auto|]; destruct Hs as (? & ? & Hs); split_and!; [done..|];
    destruct t; [auto|]; destruct Hs; auto
  | destruct Hs as [Hf Hs]; split; [auto|]; destruct t; auto
  | destruct t; [|auto]; destruct Hs as (? & ? & Hf); split_and!; auto; intros err; destruct (Hf err); auto ].

Lemma safe_mono {A} (p : prog A) (Q Q' : res A -> option Tx -> Database -> Prop) t C :
  (forall r t C, Q r t C -> Q' r t C) -> safe p Q t C -> safe p Q' t C.
Proof. intros HQ. safe_induction p t C. Qed.

Lemma safe_and {A} (p : prog A) (Q Q' : res A -> option Tx -> Database -> Prop) t C :
  safe p Q t C -> safe p Q' t C -> safe p (fun r t C => Q r t C /\ Q' r t C) t C.
Proof.
  revert t C. induction p as [x|e| |k IH|n k IH|X lk st k IH|k IH|k IH|k IH];
    simpl; intros t C Hs Hs'; auto; intros C1 HC1; specialize (Hs C1 HC1); specialize (Hs' C1 HC1).
  - destruct Hs as [Hf Hs], Hs' as [Hf' Hs']. split; [auto|]. intros ctx Hv.
    specialize (Hs ctx Hv). specialize (Hs' ctx Hv). destruct (st _ _) as [|[? ?]]; [auto|].
    destruct Hs as (? & ? & Hs), Hs' as (_ & _ & Hs'). split_and!; [done..|].
    destruct t; [auto|]. destruct Hs, Hs'. auto.
  - destruct Hs as [Hf Hs], Hs' as [Hf' Hs']. split; [auto|]. destruct t; auto.
  - destruct t; [|auto]. destruct Hs as (? & ? & Hf), Hs' as (_ & ? & Hf'). split_and!; auto.
    intros err. destruct (Hf err), (Hf' err). auto.
Qed.

Lemma safe_bind {A B} (p : prog A) (f : A -> prog B) (Q : res B -> option Tx -> Database -> Prop) t C :
  safe p (fun r t' C' => match r with
                         | Ok x => safe (f x) Q t' C'
                         | Err e => Q (Err e) t' C'
                         | Panicked => Q Panicked t' C'
                         end) t C ->
  safe (bind p f) Q t C.
Proof. safe_induction p t C. Qed.

Lemma safe_catch {A} (p : prog A) (Q : res (res A) -> option Tx -> Database -> Prop) t C :
  safe p (fun r t' C' => Q (Ok r) t' C') t C -> safe (catch p) Q t C.
Proof. safe_induction p t C. Qed.

(** ** Pools of safe programs *)

Section pools.
Context {A : Type}.

(** [Q i]: what holds once the [i]th session has ended. Others cannot undo it. *)
Variable Q : nat -> res A -> option Tx -> Database -> Prop.
Hypothesis Q_stable : forall i r t C C', Q i r t C -> rely (held_versions t) C C' -> Q i r t C'.

(** The tables from which the pool has come. *)
Variable C0 : Database.

Definition holds (P : Pool A) (i : nat) (V : Database) : Prop :=
  exists s, sessions P !! i = Some s /\ V ∈ held_versions (transaction s).

Record pool_ok (P : Pool A) : Prop := {
  po_from : rtc world_step C0 (committed P);
  po_inv : db_inv (committed P);
  po_safe : forall i s, sessions P !! i = Some s -> safe (program s) (Q i) (transaction s) (committed P);
  po_schema : forall i V, holds P i V -> schema_ok (overlay V (committed P));
  po_compatible : forall i j V W, i <> j -> holds P i V -> holds P j W -> compatible V W (committed P);
}.

Lemma elem_of_others i (ss : list (Session A)) V :
  V ∈ others i ss <-> exists j s, j <> i /\ ss !! j = Some s /\ V ∈ held_versions (transaction s).
Proof.
  unfold others. rewrite list_elem_of_In, in_flat_map. split.
  - intros (s & Hs & HV). apply list_elem_of_In in Hs, HV.
    apply elem_of_app in Hs as [Hs|Hs]; apply list_elem_of_lookup in Hs as [j Hj].
    + apply lookup_take_Some in Hj as [Hj Hlt]. exists j, s. split; [lia|done].
    + rewrite lookup_drop in Hj. exists (S i + j)%nat, s. split; [lia|done].
  - intros (j & s & Hne & Hs & HV). exists s. rewrite <- !list_elem_of_In. split; [|done].
    apply elem_of_app. destruct (decide (j < i)%nat).
    + left. apply list_elem_of_lookup. exists j. by apply lookup_take_Some.
    + right. apply list_elem_of_lookup. exists (j - S i)%nat. rewrite lookup_drop.
      by replace (S i + (j - S i))%nat with j by lia.
Qed.

Lemma po_well_formed P i s :
  pool_ok P -> sessions P !! i = Some s -> well_formed (held_versions (transaction s)) (committed P).
Proof.
  intros HP Hi. split; [apply HP|]. apply Forall_forall. intros V HV. apply (po_schema _ HP i).
  by exists s.
Qed.

(** The [i]th session moves on with the tables as they are: it holds what it
    held, less, or more after a test for conflicts. *)
Lemma pool_local n P i s (p : prog A) t :
  pool_ok P -> sessions P !! i = Some s ->
  safe p (Q i) t (committed P) ->
  (forall V, V ∈ held_versions t -> V ∈ held_versions (transaction s) \/
     (schema_ok (overlay V (committed P)) /\
      forall j W, j <> i -> holds P j W -> compatible W V (committed P))) ->
  pool_ok (MkPool (committed P) n (<[i:=MkSession p t]> (sessions P))).
Proof.
  intros HP Hi Hp Ht.
  assert (Hholds : forall j V, holds (MkPool (committed P) n (<[i:=MkSession p t]> (sessions P))) j V ->
    (j <> i /\ holds P j V) \/ (j = i /\ V ∈ held_versions t)).
  { intros j V (s' & Hs' & HV). simpl in Hs'.
    apply list_lookup_insert_Some in Hs' as [(<- & <- & _)|[Hne Hs']]; [by right|left].
    split; [done|]. by exists s'. }
  assert (Hown : forall V, V ∈ held_versions t -> schema_ok (overlay V (committed P)) /\
      forall j W, j <> i -> holds P j W -> compatible W V (committed P)).
  { intros V [HV|HV]%Ht; [|done]. assert (holds P i V) by (by exists s).
    split; [by apply (po_schema _ HP i)|]. intros j W Hne HW. by eapply (po_compatible _ HP j i). }
  split; simpl.
  - apply HP.
  - apply HP.
  - intros j s' Hs'. apply list_lookup_insert_Some in Hs' as [(<- & <- & _)|[_ Hs']]; [done|].
    by apply (po_safe _ HP j).
  - intros j V [[_ HV]|[_ HV]]%Hholds; [by apply (po_schema _ HP j)|by apply Hown].
  - intros j l V W Hne [[Hj HV]|[-> HV]]%Hholds [[Hl HW]|[-> HW]]%Hholds; [| | |done].
    + by apply (po_compatible _ HP j l).
    + by apply (proj2 (Hown W HW) j).
    + apply compatible_sym. by apply (proj2 (Hown V HV) l).
Qed.

(** The [i]th session publishes the rows [W] and goes on without transaction. *)
Lemma pool_publish n P i s (p : prog A) W :
  pool_ok P -> sessions P !! i = Some s ->
  rtc world_step (committed P) (overlay W (committed P)) ->
  schema_ok (overlay W (committed P)) ->
  (forall j V, j <> i -> holds P j V -> compatible V W (committed P)) ->
  safe p (Q i) None (overlay W (committed P)) ->
  pool_ok (MkPool (overlay W (committed P)) n (<[i:=MkSession p None]> (sessions P))).
Proof.
  intros HP Hi Hsteps Hschema Hcomp Hp.
  assert (Hinv : db_inv (overlay W (committed P))) by (eapply world_steps_inv, HP; done).
  assert (Hholds : forall j V, holds (MkPool (overlay W (committed P)) n
    (<[i:=MkSession p None]> (sessions P))) j V -> j <> i /\ holds P j V).
  { intros j V (s' & Hs' & HV). simpl in Hs'.
    apply list_lookup_insert_Some in Hs' as [(_ & <- & _)|[Hne Hs']]; [by apply not_elem_of_nil in HV|].
    split; [done|]. by exists s'. }
  assert (Hsch : forall j V, j <> i -> holds P j V -> schema_ok (overlay V (overlay W (committed P)))).
  { intros j V Hne HV. apply schema_commit; [by apply (po_schema _ HP j)|done|by apply (Hcomp j)]. }
  split; simpl.
  - etrans; [apply HP|done].
  - done.
  - intros j s' Hs'. apply list_lookup_insert_Some in Hs' as [(<- & <- & _)|[Hne Hs']]; [done|].
    eapply safe_rely; [by apply Q_stable|by apply (po_safe _ HP j)|]. split; (split; [done|]).
    + apply Forall_forall. intros V HV. apply disjoint_agree, (Hcomp j); [done|]. by exists s'.
    + apply Forall_forall. intros V HV. apply (Hsch j); [done|]. by exists s'.
  - intros j V [Hne HV]%Hholds. by apply (Hsch j).
  - intros j l V V' Hne [Hj HV]%Hholds [Hl HV']%Hholds. apply compatible_commit.
    + by apply (po_compatible _ HP j l).
    + by apply (Hcomp j).
    + by apply (Hcomp l).
Qed.

Section schedules.
Context `{Env}.

Lemma pool_wait P : pool_ok P -> pool_ok (MkPool (committed P) (S (tick P)) (sessions P)).
Proof. intros [Hf Hi Hs Hv Hc]. by split. Qed.

(** A session that only changed its program, or dropped its transaction. *)
Lemma pool_stays n P i s (p : prog A) t :
  pool_ok P -> sessions P !! i = Some s -> safe p (Q i) t (committed P) ->
  (forall V, V ∈ held_versions t -> V ∈ held_versions (transaction s)) ->
  pool_ok (MkPool (committed P) n (<[i:=MkSession p t]> (sessions P))).
Proof. intros HP Hi Hp Ht. eapply pool_local; eauto. Qed.

Lemma others_holds P i V :
  V ∈ others i (sessions P) <-> exists j, j <> i /\ holds P j V.
Proof.
  rewrite elem_of_others. split.
  - intros (j & s & Hne & Hs & HV). exists j. split; [done|]. by exists s.
  - intros (j & Hne & s & Hs & HV). by exists j, s.
Qed.

Lemma no_conflicts_holds P i W :
  forallb (fun V => no_conflict V W (committed P)) (others i (sessions P)) = true ->
  forall j V, j <> i -> holds P j V -> compatible V W (committed P).
Proof.
  intros Hall j V Hne HV. apply no_conflict_spec.
  refine (proj1 (forallb_forall _ _) Hall V _). apply list_elem_of_In, others_holds. eauto.
Qed.

Lemma compatible_empty V C : schema_ok (overlay V C) -> compatible V empty_db C.
Proof.
  intros Hs. split.
  - unfold disjoint_rows, tables2. simpl. split_and!; apply map_disjoint_empty_r.
  - rewrite overlay_empty. by apply schema_unique.
Qed.

Lemma step_pool_ok i P : pool_ok P -> pool_ok (step_pool i P).
Proof.
  intros HP. unfold step_pool. destruct (sessions P !! i) as [[p t]|] eqn:Hi; [|done]. simpl.
  pose proof (po_safe _ HP i _ Hi) as Hp. simpl in Hp.
  pose proof (rely_refl _ _ (po_well_formed _ _ _ HP Hi)) as Hrefl. simpl in Hrefl.
  destruct p as [x|e| |k|n k|X lk st k|k|k|k]; simpl in *; try by apply pool_wait.
  - eapply pool_stays; eauto.
  - eapply pool_stays; eauto.
  - destruct (Hp _ Hrefl) as [Hf Hs].
    destruct (fault (tick P)) as [f|]; [by eapply pool_stays; eauto|].
    specialize (Hs (session_ctx (tick P) t (others i (sessions P))) eq_refl).
    destruct (st _ _) as [e|[x D]]; [by eapply pool_stays; eauto|].
    destruct Hs as (Hgr & Hsch & Hs). destruct (forallb _ _) eqn:Hall; [|by apply pool_wait].
    pose proof (overlay_pend (lk x) _ _ _ Hgr) as Hpend. pose proof (no_conflicts_holds _ _ _ Hall) as Hc.
    destruct t as [t|]; simpl in *.
    + eapply pool_local; eauto. simpl. intros V [->|HV]%elem_of_cons; [right|by left].
      cbn [tx_rows]. split; [by rewrite Hpend|done].
    + destruct Hs as [Hst Hs]. eapply (pool_publish _ P i); eauto; by rewrite Hpend.
  - destruct (Hp _ Hrefl) as [Hf Hs]. destruct (fault (tick P)) as [f|]; [by eapply pool_stays; eauto|].
    destruct t as [t|]; [by eapply pool_stays; eauto|].
    eapply pool_local; eauto. simpl. intros V ->%list_elem_of_singleton. right.
    rewrite overlay_empty. split; [apply HP|]. intros j W _ HW. apply compatible_empty.
    by apply (po_schema _ HP j).
  - specialize (Hp _ Hrefl). destruct t as [t|]; simpl in *; [|by eapply pool_stays; eauto].
    destruct Hp as (Hst & Hok & Hf).
    assert (Hw : holds P i (tx_rows t)) by (exists (MkSession (Commit k) (Some t)); split; [done|by left]).
    assert (Hpub : forall q : prog A, safe q (Q i) None (overlay (tx_rows t) (committed P)) ->
      pool_ok (MkPool (overlay (tx_rows t) (committed P)) (S (tick P)) (<[i:=MkSession q None]> (sessions P)))).
    { intros q Hq. eapply pool_publish; eauto; [by apply (po_schema _ HP i)|].
      intros j V Hne HV. by apply (po_compatible _ HP j i). }
    destruct (commit_outcome (tick P)) as [|f|f]; [by apply Hpub| |by apply Hpub, Hf].
    eapply (pool_stays _ P i); [done|exact Hi|by apply Hf|]. intros V HV. by apply not_elem_of_nil in HV.
  - eapply (pool_stays _ P i); [done|exact Hi|by apply Hp|]. intros V HV. by apply not_elem_of_nil in HV.
Qed.

Lemma interleave_ok schedule P : pool_ok P -> pool_ok (interleave schedule P).
Proof.
  unfold interleave. revert P. induction schedule as [|i schedule IH]; intros P HP; [done|].
  apply IH. by apply step_pool_ok.
Qed.
End schedules.
End pools.
