(* ===== verification/Serial.v ===== *)
(** * Transactions as if they ran alone

    The callback of a transaction runs while others commit. [iruns] are its
    interleaved runs, [runs] its runs alone. [serial]: an interleaved run that
    returns a value could also have been made alone, at one go, on the tables
    that are committed when the transaction ends, with the same value and the
    same changes, and one that fails on those committed when it fails. What [wp] proves of runs alone then holds of the commit
    ([linearizable_WithTx]), and [isolated_WithTx] makes the operation safe beside
    any others. *)

From S2P Require Import Prelude GoRuntime DbTypes Schema Prog Wp SqlcReservations Inventory SqlcAccounts SqlcEvents Locks Interleaving Isolation.
Local Open Scope string_scope.
Local Open Scope list_scope.
Local Open Scope Z_scope.

(** ** Runs alone *)

(** [p], inside a transaction, can lead from [D] to [D'] with result [r]. *)
Fixpoint runs {A} (p : prog A) (D : Database) (r : res A) (D' : Database) : Prop :=
  match p with
  | Ret x => r = Ok x /\ D' = D
  | Fail e => r = Err e /\ D' = D
  | Panic => r = Panicked /\ D' = D
  | Now k => exists z, runs (k z) D r D'
  | RandRead n k => exists b, length b = n /\ runs (k (inr b)) D r D'
  | Sql lk st k =>
      (exists f, runs (k (inl (fault_error f))) D r D') \/
      exists ctx, Valid (ctx_new_id ctx) = true /\
        match st ctx D with
        | inl e => runs (k (inl e)) D r D'
        | inr (x, D1) => runs (k (inr x)) D1 r D'
        end
  | Begin _ | Commit _ | Rollback _ => False
  end.

Lemma wp_runs {A} (p : prog A) Q D saved r D' :
  wp adversary p Q (D, saved) -> runs p D r D' -> Q r (D', saved).
Proof.
  revert D. induction p as [x|e| |k IH|n k IH|X lk st k IH|k IH|k IH|k IH]; intros D Hw; simpl.
  - by intros [-> ->].
  - by intros [-> ->].
  - by intros [-> ->].
  - intros [z Hr]. eapply IH, Hr. by apply Hw.
  - intros (b & Hb & Hr). eapply IH, Hr. by apply Hw.
  - destruct Hw as [Hf Hs]. intros [[f Hr]|(ctx & Hv & Hr)]; [eapply IH, Hr; by apply Hf|].
    specialize (Hs ctx Hv ltac:(done)). simpl in Hs.
    destruct (st ctx D) as [e|[x D1]]; by eapply IH.
  - done.
  - done.
  - done.
Qed.

(** ** Interleaved runs *)

Fixpoint iruns {A} (p : prog A) (t : Tx) (C : Database) (r : res A) (t' : Tx) (C' : Database) : Prop :=
  match p with
  | Ret x => r = Ok x /\ t' = t /\ C' = C
  | Fail e => r = Err e /\ t' = t /\ C' = C
  | Panic => r = Panicked /\ t' = t /\ C' = C
  | Now k => exists z, iruns (k z) t C r t' C'
  | RandRead n k => exists b, iruns (k b) t C r t' C'
  | Sql lk st k => exists C1, rely (versions t) C C1 /\
      ((exists f, iruns (k (inl (fault_error f))) t C1 r t' C') \/
       exists ctx, Valid (ctx_new_id ctx) = true /\
         match st ctx (overlay (tx_rows t) C1) with
         | inl e => iruns (k (inl e)) t C1 r t' C'
         | inr (x, D) => iruns (k (inr x)) (grown_tx t (lk x) C1 D) C1 r t' C'
         end)
  | Begin _ | Commit _ | Rollback _ => False
  end.

(** The statements of [p] keep the schema and delete nothing, and [p] leaves
    the transaction to its caller. *)
Definition extends {X} (st : stmt X) : Prop :=
  forall ctx D x D', schema_ok D -> Valid (ctx_new_id ctx) = true ->
    st ctx D = inr (x, D') -> grows D D' /\ schema_ok D'.

Fixpoint plain {A} (p : prog A) : Prop :=
  match p with
  | Ret _ | Fail _ | Panic => True
  | Now k => forall z, plain (k z)
  | RandRead n k => forall b, plain (k b)
  | Sql lk st k => extends st /\ forall r, plain (k r)
  | Begin _ | Commit _ | Rollback _ => False
  end.

Lemma plain_bind {A B} (p : prog A) (f : A -> prog B) :
  plain p -> (forall x, plain (f x)) -> plain (bind p f).
Proof.
  intros Hp Hf. induction p as [x|e| |k IH|n k IH|X lk st k IH|k IH|k IH|k IH]; simpl in *; auto.
  destruct Hp. auto.
Qed.

Lemma plain_catch {A} (p : prog A) : plain p -> plain (catch p).
Proof.
  intros Hp. induction p as [x|e| |k IH|n k IH|X lk st k IH|k IH|k IH|k IH]; simpl in *; auto.
  destruct Hp. auto.
Qed.

Lemma plain_try {A} (p : prog A) : plain p -> plain (try p).
Proof. intros Hp. apply plain_bind; [by apply plain_catch|]. by intros []. Qed.

Lemma plain_wrapf {A} text (p : prog A) : plain p -> plain (wrapf text p).
Proof. intros Hp. apply plain_bind; [by apply plain_try|]. by intros []. Qed.

Lemma plain_sql {X} lk (st : stmt X) : extends st -> plain (sql_locking lk st).
Proof. intros Hs. split; [done|]. by intros []. Qed.

Lemma plain_for_each {X S} (l : list X) (body : X -> S -> prog S) s :
  (forall x s, plain (body x s)) -> plain (for_each l body s).
Proof.
  intros Hb. revert s. induction l as [|x l IH]; intros s; [done|]. apply plain_bind; auto.
Qed.

(** An interleaved run moves on and keeps what it holds. *)
Lemma iruns_later {A} (p : prog A) t C r t' C' :
  iruns p t C r t' C' -> later (versions t) C C' /\ versions t ⊆ versions t'.
Proof.
  revert t C. induction p as [x|e| |k IH|n k IH|X lk st k IH|k IH|k IH|k IH]; intros t C; simpl;
    try done; try (intros (_ & -> & ->); split; [apply later_refl|done]).
  - intros [z Hr]. by eapply IH.
  - intros [b Hr]. by eapply IH.
  - intros (C1 & [Hl Hwf] & [[f Hr]|(ctx & Hv & Hr)]).
    + apply IH in Hr as [? ?]. split; [by eapply later_trans|done].
    + destruct (st _ _) as [e|[x D]].
      * apply IH in Hr as [? ?]. split; [by eapply later_trans|done].
      * apply IH in Hr as [Hl1 Hsub].
        assert (Hpast : versions t ⊆ versions (grown_tx t (lk x) C1 D)) by (intros V HV; by right).
        split; [|by etrans]. eapply later_trans; [done|]. by eapply later_subset.
Qed.

Lemma iruns_bind {A B} (p : prog A) (f : A -> prog B) t C r t' C' :
  iruns (bind p f) t C r t' C' ->
  (exists x t1 C1, iruns p t C (Ok x) t1 C1 /\ iruns (f x) t1 C1 r t' C') \/
  (exists e, iruns p t C (Err e) t' C' /\ r = Err e) \/
  (iruns p t C Panicked t' C' /\ r = Panicked).
Proof.
  revert t C. induction p as [x|e| |k IH|n k IH|X lk st k IH|k IH|k IH|k IH]; intros t C; simpl.
  - intros Hr. left. by exists x, t, C.
  - intros (-> & -> & ->). right. left. by exists e.
  - intros (-> & -> & ->). by right; right.
  - intros [z [(x & t1 & C1 & ? & ?)|[(e & ? & ?)|[? ?]]]%IH]; [left|right; left|right; right]; eauto 10.
  - intros [z [(x & t1 & C1 & ? & ?)|[(e & ? & ?)|[? ?]]]%IH]; [left|right; left|right; right]; eauto 10.
  - intros (C0 & Hrel & [[f' Hr]|(ctx & Hv & Hr)]).
    + apply IH in Hr as [(x & t1 & C1 & ? & ?)|[(e & ? & ?)|[? ?]]];
        [left; exists x, t1, C1|right; left; exists e|right; right]; eauto 10.
    + destruct (st _ _) as [e|[x D]] eqn:Hst;
        destruct (IH _ _ _ Hr) as [(y & t1 & C1 & ? & ?)|[(e' & ? & ?)|[? ?]]];
        [left; exists y, t1, C1|right; left; exists e'|right; right
        |left; exists y, t1, C1|right; left; exists e'|right; right];
        (split; [|done]); exists C0; (split; [done|]); right; exists ctx; by rewrite Hst.
  - done.
  - done.
  - done.
Qed.

(** ** Safety of a transaction *)

(** The end of the callback of a transaction. *)
Lemma safe_callback {A} (fn : prog A) (Q : res A -> option Tx -> Database -> Prop) t C :
  plain fn ->
  (forall r t' C', iruns fn t C r t' C' -> Q r (Some t') C') ->
  safe fn Q (Some t) C.
Proof.
  revert t C. induction fn as [x|e| |k IH|n k IH|X lk st k IH|k IH|k IH|k IH]; intros t C Hp HQ;
    simpl in *; try done; try (by apply HQ).
  - intros z. apply IH; [done|]. intros r t' C' Hr. apply HQ. by exists z.
  - intros b. apply IH; [done|]. intros r t' C' Hr. apply HQ. by exists b.
  - destruct Hp as [Hst Hp]. intros C1 Hrel. split.
    + intros f. apply IH; [done|]. intros r t' C' Hr. apply HQ. exists C1. split; [done|]. eauto.
    + intros ctx Hv. destruct (st ctx _) as [e|[x D]] eqn:Heq.
      * apply IH; [done|]. intros r t' C' Hr. apply HQ. exists C1. split; [done|]. right. exists ctx.
        split; [done|]. by rewrite Heq.
      * destruct Hrel as [Hl [Hinv Hwf]]. unfold versions in Hwf. apply Forall_cons in Hwf as [Hsch Hwf].
        destruct (Hst ctx _ _ _ Hsch Hv Heq) as [Hg HD]. split; [done|]. split; [done|].
        apply IH; [done|]. intros r t' C' Hr. apply HQ. exists C1. split; [split; [done|]|].
        { split; [done|]. by apply Forall_cons. }
        right. exists ctx. split; [done|]. by rewrite Heq.
Qed.

(** Programs that are safe to start at any moment. *)
Definition isolated {A} (p : prog A) : Prop :=
  forall C, db_inv C -> safe p (fun _ t C' => t = None /\ db_inv C') None C.

(** ** Operations that take effect at one moment *)

(** An answer is explained by a moment between the start, when the tables were
    [C0], and now: there the specification allows it, and what it says of the
    tables is what has happened. *)
Definition answers_as {A} (spec : A -> Database -> Database -> Prop) (C0 : Database)
    (r : res A) (t : option Tx) (C : Database) : Prop :=
  t = None /\ db_inv C /\ rtc world_step C0 C /\
  forall x, r = Ok x -> exists D D', rtc world_step C0 D /\ spec x D D' /\ rtc world_step D' C.

Definition linearizable {A} (p : prog A) (spec : A -> Database -> Database -> Prop) : Prop :=
  forall C, db_inv C -> safe p (answers_as spec C) None C.

Lemma linearizable_isolated {A} (p : prog A) spec : linearizable p spec -> isolated p.
Proof.
  intros Hp C Hinv. eapply safe_mono; [|by apply Hp]. intros r t C' (Ht & Hinv' & _). done.
Qed.

Lemma answers_as_stable {A} spec C0 (r : res A) t C C' :
  answers_as spec C0 r t C -> rely (held_versions t) C C' -> answers_as spec C0 r t C'.
Proof.
  intros (-> & _ & Hfrom & Hans) [[Hsteps _] [Hinv _]]. split_and!; [done|done|by etrans|].
  intros x Hx. destruct (Hans x Hx) as (D & D' & ? & ? & ?). exists D, D'. split_and!; [done..|by etrans].
Qed.

Lemma answers_as_earlier {A} spec C0 C1 (r : res A) t C :
  rtc world_step C0 C1 -> answers_as spec C1 r t C -> answers_as spec C0 r t C.
Proof.
  intros H01 (-> & Hinv & Hfrom & Hans). split_and!; [done|done|by etrans|].
  intros x Hx. destruct (Hans x Hx) as (D & D' & ? & ? & ?). exists D, D'. split_and!; [by etrans|done..].
Qed.

(** The callback of a transaction: what it commits is legal, and its answer is
    explained between its start and the commit. *)
Definition takes_effect {A} (fn : prog A) (spec : A -> Database -> Database -> Prop) : Prop :=
  forall now C x t' C' C1, db_inv C -> iruns fn (MkTx now empty_db []) C (Ok x) t' C' ->
    rely (versions t') C' C1 ->
    rtc world_step C1 (overlay (tx_rows t') C1) /\
    exists D D', rtc world_step C D /\ spec x D D' /\ rtc world_step D' (overlay (tx_rows t') C1).

Lemma linearizable_WithTx {A} (fn : prog A) spec :
  plain fn -> takes_effect fn spec -> linearizable (WithTx fn) spec.
Proof.
  intros Hp Hc C Hinv. unfold WithTx. apply safe_bind, safe_bind, safe_catch. simpl.
  intros C1 [[H1 _] [Hinv1 _]]. split; [done|]. intros now.
  apply safe_bind, safe_catch, safe_callback; [done|]. intros r t' C' Hr.
  destruct (iruns_later _ _ _ _ _ _ Hr) as [[H2 _] _].
  destruct r as [x|e|]; simpl.
  - intros C2 HC2. destruct (Hc _ _ _ _ _ _ Hinv1 Hr HC2) as [Hst (D & D' & HD & Hspec & HD')].
    destruct HC2 as [[H3 _] [Hinv2 _]]. pose proof (world_steps_inv _ _ Hst Hinv2) as Hinv3.
    assert (H4 : rtc world_step C C2) by (etrans; [exact H1|etrans; [exact H2|exact H3]]).
    split; [done|]. split.
    + split_and!; [done|done|etrans; [exact H4|exact Hst]|]. intros y [= <-]. exists D, D'.
      split_and!; [etrans; [exact H1|exact HD]|done..].
    + intros f. split; intros C3 [[H5 _] [Hinv5 _]]; split_and!; try done;
        (etrans; [exact H4|]); [exact H5|etrans; [exact Hst|exact H5]].
  - intros C2 [[H3 _] [Hinv2 _]]. split_and!; try done. etrans; [exact H1|etrans; [exact H2|exact H3]].
  - intros C2 [[H3 _] [Hinv2 _]]. split_and!; try done. etrans; [exact H1|etrans; [exact H2|exact H3]].
Qed.

Lemma isolated_WithTx {A} (fn : prog A) spec : plain fn -> takes_effect fn spec -> isolated (WithTx fn).
Proof. intros Hp Hc. by eapply linearizable_isolated, linearizable_WithTx. Qed.

(** ** Serial runs *)

(** A success could be at any later moment, an error when it happens. *)
Definition at_moment {A} (r : res A) (C' C1 : Database) : Prop :=
  match r with Ok _ => True | Err _ => C1 = C' | Panicked => False end.

Definition serial {A} (t : Tx) (C : Database) (p : prog A) : Prop :=
  forall r t' C' C1, iruns p t C r t' C' -> at_moment r C' C1 -> rely (versions t') C' C1 ->
    runs p (overlay (tx_rows t) C1) r (overlay (tx_rows t') C1).

Lemma runs_bind {A B} (p : prog A) (f : A -> prog B) D x D1 r D' :
  runs p D (Ok x) D1 -> runs (f x) D1 r D' -> runs (bind p f) D r D'.
Proof.
  revert D. induction p as [y|e| |k IH|n k IH|X lk st k IH|k IH|k IH|k IH]; intros D; simpl; try done.
  - by intros [[= ->] ->].
  - by intros [[=] _].
  - by intros [[=] _].
  - intros [z Hz] Hf. exists z. by eapply IH.
  - intros (b & Hb & Hz) Hf. exists b. split; [done|]. by eapply IH.
  - intros [[e Hz]|(ctx & Hv & Hz)] Hf; [left; exists e; by eapply IH|]. right. exists ctx.
    split; [done|]. destruct (st ctx D) as [e|[y D2]]; by eapply IH.
Qed.

Lemma runs_bind_Err {A B} (p : prog A) (f : A -> prog B) D e D' :
  runs p D (Err e) D' -> runs (bind p f) D (Err e) D'.
Proof.
  revert D. induction p as [y|e'| |k IH|n k IH|X lk st k IH|k IH|k IH|k IH]; intros D; simpl;
    try (by intros [[=] _]); try done.
  - by intros [[= ->] ->].
  - intros [z Hz]. exists z. by apply IH.
  - intros (b & Hb & Hz). exists b. split; [done|]. by apply IH.
  - intros [[f' Hz]|(ctx & Hv & Hz)]; [left; exists f'; by apply IH|]. right. exists ctx.
    split; [done|]. destruct (st ctx D) as [e1|[y D2]]; by apply IH.
Qed.

Lemma rely_earlier {A} (p : prog A) t C r t' C' C1 :
  iruns p t C r t' C' -> rely (versions t') C' C1 -> rely (versions t) C C1.
Proof.
  intros Hr [Hl Hwf]. destruct (iruns_later _ _ _ _ _ _ Hr) as [Hl1 Hsub].
  split; [|by eapply well_formed_subset]. eapply later_trans; [done|]. by eapply later_subset.
Qed.

Lemma serial_bind {A B} t C (p : prog A) (f : A -> prog B) :
  serial t C p -> (forall x t1 C1, iruns p t C (Ok x) t1 C1 -> serial t1 C1 (f x)) ->
  serial t C (bind p f).
Proof.
  intros Hp Hf r t' C' C1 Hr Hm HC1.
  apply iruns_bind in Hr as [(y & t1 & C2 & Hr1 & Hr2)|[(e & Hr1 & ->)|[_ ->]]]; [| |done].
  - eapply runs_bind; [eapply Hp; [exact Hr1|exact I|]|eapply Hf; [exact Hr1|exact Hr2|exact Hm|exact HC1]].
    by eapply rely_earlier.
  - apply runs_bind_Err. exact (Hp _ _ _ _ Hr1 Hm HC1).
Qed.

(** What a transaction sees is well-formed when its callback ends. *)
Lemma iruns_well_formed {A} (p : prog A) t C r t' C' :
  plain p -> well_formed (versions t) C -> iruns p t C r t' C' -> well_formed (versions t') C'.
Proof.
  revert t C. induction p as [x|e| |k IH|n k IH|X lk st k IH|k IH|k IH|k IH]; intros t C Hp Hwf; simpl in *;
    try done; try (by intros (_ & -> & ->)).
  - intros [z Hr]. by eapply IH.
  - intros [b Hr]. by eapply IH.
  - destruct Hp as [Hst Hp]. intros (C1 & [_ Hwf1] & [[f Hr]|(ctx & Hv & Hr)]); [by eapply IH|].
    destruct (st ctx _) as [e|[x D]] eqn:Heq; [by eapply IH|]. eapply IH, Hr; [done|].
    destruct Hwf1 as [Hinv Hall]. split; [done|]. unfold versions at 1. apply Forall_cons. split; [|done].
    unfold versions in Hall. apply Forall_cons in Hall as [Hsch _].
    destruct (Hst ctx _ _ _ Hsch Hv Heq) as [Hg HD]. unfold grown_tx. cbn [tx_rows].
    by rewrite (overlay_pend (lk x) (tx_rows t) C1 D Hg).
Qed.

(** A transaction that is serial, and right when it runs alone, takes effect at
    its commit. *)
Lemma serial_takes_effect {A} (fn : prog A) (spec : A -> Database -> Database -> Prop) :
  (forall t C, serial t C fn) ->
  (forall D, db_inv D -> wp adversary fn (fun r σ => forall x, r = Ok x ->
     spec x D σ.1 /\ rtc world_step D σ.1) (D, Some D)) ->
  takes_effect fn spec.
Proof.
  intros Hser Hwp now C x t' C' C1 Hinv Hr HC1. assert (Hinv1 : db_inv C1) by apply HC1.
  pose proof (Hser _ _ (Ok x) t' C' C1 Hr I HC1) as Hruns. simpl in Hruns. rewrite overlay_empty in Hruns.
  destruct (wp_runs _ _ _ _ _ _ (Hwp C1 Hinv1) Hruns x eq_refl) as [Hspec Hst]. split; [done|].
  exists C1, (overlay (tx_rows t') C1). split_and!; [|done|done].
  destruct (iruns_later _ _ _ _ _ _ Hr) as [[H1 _] _]. etrans; [exact H1|apply HC1].
Qed.

(** ** Errors of operations *)

(** An error of the program's own is explained by a moment as well: there it had
    a reason. *)
Definition refused_as {A} (reason : sentinel -> Database -> Prop) (C0 : Database)
    (r : res A) (t : option Tx) (C : Database) : Prop :=
  rtc world_step C0 C /\
  forall s, r = Err (Sentinel s) -> exists D, rtc world_step C0 D /\ reason s D /\ rtc world_step D C.

Definition refuses {A} (p : prog A) (reason : sentinel -> Database -> Prop) : Prop :=
  forall C, db_inv C -> safe p (refused_as reason C) None C.

Lemma refused_as_stable {A} reason C0 (r : res A) t C C' :
  refused_as reason C0 r t C -> rely (held_versions t) C C' -> refused_as reason C0 r t C'.
Proof.
  intros [Hfrom Hr] [[Hsteps _] _]. split; [by etrans|]. intros s Hs.
  destruct (Hr s Hs) as (D & ? & ? & ?). exists D. split_and!; [done..|by etrans].
Qed.

Lemma refused_as_earlier {A} reason C0 C1 (r : res A) t C :
  rtc world_step C0 C1 -> refused_as reason C1 r t C -> refused_as reason C0 r t C.
Proof.
  intros H01 [Hfrom Hr]. split; [by etrans|]. intros s Hs.
  destruct (Hr s Hs) as (D & ? & ? & ?). exists D. split_and!; [by etrans|done..].
Qed.

(** An error that is not one of the program's own needs no reason. *)
Lemma refused_other {A} reason C0 (r : res A) t C :
  rtc world_step C0 C -> (forall s, r <> Err (Sentinel s)) -> refused_as reason C0 r t C.
Proof. intros Hfrom Hno. split; [done|]. intros s Hs. by destruct (Hno s). Qed.

Lemma refuses_WithTx {A} (fn : prog A) spec reason :
  plain fn -> takes_effect fn spec ->
  (forall now C s t' C', db_inv C -> iruns fn (MkTx now empty_db []) C (Err (Sentinel s)) t' C' ->
     exists D, rtc world_step C D /\ reason s D /\ rtc world_step D C') ->
  refuses (WithTx fn) reason.
Proof.
  intros Hp Heff Hc C Hinv. unfold WithTx. apply safe_bind, safe_bind, safe_catch. simpl.
  intros C1 [[H1 _] [Hinv1 _]]. split; [intros f; by apply refused_other|]. intros now.
  apply safe_bind, safe_catch, safe_callback; [done|]. intros r t' C' Hr.
  destruct (iruns_later _ _ _ _ _ _ Hr) as [[H2 _] _].
  assert (H12 : rtc world_step C C') by (etrans; [exact H1|exact H2]).
  destruct r as [x|e|]; simpl; intros C2 HC2;
    (assert (H13 : rtc world_step C C2) by (etrans; [exact H12|apply HC2])).
  - destruct (Heff _ _ _ _ _ _ Hinv1 Hr HC2) as [Hst _].
    assert (H14 : rtc world_step C (overlay (tx_rows t') C2)) by (etrans; [exact H13|exact Hst]).
    split; [done|]. split; [by apply refused_other|].
    intros f. split; intros C3 [[H5 _] _]; (apply refused_other; [|done]); by (etrans; [|exact H5]).
  - split; [done|]. intros s [= ->].
    destruct (Hc _ _ _ _ _ Hinv1 Hr) as (D & HD & Hs & HD'). exists D.
    split_and!; [etrans; [exact H1|exact HD]|done|etrans; [exact HD'|apply HC2]].
  - by apply refused_other.
Qed.

(** The rest of an operation, started at a later moment. *)
Lemma refuses_later {A} (p : prog A) reason C0 C :
  refuses p reason -> db_inv C -> rtc world_step C0 C -> safe p (refused_as reason C0) None C.
Proof.
  intros Hp Hinv H0. eapply safe_mono; [|by apply Hp]. intros r t C'. by apply refused_as_earlier.
Qed.

Lemma refuses_Fail {A} s reason :
  (forall D, db_inv D -> reason s D) -> refuses (@Fail A (Sentinel s)) reason.
Proof. intros Hs C Hinv. split; [done|]. intros s' [= <-]. exists C. by split_and!; [|apply Hs|]. Qed.

Lemma refuses_map {A B} (p : prog A) (f : A -> B) reason :
  refuses p reason -> refuses (let* x := p in Ret (f x)) reason.
Proof.
  intros Hp C Hinv. apply safe_bind. eapply safe_mono; [|by apply Hp]. intros [x|e|] t C' [Hfrom Hr].
  - by apply refused_other.
  - split; [done|]. intros s [= ->]. by apply Hr.
  - by apply refused_other.
Qed.

(** The error of a serial transaction, judged as when it runs alone. *)
Lemma serial_refusal {A} (fn : prog A) (Q : Database -> res A -> St -> Prop) now C e t' C' :
  plain fn -> serial (MkTx now empty_db []) C fn ->
  (forall D, db_inv D -> wp adversary fn (Q D) (D, Some D)) ->
  db_inv C -> iruns fn (MkTx now empty_db []) C (Err e) t' C' ->
  rtc world_step C C' /\ db_inv C' /\ exists D', Q C' (Err e) (D', Some C').
Proof.
  intros Hp Hser Hwp Hinv Hr.
  assert (Hwf0 : well_formed (versions (MkTx now empty_db [])) C).
  { split; [done|]. apply Forall_singleton. rewrite overlay_empty. apply Hinv. }
  pose proof (iruns_well_formed _ _ _ _ _ _ Hp Hwf0 Hr) as Hwf. assert (Hinv' : db_inv C') by apply Hwf.
  pose proof (Hser (Err e) t' C' C' Hr eq_refl (rely_refl _ _ Hwf)) as Hruns.
  cbn [tx_rows] in Hruns. rewrite overlay_empty in Hruns.
  split; [apply (iruns_later _ _ _ _ _ _ Hr)|]. split; [done|].
  eexists. exact (wp_runs _ _ _ _ _ _ (Hwp C' Hinv') Hruns).
Qed.
