(* ===== verification/Steady.v ===== *)
(** * Statements that would do the same later

    A statement is [steady] if, after it has locked what it locks, others cannot
    change what it saw: executed on the tables that are committed at the end of
    the transaction it gives the same answer and the same rows. The statements of
    the reservation service are steady, some on account of an earlier lock on the
    header of the reservation. *)

From S2P Require Import Prelude GoRuntime DbTypes Schema Prog Wp SqlcReservations Inventory SqlcAccounts SqlcEvents Locks Interleaving Isolation Serial.
Local Open Scope string_scope.
Local Open Scope list_scope.
Local Open Scope Z_scope.

(** ** Effects on rows *)

(** What a statement does to the row of each key. *)
Record effect := MkEffect {
  on_event : UUID -> option Event -> option Event;
  on_ticket : UUID -> option TicketType -> option TicketType;
  on_seat : UUID -> option Seat -> option Seat;
  on_reservation : UUID -> option Reservation -> option Reservation;
  on_item : UUID -> option ReservationItem -> option ReservationItem;
  on_rseat : UUID -> option ReservationSeat -> option ReservationSeat;
}.

Definition keep {V} (_ : UUID) (o : option V) : option V := o.
Definition put {V} (id : UUID) (row : V) (k : UUID) (o : option V) : option V :=
  if k ==? id then Some row else o.
Definition change {V} (sel : V -> bool) (upd : V -> V) (_ : UUID) (o : option V) : option V :=
  (fun r => if sel r then upd r else r) <$> o.

Definition acts_table {V} (g : UUID -> option V -> option V) (m m' : gmap UUID V) : Prop :=
  forall k, m' !! k = g k (m !! k).

Definition acts (g : effect) (D D' : Database) : Prop :=
  users D' = users D /\ visitor_sessions D' = visitor_sessions D /\
  acts_table (on_event g) (events D) (events D') /\
  acts_table (on_ticket g) (ticket_types D) (ticket_types D') /\
  acts_table (on_seat g) (seats D) (seats D') /\
  acts_table (on_reservation g) (reservations D) (reservations D') /\
  acts_table (on_item g) (reservation_items D) (reservation_items D') /\
  acts_table (on_rseat g) (reservation_seats D) (reservation_seats D').

Lemma acts_unique g D D1 D2 : acts g D D1 -> acts g D D2 -> D1 = D2.
Proof.
  intros (H1&H2&H3&H4&H5&H6&H7&H8) (K1&K2&K3&K4&K5&K6&K7&K8).
  destruct D1, D2; simpl in *. f_equal; try congruence;
    apply map_eq; intros k; by rewrite ?H3, ?H4, ?H5, ?H6, ?H7, ?H8, ?K3, ?K4, ?K5, ?K6, ?K7, ?K8.
Qed.

Lemma acts_put {V} id row (m : gmap UUID V) : acts_table (put id row) m (<[id:=row]> m).
Proof. intros k. unfold put. rewrite lookup_insert. repeat case_decide; case_bool_decide; congruence. Qed.

Lemma acts_change {V} sel upd (m : gmap UUID V) : acts_table (change sel upd) m (update_where sel upd m).
Proof. intros k. unfold update_where. by rewrite lookup_fmap. Qed.

Lemma acts_keep {V} (m : gmap UUID V) : acts_table keep m m.
Proof. by intros k. Qed.

Create HintDb acts.
#[export] Hint Resolve acts_put acts_change acts_keep : acts.

(** The side condition on the rows that are not pending: the statement would
    leave them alone. *)
Definition spares (g : effect) (W C : Database) : Prop :=
  (forall k, events W !! k = None -> on_event g k (events C !! k) = events C !! k) /\
  (forall k, ticket_types W !! k = None -> on_ticket g k (ticket_types C !! k) = ticket_types C !! k) /\
  (forall k, seats W !! k = None -> on_seat g k (seats C !! k) = seats C !! k) /\
  (forall k, reservations W !! k = None -> on_reservation g k (reservations C !! k) = reservations C !! k) /\
  (forall k, reservation_items W !! k = None -> on_item g k (reservation_items C !! k) = reservation_items C !! k) /\
  (forall k, reservation_seats W !! k = None -> on_rseat g k (reservation_seats C !! k) = reservation_seats C !! k).

Lemma kept_later {V} `{EqDecision V} locked (W C C' D' : gmap UUID V) :
  D' = W ∪ C -> agree_table (pend_table locked W (W ∪ C) D') C C' ->
  pend_table locked W (W ∪ C) D' ∪ C' = W ∪ C'.
Proof.
  intros -> Ha. apply map_eq. intros k.
  apply (overlay_pend_later keep); [done|apply grows_table_refl|done|done].
Qed.

(** The statement does to the tables of a later moment what it did. *)
Lemma acts_later g lk W C C' D' :
  acts g (overlay W C) D' -> grows (overlay W C) D' ->
  agree (pend lk W (overlay W C) D') C C' ->
  spares g (pend lk W (overlay W C) D') C' ->
  acts g (overlay W C') (overlay (pend lk W (overlay W C) D') C').
Proof.
  intros (H1&H2&H3&H4&H5&H6&H7&H8) (G1&G2&G3&G4&G5&G6&G7&G8) (A1&A2&A3&A4&A5&A6&A7&A8) (S1&S2&S3&S4&S5&S6).
  unfold acts. simpl in *. split_and!; try (by apply kept_later); intros k.
  - by apply (overlay_pend_later (on_event g)).
  - by apply (overlay_pend_later (on_ticket g)).
  - by apply (overlay_pend_later (on_seat g)).
  - by apply (overlay_pend_later (on_reservation g)).
  - by apply (overlay_pend_later (on_item g)).
  - by apply (overlay_pend_later (on_rseat g)).
Qed.

(** ** Steady statements *)

(** A transaction at a moment of its life. *)
Definition steady {X} (lk : X -> list row_lock) (st : stmt X) (t : Tx) (C : Database) : Prop :=
  forall ctx x D C1, well_formed (versions t) C -> Valid (ctx_new_id ctx) = true ->
    st ctx (overlay (tx_rows t) C) = inr (x, D) ->
    rely (versions (grown_tx t (lk x) C D)) C C1 ->
    exists ctx', Valid (ctx_new_id ctx') = true /\
      st ctx' (overlay (tx_rows t) C1) = inr (x, overlay (tx_rows (grown_tx t (lk x) C D)) C1).

Lemma iruns_try_sql {X B} lk (st : stmt X) (f : error + X -> prog B) t C r t' C' :
  iruns (bind (try (sql_locking lk st)) f) t C r t' C' ->
  exists C1, rely (versions t) C C1 /\
    ((exists e, iruns (f (inl e)) t C1 r t' C') \/
     exists ctx x D, Valid (ctx_new_id ctx) = true /\ st ctx (overlay (tx_rows t) C1) = inr (x, D) /\
       iruns (f (inr x)) (grown_tx t (lk x) C1 D) C1 r t' C').
Proof.
  intros (C1 & HC1 & Hr). exists C1. split; [done|].
  destruct Hr as [[e Hr]|(ctx & Hv & Hr)]; [left; by exists (fault_error e)|].
  destruct (st ctx _) as [e|[x D]] eqn:Hst; [left; by exists e|right]. by exists ctx, x, D.
Qed.

Lemma iruns_wrapf_sql {X} text lk (st : stmt X) t C x t' C' :
  iruns (wrapf text (sql_locking lk st)) t C (Ok x) t' C' ->
  rely (versions t) C C' /\ exists ctx D, Valid (ctx_new_id ctx) = true /\
    st ctx (overlay (tx_rows t) C') = inr (x, D) /\ t' = grown_tx t (lk x) C' D.
Proof.
  intros (C1 & HC1 & [(e & He)|(ctx & D & y & Hv & Hst & Hr)])%iruns_try_sql; [by destruct He|].
  destruct Hr as ([= ->] & -> & ->). split; [done|]. by exists ctx, y.
Qed.

Lemma runs_try_sql {X B} lk (st : stmt X) (f : error + X -> prog B) ctx x D D1 r D' :
  Valid (ctx_new_id ctx) = true -> st ctx D = inr (x, D1) -> runs (f (inr x)) D1 r D' ->
  runs (bind (try (sql_locking lk st)) f) D r D'.
Proof. intros Hv Hst Hr. right. exists ctx. split; [done|]. by rewrite Hst. Qed.

Lemma runs_try_sql_fails {X B} lk (st : stmt X) (f : error + X -> prog B) ctx e D r D' :
  Valid (ctx_new_id ctx) = true -> st ctx D = inl e -> runs (f (inl e)) D r D' ->
  runs (bind (try (sql_locking lk st)) f) D r D'.
Proof. intros Hv Hst Hr. right. exists ctx. split; [done|]. by rewrite Hst. Qed.

Lemma runs_wrapf_sql {X} text lk (st : stmt X) ctx x D D1 :
  Valid (ctx_new_id ctx) = true -> st ctx D = inr (x, D1) ->
  runs (wrapf text (sql_locking lk st)) D (Ok x) D1.
Proof. intros Hv Hst. eapply runs_try_sql; [done|exact Hst|done]. Qed.

(** *** The rules of serial runs for a statement whose failure is the end of
    the transaction. *)

Definition gives_up {A} (p : prog A) : Prop := exists e, p = Fail e.

Lemma gives_up_Fail {A} e : gives_up (@Fail A e).
Proof. by exists e. Qed.

Lemma serial_Ret {A} t C (x : A) : serial t C (Ret x).
Proof. intros r t' C' C1 (-> & -> & ->) _ _. done. Qed.

Lemma serial_Fail {A} t C e : serial t C (@Fail A e).
Proof. intros r t' C' C1 (-> & -> & ->) _ _. done. Qed.

Lemma serial_Now {A} t C (k : Z -> prog A) : (forall z, serial t C (k z)) -> serial t C (Now k).
Proof. intros Hk r t' C' C1 [z Hr] Hm HC1. exists z. by eapply Hk. Qed.

Lemma serial_try_sql {X B} lk (st : stmt X) (f : error + X -> prog B) t C :
  (forall e, gives_up (f (inl e))) ->
  (forall C1, rely (versions t) C C1 -> steady lk st t C1 /\
     forall ctx x D, Valid (ctx_new_id ctx) = true -> st ctx (overlay (tx_rows t) C1) = inr (x, D) ->
       serial (grown_tx t (lk x) C1 D) C1 (f (inr x))) ->
  serial t C (bind (try (sql_locking lk st)) f).
Proof.
  intros Hn Hk r t' C' C2 (C1 & HC1 & Hr) Hm HC2.
  assert (Hfails : forall e, iruns (f (inl e)) t C1 r t' C' ->
    t' = t /\ C2 = C1 /\ forall D, runs (f (inl e)) D r D).
  { intros e. destruct (Hn e) as [e' ->]. intros (-> & -> & ->). by rewrite Hm. }
  destruct Hr as [[e He]|(ctx & Hv & Hr)].
  { destruct (Hfails _ He) as (-> & -> & Hruns). left. exists e. apply Hruns. }
  destruct (st ctx _) as [e|[y D]] eqn:Hst.
  { destruct (Hfails _ Hr) as (-> & -> & Hruns). right. exists ctx. split; [done|]. rewrite Hst. apply Hruns. }
  destruct (Hk C1 HC1) as [Hsteady Hser].
  destruct (Hsteady ctx y D C2) as (ctx' & Hv' & Hst'); [apply HC1|done|done| |].
  { by eapply (rely_earlier (f (inr y))). }
  eapply runs_try_sql; [exact Hv'|exact Hst'|]. exact (Hser ctx y D Hv Hst r t' C' C2 Hr Hm HC2).
Qed.

Lemma serial_wrapf_sql {X} text lk (st : stmt X) t C :
  (forall C1, rely (versions t) C C1 -> steady lk st t C1) ->
  serial t C (wrapf text (sql_locking lk st)).
Proof.
  intros Hs. apply serial_try_sql; [intros e; apply gives_up_Fail|]. intros C1 HC1. split; [by apply Hs|].
  intros. apply serial_Ret.
Qed.

Lemma serial_sql {X} lk (st : stmt X) t C :
  (forall C1, rely (versions t) C C1 -> steady lk st t C1) -> serial t C (sql_locking lk st).
Proof.
  intros Hs r t' C' C2 (C1 & HC1 & Hr) Hm HC2. destruct Hr as [[f (-> & -> & ->)]|(ctx & Hv & Hr)].
  { left. by exists f. }
  destruct (st ctx _) as [e|[y D]] eqn:Hst; destruct Hr as (-> & -> & ->).
  - right. exists ctx. split; [done|]. by rewrite Hm, Hst.
  - destruct (Hs C1 HC1 ctx y D C2 (proj2 HC1) Hv Hst HC2) as (ctx' & Hv' & Hst').
    right. exists ctx'. split; [done|]. by rewrite Hst'.
Qed.

(** ** Facts about the later moment *)

Lemma grown_rely t lk C D C1 :
  rely (versions (grown_tx t lk C D)) C C1 ->
  agree (tx_rows (grown_tx t lk C D)) C C1 /\ schema_ok (overlay (tx_rows (grown_tx t lk C D)) C1) /\
  rely (versions t) C C1.
Proof.
  intros [[Hst HA] [Hinv Hwf]]. unfold versions at 1 in HA. unfold versions at 1 in Hwf.
  apply Forall_cons in HA as [Ha HA], Hwf as [Hw Hwf]. split; [done|]. split; [done|]. by split.
Qed.

Lemma well_formed_seen t C : well_formed (versions t) C -> schema_ok (overlay (tx_rows t) C).
Proof. intros [_ Hwf]. unfold versions in Hwf. by apply Forall_cons in Hwf as [? _]. Qed.

(** A row that the transaction holds does not change under it. *)
Lemma agree_lookup {V} (W C C1 : gmap UUID V) k :
  agree_table W C C1 -> is_Some (W !! k) -> (W ∪ C1) !! k = (W ∪ C) !! k.
Proof. intros Ha [w Hk]. rewrite !lookup_union, Hk. specialize (Ha k). rewrite Hk in Ha. by rewrite Ha. Qed.

(** The row [k] as the transaction saw it before it came to hold it. *)
Lemma grown_lookup {V} `{EqDecision V} locked (W C C1 D' : gmap UUID V) k :
  agree_table (pend_table locked W (W ∪ C) D') C C1 -> is_Some (pend_table locked W (W ∪ C) D' !! k) ->
  (W ∪ C1) !! k = (W ∪ C) !! k.
Proof.
  intros Ha Hk. rewrite !lookup_union. by rewrite (Ha k Hk).
Qed.

Lemma put_spares {V} id (row : V) (W C : gmap UUID V) :
  is_Some (W !! id) -> forall k, W !! k = None -> put id row k (C !! k) = C !! k.
Proof. intros [w Hw] k Hk. unfold put. case_bool_decide; [subst; congruence|done]. Qed.

(** ** Updates of one row *)

Lemma update_ticket_type_inv ID where_ok set db row D :
  update_ticket_type ID where_ok set db = inr (row, D) <->
  exists t t', ticket_types db !! ID = Some t /\ where_ok t = inr true /\ set t = inr t' /\
    ck_ticket_type t' = inr tt /\ row = ticket_row t' /\
    D = set_ticket_types (<[ID:=t']> (ticket_types db)) db.
Proof.
  unfold update_ticket_type. split.
  - destruct (ticket_types db !! ID) as [t|]; [|done]. intros H. exists t.
    destruct (where_ok t) as [e|[]]; try done. simpl in H. destruct (set t) as [e|t']; [done|].
    exists t'. destruct (ck_ticket_type t') as [e|[]]; [done|]. by simplify_eq.
  - intros (t & t' & -> & -> & Hset & Hck & -> & ->). simpl. by rewrite Hset, Hck.
Qed.

(** SET changes the counters of a ticket type and nothing else. *)
Definition sets_counters (set : TicketType -> error + TicketType) : Prop :=
  forall t t', set t = inr t' -> exists sold reserved ts, t' = with_counters sold reserved ts t.

Lemma update_ticket_type_extends ID where_ok (set : sctx -> TicketType -> error + TicketType) :
  (forall ctx, sets_counters (set ctx)) -> extends (fun ctx => update_ticket_type ID where_ok (set ctx)).
Proof.
  intros Hset ctx D x D' Hdb _ (t & t' & Ht & _ & Hs & Hck & -> & ->)%update_ticket_type_inv. split.
  - unfold grows, tables2. simpl. split_and!; auto with schema.
  - destruct (Hset ctx t t' Hs) as (sold & reserved & ts & ->).
    apply ck_ticket_type_spec in Hck as (H1 & H2 & H3).
    + by apply (set_counters_schema D ID t).
    + exact (tickets_int4 _ Hdb ID t Ht).
Qed.

Lemma acts_events D m g : acts_table g (events D) m ->
  acts (MkEffect g keep keep keep keep keep) D (set_events m D).
Proof. intros Hm. unfold acts. simpl. split_and!; auto with acts. Qed.

Lemma acts_seats D m g : acts_table g (seats D) m ->
  acts (MkEffect keep keep g keep keep keep) D (set_seats m D).
Proof. intros Hm. unfold acts. simpl. split_and!; auto with acts. Qed.

Lemma acts_tickets D m g : acts_table g (ticket_types D) m ->
  acts (MkEffect keep g keep keep keep keep) D (set_ticket_types m D).
Proof. intros Hm. unfold acts. simpl. split_and!; auto with acts. Qed.

Lemma acts_reservations D m g : acts_table g (reservations D) m ->
  acts (MkEffect keep keep keep g keep keep) D (set_reservations m D).
Proof. intros Hm. unfold acts. simpl. split_and!; auto with acts. Qed.

Lemma acts_items D m g : acts_table g (reservation_items D) m ->
  acts (MkEffect keep keep keep keep g keep) D (set_reservation_items m D).
Proof. intros Hm. unfold acts. simpl. split_and!; auto with acts. Qed.

Lemma acts_rseats D m g : acts_table g (reservation_seats D) m ->
  acts (MkEffect keep keep keep keep keep g) D (set_reservation_seats m D).
Proof. intros Hm. unfold acts. simpl. split_and!; auto with acts. Qed.

Definition nothing : effect := MkEffect keep keep keep keep keep keep.

Lemma acts_nothing D : acts nothing D D.
Proof. unfold acts. simpl. split_and!; auto with acts. Qed.

Lemma spares_nothing W C : spares nothing W C.
Proof. by unfold spares. Qed.

Lemma update_ticket_type_steady ID where_ok (set : sctx -> TicketType -> error + TicketType) t C :
  (forall ctx, sets_counters (set ctx)) ->
  steady locks_ticket (fun ctx => update_ticket_type ID where_ok (set ctx)) t C.
Proof.
  intros Hset ctx x D C1 Hwf Hv Hst HC1. exists ctx. split; [done|]. cbv beta in *.
  pose proof (well_formed_seen _ _ Hwf) as Hsch.
  destruct (update_ticket_type_extends ID where_ok set Hset ctx _ _ _ Hsch Hv Hst) as [Hg _].
  apply update_ticket_type_inv in Hst as (u & u' & Hu & Hok & Hs & Hck & -> & ->).
  destruct (grown_rely _ _ _ _ _ HC1) as (Ha & _ & _).
  set (W' := tx_rows (grown_tx _ _ _ _)) in *.
  assert (HW : is_Some (ticket_types W' !! ID)).
  { eexists. apply pend_locked; [|apply lookup_insert_eq].
    apply bool_decide_eq_true_2. unfold locks_ticket. simpl.
    destruct (Hset ctx u u' Hs) as (sold & reserved & ts & ->). simpl.
    destruct (tickets_keyed _ Hsch ID u Hu) as [-> _]. set_solver. }
  assert (Hu1 : ticket_types (overlay (tx_rows t) C1) !! ID = Some u).
  { rewrite <- Hu. eapply grown_lookup; [apply Ha|exact HW]. }
  apply update_ticket_type_inv. exists u, u'. split_and!; auto.
  eapply acts_unique; [|by apply acts_tickets, acts_put].
  eapply acts_later; [by apply acts_tickets, acts_put|done|done|].
  unfold spares. simpl. split_and!; try done. by apply put_spares.
Qed.

Lemma reserve_sets q ctx : sets_counters ((fun (_ : sctx) t =>
  match int4 (TicketType_ReservedQuantity t + q) with
  | inl err => inl err
  | inr reserved => inr (with_counters (TicketType_SoldQuantity t) reserved (TicketType_UpdatedAt t) t)
  end) ctx).
Proof. intros t t'. destruct (int4 _); [done|]. intros [= <-]. eauto. Qed.

Lemma release_sets q ctx : sets_counters ((fun ctx t =>
  match int4 (TicketType_ReservedQuantity t - q) with
  | inl err => inl err
  | inr reserved => inr (with_counters (TicketType_SoldQuantity t) reserved (ctx_now ctx) t)
  end) ctx).
Proof. intros t t'. destruct (int4 _); [done|]. intros [= <-]. eauto. Qed.

Lemma confirm_sets q ctx : sets_counters ((fun ctx t =>
  match int4 (TicketType_ReservedQuantity t - q) with
  | inl err => inl err
  | inr reserved =>
      match int4 (TicketType_SoldQuantity t + q) with
      | inl err => inl err
      | inr sold => inr (with_counters sold reserved (ctx_now ctx) t)
      end
  end) ctx).
Proof. intros t t'. destruct (int4 _); [done|]. destruct (int4 _); [done|]. intros [= <-]. eauto. Qed.

Lemma ReserveTicketQuantity_steady ID ev q t C : steady locks_ticket (ReserveTicketQuantity ID ev q) t C.
Proof. exact (update_ticket_type_steady ID _ _ t C (reserve_sets q)). Qed.
Lemma ReleaseTicketQuantity_steady ID q t C : steady locks_ticket (ReleaseTicketQuantity ID q) t C.
Proof. exact (update_ticket_type_steady ID _ _ t C (release_sets q)). Qed.
Lemma ConfirmTicketQuantity_steady ID q t C : steady locks_ticket (ConfirmTicketQuantity ID q) t C.
Proof. exact (update_ticket_type_steady ID _ _ t C (confirm_sets q)). Qed.
Lemma ReserveTicketQuantity_extends ID ev q : extends (ReserveTicketQuantity ID ev q).
Proof. exact (update_ticket_type_extends ID _ _ (reserve_sets q)). Qed.
Lemma ReleaseTicketQuantity_extends ID q : extends (ReleaseTicketQuantity ID q).
Proof. exact (update_ticket_type_extends ID _ _ (release_sets q)). Qed.
Lemma ConfirmTicketQuantity_extends ID q : extends (ConfirmTicketQuantity ID q).
Proof. exact (update_ticket_type_extends ID _ _ (confirm_sets q)). Qed.

Lemma reading_inv {X} (f : Database -> error + X) ctx db x D :
  reading f ctx db = inr (x, D) <-> f db = inr x /\ D = db.
Proof.
  unfold reading. destruct (f db) as [e|y]; split.
  - done.
  - by intros [? ?].
  - by intros [= -> ->].
  - by intros [[= ->] ->].
Qed.

Lemma reading_extends {X} (f : Database -> error + X) : extends (reading f).
Proof. intros ctx D x D' Hdb _ [_ ->]%reading_inv. split; [apply grows_refl|done]. Qed.

(** What a reading statement leaves of the tables it locks rows of. *)
Lemma locked_later lk t C C1 :
  agree (tx_rows (grown_tx t lk C (overlay (tx_rows t) C))) C C1 ->
  overlay (tx_rows (grown_tx t lk C (overlay (tx_rows t) C))) C1 = overlay (tx_rows t) C1.
Proof.
  intros Ha. eapply acts_unique; [|apply acts_nothing].
  eapply acts_later; [apply acts_nothing|apply grows_refl|done|apply spares_nothing].
Qed.

Lemma reading_steady {X} lk (f : Database -> error + X) t C :
  (forall x C1, well_formed (versions t) C -> f (overlay (tx_rows t) C) = inr x ->
     rely (versions (grown_tx t (lk x) C (overlay (tx_rows t) C))) C C1 ->
     f (overlay (tx_rows t) C1) = inr x) ->
  steady lk (reading f) t C.
Proof.
  intros Hf ctx x D C1 Hwf Hv [Hx ->]%reading_inv HC1. exists ctx. split; [done|].
  destruct (grown_rely _ _ _ _ _ HC1) as (Ha & _ & _). apply reading_inv.
  split; [by apply Hf|by apply locked_later].
Qed.

Lemma LockReservationForUpdate_steady rid t C : steady locks_reservation (LockReservationForUpdate rid) t C.
Proof.
  apply reading_steady. intros r C1 Hwf Hr HC1.
  destruct (grown_rely _ _ _ _ _ HC1) as (Ha & _ & _).
  destruct (reservations (overlay _ C) !! rid) as [r'|] eqn:Hrid; [|done]. injection Hr as ->.
  destruct (reservations_keyed _ (well_formed_seen _ _ Hwf) _ _ Hrid) as [HID _].
  assert (Heq : reservations (overlay (tx_rows t) C1) !! rid = Some r); [|by rewrite Heq].
  rewrite <- Hrid. eapply grown_lookup; [apply Ha|]. eexists. apply pend_locked; [|exact Hrid].
  apply bool_decide_eq_true_2. unfold locks_reservation. rewrite HID. set_solver.
Qed.

Lemma UpdateReservationStatus_inv ID st ctx db r' D :
  UpdateReservationStatus ID st ctx db = inr (r', D) <->
  exists r, reservations db !! ID = Some r /\ ck_status st = true /\
    r' = with_reservation_status st (ctx_now ctx) r /\
    D = set_reservations (<[ID:=r']> (reservations db)) db.
Proof.
  unfold UpdateReservationStatus. split.
  - destruct (reservations db !! ID) as [r|]; [|done]. destruct (ck_status st); [|done].
    intros [= <- <-]. eauto.
  - intros (r & -> & -> & -> & ->). done.
Qed.

Lemma UpdateReservationStatus_extends ID st : extends (UpdateReservationStatus ID st).
Proof.
  intros ctx D r' D' Hdb _ Hst. pose proof Hst as (r & _ & Hck & _ & ->)%UpdateReservationStatus_inv.
  pose proof (UpdateReservationStatus_ok ctx D ID st Hdb Hck) as Hok. rewrite Hst in Hok.
  destruct Hok as (_ & _ & _ & _ & Hs). split; [|done].
  unfold grows, tables2. simpl. split_and!; auto with schema.
Qed.

Lemma UpdateReservationStatus_steady ID st t C :
  steady locks_reservation (UpdateReservationStatus ID st) t C.
Proof.
  intros ctx x D C1 Hwf Hv Hst HC1. exists ctx. split; [done|].
  pose proof (well_formed_seen _ _ Hwf) as Hsch.
  destruct (UpdateReservationStatus_extends ID st ctx _ _ _ Hsch Hv Hst) as [Hg _].
  apply UpdateReservationStatus_inv in Hst as (r & Hr & Hck & -> & ->).
  destruct (grown_rely _ _ _ _ _ HC1) as (Ha & _ & _).
  set (W' := tx_rows (grown_tx _ _ _ _)) in *.
  assert (HW : is_Some (reservations W' !! ID)).
  { eexists. apply pend_locked; [|apply lookup_insert_eq].
    apply bool_decide_eq_true_2. unfold locks_reservation. simpl.
    destruct (reservations_keyed _ Hsch ID r Hr) as [-> _]. set_solver. }
  assert (Hr1 : reservations (overlay (tx_rows t) C1) !! ID = Some r).
  { rewrite <- Hr. eapply grown_lookup; [apply Ha|exact HW]. }
  apply UpdateReservationStatus_inv. exists r. split_and!; auto.
  eapply acts_unique; [|by apply acts_reservations, acts_put].
  eapply acts_later; [by apply acts_reservations, acts_put|done|done|].
  unfold spares. simpl. split_and!; try done. by apply put_spares.
Qed.

(** ** Inserts *)

Lemma insert_row_inv {V} (m : gmap UUID V) id row check uniq fk m' :
  insert_row m id row check uniq fk = inr m' <->
  check = true /\ m !! id = None /\ uniq = true /\ fk = true /\ m' = <[id:=row]> m.
Proof.
  unfold insert_row. split.
  - destruct check; [|done]. destruct (m !! id); [done|]. destruct uniq; [|done]. destruct fk; [|done].
    simpl. by intros [= <-].
  - by intros (-> & -> & -> & -> & ->).
Qed.

Lemma overlay_grows W C C1 : grows C C1 -> grows (overlay W C) (overlay W C1).
Proof.
  intros (?&?&?&?&?&?&?&?). unfold grows, tables2. simpl.
  split_and!; intros k; rewrite !lookup_union; intros Hk;
    (match goal with |- is_Some (union ?w _) => destruct w; [eexists; by rewrite union_Some_l|] end);
    rewrite (left_id None union) in *; eauto.
Qed.

Lemma has_row_grows {V} (m m' : gmap UUID V) id :
  grows_table m m' -> has_row m id = true -> has_row m' id = true.
Proof. intros Hg. rewrite !has_row_spec. apply Hg. Qed.

Lemma rely_sees W Vs C C1 : rely Vs C C1 -> grows (overlay W C) (overlay W C1).
Proof. intros [[Hst _] _]. by apply overlay_grows, world_steps_grow. Qed.

Section inserts.
Context `{Pgtype}.

Lemma CreateReservation_inv ev sid uid st ty key exp ctx db row D :
  CreateReservation ev sid uid st ty key exp ctx db = inr (row, D) <->
  row = new_reservation ctx ev sid uid st ty key exp /\
  (ck_status st && ck_reservation_type ty) = true /\ reservations db !! ctx_new_id ctx = None /\
  session_key_free sid key (reservations db) = true /\
  (has_row (events db) ev && has_row (visitor_sessions db) sid &&
    (negb (Valid uid) || has_row (users db) uid)) = true /\
  D = set_reservations (<[ctx_new_id ctx:=row]> (reservations db)) db.
Proof.
  unfold CreateReservation. split.
  - destruct (insert_row _ _ _ _ _ _) as [e|m] eqn:Hins; [done|]. intros [= <- <-].
    apply insert_row_inv in Hins as (? & ? & ? & ? & ->). done.
  - intros (-> & Hck & Hid & Hu & Hfk & ->).
    by rewrite (proj2 (insert_row_inv _ _ _ _ _ _ _) (conj Hck (conj Hid (conj Hu (conj Hfk eq_refl))))).
Qed.

Lemma CreateReservation_extends ev sid uid st ty key exp :
  extends (CreateReservation ev sid uid st ty key exp).
Proof.
  intros ctx D row D' Hdb Hv Hst.
  pose proof Hst as (_ & [Hck Hty]%andb_true_iff & _ & _ & _ & ->)%CreateReservation_inv.
  pose proof (CreateReservation_ok ctx D ev sid uid st ty key exp Hdb Hv Hck Hty) as Hok.
  rewrite Hst in Hok. destruct Hok as (_ & _ & _ & _ & Hs). split; [|done].
  unfold grows, tables2. simpl. split_and!; auto with schema.
Qed.

(** The key of an inserted row is still free of the rows of others. *)
Lemma CreateReservation_steady ev sid uid st ty key exp t C :
  steady no_locks (CreateReservation ev sid uid st ty key exp) t C.
Proof.
  intros ctx row D C1 Hwf Hv Hst HC1. exists ctx. split; [done|].
  destruct (CreateReservation_extends _ _ _ _ _ _ _ ctx _ _ _ (well_formed_seen _ _ Hwf) Hv Hst) as [Hg _].
  apply CreateReservation_inv in Hst as (-> & Hck & Hid & Hu & Hfk & ->).
  destruct (grown_rely _ _ _ _ _ HC1) as (Ha & Hsch1 & _). pose proof (rely_sees (tx_rows t) _ _ _ HC1) as Hsee.
  set (row := new_reservation _ _ _ _ _ _ _ _) in *. set (W' := tx_rows (grown_tx _ _ _ _)) in *.
  assert (HW : is_Some (reservations W' !! ctx_new_id ctx)).
  { eexists. apply pend_changed; [|apply lookup_insert_eq]. by rewrite Hid. }
  assert (Hid1 : reservations (overlay (tx_rows t) C1) !! ctx_new_id ctx = None).
  { rewrite <- Hid. eapply grown_lookup; [apply Ha|exact HW]. }
  assert (HD : overlay W' C1 = set_reservations (<[ctx_new_id ctx:=row]>
    (reservations (overlay (tx_rows t) C1))) (overlay (tx_rows t) C1)).
  { eapply acts_unique; [|by apply acts_reservations, acts_put].
    eapply acts_later; [by apply acts_reservations, acts_put|done|done|].
    unfold spares. simpl. split_and!; try done. by apply put_spares. }
  apply CreateReservation_inv. split_and!; auto.
  - apply session_key_free_spec. intros k r Hk Heq.
    assert (k = ctx_new_id ctx) as ->; [|congruence].
    apply (reservations_unique _ Hsch1 k (ctx_new_id ctx) r row); [| |done..|].
    + rewrite HD. simpl. by apply lookup_insert_fresh.
    + rewrite HD. simpl. apply lookup_insert_eq.
    + by rewrite Heq.
  - destruct Hsee as (Gu & Gs & Ge & _). apply andb_true_iff in Hfk as [[He Hse]%andb_true_iff Hus].
    rewrite (has_row_grows _ _ _ Ge He), (has_row_grows _ _ _ Gs Hse). cbn [andb].
    apply orb_true_iff in Hus as [->|Hus]; [done|]. rewrite (has_row_grows _ _ _ Gu Hus). by rewrite orb_true_r.
Qed.

Lemma CreateReservationItem_inv rid tt q st ctx db row D :
  CreateReservationItem rid tt q st ctx db = inr (row, D) <->
  row = new_item ctx rid tt q st /\ ((0 <? q) && ck_status st) = true /\
  reservation_items db !! ctx_new_id ctx = None /\
  (has_row (reservations db) rid && has_row (ticket_types db) tt) = true /\
  D = set_reservation_items (<[ctx_new_id ctx:=row]> (reservation_items db)) db.
Proof.
  unfold CreateReservationItem. split.
  - destruct (insert_row _ _ _ _ _ _) as [e|m] eqn:Hins; [done|]. intros [= <- <-].
    apply insert_row_inv in Hins as (? & ? & ? & ? & ->). done.
  - intros (-> & Hck & Hid & Hfk & ->).
    by rewrite (proj2 (insert_row_inv _ _ _ _ _ _ _) (conj Hck (conj Hid (conj eq_refl (conj Hfk eq_refl))))).
Qed.

Lemma CreateReservationItem_extends rid tt q st : extends (CreateReservationItem rid tt q st).
Proof.
  intros ctx D row D' Hdb Hv Hst.
  pose proof Hst as (_ & [Hq Hck]%andb_true_iff & _ & [Hr Ht]%andb_true_iff & ->)%CreateReservationItem_inv.
  apply Z.ltb_lt in Hq. apply has_row_spec in Hr, Ht.
  pose proof (CreateReservationItem_ok ctx D rid tt q st Hdb Hv Hck Hq Hr Ht) as Hok.
  rewrite Hst in Hok. destruct Hok as (_ & _ & _ & Hs). split; [|done].
  unfold grows, tables2. simpl. split_and!; auto with schema.
Qed.

Lemma CreateReservationItem_steady rid tt q st t C : steady no_locks (CreateReservationItem rid tt q st) t C.
Proof.
  intros ctx row D C1 Hwf Hv Hst HC1. exists ctx. split; [done|].
  destruct (CreateReservationItem_extends _ _ _ _ ctx _ _ _ (well_formed_seen _ _ Hwf) Hv Hst) as [Hg _].
  apply CreateReservationItem_inv in Hst as (-> & Hck & Hid & Hfk & ->).
  destruct (grown_rely _ _ _ _ _ HC1) as (Ha & Hsch1 & _). pose proof (rely_sees (tx_rows t) _ _ _ HC1) as Hsee.
  set (row := new_item _ _ _ _ _) in *. set (W' := tx_rows (grown_tx _ _ _ _)) in *.
  assert (HW : is_Some (reservation_items W' !! ctx_new_id ctx)).
  { eexists. apply pend_changed; [|apply lookup_insert_eq]. by rewrite Hid. }
  apply CreateReservationItem_inv. split_and!; auto.
  - rewrite <- Hid. eapply grown_lookup; [apply Ha|exact HW].
  - destruct Hsee as (_ & _ & _ & Gt & _ & Gr & _). apply andb_true_iff in Hfk as [Hr Ht].
    by rewrite (has_row_grows _ _ _ Gr Hr), (has_row_grows _ _ _ Gt Ht).
  - eapply acts_unique; [|by apply acts_items, acts_put].
    eapply acts_later; [by apply acts_items, acts_put|done|done|].
    unfold spares. simpl. split_and!; try done. by apply put_spares.
Qed.

Lemma CreateReservationSeat_inv rid seat st exp ctx db row D :
  CreateReservationSeat rid seat st exp ctx db = inr (row, D) <->
  row = new_seat ctx rid seat st exp /\ ck_status st = true /\
  reservation_seats db !! ctx_new_id ctx = None /\
  (negb (active_seat (new_seat ctx rid seat st exp)) ||
    bool_decide (seat ∉ active_seat_ids (reservation_seats db))) = true /\
  (has_row (reservations db) rid && has_row (seats db) seat) = true /\
  D = set_reservation_seats (<[ctx_new_id ctx:=row]> (reservation_seats db)) db.
Proof.
  unfold CreateReservationSeat. split.
  - destruct (insert_row _ _ _ _ _ _) as [e|m] eqn:Hins; [done|]. intros [= <- <-].
    apply insert_row_inv in Hins as (? & ? & ? & ? & ->). done.
  - intros (-> & Hck & Hid & Hu & Hfk & ->).
    by rewrite (proj2 (insert_row_inv _ _ _ _ _ _ _) (conj Hck (conj Hid (conj Hu (conj Hfk eq_refl))))).
Qed.

Lemma CreateReservationSeat_extends rid seat exp : extends (CreateReservationSeat rid seat StatusReserved exp).
Proof.
  intros ctx D row D' Hdb Hv Hst.
  pose proof Hst as (_ & _ & _ & _ & [Hr Hse]%andb_true_iff & ->)%CreateReservationSeat_inv.
  apply has_row_spec in Hr, Hse.
  pose proof (CreateReservationSeat_ok ctx D rid seat StatusReserved exp Hdb Hv eq_refl Hr Hse) as Hok.
  rewrite Hst in Hok. destruct Hok as (_ & _ & _ & _ & Hs). split; [|done].
  unfold grows, tables2. simpl. split_and!; auto with schema.
Qed.

Lemma CreateReservationSeat_steady rid seat exp t C :
  steady no_locks (CreateReservationSeat rid seat StatusReserved exp) t C.
Proof.
  intros ctx row D C1 Hwf Hv Hst HC1. exists ctx. split; [done|].
  destruct (CreateReservationSeat_extends _ _ _ ctx _ _ _ (well_formed_seen _ _ Hwf) Hv Hst) as [Hg _].
  apply CreateReservationSeat_inv in Hst as (-> & Hck & Hid & Hu & Hfk & ->).
  destruct (grown_rely _ _ _ _ _ HC1) as (Ha & Hsch1 & _). pose proof (rely_sees (tx_rows t) _ _ _ HC1) as Hsee.
  set (row := new_seat _ _ _ _ _) in *. set (W' := tx_rows (grown_tx _ _ _ _)) in *.
  assert (HW : is_Some (reservation_seats W' !! ctx_new_id ctx)).
  { eexists. apply pend_changed; [|apply lookup_insert_eq]. by rewrite Hid. }
  assert (Hid1 : reservation_seats (overlay (tx_rows t) C1) !! ctx_new_id ctx = None).
  { rewrite <- Hid. eapply grown_lookup; [apply Ha|exact HW]. }
  assert (HD : overlay W' C1 = set_reservation_seats (<[ctx_new_id ctx:=row]>
    (reservation_seats (overlay (tx_rows t) C1))) (overlay (tx_rows t) C1)).
  { eapply acts_unique; [|by apply acts_rseats, acts_put].
    eapply acts_later; [by apply acts_rseats, acts_put|done|done|].
    unfold spares. simpl. split_and!; try done. by apply put_spares. }
  apply CreateReservationSeat_inv. split_and!; auto.
  - apply orb_true_iff. right. apply bool_decide_eq_true_2. intros (k & s & Hk & Hact & Hs)%active_seat_ids_spec.
    assert (k = ctx_new_id ctx) as ->; [|congruence].
    apply (rseats_unique _ Hsch1 k (ctx_new_id ctx) s row); [| |done..].
    + rewrite HD. simpl. by apply lookup_insert_fresh.
    + rewrite HD. simpl. apply lookup_insert_eq.
  - destruct Hsee as (_ & _ & _ & _ & Gs & Gr & _). apply andb_true_iff in Hfk as [Hr Hse].
    by rewrite (has_row_grows _ _ _ Gr Hr), (has_row_grows _ _ _ Gs Hse).
Qed.
End inserts.

(** ** Inserts into the catalog *)

Lemma CreateEvent_inv `{Pgtype} name starts ends ctx db row D :
  CreateEvent name starts ends ctx db = inr (row, D) <->
  row = new_event ctx name starts ends /\ events db !! ctx_new_id ctx = None /\
  D = set_events (<[ctx_new_id ctx:=row]> (events db)) db.
Proof.
  unfold CreateEvent. split.
  - destruct (insert_row _ _ _ _ _ _) as [e|m] eqn:Hins; [done|]. intros [= <- <-].
    by apply insert_row_inv in Hins as (_ & ? & _ & _ & ->).
  - intros (-> & Hid & ->).
    by rewrite (proj2 (insert_row_inv _ _ _ _ _ _ _) (conj eq_refl (conj Hid (conj eq_refl (conj eq_refl eq_refl))))).
Qed.

Lemma CreateEvent_extends `{Pgtype} name starts ends : extends (CreateEvent name starts ends).
Proof.
  intros ctx D row D' Hdb Hv Hst. pose proof (CreateEvent_ok ctx D name starts ends Hdb Hv) as Hok.
  rewrite Hst in Hok. destruct Hok as (_ & -> & _ & Hs). split; [|done].
  unfold grows, tables2. simpl. split_and!; auto with schema.
Qed.

Lemma CreateEvent_steady `{Pgtype} name starts ends t C : steady no_locks (CreateEvent name starts ends) t C.
Proof.
  intros ctx row D C1 Hwf Hv Hst HC1. exists ctx. split; [done|].
  destruct (CreateEvent_extends _ _ _ ctx _ _ _ (well_formed_seen _ _ Hwf) Hv Hst) as [Hg _].
  apply CreateEvent_inv in Hst as (-> & Hid & ->). destruct (grown_rely _ _ _ _ _ HC1) as (Ha & _ & _).
  set (row := new_event _ _ _ _) in *. set (W' := tx_rows (grown_tx _ _ _ _)) in *.
  assert (HW : is_Some (events W' !! ctx_new_id ctx)).
  { eexists. apply pend_changed; [|apply lookup_insert_eq]. by rewrite Hid. }
  apply CreateEvent_inv. split_and!; [done| |].
  - rewrite <- Hid. eapply grown_lookup; [apply Ha|exact HW].
  - eapply acts_unique; [|by apply acts_events, acts_put].
    eapply acts_later; [by apply acts_events, acts_put|done|done|].
    unfold spares. simpl. split_and!; try done. by apply put_spares.
Qed.

Lemma CreateTicketType_inv ev name total ctx db row D :
  CreateTicketType ev name total ctx db = inr (row, D) <->
  row = new_ticket_type ctx ev name total /\ ck_ticket_type (new_ticket_type ctx ev name total) = inr tt /\
  ticket_types db !! ctx_new_id ctx = None /\ has_row (events db) ev = true /\
  D = set_ticket_types (<[ctx_new_id ctx:=row]> (ticket_types db)) db.
Proof.
  unfold CreateTicketType. split.
  - destruct (ck_ticket_type _) as [e|[]] eqn:Hck; [done|].
    destruct (insert_row _ _ _ _ _ _) as [e|m] eqn:Hins; [done|]. intros [= <- <-].
    by apply insert_row_inv in Hins as (_ & ? & _ & ? & ->).
  - intros (-> & -> & Hid & Hfk & ->).
    by rewrite (proj2 (insert_row_inv _ _ _ _ _ _ _) (conj eq_refl (conj Hid (conj eq_refl (conj Hfk eq_refl))))).
Qed.

Lemma CreateTicketType_extends ev name total :
  int32_range total = true -> 0 <= total -> extends (CreateTicketType ev name total).
Proof.
  intros Hr H0 ctx D row D' Hdb Hv Hst. pose proof (CreateTicketType_ok ctx D ev name total Hdb Hv Hr H0) as Hok.
  rewrite Hst in Hok. destruct Hok as (_ & -> & _ & Hs). split; [|done].
  unfold grows, tables2. simpl. split_and!; auto with schema.
Qed.

Lemma CreateTicketType_steady ev name total t C :
  int32_range total = true -> 0 <= total -> steady no_locks (CreateTicketType ev name total) t C.
Proof.
  intros Hr H0 ctx row D C1 Hwf Hv Hst HC1. exists ctx. split; [done|].
  destruct (CreateTicketType_extends ev name total Hr H0 ctx _ _ _ (well_formed_seen _ _ Hwf) Hv Hst) as [Hg _].
  apply CreateTicketType_inv in Hst as (-> & Hck & Hid & Hfk & ->).
  destruct (grown_rely _ _ _ _ _ HC1) as (Ha & _ & _). pose proof (rely_sees (tx_rows t) _ _ _ HC1) as Hsee.
  set (row := new_ticket_type _ _ _ _) in *. set (W' := tx_rows (grown_tx _ _ _ _)) in *.
  assert (HW : is_Some (ticket_types W' !! ctx_new_id ctx)).
  { eexists. apply pend_changed; [|apply lookup_insert_eq]. by rewrite Hid. }
  apply CreateTicketType_inv. split_and!; [done..| | |].
  - rewrite <- Hid. eapply grown_lookup; [apply Ha|exact HW].
  - destruct Hsee as (_ & _ & Ge & _). exact (has_row_grows _ _ _ Ge Hfk).
  - eapply acts_unique; [|by apply acts_tickets, acts_put].
    eapply acts_later; [by apply acts_tickets, acts_put|done|done|].
    unfold spares. simpl. split_and!; try done. by apply put_spares.
Qed.

Lemma place_free_spec place m :
  place_free place m = true <-> forall k s, m !! k = Some s -> seat_place s <> place.
Proof.
  unfold place_free. rewrite negb_true_iff, existsb_rows_false. split.
  - intros Hf k s Hk. specialize (Hf k s Hk). cbv beta in Hf. by to_prop.
  - intros Hf k s Hk. apply bool_decide_eq_false_2. by apply (Hf k).
Qed.

Lemma CreateSeat_inv ev sec rn num ctx db row D :
  CreateSeat ev sec rn num ctx db = inr (row, D) <->
  row = new_seat_row ctx ev sec rn num /\ seats db !! ctx_new_id ctx = None /\
  place_free (ev, sec, rn, num) (seats db) = true /\ has_row (events db) ev = true /\
  D = set_seats (<[ctx_new_id ctx:=row]> (seats db)) db.
Proof.
  unfold CreateSeat. split.
  - destruct (insert_row _ _ _ _ _ _) as [e|m] eqn:Hins; [done|]. intros [= <- <-].
    by apply insert_row_inv in Hins as (_ & ? & ? & ? & ->).
  - intros (-> & Hid & Hu & Hfk & ->).
    by rewrite (proj2 (insert_row_inv _ _ _ _ _ _ _) (conj eq_refl (conj Hid (conj Hu (conj Hfk eq_refl))))).
Qed.

Lemma CreateSeat_extends ev sec rn num : extends (CreateSeat ev sec rn num).
Proof.
  intros ctx D row D' Hdb Hv Hst. pose proof (CreateSeat_ok ctx D ev sec rn num Hdb Hv) as Hok.
  rewrite Hst in Hok. destruct Hok as (_ & -> & _ & Hs & _). split; [|done].
  unfold grows, tables2. simpl. split_and!; auto with schema.
Qed.

Lemma CreateSeat_steady ev sec rn num t C : steady no_locks (CreateSeat ev sec rn num) t C.
Proof.
  intros ctx row D C1 Hwf Hv Hst HC1. exists ctx. split; [done|].
  destruct (CreateSeat_extends ev sec rn num ctx _ _ _ (well_formed_seen _ _ Hwf) Hv Hst) as [Hg _].
  apply CreateSeat_inv in Hst as (-> & Hid & Hu & Hfk & ->).
  destruct (grown_rely _ _ _ _ _ HC1) as (Ha & Hsch1 & _). pose proof (rely_sees (tx_rows t) _ _ _ HC1) as Hsee.
  set (row := new_seat_row _ _ _ _ _) in *. set (W' := tx_rows (grown_tx _ _ _ _)) in *.
  assert (HW : is_Some (seats W' !! ctx_new_id ctx)).
  { eexists. apply pend_changed; [|apply lookup_insert_eq]. by rewrite Hid. }
  assert (Hid1 : seats (overlay (tx_rows t) C1) !! ctx_new_id ctx = None).
  { rewrite <- Hid. eapply grown_lookup; [apply Ha|exact HW]. }
  assert (HD : overlay W' C1 = set_seats (<[ctx_new_id ctx:=row]> (seats (overlay (tx_rows t) C1)))
    (overlay (tx_rows t) C1)).
  { eapply acts_unique; [|by apply acts_seats, acts_put].
    eapply acts_later; [by apply acts_seats, acts_put|done|done|].
    unfold spares. simpl. split_and!; try done. by apply put_spares. }
  apply CreateSeat_inv. split_and!; try done.
  - apply place_free_spec. intros k s Hk Heq. assert (k = ctx_new_id ctx) as ->; [|congruence].
    apply (seats_unique _ Hsch1 k (ctx_new_id ctx) s row); [| |done..].
    + rewrite HD. simpl. by apply lookup_insert_fresh.
    + rewrite HD. simpl. apply lookup_insert_eq.
  - destruct Hsee as (_ & _ & Ge & _). exact (has_row_grows _ _ _ Ge Hfk).
Qed.

(** ** Statements on the rows of a reservation whose header is held *)

Definition header_held (rid : UUID) (t : Tx) : Prop := is_Some (reservations (tx_rows t) !! rid).

Lemma header_same_rows rid t C C1 :
  header_held rid t -> db_inv C -> rely (versions t) C C1 -> same_rows rid C C1.
Proof.
  intros Hh Hinv [[Hst HA] _]. apply world_steps_rows; [done..|].
  unfold versions in HA. apply Forall_cons in HA as [(_ & _ & _ & _ & _ & Ha & _) _]. by apply Ha.
Qed.

Lemma overlay_same_row {V} (W C C1 : gmap UUID V) k x :
  (C !! k = Some x <-> C1 !! k = Some x) -> (W ∪ C) !! k = Some x <-> (W ∪ C1) !! k = Some x.
Proof.
  intros Hsame. rewrite !lookup_union. destruct (W !! k); [by rewrite !union_Some_l|].
  by rewrite !(left_id None union).
Qed.

Lemma by_key_ids {V} (id : V -> UUID) (pre : V -> UUID) (m : gmap UUID V) P x y :
  keyed id m ->
  let R := by_key (fun r => uuid_bytes (pre r) ++ uuid_bytes (id r)) in
  x ∈ select P R m -> y ∈ select P R m -> R x y -> R y x -> x = y.
Proof.
  intros Hm R (k & Hk & _)%elem_of_select (j & Hj & _)%elem_of_select Hxy Hyx.
  pose proof (lex_leb_antisymm _ _ Hxy Hyx) as Heq.
  assert (Hlen : forall i, length (uuid_bytes i) = 16%nat).
  { intros i. unfold uuid_bytes. by rewrite length_fmap, length_vec_to_list. }
  apply app_inj_1 in Heq as [_ Heq]; [|by rewrite !Hlen]. by eapply rows_ids_inj.
Qed.

Lemma ListReservationItems_steady rid t C :
  header_held rid t -> steady no_locks (ListReservationItems rid) t C.
Proof.
  intros Hh. apply reading_steady. intros l C1 Hwf [= <-] HC1.
  destruct (grown_rely _ _ _ _ _ HC1) as (_ & _ & HC). f_equal.
  pose proof (items_keyed _ (well_formed_seen _ _ Hwf)) as Hk.
  symmetry. apply (select_same ReservationItem_ID); try apply _;
    [done| | |intros x y; by apply (by_key_ids ReservationItem_ID ReservationItem_TicketTypeID)].
  - apply items_keyed, well_formed_seen, HC.
  - intros k i Hi. to_prop. apply overlay_same_row.
    destruct (header_same_rows rid t C C1 Hh (proj1 Hwf) HC) as [Hsame _]. by apply Hsame.
Qed.

Lemma ListReservationSeats_steady rid t C :
  header_held rid t -> steady no_locks (ListReservationSeats rid) t C.
Proof.
  intros Hh. apply reading_steady. intros l C1 Hwf [= <-] HC1.
  destruct (grown_rely _ _ _ _ _ HC1) as (_ & _ & HC). f_equal.
  pose proof (rseats_keyed _ (well_formed_seen _ _ Hwf)) as Hk.
  symmetry. apply (select_same ReservationSeat_ID); try apply _;
    [done| | |intros x y; by apply (by_key_ids ReservationSeat_ID ReservationSeat_SeatID)].
  - apply rseats_keyed, well_formed_seen, HC.
  - intros k s Hs. to_prop. apply overlay_same_row.
    destruct (header_same_rows rid t C C1 Hh (proj1 Hwf) HC) as [_ Hsame]. by apply Hsame.
Qed.

(** An UPDATE that changes the rows it selects holds them all afterwards. *)
Lemma change_spares {V} `{EqDecision V} (sel : V -> bool) upd (W C C1 : gmap UUID V) :
  (forall r, sel r = true -> upd r <> r) ->
  (forall k r, sel r = true -> C !! k = Some r <-> C1 !! k = Some r) ->
  forall k, pend_table (fun _ => false) W (W ∪ C) (update_where sel upd (W ∪ C)) !! k = None ->
    change sel upd k (C1 !! k) = C1 !! k.
Proof.
  intros Hupd Hsame k Hk. apply pend_None in Hk as [HW Hk]; [|apply grows_table_fmap].
  unfold change. destruct (C1 !! k) as [r|] eqn:Hr; [|done]. simpl.
  destruct (sel r) eqn:Hsel; [|done]. apply (Hsame k r Hsel) in Hr as Hr0.
  unfold update_where in Hk. rewrite lookup_fmap, lookup_union, HW, Hr0 in Hk. simpl in Hk.
  rewrite Hsel in Hk. injection Hk as Hk. by destruct (Hupd r Hsel).
Qed.

Lemma UpdateReservationItemsStatus_inv rid st st2 ctx db x D :
  ck_status st = true ->
  UpdateReservationItemsStatus rid st st2 ctx db = inr (x, D) <->
  D = set_reservation_items (update_where (fun i => (ReservationItem_ReservationID i ==? rid) &&
        (ReservationItem_Status i ==? st2)) (with_item_status st (ctx_now ctx)) (reservation_items db)) db.
Proof.
  intros Hck. unfold UpdateReservationItemsStatus. rewrite Hck, andb_false_r. destruct x. split.
  - by intros [= <-].
  - by intros ->.
Qed.

Lemma UpdateReservationItemsStatus_extends rid st st2 :
  ck_status st = true -> extends (UpdateReservationItemsStatus rid st st2).
Proof.
  intros Hck ctx D x D' Hdb _ Hst. destruct (UpdateReservationItemsStatus_ok ctx D rid st st2 Hdb Hck) as [Heq Hs].
  rewrite Heq in Hst. injection Hst as _ <-. split; [|done].
  unfold grows, tables2. simpl. split_and!; auto with schema.
Qed.

Lemma UpdateReservationItemsStatus_steady rid st st2 t C :
  ck_status st = true -> st <> st2 -> header_held rid t ->
  steady no_locks (UpdateReservationItemsStatus rid st st2) t C.
Proof.
  intros Hck Hne Hh ctx x D C1 Hwf Hv Hst HC1. exists ctx. split; [done|].
  destruct (UpdateReservationItemsStatus_extends rid st st2 Hck ctx _ _ _ (well_formed_seen _ _ Hwf) Hv Hst) as [Hg _].
  apply UpdateReservationItemsStatus_inv in Hst as ->; [|done].
  destruct (grown_rely _ _ _ _ _ HC1) as (Ha & _ & HC).
  apply UpdateReservationItemsStatus_inv; [done|].
  eapply acts_unique; [|by apply acts_items, acts_change].
  eapply acts_later; [by apply acts_items, acts_change|done|done|].
  unfold spares. simpl. split_and!; try done. apply change_spares.
  - intros i [_ Hs]%andb_true_iff. to_prop. intros Heq. apply Hne. rewrite <- Heq in Hs. done.
  - intros k i [Hi _]%andb_true_iff. to_prop. by apply (header_same_rows rid t C C1 Hh (proj1 Hwf) HC).
Qed.

Lemma update_seat_rows_inv sel st ctx db x D :
  ck_status st = true ->
  update_seat_rows sel st ctx db = inr (x, D) <->
  let m := update_where sel (with_seat_status st (ctx_now ctx)) (reservation_seats db) in
  uq_active_reservation_seat m = true /\ D = set_reservation_seats m db.
Proof.
  intros Hck. unfold update_seat_rows. rewrite Hck, andb_false_r. cbv zeta. set (m := update_where _ _ _). destruct x.
  destruct (uq_active_reservation_seat m); simpl; split.
  - by intros [= <-].
  - by intros [_ ->].
  - done.
  - by intros [? _].
Qed.

Lemma update_seat_rows_extends sel st :
  ck_status st = true -> (forall s, sel s = true -> active_seat s = true) -> extends (update_seat_rows sel st).
Proof.
  intros Hck Hsel ctx D x D' Hdb _ Hst. destruct (update_seat_rows_ok ctx D sel st Hdb Hck Hsel) as [Heq Hs].
  rewrite Heq in Hst. injection Hst as _ <-. split; [|done].
  unfold grows, tables2. simpl. split_and!; auto with schema.
Qed.

(** Whether the rows the statement selects are protected by headers that are
    held is the caller's business. *)
Lemma update_seat_rows_steady sel st t C :
  ck_status st = true -> (forall s, sel s = true -> active_seat s = true) ->
  (forall s, sel s = true -> ReservationSeat_Status s <> st) ->
  (forall C1, rely (versions t) C C1 -> forall k s, sel s = true ->
     reservation_seats C !! k = Some s <-> reservation_seats C1 !! k = Some s) ->
  steady no_locks (update_seat_rows sel st) t C.
Proof.
  intros Hck Hsel Hne Hsame ctx x D C1 Hwf Hv Hst HC1. exists ctx. split; [done|].
  destruct (update_seat_rows_extends sel st Hck Hsel ctx _ _ _ (well_formed_seen _ _ Hwf) Hv Hst) as [Hg _].
  apply update_seat_rows_inv in Hst as [_ ->]; [|done].
  destruct (grown_rely _ _ _ _ _ HC1) as (Ha & Hsch1 & HC).
  set (W' := tx_rows (grown_tx _ _ _ _)) in *.
  assert (HD : overlay W' C1 = set_reservation_seats (update_where sel (with_seat_status st (ctx_now ctx))
    (reservation_seats (overlay (tx_rows t) C1))) (overlay (tx_rows t) C1)).
  { eapply acts_unique; [|by apply acts_rseats, acts_change].
    eapply acts_later; [by apply acts_rseats, acts_change|done|done|].
    unfold spares. simpl. split_and!; try done. apply change_spares; [|by apply Hsame].
    intros s Hs Heq. apply (Hne s Hs). by rewrite <- Heq. }
  apply update_seat_rows_inv; [done|]. split; [|done]. apply bool_decide_eq_true_2, unique_NoDup.
  pose proof (rseats_unique _ Hsch1) as Hu. by rewrite HD in Hu.
Qed.

Lemma reserved_active s : ReservationSeat_Status s = StatusReserved -> active_seat s = true.
Proof. unfold active_seat. by intros ->. Qed.

Lemma UpdateReservationSeatsStatus_extends rid st :
  ck_status st = true -> extends (UpdateReservationSeatsStatus rid st StatusReserved).
Proof.
  intros Hck. apply update_seat_rows_extends; [done|]. intros s [_ Hs]%andb_true_iff. to_prop.
  by apply reserved_active.
Qed.

Lemma UpdateReservationSeatsStatus_steady rid st t C :
  ck_status st = true -> st <> StatusReserved -> header_held rid t -> db_inv C ->
  steady no_locks (UpdateReservationSeatsStatus rid st StatusReserved) t C.
Proof.
  intros Hck Hne Hh Hinv. apply update_seat_rows_steady; [done|..].
  - intros s [_ Hs]%andb_true_iff. to_prop. by apply reserved_active.
  - intros s [_ Hs]%andb_true_iff. to_prop. congruence.
  - intros C1 HC1 k s [Hs _]%andb_true_iff. to_prop. by apply (header_same_rows rid t C C1).
Qed.
