(* ===== verification/SerialSettlement.v ===== *)
(** * Settling beside other sessions

    The transactions that confirm, cancel and expire start by locking the header
    of the reservation. Nothing they read or write afterwards can change under
    them, so each is serial: it could have run alone at the moment it commits. *)

From S2P Require Import Prelude GoRuntime DbTypes Schema Prog Wp SqlcReservations ReservationService Inventory Lifecycle Settlement Service Locks Interleaving Isolation Serial Steady.
Local Open Scope string_scope.
Local Open Scope list_scope.
Local Open Scope Z_scope.

(** ** Programs that end no transaction *)

Create HintDb plain.

Ltac plain_tac :=
  repeat match goal with
  | |- plain (bind _ _) => apply plain_bind; [|intros]
  | |- plain (try _) => apply plain_try
  | |- plain (wrapf _ _) => apply plain_wrapf
  | |- plain (sql_locking _ _) => apply plain_sql
  | |- plain (for_each _ _ _) => apply plain_for_each; intros
  | |- plain (Ret _) => exact I
  | |- plain (Fail _) => exact I
  | |- plain Panic => exact I
  | |- plain time_Now => exact (fun _ => I)
  | |- plain (of_res ?r) => destruct r; exact I
  | |- plain (match ?x with _ => _ end) => destruct x
  | |- plain (if ?b then _ else _) => destruct b
  end;
  try match goal with
  | |- extends _ => eauto with plain
  | Hbody : forall x s, plain (_ x s) |- plain _ => apply Hbody
  end.

#[export] Hint Extern 5 (extends _) => apply reading_extends : plain.
#[export] Hint Resolve ReserveTicketQuantity_extends ReleaseTicketQuantity_extends
  ConfirmTicketQuantity_extends UpdateReservationStatus_extends CreateReservation_extends
  CreateReservationItem_extends CreateReservationSeat_extends UpdateReservationItemsStatus_extends
  UpdateReservationSeatsStatus_extends : plain.

(** ** What a program keeps holding *)

Lemma grown_covers t lk C D :
  grows (overlay (tx_rows t) C) D -> covers (tx_rows (grown_tx t lk C D)) (tx_rows t).
Proof. apply pend_covers. Qed.

Lemma covers_trans W1 W2 W3 : covers W2 W1 -> covers W3 W2 -> covers W3 W1.
Proof. apply grows_trans. Qed.

Lemma iruns_covers {A} (p : prog A) t C r t' C' :
  plain p -> iruns p t C r t' C' -> covers (tx_rows t') (tx_rows t).
Proof.
  revert t C. induction p as [x|e| |k IH|n k IH|X lk st k IH|k IH|k IH|k IH]; intros t C Hp; simpl in *;
    try done; try (intros (_ & -> & _); apply grows_refl).
  - intros [z Hr]. by eapply IH.
  - intros [b Hr]. by eapply IH.
  - destruct Hp as [Hst Hp]. intros (C1 & [_ Hwf] & [[f Hr]|(ctx & Hv & Hr)]); [by eapply IH|].
    destruct (st ctx _) as [e|[x D]] eqn:Heq; [by eapply IH|].
    eapply covers_trans; [|by eapply IH]. apply grown_covers.
    by apply (Hst ctx _ _ _ (well_formed_seen _ _ Hwf) Hv Heq).
Qed.

Lemma header_held_covers rid t t' : covers (tx_rows t') (tx_rows t) -> header_held rid t -> header_held rid t'.
Proof. intros (_ & _ & _ & _ & _ & Hg & _). apply Hg. Qed.

Lemma iruns_header {A} (p : prog A) rid t C r t' C' :
  plain p -> iruns p t C r t' C' -> header_held rid t -> header_held rid t'.
Proof. intros Hp Hr. eapply header_held_covers, iruns_covers; eauto. Qed.

(** ** Loops *)

Lemma serial_for_each {X S} (Inv : Tx -> Prop) (l : list X) (body : X -> S -> prog S) s t C :
  (forall x s t C, x ∈ l -> Inv t -> serial t C (body x s)) ->
  (forall x s, plain (body x s)) ->
  (forall t t', covers (tx_rows t') (tx_rows t) -> Inv t -> Inv t') ->
  Inv t -> serial t C (for_each l body s).
Proof.
  intros Hbody Hp Hmono. revert s t C. induction l as [|x l IH]; intros s t C Ht; [apply serial_Ret|].
  apply serial_bind; [apply Hbody; [by left|done]|]. intros s' t1 C1 Hr.
  apply IH; [intros; apply Hbody; [by right|done]|].
  eapply Hmono, Ht. by eapply iruns_covers.
Qed.

(** ** The transitions *)

Section settlement.
Context `{Pgtype}.

Lemma buildReservationResponse_plain r : plain (buildReservationResponse r).
Proof. unfold buildReservationResponse. plain_tac. Qed.

Lemma respond_plain r terr : plain (respond r terr).
Proof. apply plain_bind; [apply buildReservationResponse_plain|done]. Qed.

Lemma release_item_plain i any : plain (release_item i any).
Proof. unfold release_item. plain_tac. Qed.

Lemma confirm_item_plain i any : plain (confirm_item i any).
Proof. unfold confirm_item. plain_tac. Qed.

Lemma release_item_serial i any t C : serial t C (release_item i any).
Proof.
  unfold release_item. destruct (negb _); [apply serial_Ret|]. apply serial_try_sql.
  - intros e. destruct (isNoRows e); apply gives_up_Fail.
  - intros C1 _. split; [apply ReleaseTicketQuantity_steady|]. intros. apply serial_Ret.
Qed.

Lemma confirm_item_serial i any t C : serial t C (confirm_item i any).
Proof.
  unfold confirm_item. destruct (negb _); [apply serial_Ret|]. apply serial_try_sql.
  - intros e. destruct (isNoRows e); apply gives_up_Fail.
  - intros C1 _. split; [apply ConfirmTicketQuantity_steady|]. intros. apply serial_Ret.
Qed.

Lemma buildReservationResponse_serial r t C :
  header_held (Reservation_ID r) t -> serial t C (buildReservationResponse r).
Proof.
  intros Hh. unfold buildReservationResponse.
  destruct (_ ==? _); [|destruct (_ ==? _); [|apply serial_Fail]];
    (apply serial_bind; [|intros; apply serial_Ret]); apply serial_wrapf_sql; intros C1 _.
  - by apply ListReservationItems_steady.
  - by apply ListReservationSeats_steady.
Qed.

Lemma respond_serial r terr t C : header_held (Reservation_ID r) t -> serial t C (respond r terr).
Proof.
  intros Hh. apply serial_bind; [by apply buildReservationResponse_serial|]. intros. apply serial_Ret.
Qed.

(** A loop over the items is serial if each turn is. *)
Definition serial_body (body : ReservationItem -> bool -> prog bool) : Prop :=
  (forall i any, plain (body i any)) /\ forall i any t C, serial t C (body i any).

Lemma release_serial_body : serial_body release_item.
Proof. split; [apply release_item_plain|apply release_item_serial]. Qed.

Lemma confirm_serial_body : serial_body confirm_item.
Proof. split; [apply confirm_item_plain|apply confirm_item_serial]. Qed.

Lemma move_items_plain body text status rid :
  serial_body body -> ck_status status = true -> plain (move_items body text status rid).
Proof.
  intros [Hb _] Hck. unfold move_items. plain_tac.
Qed.

Lemma move_items_serial body text status rid t C :
  serial_body body -> ck_status status = true -> status <> StatusReserved -> header_held rid t ->
  serial t C (move_items body text status rid).
Proof.
  intros [Hp Hb] Hck Hne Hh. unfold move_items. apply serial_bind.
  { apply serial_wrapf_sql. intros C1 _. by apply ListReservationItems_steady. }
  intros items t1 C1 Hr1.
  assert (Hh1 : header_held rid t1) by (eapply iruns_header; [|exact Hr1|done]; plain_tac).
  apply serial_bind.
  { apply (serial_for_each (fun _ => True)); auto. }
  intros any t2 C2 Hr2. assert (Hh2 : header_held rid t2) by (eapply iruns_header; [|exact Hr2|done]; plain_tac).
  destruct (_ || _); [apply serial_Fail|]. apply serial_wrapf_sql. intros C3 _.
  by apply UpdateReservationItemsStatus_steady.
Qed.

Lemma locked_transition_plain body t1 t2 t3 status r :
  serial_body body -> ck_status status = true -> plain (locked_transition body t1 t2 t3 status r).
Proof.
  intros Hb Hck. unfold locked_transition. plain_tac. by apply move_items_plain.
Qed.

Lemma locked_transition_serial body t1 t2 t3 status r t C :
  serial_body body -> final_status status -> header_held (Reservation_ID r) t ->
  serial t C (locked_transition body t1 t2 t3 status r).
Proof.
  intros Hb Hf Hh. pose proof (final_ck _ Hf) as Hck. pose proof (final_not_reserved _ Hf) as Hne.
  unfold locked_transition. apply serial_bind.
  - destruct (_ ==? _); [by apply move_items_serial|]. destruct (_ ==? _); [|apply serial_Fail].
    apply serial_wrapf_sql. intros C1 HC1. apply UpdateReservationSeatsStatus_steady; try done. apply HC1.
  - intros _ t4 C4 _. apply serial_wrapf_sql. intros C5 _. apply UpdateReservationStatus_steady.
Qed.

(** ** The callbacks *)

Lemma lockReservation_plain vs rid : plain (lockReservation vs rid).
Proof. unfold lockReservation. plain_tac. Qed.

Lemma lockReservation_serial vs rid t C : serial t C (lockReservation vs rid).
Proof.
  apply serial_try_sql.
  - intros e. destruct (isNoRows e); apply gives_up_Fail.
  - intros C1 _. split; [apply LockReservationForUpdate_steady|]. intros.
    destruct (negb _); [apply serial_Fail|apply serial_Ret].
Qed.

(** After the lock the header is held. *)
Lemma lockReservation_holds vs rid t C r t' C' :
  iruns (lockReservation vs rid) t C (Ok r) t' C' -> header_held (Reservation_ID r) t'.
Proof.
  intros (C1 & [_ Hwf] & [[e Hr]|(ctx & y & D & Hv & Hst & Hr)])%iruns_try_sql.
  { destruct (isNoRows e); by destruct Hr as [[=] _]. }
  destruct (negb _); [by destruct Hr as [[=] _]|]. destruct Hr as ([= ->] & -> & _).
  unfold LockReservationForUpdate in Hst. apply reading_inv in Hst as [Hy ->].
  destruct (reservations (overlay _ C1) !! rid) as [r|] eqn:Hrid; [|done]. injection Hy as <-.
  destruct (reservations_keyed _ (well_formed_seen _ _ Hwf) _ _ Hrid) as [HID _].
  exists r. apply pend_locked.
  - apply bool_decide_eq_true_2. unfold locks_reservation. set_solver.
  - by rewrite HID.
Qed.

(** The transition returns the new row of the same header. *)
Lemma locked_transition_header body t1 t2 t3 status r t C r' t' C' :
  serial_body body -> ck_status status = true ->
  iruns (locked_transition body t1 t2 t3 status r) t C (Ok r') t' C' ->
  header_held (Reservation_ID r) t -> header_held (Reservation_ID r') t'.
Proof.
  intros Hb Hck Hr Hh.
  assert (HID : Reservation_ID r' = Reservation_ID r); [|rewrite HID; eapply iruns_header, Hh; [|exact Hr];
    by apply locked_transition_plain].
  unfold locked_transition in Hr.
  apply iruns_bind in Hr as [(u & t4 & C4 & _ & Hr)|[(e & _ & [=])|[_ [=]]]].
  apply iruns_wrapf_sql in Hr as ([_ Hwf] & ctx & D & _ & Hst & _).
  apply UpdateReservationStatus_inv in Hst as (r0 & Hr0 & _ & -> & _). simpl.
  by destruct (reservations_keyed _ (well_formed_seen _ _ Hwf) _ _ Hr0).
Qed.

(** A transition and the response that reports it. *)
Lemma transition_respond_serial body t1 t2 t3 status terr r t C :
  serial_body body -> final_status status -> header_held (Reservation_ID r) t ->
  serial t C (let* updated := locked_transition body t1 t2 t3 status r in respond updated terr).
Proof.
  intros Hb Hf Hh. apply serial_bind; [by apply locked_transition_serial|]. intros r' t4 C4 Hr.
  apply respond_serial. eapply locked_transition_header; eauto using final_ck.
Qed.

Lemma expired_final : final_status StatusExpired.
Proof. right. by right. Qed.

(** The three instances of [locked_transition]. *)
Definition locked_as (status : string) (locked : Reservation -> prog Reservation) : Prop :=
  final_status status /\ exists body t1 t2 t3, serial_body body /\
    forall r, locked r = locked_transition body t1 t2 t3 status r.

Lemma expire_locked_as : locked_as StatusExpired expireLockedReservation.
Proof. split; [apply expired_final|]. eexists _, _, _, _. split; [exact release_serial_body|done]. Qed.

Lemma cancel_locked_as : locked_as StatusCancelled cancelLockedReservation.
Proof. split; [right; by left|]. eexists _, _, _, _. split; [exact release_serial_body|done]. Qed.

Lemma confirm_locked_as : locked_as StatusConfirmed confirmLockedReservation.
Proof. split; [by left|]. eexists _, _, _, _. split; [exact confirm_serial_body|done]. Qed.

Lemma locked_as_plain status locked r : locked_as status locked -> plain (locked r).
Proof.
  intros (Hf & body & t1 & t2 & t3 & Hb & ->). apply locked_transition_plain; [done|by apply final_ck].
Qed.

Lemma locked_as_respond status locked terr r t C :
  locked_as status locked -> header_held (Reservation_ID r) t ->
  serial t C (let* updated := locked r in respond updated terr).
Proof.
  intros (Hf & body & t1 & t2 & t3 & Hb & ->) Hh. by apply transition_respond_serial.
Qed.

Lemma settleTx_plain locked target other cannot vs rid :
  locked_as target locked -> plain (settleTx locked target other cannot vs rid).
Proof.
  intros Hl. unfold settleTx. plain_tac;
    first [apply lockReservation_plain|apply respond_plain|by eapply locked_as_plain
          |eapply locked_as_plain, expire_locked_as].
Qed.

Lemma settleTx_serial locked target other cannot vs rid t C :
  locked_as target locked -> serial t C (settleTx locked target other cannot vs rid).
Proof.
  intros Hl. unfold settleTx. apply serial_bind; [apply lockReservation_serial|].
  intros r t1 C1 Hr. apply lockReservation_holds in Hr. cbv zeta.
  destruct (_ ==? _); [by apply respond_serial|]. destruct (_ || _); [by apply respond_serial|].
  destruct (_ ==? _); [|apply serial_Fail]. apply serial_Now. intros now.
  destruct (reservationExpired r now); [|by eapply locked_as_respond].
  eapply locked_as_respond; [apply expire_locked_as|done].
Qed.

(** ** The batch of the worker *)

Lemma expiry_le_ids r s : expiry_le r s -> expiry_le s r ->
  lex_leb (uuid_bytes (Reservation_ID r)) (uuid_bytes (Reservation_ID s)) = true /\
  lex_leb (uuid_bytes (Reservation_ID s)) (uuid_bytes (Reservation_ID r)) = true.
Proof.
  unfold expiry_le, expiry_leb. rewrite !orb_true_iff, !andb_true_iff, !Z.ltb_lt.
  intros [?|[? ?]] [?|[? ?]]; to_prop; try lia. done.
Qed.

(** The list could be the answer of a later moment, at which the reservations
    that are not in it are passed over. *)
Lemma ListExpired_steady expires limit t C :
  steady locks_listed (ListExpiredReservationsForUpdate expires limit) t C.
Proof.
  intros ctx l D C1 Hwf Hv Hst HC1. unfold ListExpiredReservationsForUpdate in *.
  apply reading_inv in Hst as [Hl ->]. injection Hl as Hl.
  destruct (grown_rely _ _ _ _ _ HC1) as (Ha & _ & HC).
  pose proof (reservations_keyed _ (well_formed_seen _ _ Hwf)) as Hkey.
  pose proof (reservations_keyed _ (well_formed_seen _ _ (proj2 HC))) as Hkey1.
  set (m := reservations (overlay (tx_rows t) C)) in *.
  set (m1 := reservations (overlay (tx_rows t) C1)) in *.
  set (P := fun r => overdue expires r && bool_decide (Reservation_ID r ∉ ctx_skip ctx)) in *.
  assert (Hsel : forall r, r ∈ l -> r ∈ select P expiry_le m).
  { intros r Hr. rewrite <- Hl in Hr. by eapply elem_of_sublist, sublist_take. }
  assert (Hin : forall r, r ∈ l -> m1 !! Reservation_ID r = Some r).
  { intros r Hr. pose proof (Hsel r Hr) as [Hr0 _]%(elem_of_select_key Reservation_ID); [|done].
    rewrite <- Hr0. eapply grown_lookup; [apply Ha|]. eexists. apply pend_locked; [|exact Hr0].
    apply bool_decide_eq_true_2. unfold locks_listed. apply list_elem_of_fmap. eauto. }
  assert (Hnd : NoDup l).
  { rewrite <- Hl. eapply sublist_NoDup, sublist_take. apply (NoDup_fmap_1 Reservation_ID).
    by apply select_ids_NoDup. }
  set (skip := filter (fun i => i ∉ Reservation_ID <$> l) (Reservation_ID <$> rows m1)).
  exists (MkSctx (ctx_now ctx) (ctx_new_id ctx) skip). split; [done|].
  apply reading_inv. split; [|by apply locked_later]. f_equal. cbn [ctx_skip]. fold m1.
  assert (Heq : select (fun r => overdue expires r && bool_decide (Reservation_ID r ∉ skip)) expiry_le m1 = l).
  { apply (select_unique Reservation_ID); try apply _; [done| |done| |].
    - rewrite <- Hl. eapply StronglySorted_app_1_l. rewrite take_drop.
      apply StronglySorted_merge_sort; apply _.
    - intros r. rewrite (elem_of_select_key Reservation_ID) by done. split.
      + intros Hr. split; [by apply Hin|].
        pose proof (Hsel r Hr) as [_ [Hov _]%andb_true_iff]%(elem_of_select_key Reservation_ID); [|done].
        rewrite Hov. apply bool_decide_eq_true_2. intros [Hnin _]%list_elem_of_filter.
        apply Hnin, list_elem_of_fmap. eauto.
      + intros [Hr [_ Hsk]%andb_true_iff]. to_prop.
        destruct (decide (Reservation_ID r ∈ Reservation_ID <$> l)) as [Hi|Hi].
        * apply list_elem_of_fmap in Hi as (r' & HID & Hr'). apply Hin in Hr' as Hm.
          rewrite <- HID, Hr in Hm. by injection Hm as <-.
        * destruct Hsk. apply list_elem_of_filter. split; [done|].
          apply list_elem_of_fmap. exists r. split; [done|]. apply elem_of_rows. eauto.
    - intros r s (kr & Hr & _)%elem_of_select (ks & Hs & _)%elem_of_select Hrs Hsr.
      eapply (rows_ids_inj Reservation_ID m1); eauto. destruct (expiry_le_ids _ _ Hrs Hsr). by apply lex_leb_antisymm. }
  rewrite Heq. apply take_ge. rewrite <- Hl. rewrite length_take. lia.
Qed.

Lemma ListExpired_extends expires limit : extends (ListExpiredReservationsForUpdate expires limit).
Proof. intros ctx. apply (reading_extends _ ctx). Qed.

Lemma expireBatchTx_plain n : plain (expireBatchTx n).
Proof. unfold expireBatchTx. plain_tac; [apply ListExpired_extends|]. eapply locked_as_plain, expire_locked_as. Qed.

(** The headers of the list are held from then on. *)
Definition all_held (l : list Reservation) (t : Tx) : Prop :=
  forall r, r ∈ l -> header_held (Reservation_ID r) t.

Lemma listed_held text expires n t C l t' C' :
  iruns (wrapf text (sql_locking locks_listed (ListExpiredReservationsForUpdate expires n))) t C (Ok l) t' C' ->
  all_held l t'.
Proof.
  intros ([_ Hwf] & ctx & D & _ & Hst & ->)%iruns_wrapf_sql r Hr.
  unfold ListExpiredReservationsForUpdate in Hst. apply reading_inv in Hst as [[= Hl] ->].
  assert (Hsel : r ∈ select (fun r => overdue expires r && bool_decide (Reservation_ID r ∉ ctx_skip ctx))
    expiry_le (reservations (overlay (tx_rows t) C'))).
  { rewrite <- Hl in Hr. by eapply elem_of_sublist, sublist_take. }
  apply (elem_of_select_key Reservation_ID) in Hsel as [Hrid _]; [|by apply reservations_keyed, well_formed_seen].
  exists r. apply pend_locked; [|done]. apply bool_decide_eq_true_2. unfold locks_listed.
  apply list_elem_of_fmap. eauto.
Qed.

Lemma expireBatchTx_serial n t C : serial t C (expireBatchTx n).
Proof.
  unfold expireBatchTx. apply serial_Now. intros now. apply serial_bind.
  { apply serial_wrapf_sql. intros C1 _. apply ListExpired_steady. }
  intros l t1 C1 Hl%listed_held. apply (serial_for_each (all_held l)); [| | |done].
  - intros r k t2 C2 Hr Hh. destruct expire_locked_as as (Hf & body & e1 & e2 & e3 & Hb & Heq).
    apply serial_bind; [|intros; apply serial_Ret]. rewrite Heq. apply locked_transition_serial; auto.
  - intros r k. apply plain_bind; [|done]. eapply locked_as_plain, expire_locked_as.
  - intros t2 t3 Hc Hh r Hr. by eapply header_held_covers, Hh.
Qed.

(** ** Beside any others *)

(** What the operations promise, as specifications of one moment. *)
Definition settles (target : string) (cannot : sentinel) (vs : VisitorSession) (rid : UUID)
    (out : ReservationResponse * option error) (D D' : Database) : Prop :=
  settled (clock_ok adversary) target cannot vs rid D out D'.

Definition expires_batch (batchSize n : Z) (D D' : Database) : Prop :=
  exists now skip, batch_done now skip batchSize n D D'.

Lemma settle_takes_effect target cannot (p : prog (ReservationResponse * option error)) vs rid :
  final_status target -> (forall t C, serial t C p) ->
  (forall D, db_inv D -> wp adversary p (fun res σ' => σ'.2 = Some D /\
     settle_post adversary target cannot vs rid D res σ'.1) (D, Some D)) ->
  takes_effect p (settles target cannot vs rid).
Proof.
  intros Hf Hs Hwp. apply serial_takes_effect; [done|]. intros D Hinv. eapply wp_mono; [|by apply Hwp].
  intros r [D' saved] [_ Hpost] x ->. split; [done|]. by eapply inventory_steps_world, settled_steps.
Qed.

Lemma CancelReservation_linearizable vs rid :
  linearizable (CancelReservation vs rid) (settles StatusCancelled ErrReservationCannotCancel vs rid).
Proof.
  apply linearizable_WithTx; [apply (settleTx_plain _ _ _ _ _ _ cancel_locked_as)|].
  apply settle_takes_effect; [by right; left| |intros D Hinv; by apply cancelTx_wp].
  intros. apply (settleTx_serial _ _ _ _ _ _ _ _ cancel_locked_as).
Qed.

Lemma ConfirmReservation_linearizable vs rid :
  linearizable (ConfirmReservation vs rid) (settles StatusConfirmed ErrReservationCannotConfirm vs rid).
Proof.
  apply linearizable_WithTx; [apply (settleTx_plain _ _ _ _ _ _ confirm_locked_as)|].
  apply settle_takes_effect; [by left| |intros D Hinv; by apply confirmTx_wp].
  intros. apply (settleTx_serial _ _ _ _ _ _ _ _ confirm_locked_as).
Qed.

Lemma linearizable_Fail {A} e spec : linearizable (@Fail A e) spec.
Proof. intros C Hinv. by split_and!. Qed.

Lemma ExpireExpiredReservations_linearizable n :
  linearizable (ExpireExpiredReservations n) (expires_batch n).
Proof.
  unfold ExpireExpiredReservations. destruct (n <=? 0); [apply linearizable_Fail|].
  apply linearizable_WithTx; [apply expireBatchTx_plain|].
  apply serial_takes_effect; [intros; apply expireBatchTx_serial|].
  intros D Hinv. eapply wp_mono; [|by apply expireBatchTx_wp].
  intros r [D' saved] [_ Hpost] x ->. destruct Hpost as (now & skip & _ & _ & Hdone).
  split; [by exists now, skip|]. eapply inventory_steps_world, expired_steps, Hdone.
Qed.
End settlement.
