(* ===== verification/SerialCreation.v ===== *)
(** * Reserving beside other sessions

    A reservation is created on what the transaction has read: no reservation
    under the key, enough stock, free seats. Others may commit meanwhile, but the
    row that is inserted is unique by its key, the counters are locked by their
    update, and the seats by theirs; what was read is therefore still so at the
    commit, except for overdue holds that were settled in the meantime, and these
    change nothing. *)

From S2P Require Import Prelude GoRuntime DbTypes Schema Prog Wp SqlcReservations ReservationService Inventory Lifecycle Settlement Requests Creation SeatCreation Service Locks Interleaving Isolation Serial Steady SerialSettlement.
Local Open Scope string_scope.
Local Open Scope list_scope.
Local Open Scope Z_scope.

(** ** Readings that lock nothing *)

Lemma pend_table_same {V} `{EqDecision V} locked (W C : gmap UUID V) :
  (forall k, locked k = false) -> pend_table locked W (W ∪ C) (W ∪ C) = W.
Proof.
  intros Hl. apply map_eq. intros k. rewrite lookup_pend, lookup_union, Hl. unfold has_row.
  destruct (W !! k) as [w|] eqn:Hk; [by rewrite union_Some_l|]. rewrite (left_id None union).
  destruct (C !! k); [|done]. by rewrite bool_decide_eq_true_2.
Qed.

Lemma grown_reads {X} t (x : X) C :
  tx_rows (grown_tx t (no_locks x) C (overlay (tx_rows t) C)) = tx_rows t.
Proof.
  unfold grown_tx, pend, overlay. simpl. rewrite !pend_table_same by done. by destruct (tx_rows t).
Qed.

(** What others may do to a transaction they could do to it earlier. *)
Lemma rely_grown t lk C D C1 C2 :
  rely (versions (grown_tx t lk C D)) C1 C2 -> rely (versions t) C1 C2.
Proof.
  assert (Hsub : versions t ⊆ versions (grown_tx t lk C D)) by (intros V HV; by right).
  intros [Hl Hwf]. split; [by eapply later_subset|by eapply well_formed_subset].
Qed.

(** ** Transactions that only read, or are serial *)

(** Either the answer was read from the tables [D] of some moment and nothing
    changed, or the run could have been made alone at the commit. *)
Definition serial_end {A} (fn : prog A) (spec : A -> Database -> Database -> Prop)
    (C : Database) (t' : Tx) (C1 : Database) (x : A) : Prop :=
  (tx_rows t' = empty_db /\ exists D, rtc world_step C D /\ spec x D D /\ rtc world_step D C1) \/
  runs fn C1 (Ok x) (overlay (tx_rows t') C1).

Lemma serial_end_takes_effect {A} (fn : prog A) spec :
  (forall now C x t' C' C1, iruns fn (MkTx now empty_db []) C (Ok x) t' C' ->
     rely (versions t') C' C1 -> serial_end fn spec C t' C1 x) ->
  (forall D, db_inv D -> wp adversary fn (fun r σ => forall x, r = Ok x ->
     spec x D σ.1 /\ rtc inventory_step D σ.1) (D, Some D)) ->
  takes_effect fn spec.
Proof.
  intros Hend Hwp now C x t' C' C1 Hinv Hr HC1. assert (Hinv1 : db_inv C1) by apply HC1.
  destruct (Hend _ _ _ _ _ _ Hr HC1) as [[-> (D & ? & ? & ?)]|Hruns].
  - rewrite overlay_empty. split; [done|]. by exists D, D.
  - destruct (wp_runs _ _ _ _ _ _ (Hwp C1 Hinv1) Hruns x eq_refl) as [Hspec Hst%inventory_steps_world].
    split; [done|]. exists C1, (overlay (tx_rows t') C1). split_and!; [|done|done].
    destruct (iruns_later _ _ _ _ _ _ Hr) as [[H1 _] _]. etrans; [exact H1|apply HC1].
Qed.

(** The rest of an operation, started at a later moment. *)
Lemma linearizable_later {A} (p : prog A) spec C0 C :
  linearizable p spec -> db_inv C -> rtc world_step C0 C -> safe p (answers_as spec C0) None C.
Proof.
  intros Hp Hinv H0. eapply safe_mono; [|by apply Hp]. intros r t C'. by apply answers_as_earlier.
Qed.

(** What the server supplies to a statement that does not depend on it. *)
Definition any_ctx : sctx := MkSctx (MkTs 0 true) (MkUUID (Vector.const "000"%byte 16) true) [].

(** The statements of a run that succeeds, where each failure is final. *)
Lemma runs_try_inv {X B} lk (st : stmt X) (f : error + X -> prog B) D r D' :
  runs (bind (try (sql_locking lk st)) f) D r D' ->
  (exists e, runs (f (inl e)) D r D') \/
  exists ctx x D1, Valid (ctx_new_id ctx) = true /\ st ctx D = inr (x, D1) /\ runs (f (inr x)) D1 r D'.
Proof.
  intros [[e Hr]|(ctx & Hv & Hr)]; [left; by exists (fault_error e)|].
  destruct (st ctx D) as [e|[x D1]] eqn:Hst; [left; by exists e|right]. by exists ctx, x, D1.
Qed.

Lemma runs_wrapf_inv {X B} text lk (st : stmt X) (f : X -> prog B) D x D' :
  runs (bind (wrapf text (sql_locking lk st)) f) D (Ok x) D' ->
  exists ctx y D1, Valid (ctx_new_id ctx) = true /\ st ctx D = inr (y, D1) /\ runs (f y) D1 (Ok x) D'.
Proof.
  intros [[e [[=] _]]|(ctx & Hv & Hr)]. destruct (st ctx D) as [e|[y D1]] eqn:Hst; [by destruct Hr|].
  by exists ctx, y, D1.
Qed.

Section creation.
Context `{PgtypeLaws}.

(** ** ReserveQuantity *)

(** The callback after the reading of the key. *)
Definition claim_quantity (vs : VisitorSession) (ev tid : UUID) (q : Z) (key : string) (exp : Z)
    : prog QuantityReservationResponse :=
  let* r := try (sql_locking locks_ticket (ReserveTicketQuantity tid ev q)) in
  match r with
  | inl err =>
      if isNoRows err then Fail (Sentinel ErrInsufficientStock)
      else Fail (Wrapped "reserve ticket quantity" err)
  | inr _ =>
      let* r := try (sql (CreateReservation ev (VisitorSession_ID vs)
        (VisitorSession_UserID vs) StatusReserved ReservationTypeQuantity key (MkTs exp true))) in
      match r with
      | inl err =>
          if isUniqueViolation err then Fail (Sentinel ErrIdempotencyReplayRequired)
          else Fail (Wrapped "create reservation" err)
      | inr reservation =>
          let* item := wrapf "create reservation item" (sql (CreateReservationItem
            (Reservation_ID reservation) tid q StatusReserved)) in
          Ret (quantityReservationToResponse reservation item)
      end
  end.

Lemma claim_quantity_serial vs ev tid q key exp t C : serial t C (claim_quantity vs ev tid q key exp).
Proof.
  apply serial_try_sql.
  { intros e. destruct (isNoRows e); apply gives_up_Fail. }
  intros C1 _. split; [apply ReserveTicketQuantity_steady|]. intros ctx row D _ _. apply serial_try_sql.
  { intros e. destruct (isUniqueViolation e); apply gives_up_Fail. }
  intros C2 _. split; [apply CreateReservation_steady|]. intros ctx2 r D2 _ _. apply serial_bind.
  - apply serial_wrapf_sql. intros C3 _. apply CreateReservationItem_steady.
  - intros. apply serial_Ret.
Qed.

(** It succeeds only under a key that is free. *)
Lemma claim_quantity_key vs ev tid q key exp D x D' :
  runs (claim_quantity vs ev tid q key exp) D (Ok x) D' ->
  session_key_free (VisitorSession_ID vs) key (reservations D) = true.
Proof.
  intros [(e & Hr)|(ctx & row & D1 & _ & Hst & Hr)]%runs_try_inv; [destruct (isNoRows e); by destruct Hr|].
  unfold ReserveTicketQuantity in Hst. apply update_ticket_type_inv in Hst as (u & u' & _ & _ & _ & _ & _ & ->).
  apply runs_try_inv in Hr as [(e & Hr)|(ctx2 & r & D2 & _ & Hst & _)];
    [destruct (isUniqueViolation e); by destruct Hr|].
  by apply CreateReservation_inv in Hst as (_ & _ & _ & Hfree & _).
Qed.

Lemma free_key_unmade type sid key db :
  session_key_free sid key (reservations db) = true -> no_reservation_of type sid key db.
Proof. intros Hf k r Hk Heq. by destruct (proj1 (session_key_free_spec _ _ _) Hf k r Hk). Qed.

Lemma GetQuantity_none ctx db sid key :
  db_inv db -> session_key_free sid key (reservations db) = true ->
  GetQuantityReservationByIdempotencyKey sid key ctx db = inl PgNoRows.
Proof.
  intros Hinv Hf. pose proof (GetQuantity_ok ctx db sid key Hinv) as Hget.
  destruct (GetQuantityReservationByIdempotencyKey _ _ _ _) as [e|[row db']]; [by destruct Hget as [-> _]|].
  destruct Hget as [_ (r & k & i & (Hr & Hkey & Hty) & _)].
  by destruct (free_key_unmade ReservationTypeQuantity _ _ _ Hf _ _ Hr Hkey).
Qed.

Definition reserves_quantity (vs : VisitorSession) (ev tid : UUID) (q : Z) (key : string) (exp : Z)
    (resp : QuantityReservationResponse) (D D' : Database) : Prop :=
  quantity_outcome adversary vs ev tid q key exp D (Ok resp) D'.

Lemma reserveQuantityTx_end vs ev tid q key exp now C x t' C' C1 :
  iruns (reserveQuantityTx vs ev tid q key exp) (MkTx now empty_db []) C (Ok x) t' C' ->
  rely (versions t') C' C1 ->
  serial_end (reserveQuantityTx vs ev tid q key exp) (reserves_quantity vs ev tid q key exp) C t' C1 x.
Proof.
  intros Hr HC1. assert (Hinv1 : db_inv C1) by apply HC1.
  apply iruns_try_sql in Hr as (C2 & HC2 & [(e & Hr)|(ctx & row & D & Hv & Hst & Hr)]).
  - destruct (isNoRows e); cbn [negb] in Hr; [|by destruct Hr].
    right. pose proof (claim_quantity_serial _ _ _ _ _ _ _ _ _ _ _ _ Hr I HC1) as Hruns.
    simpl in Hruns. rewrite overlay_empty in Hruns. pose proof (claim_quantity_key _ _ _ _ _ _ _ _ _ Hruns) as Hkey.
    eapply (runs_try_sql_fails _ _ _ any_ctx); [|by apply GetQuantity_none|exact Hruns]. done.
  - destruct Hr as ([= ->] & -> & ->). left. simpl in Hst. rewrite overlay_empty in Hst.
    pose proof (GetQuantity_ok ctx C2 (VisitorSession_ID vs) key (proj1 (proj2 HC2))) as Hget.
    rewrite Hst in Hget. destruct Hget as [-> Hrep]. split.
    + etrans; [|apply (grown_reads (MkTx now empty_db []) row C2)]. cbn [tx_rows]. by rewrite overlay_empty.
    + exists C2. split_and!; [apply HC2|by apply qo_replayed|apply HC1].
Qed.

Lemma reserveQuantityTx_plain vs ev tid q key exp : plain (reserveQuantityTx vs ev tid q key exp).
Proof. unfold reserveQuantityTx. plain_tac. Qed.

Lemma reserveQuantityTx_takes_effect vs ev tid q key exp :
  0 < q -> takes_effect (reserveQuantityTx vs ev tid q key exp) (reserves_quantity vs ev tid q key exp).
Proof.
  intros Hq. apply serial_end_takes_effect; [intros; by eapply reserveQuantityTx_end|].
  intros D Hinv. eapply wp_mono; [|by apply reserveQuantityTx_wp].
  intros r [D' saved] [_ Hpost] x ->. destruct Hpost as [Hout _]. split; [done|]. by eapply quantity_outcome_steps.
Qed.

(** The replay after a lost race for the key is a reading of one moment. *)
Lemma replayQuantity_linearizable sid key :
  linearizable (replayQuantity sid key) (fun resp D D' => D' = D /\ quantity_replay sid key D resp).
Proof.
  intros C Hinv C1 HC1. destruct HC1 as [[Hsteps _] [Hinv1 _]]. split.
  - intros f. simpl. destruct (isNoRows (fault_error f)); by split_and!.
  - intros ctx Hv. simpl. rewrite overlay_empty. pose proof (GetQuantity_ok ctx C1 sid key Hinv1) as Hget.
    destruct (GetQuantityReservationByIdempotencyKey _ _ _ _) as [e|[row D]].
    + simpl. destruct (isNoRows e); by split_and!.
    + destruct Hget as [-> Hrep]. split; [apply grows_refl|]. split; [apply Hinv1|]. split; [done|].
      simpl. split_and!; [done..|]. intros x [= <-]. by exists C1, C1.
Qed.

(** The deadline is taken from a reading of the clock. *)
Definition quantity_granted (ttl : Z) (vs : VisitorSession) (input : QuantityReservationRequest)
    (resp : QuantityReservationResponse) (D D' : Database) : Prop :=
  exists ev tid now, parseQuantityInput input = Ok (ev, tid) /\
    reserves_quantity vs ev tid (QReq_Quantity input) (TrimSpace (QReq_IdempotencyKey input)) (now + ttl) resp D D'.

Lemma ReserveQuantity_linearizable ttl vs input :
  linearizable (ReserveQuantity ttl vs input) (quantity_granted ttl vs input).
Proof.
  unfold ReserveQuantity. pose proof (parseQuantityInput_cases input) as Hin.
  destruct (parseQuantityInput input) as [[ev tid]|e|] eqn:Hparse; [|apply linearizable_Fail|done].
  destruct Hin as [Hq _]. intros C Hinv now. cbn [bind of_res]. set (key := TrimSpace _).
  apply safe_bind, safe_bind, safe_catch.
  eapply safe_mono; [|by eapply linearizable_WithTx, Hinv;
    [apply reserveQuantityTx_plain|by apply (reserveQuantityTx_takes_effect vs ev tid _ key (now + ttl))]].
  intros r t C' (-> & Hinv' & Hfrom & Hans). destruct r as [resp|e|]; simpl.
  - destruct (Hans resp eq_refl) as (D & D' & ? & ? & ?). split_and!; [done..|].
    intros x [= <-]. exists D, D'. split_and!; [done| |done]. by exists ev, tid, now.
  - destruct (errors_Is e _); [|by split_and!].
    eapply safe_mono; [|exact (linearizable_later _ _ C C' (replayQuantity_linearizable _ key) Hinv' Hfrom)].
    intros r t C'' (-> & Hinv'' & Hfrom' & Hans'). split_and!; [done..|]. intros x Hx.
    destruct (Hans' x Hx) as (D & D' & ? & [-> Hrep] & ?). exists D, D. split_and!; [done| |done].
    exists ev, tid, now. split; [done|]. by apply qo_replayed.
  - by split_and!.
Qed.

(** ** Releasing the overdue holds *)

(** The two updates of the release, as a function of the tables. *)
Definition expire_holds (ids : list UUID) (ts ts' : Timestamptz) (D : Database) : Database :=
  let D1 := set_reservation_seats (update_where
    (fun s => bool_decide (ReservationSeat_ReservationID s ∈ ids) && (ReservationSeat_Status s ==? StatusReserved))
    (with_seat_status StatusExpired ts) (reservation_seats D)) D in
  set_reservations (update_where
    (fun r => bool_decide (Reservation_ID r ∈ ids) && (Reservation_Status r ==? StatusReserved))
    (with_reservation_status StatusExpired ts') (reservations D1)) D1.

(** The reservations of [ids] that still hold a seat have an overdue hold on
    some of the seats [sids]. *)
Definition overdue_or_settled (now : Z) (sids ids : list UUID) (D : Database) : Prop :=
  forall rid r, rid ∈ ids -> reservations D !! rid = Some r -> Reservation_Status r = StatusReserved ->
    rid ∈ overdue_holders now sids D.

(** Expiring more reservations than those overdue changes nothing more, if the
    others are settled and the seats are free afterwards. *)
Lemma expire_holds_same now sids ids ts ts' D :
  db_inv D -> overdue_or_settled now sids ids D ->
  (forall x, x ∈ sids -> x ∉ active_seat_ids (reservation_seats (expire_holds ids ts ts' D))) ->
  expire_holds (overdue_holders now sids D) ts ts' D = expire_holds ids ts ts' D.
Proof.
  intros Hinv Hids Hfree.
  assert (Hsub : forall rid, rid ∈ overdue_holders now sids D -> rid ∈ ids).
  { intros rid (k & s & Hk & <- & Hx & Hst & _)%overdue_holders_spec.
    destruct (decide (ReservationSeat_ReservationID s ∈ ids)) as [?|Hnin]; [done|]. destruct (Hfree _ Hx).
    apply active_seat_ids_spec. exists k, s. split_and!; [|by apply reserved_active|done].
    apply update_where_lookup. exists s. split; [done|]. by rewrite bool_decide_eq_false_2. }
  assert (Hsame : forall rid r, reservations D !! rid = Some r -> Reservation_Status r = StatusReserved ->
    rid ∈ overdue_holders now sids D <-> rid ∈ ids) by (intros; split; eauto).
  unfold expire_holds. cbv zeta. simpl. f_equal.
  - apply update_where_ext. intros k r Hk. destruct (reservations_keyed _ (inv_schema _ Hinv) _ _ Hk) as [-> _].
    destruct (decide (Reservation_Status r = StatusReserved)) as [Hst|Hst].
    + f_equal. apply bool_decide_ext. by eapply Hsame.
    + by rewrite !(bool_decide_eq_false_2 _ Hst), !andb_false_r.
  - f_equal. apply update_where_ext. intros k s Hk.
    destruct (decide (ReservationSeat_Status s = StatusReserved)) as [Hst|Hst].
    + f_equal. apply bool_decide_ext.
      destruct (rseats_follow _ (inv_lifecycle _ Hinv) k s Hk) as (r & p & Hr & _ & Hs & _).
      eapply Hsame; [exact Hr|congruence].
    + by rewrite !(bool_decide_eq_false_2 _ Hst), !andb_false_r.
Qed.

Lemma expire_holds_nil ts ts' D : expire_holds [] ts ts' D = D.
Proof.
  unfold expire_holds. cbv zeta. simpl.
  assert (Hid : forall V (sel : V -> bool) upd (m : gmap UUID V), (forall r, sel r = false) -> update_where sel upd m = m).
  { intros V sel upd m Hsel. apply map_eq. intros k. unfold update_where. rewrite lookup_fmap.
    destruct (m !! k); simpl; [by rewrite Hsel|done]. }
  rewrite !Hid by done. by destruct D.
Qed.

(** The release, alone. *)
Lemma releaseExpiredHolds_runs now sids ts ts' D :
  db_inv D -> runs (releaseExpiredHolds sids) D (Ok tt) (expire_holds (overdue_holders now sids D) ts ts' D).
Proof.
  intros Hinv. set (ids := overdue_holders now sids D).
  eapply runs_bind; [by exists now|].
  eapply runs_bind; [eapply (runs_wrapf_sql _ _ _ any_ctx); [done|]; by apply reading_inv|].
  change (merge_sort uuid_le _) with ids.
  destruct (length ids =? 0)%nat eqn:Hlen; cbn [negb].
  { apply Nat.eqb_eq, length_zero_iff_nil in Hlen. rewrite Hlen. by rewrite expire_holds_nil. }
  eapply runs_bind; [eapply (runs_wrapf_sql _ _ _ any_ctx); [done|]; by apply reading_inv|].
  assert (Hsel : forall s, bool_decide (ReservationSeat_ReservationID s ∈ ids) &&
    (ReservationSeat_Status s ==? StatusReserved) = true -> active_seat s = true).
  { intros s [_ Hs]%andb_true_iff. to_prop. by apply reserved_active. }
  eapply runs_bind.
  - eapply (runs_wrapf_sql _ _ _ (MkSctx ts (ctx_new_id any_ctx) [])); [done|].
    by apply update_seat_rows_ok; [apply Hinv| |].
  - eapply (runs_wrapf_sql _ _ _ (MkSctx ts' (ctx_new_id any_ctx) [])); [done|]. done.
Qed.

(** *** The release beside others *)

Lemma world_steps_reserved rid r r' C C' :
  rtc world_step C C' -> db_inv C -> reservations C !! rid = Some r -> reservations C' !! rid = Some r' ->
  Reservation_Status r' = StatusReserved -> r' = r.
Proof.
  induction 1 as [C|C C1 C2 Hs Hrest IH]; intros Hinv Hr Hr' Hst; [congruence|].
  pose proof (world_step_inv _ _ Hs Hinv) as Hinv1.
  destruct (world_step_header rid r C C1 (inv_schema _ Hinv) Hs Hr) as (r1 & Hr1 & [->|Hst1]); [by apply IH|].
  destruct (world_steps_final rid r1 C1 C2 Hrest Hinv1 (conj Hr1 Hst1)) as [Hr2 _]. congruence.
Qed.

(** A hold that was overdue is so at the commit, or its reservation is settled. *)
Lemma overdue_later now sids Ca C1 :
  db_inv Ca -> rtc world_step Ca C1 -> overdue_or_settled now sids (overdue_holders now sids Ca) C1.
Proof.
  intros Hinv Hsteps rid r (k & s & Hk & <- & Hx & Hst & Hle)%overdue_holders_spec Hr Hres.
  destruct (rseats_follow _ (inv_lifecycle _ Hinv) k s Hk) as (r0 & p & Hr0 & _).
  rewrite <- (world_steps_reserved _ _ _ _ _ Hsteps Hinv Hr0 Hr Hres) in Hr0.
  apply overdue_holders_spec. exists k, s. split_and!; try done.
  by apply (world_steps_rows _ _ _ Hsteps Hinv (eq_trans Hr (eq_sym Hr0))).
Qed.

Definition ids_held (ids : list UUID) (t : Tx) : Prop := forall rid, rid ∈ ids -> header_held rid t.

Lemma ids_held_covers ids t t' : covers (tx_rows t') (tx_rows t) -> ids_held ids t -> ids_held ids t'.
Proof. intros Hc Hh rid Hrid. by eapply header_held_covers, Hh. Qed.

Lemma LockReservationsByID_holds ids l t C ctx D :
  well_formed (versions t) C -> LockReservationsByID ids ctx (overlay (tx_rows t) C) = inr (l, D) ->
  (forall rid, rid ∈ ids -> is_Some (reservations (overlay (tx_rows t) C) !! rid)) ->
  D = overlay (tx_rows t) C /\ ids_held ids (grown_tx t (locks_ids l) C D).
Proof.
  intros Hwf Hst Hex. unfold LockReservationsByID in Hst. apply reading_inv in Hst as [[= Hl] ->].
  split; [done|]. intros rid Hrid. destruct (Hex _ Hrid) as [r Hr]. exists r. apply pend_locked; [|done].
  apply bool_decide_eq_true_2. unfold locks_ids. apply list_elem_of_fmap. exists rid. split; [done|].
  pose proof (reservations_keyed _ (well_formed_seen _ _ Hwf)) as Hkey. destruct (Hkey _ _ Hr) as [HID _].
  rewrite <- Hl. apply list_elem_of_fmap. exists r. split; [done|].
  apply (elem_of_select_key Reservation_ID); [done|]. rewrite HID. split; [done|]. by apply bool_decide_eq_true_2.
Qed.

Lemma ExpireReservationSeatsByReservationIDs_steady ids t C :
  ids_held ids t -> db_inv C -> steady no_locks (ExpireReservationSeatsByReservationIDs ids) t C.
Proof.
  intros Hh Hinv. apply update_seat_rows_steady; [done|..].
  - intros s [_ Hs]%andb_true_iff. to_prop. by apply reserved_active.
  - intros s [_ Hs]%andb_true_iff. to_prop. by rewrite Hs.
  - intros C1 HC1 k s [Hs _]%andb_true_iff. to_prop.
    by apply (header_same_rows _ t C C1 (Hh _ Hs) Hinv HC1).
Qed.

Lemma ExpireReservationSeatsByReservationIDs_extends ids : extends (ExpireReservationSeatsByReservationIDs ids).
Proof.
  apply update_seat_rows_extends; [done|]. intros s [_ Hs]%andb_true_iff. to_prop. by apply reserved_active.
Qed.

Lemma ExpireReservationsByIDs_inv ids ctx D x D' :
  ExpireReservationsByIDs ids ctx D = inr (x, D') ->
  D' = set_reservations (update_where
    (fun r => bool_decide (Reservation_ID r ∈ ids) && (Reservation_Status r ==? StatusReserved))
    (with_reservation_status StatusExpired (ctx_now ctx)) (reservations D)) D.
Proof. unfold ExpireReservationsByIDs. by intros [= _ <-]. Qed.

Lemma ExpireReservationsByIDs_extends ids : extends (ExpireReservationsByIDs ids).
Proof.
  intros ctx D x D' Hdb _ Hst. destruct (ExpireReservationsByIDs_ok ctx D ids Hdb) as [Heq Hs].
  rewrite Heq in Hst. injection Hst as _ <-. split; [|done].
  unfold grows, tables2. simpl. split_and!; auto with schema.
Qed.

Lemma ExpireReservationsByIDs_steady ids t C :
  ids_held ids t -> steady no_locks (ExpireReservationsByIDs ids) t C.
Proof.
  intros Hh ctx [] D C1 Hwf Hv Hst HC1. exists ctx. split; [done|].
  destruct (ExpireReservationsByIDs_extends ids ctx _ _ _ (well_formed_seen _ _ Hwf) Hv Hst) as [Hg _].
  unfold ExpireReservationsByIDs in Hst. injection Hst as <-.
  destruct (grown_rely _ _ _ _ _ HC1) as (Ha & _ & HC). unfold ExpireReservationsByIDs. do 2 f_equal.
  eapply acts_unique; [by apply acts_reservations, acts_change|].
  eapply acts_later; [by apply acts_reservations, acts_change|done|done|].
  unfold spares. simpl. split_and!; try done. apply change_spares.
  - intros r [_ Hs]%andb_true_iff. to_prop. intros Heq. by rewrite <- Heq in Hs.
  - intros k r [Hi _]%andb_true_iff. to_prop.
    assert (Heq : reservations C1 !! Reservation_ID r = reservations C !! Reservation_ID r).
    { destruct HC as [[_ HA] _]. unfold versions in HA.
      apply Forall_cons in HA as [(_ & _ & _ & _ & _ & Hag & _) _]. apply Hag. by apply Hh. }
    pose proof (reservations_keyed _ (inv_schema _ (proj1 Hwf))) as Hk.
    pose proof (reservations_keyed _ (inv_schema _ (proj1 (proj2 HC)))) as Hk1.
    split; intros Hr; [destruct (Hk _ _ Hr) as [<- _]|destruct (Hk1 _ _ Hr) as [<- _]]; congruence.
Qed.

(** Nothing that the transaction holds differs from what is committed. *)
Definition idle (t : Tx) (C : Database) : Prop :=
  forall C1, rely (versions t) C C1 -> overlay (tx_rows t) C1 = C1.

Lemma iruns_wrapf_bind {X B} text lk (st : stmt X) (f : X -> prog B) t C x t' C' :
  iruns (bind (wrapf text (sql_locking lk st)) f) t C (Ok x) t' C' ->
  exists C1 ctx y D, rely (versions t) C C1 /\ Valid (ctx_new_id ctx) = true /\
    st ctx (overlay (tx_rows t) C1) = inr (y, D) /\ iruns (f y) (grown_tx t (lk y) C1 D) C1 (Ok x) t' C'.
Proof.
  intros [(y & t1 & C1 & Hr1 & Hr2)|[(e & _ & [=])|[_ [=]]]]%iruns_bind.
  apply iruns_wrapf_sql in Hr1 as (HC1 & ctx & D & Hv & Hst & ->). by exists C1, ctx, y, D.
Qed.

Lemma releaseExpiredHolds_iruns sids t C t2 C2 C1 :
  idle t C -> iruns (releaseExpiredHolds sids) t C (Ok tt) t2 C2 -> rely (versions t2) C2 C1 ->
  exists now ids ts ts', overlay (tx_rows t2) C1 = expire_holds ids ts ts' C1 /\
    overdue_or_settled now sids ids C1.
Proof.
  intros Hidle Hrun HC1. pose proof (rely_earlier _ _ _ _ _ _ _ Hrun HC1) as Hall.
  unfold releaseExpiredHolds in Hrun. destruct Hrun as [now Hrun].
  apply iruns_wrapf_bind in Hrun as (Ca & ctx & ids & D & HCa & _ & Hst & Hrun).
  unfold ListExpiredActiveReservationIDsForSeats in Hst. apply reading_inv in Hst as [Hids ->].
  rewrite (Hidle _ HCa) in Hids. injection Hids as Hids. change (merge_sort uuid_le _) with (overdue_holders now sids Ca) in Hids.
  subst ids. set (ids := overdue_holders now sids Ca) in *.
  set (ta := grown_tx t _ _ _) in *. assert (Hta : tx_rows ta = tx_rows t) by apply grown_reads.
  exists now, ids. assert (Hinva : db_inv Ca) by apply HCa.
  assert (Hsettled : overdue_or_settled now sids ids C1).
  { apply overdue_later; [done|]. eapply rely_earlier in HC1; [|exact Hrun]. apply HC1. }
  destruct (length ids =? 0)%nat eqn:Hlen; cbn [negb] in Hrun.
  { apply Nat.eqb_eq, length_zero_iff_nil in Hlen. destruct Hrun as (_ & -> & ->).
    exists (MkTs 0 true), (MkTs 0 true). split; [|done]. rewrite Hlen, expire_holds_nil, Hta. by apply Hidle. }
  apply iruns_wrapf_bind in Hrun as (Cb & ctxb & l & D & HCb & _ & Hst & Hrun).
  destruct (LockReservationsByID_holds _ _ _ _ _ _ (proj2 HCb) Hst) as [-> Hheld].
  { intros rid Hrid. destruct (overdue_holders_reserved _ _ _ Hinva _ Hrid) as (r & Hr & _).
    destruct HCb as [[Hsteps _] _]. destruct (overlay_grows (tx_rows ta) _ _ (world_steps_grow _ _ Hsteps))
      as (_ & _ & _ & _ & _ & Hg & _). apply Hg. rewrite Hta, (Hidle _ HCa). eauto. }
  set (tb := grown_tx ta _ _ _) in *.
  apply iruns_wrapf_bind in Hrun as (Cc & ctxc & [] & Dc & HCc & Hvc & Hstc & Hrun).
  set (tc := grown_tx tb _ _ _) in *.
  apply iruns_wrapf_sql in Hrun as (HCd & ctxd & Dd & Hvd & Hstd & ->).
  set (td := grown_tx tc _ _ _) in *.
  assert (Hb : rely (versions tb) Cb Cc) by done.
  assert (Hrc : rely (versions tc) Cc C1) by (eapply rely_trans; [exact HCd|by eapply rely_grown]).
  assert (Hrb : rely (versions tb) Cb C1) by (eapply rely_trans; [exact Hb|by eapply rely_grown]).
  destruct (ExpireReservationSeatsByReservationIDs_steady ids tb Cc Hheld (proj1 (proj2 HCc))
    ctxc tt Dc C1 (proj2 HCc) Hvc Hstc Hrc) as (cc & _ & Hs1).
  assert (Hheldc : ids_held ids tc).
  { eapply ids_held_covers, Hheld. apply grown_covers.
    by apply (ExpireReservationSeatsByReservationIDs_extends ids ctxc _ tt Dc (well_formed_seen _ _ (proj2 HCc))). }
  destruct (ExpireReservationsByIDs_steady ids tc C2 Hheldc ctxd tt Dd C1 (proj2 HCd) Hvd Hstd HC1) as (cd & _ & Hs2).
  exists (ctx_now cc), (ctx_now cd). split; [|done].
  apply update_seat_rows_inv in Hs1 as [_ Hs1]; [|done]. apply ExpireReservationsByIDs_inv in Hs2.
  fold tc in Hs1. fold td in Hs2. rewrite Hs2, Hs1.
  assert (Hbase : overlay (tx_rows tb) C1 = C1).
  { assert (Hab : overlay (tx_rows tb) C1 = overlay (tx_rows ta) C1).
    { apply locked_later. by destruct (grown_rely _ _ _ _ _ Hrb) as (Ha & _ & _). }
    rewrite Hab, Hta. by apply Hidle. }
  by rewrite Hbase.
Qed.

(** ** ReserveSeats *)

(** The callback after the release. *)
Definition claim_seats (vs : VisitorSession) (ev : UUID) (sids : list UUID) (key : string) (exp : Z)
    : prog SeatReservationResponse :=
  let* r := try (sql (CreateReservation ev (VisitorSession_ID vs)
    (VisitorSession_UserID vs) StatusReserved ReservationTypeSeats key (MkTs exp true))) in
  match r with
  | inl err =>
      if isUniqueViolation err then Fail (Sentinel ErrIdempotencyReplayRequired)
      else Fail (Wrapped "create seat reservation" err)
  | inr reservation =>
      let* reservedSeats := for_each sids (reserve_seat (Reservation_ID reservation) exp) [] in
      Ret (seatReservationToResponse reservation reservedSeats)
  end.

Lemma reserve_seat_plain rid exp x acc : plain (reserve_seat rid exp x acc).
Proof. unfold reserve_seat. plain_tac. Qed.

Lemma claim_seats_serial vs ev sids key exp t C : serial t C (claim_seats vs ev sids key exp).
Proof.
  apply serial_try_sql.
  { intros e. destruct (isUniqueViolation e); apply gives_up_Fail. }
  intros C1 _. split; [apply CreateReservation_steady|]. intros ctx r D _ _.
  apply serial_bind; [|intros; apply serial_Ret].
  apply (serial_for_each (fun _ => True)); [|apply reserve_seat_plain|done|done].
  intros x acc t2 C2 _ _. apply serial_try_sql.
  { intros e. destruct (isUniqueViolation e); apply gives_up_Fail. }
  intros C3 _. split; [apply CreateReservationSeat_steady|]. intros. apply serial_Ret.
Qed.

Lemma runs_bind_inv {A B} (p : prog A) (f : A -> prog B) D x D' :
  runs (bind p f) D (Ok x) D' -> exists y D1, runs p D (Ok y) D1 /\ runs (f y) D1 (Ok x) D'.
Proof.
  revert D. induction p as [y|e| |k IH|n k IH|X lk st k IH|k IH|k IH|k IH]; intros D; simpl; try done.
  - intros Hr. by exists y, D.
  - by intros [[=] _].
  - by intros [[=] _].
  - intros [z (y & D1 & ? & ?)%IH]. exists y, D1. eauto.
  - intros (b & Hb & (y & D1 & ? & ?)%IH). exists y, D1. eauto.
  - intros [[e (y & D1 & ? & ?)%IH]|(ctx & Hv & Hr)]; [exists y, D1; eauto|].
    destruct (st ctx D) as [e|[z D2]] eqn:Hst; apply IH in Hr as (y & D1 & ? & ?);
      (exists y, D1; split; [|done]; right; exists ctx; by rewrite Hst).
Qed.

(** The loop succeeds only on seats that are free. *)
Lemma reserve_seats_free rid exp sids acc D x D' :
  runs (for_each sids (reserve_seat rid exp) acc) D (Ok x) D' ->
  forall y, y ∈ sids -> y ∉ active_seat_ids (reservation_seats D).
Proof.
  revert acc D. induction sids as [|z sids IH]; intros acc D Hr y Hy; [by apply not_elem_of_nil in Hy|].
  apply runs_bind_inv in Hr as (acc' & D1 & Hr1 & Hr2).
  apply runs_try_inv in Hr1 as [(e & Hr1)|(ctx & row & D2 & _ & Hst & Hr1)];
    [destruct (isUniqueViolation e); by destruct Hr1|].
  destruct Hr1 as [_ ->]. apply CreateReservationSeat_inv in Hst as (_ & _ & Hid & Hfree & _ & ->).
  simpl in Hfree. apply bool_decide_eq_true_1 in Hfree.
  apply elem_of_cons in Hy as [->|Hy]; [done|]. intros (k & s & Hk & Ha & Hs)%active_seat_ids_spec.
  apply (IH _ _ Hr2 y Hy), active_seat_ids_spec. exists k, s. split; [|done]. by apply lookup_insert_fresh.
Qed.

Lemma claim_seats_needs vs ev sids key exp D x D' :
  runs (claim_seats vs ev sids key exp) D (Ok x) D' ->
  session_key_free (VisitorSession_ID vs) key (reservations D) = true /\
  forall y, y ∈ sids -> y ∉ active_seat_ids (reservation_seats D).
Proof.
  intros [(e & Hr)|(ctx & r & D1 & _ & Hst & Hr)]%runs_try_inv; [destruct (isUniqueViolation e); by destruct Hr|].
  apply CreateReservation_inv in Hst as (_ & _ & _ & Hfree & _ & ->). split; [done|].
  apply runs_bind_inv in Hr as (l & D2 & Hr & _). exact (reserve_seats_free _ _ _ _ _ _ _ Hr).
Qed.

Lemma expire_holds_key sid key ids ts ts' D :
  session_key_free sid key (reservations (expire_holds ids ts ts' D)) = true ->
  session_key_free sid key (reservations D) = true.
Proof.
  rewrite !session_key_free_spec. intros Hf k r Hk.
  pose proof (Hf k _ (proj2 (update_where_lookup _ _ _ k _) (ex_intro _ r (conj Hk eq_refl)))) as Hr.
  by destruct (_ && _).
Qed.

Lemma GetSeat_none ctx db sid key :
  db_inv db -> session_key_free sid key (reservations db) = true ->
  GetSeatReservationByIdempotencyKey sid key ctx db = inr ([], db).
Proof.
  intros Hinv Hf. destruct (GetSeat_ok ctx db sid key Hinv) as (l & -> & [[-> _]|(r & (Hr & Hkey & Hty) & _)]); [done|].
  by destruct (free_key_unmade ReservationTypeSeats _ _ _ Hf _ _ Hr Hkey).
Qed.

(** Seats that are locked stay the seats of their event. *)
Lemma locked_seats_later ev sids t Cb C1 :
  tx_rows t = empty_db -> db_inv Cb -> db_inv C1 -> NoDup sids -> all_valid sids -> StronglySorted uuid_le sids ->
  sameUUIDSet (locked_seats ev sids Cb) sids = true ->
  rely (versions (grown_tx t (locks_seats (locked_seats ev sids Cb)) Cb (overlay (tx_rows t) Cb))) Cb C1 ->
  sameUUIDSet (locked_seats ev sids C1) sids = true.
Proof.
  intros Ht Hinv Hinv1 Hnd Hv Hs Hsame HC1.
  pose proof (lock_check ev sids Cb (inv_schema _ Hinv) Hv Hnd Hs) as Hb. rewrite Hsame in Hb.
  destruct Hb as [Hl Hseats]. rewrite Hl in HC1. destruct (grown_rely _ _ _ _ _ HC1) as ((_&_&_&_&Ha&_) & _ & _).
  pose proof (lock_check ev sids C1 (inv_schema _ Hinv1) Hv Hnd Hs) as H1.
  destruct (sameUUIDSet (locked_seats ev sids C1) sids); [done|]. destruct H1 as (x & Hx & Hno).
  destruct (Hseats x Hx) as (p & Hp & Hev). destruct (Hno p); [|done].
  rewrite (Ha x); [done|]. exists p. rewrite Ht, overlay_empty. apply pend_locked; [|done].
  apply bool_decide_eq_true_2. unfold locks_seats. apply list_elem_of_fmap. eauto.
Qed.

Lemma of_res_iruns {A} (r : res A) t C x t' C' :
  iruns (of_res r) t C (Ok x) t' C' -> t' = t /\ C' = C /\ r = Ok x.
Proof. destruct r; simpl; intros ([= ->] & -> & ->). done. Qed.

(** What follows the locks, at the commit. *)
Lemma claim_released_runs vs ev sids key exp t C x t' C' C1 :
  idle t C -> rely (versions t') C' C1 ->
  iruns (releaseExpiredHolds sids ;;; claim_seats vs ev sids key exp) t C (Ok x) t' C' ->
  runs (releaseExpiredHolds sids ;;; claim_seats vs ev sids key exp) C1 (Ok x) (overlay (tx_rows t') C1) /\
  session_key_free (VisitorSession_ID vs) key (reservations C1) = true.
Proof.
  intros Hidle HC1 [([] & t3 & C3 & Hrel & Hcl)|[(e & _ & [=])|[_ [=]]]]%iruns_bind.
  assert (Hinv1 : db_inv C1) by apply HC1.
  pose proof (claim_seats_serial _ _ _ _ _ _ _ _ _ _ _ Hcl I HC1) as Hruns.
  destruct (releaseExpiredHolds_iruns _ _ _ _ _ C1 Hidle Hrel) as (now & ids & ts & ts' & Heq & Hset).
  { by eapply rely_earlier. }
  rewrite Heq in Hruns. destruct (claim_seats_needs _ _ _ _ _ _ _ _ Hruns) as [Hkey Hfree].
  split; [|by eapply expire_holds_key].
  eapply runs_bind; [|exact Hruns].
  rewrite <- (expire_holds_same now sids ids ts ts' C1 Hinv1 Hset Hfree). by apply releaseExpiredHolds_runs.
Qed.

Definition reserves_seats (vs : VisitorSession) (ev : UUID) (sids : list UUID) (key : string) (exp : Z)
    (resp : SeatReservationResponse) (D D' : Database) : Prop :=
  seats_outcome adversary vs ev sids key exp D (Ok resp) D'.

(** The rows that a lookup by key finds are those of a replay. *)
Lemma seat_rows_replay ctx db sid key l db' resp :
  db_inv db -> GetSeatReservationByIdempotencyKey sid key ctx db = inr (l, db') -> l <> [] ->
  seatRowsToResponse l = Ok resp -> seats_replay sid key db resp.
Proof.
  intros Hinv Hst Hne Hresp. destruct (GetSeat_ok ctx db sid key Hinv) as (l' & Hl & Hrows).
  rewrite Hst in Hl. injection Hl as -> _.
  destruct Hrows as [[-> _]|(r & Hmade & Hsr & _)]; [done|]. exists r. split; [done|].
  rewrite Hsr in Hresp. unfold seatReservationToResponse.
  destruct (seats_of _ db) as [|s rest]; [by rewrite Hsr in Hne|].
  rewrite fmap_cons in Hresp. injection Hresp as <-. simpl. by rewrite <- list_fmap_compose.
Qed.

Lemma reserveSeatsTx_end vs ev sids key exp now C x t' C' C1 :
  NoDup sids -> all_valid sids -> StronglySorted uuid_le sids ->
  iruns (reserveSeatsTx vs ev sids key exp) (MkTx now empty_db []) C (Ok x) t' C' ->
  rely (versions t') C' C1 ->
  serial_end (reserveSeatsTx vs ev sids key exp) (reserves_seats vs ev sids key exp) C t' C1 x.
Proof.
  intros Hnd Hv Hs Hr HC1. assert (Hinv1 : db_inv C1) by apply HC1.
  apply iruns_wrapf_bind in Hr as (Ca & ctx & existing & D & HCa & _ & Hst & Hr).
  pose proof Hst as Hget. unfold GetSeatReservationByIdempotencyKey in Hst. apply reading_inv in Hst as [_ ->].
  set (ta := grown_tx _ _ _ _) in *. assert (Hta : tx_rows ta = empty_db) by apply grown_reads.
  destruct (length existing =? 0)%nat eqn:Hlen; cbn [negb] in Hr.
  2: { apply of_res_iruns in Hr as (-> & -> & Hresp). left. split; [done|]. exists Ca.
       split_and!; [apply HCa| |apply HC1]. apply so_replayed. cbn [tx_rows] in Hget. rewrite overlay_empty in Hget.
       eapply seat_rows_replay; [apply HCa|exact Hget| |done]. by intros ->. }
  right. clear Hget. apply iruns_wrapf_bind in Hr as (Cb & ctxb & l & D & HCb & _ & Hst & Hr).
  unfold LockEventSeats in Hst. apply reading_inv in Hst as [Hl ->].
  rewrite Hta, overlay_empty in Hl. injection Hl as Hl. change (Seat_ID <$> _) with (locked_seats ev sids Cb) in Hl.
  subst l. assert (Hinvb : db_inv Cb) by apply HCb.
  destruct (sameUUIDSet (locked_seats ev sids Cb) sids) eqn:Hsame; cbn [negb] in Hr; [|by destruct Hr].
  pose proof (rely_earlier _ _ _ _ _ _ _ Hr HC1) as HbC1.
  pose proof (locked_seats_later ev sids ta Cb C1 Hta Hinvb Hinv1 Hnd Hv Hs Hsame HbC1) as Hsame1.
  pose proof (lock_check ev sids Cb (inv_schema _ Hinvb) Hv Hnd Hs) as Hb. rewrite Hsame in Hb. destruct Hb as [Hb _].
  pose proof (lock_check ev sids C1 (inv_schema _ Hinv1) Hv Hnd Hs) as H1. rewrite Hsame1 in H1. destruct H1 as [H1 _].
  rewrite Hb in Hr. apply (claim_released_runs _ _ _ _ _ _ _ _ _ _ C1) in Hr as [Hruns Hkey]; [| |done].
  2: { intros C2 HC2. rewrite locked_later by apply (grown_rely _ _ _ _ _ HC2). by rewrite Hta, overlay_empty. }
  eapply runs_bind; [eapply (runs_wrapf_sql _ _ _ any_ctx); [done|by apply GetSeat_none]|]. cbn [length Nat.eqb negb].
  eapply runs_bind; [eapply (runs_wrapf_sql _ _ _ any_ctx); [done|by apply reading_inv]|].
  change (Seat_ID <$> _) with (locked_seats ev sids C1). rewrite H1 in Hsame1 |- *. rewrite Hsame1. exact Hruns.
Qed.

Lemma releaseExpiredHolds_plain sids : plain (releaseExpiredHolds sids).
Proof.
  unfold releaseExpiredHolds. plain_tac;
    apply ExpireReservationSeatsByReservationIDs_extends || apply ExpireReservationsByIDs_extends.
Qed.

Lemma reserveSeatsTx_plain vs ev sids key exp : plain (reserveSeatsTx vs ev sids key exp).
Proof.
  unfold reserveSeatsTx. plain_tac;
    match goal with
    | |- plain (releaseExpiredHolds _) => apply releaseExpiredHolds_plain
    | |- plain (reserve_seat _ _ _ _) => apply reserve_seat_plain
    end.
Qed.

Lemma reserveSeatsTx_takes_effect vs ev sids key exp :
  NoDup sids -> sids <> [] -> all_valid sids -> StronglySorted uuid_le sids ->
  takes_effect (reserveSeatsTx vs ev sids key exp) (reserves_seats vs ev sids key exp).
Proof.
  intros Hnd Hne Hv Hs. apply serial_end_takes_effect; [intros; by eapply reserveSeatsTx_end|].
  intros D Hinv. eapply wp_mono; [|by apply reserveSeatsTx_wp].
  intros r [D' saved] [_ Hpost] x ->. destruct Hpost as [[-> Hrep]|(now & rid & -> & Hg)].
  - split; [by apply so_replayed|done].
  - split; [by eapply so_reserved|by eapply seats_granted_steps].
Qed.

Lemma replaySeats_linearizable sid key :
  linearizable (replaySeats sid key) (fun resp D D' => D' = D /\ seats_replay sid key D resp).
Proof.
  intros C Hinv C1 HC1. destruct HC1 as [[Hsteps _] [Hinv1 _]]. split; [by intros f; split_and!|].
  intros ctx Hv. unfold open_rows. rewrite overlay_empty.
  destruct (GetSeatReservationByIdempotencyKey _ _ _ _) as [e|[l D]] eqn:Hst; [by split_and!|].
  pose proof Hst as Hr. unfold GetSeatReservationByIdempotencyKey in Hr. apply reading_inv in Hr as [_ ->].
  split; [apply grows_refl|]. split; [apply Hinv1|]. split; [done|]. cbn -[seatRowsToResponse].
  destruct (length l =? 0)%nat eqn:Hlen; [by split_and!|].
  destruct (seatRowsToResponse l) as [resp|e|] eqn:Hresp; [|by split_and!..].
  split_and!; [done..|]. intros x [= <-]. exists C1, C1. split_and!; [done|done| |done].
  eapply seat_rows_replay; [done|exact Hst| |done]. by intros ->.
Qed.

Definition seats_granted_for (ttl : Z) (vs : VisitorSession) (input : SeatReservationRequest)
    (resp : SeatReservationResponse) (D D' : Database) : Prop :=
  exists ev sids now, parseSeatInput input = Ok (ev, sids) /\
    reserves_seats vs ev sids (TrimSpace (SReq_IdempotencyKey input)) (now + ttl) resp D D'.

Lemma ReserveSeats_linearizable ttl vs input :
  linearizable (ReserveSeats ttl vs input) (seats_granted_for ttl vs input).
Proof.
  unfold ReserveSeats. pose proof (parseSeatInput_cases input) as Hin.
  destruct (parseSeatInput input) as [[ev sids]|e|] eqn:Hparse; [|apply linearizable_Fail|done].
  destruct Hin as (_ & Hne & Hnd & Hv & Hs & _). intros C Hinv now. cbn [bind of_res]. set (key := TrimSpace _).
  apply safe_bind, safe_bind, safe_catch.
  eapply safe_mono; [|by eapply linearizable_WithTx, Hinv;
    [apply reserveSeatsTx_plain|by apply (reserveSeatsTx_takes_effect vs ev sids key (now + ttl))]].
  intros r t C' (-> & Hinv' & Hfrom & Hans). destruct r as [resp|e|]; simpl.
  - destruct (Hans resp eq_refl) as (D & D' & ? & ? & ?). split_and!; [done..|].
    intros x [= <-]. exists D, D'. split_and!; [done| |done]. by exists ev, sids, now.
  - destruct (errors_Is e _); [|by split_and!].
    eapply safe_mono; [|exact (linearizable_later _ _ C C' (replaySeats_linearizable _ key) Hinv' Hfrom)].
    intros r t C'' (-> & Hinv'' & Hfrom' & Hans'). split_and!; [done..|]. intros x Hx.
    destruct (Hans' x Hx) as (D & D' & ? & [-> Hrep] & ?). exists D, D. split_and!; [done| |done].
    exists ev, sids, now. split; [done|]. by apply so_replayed.
  - by split_and!.
Qed.
End creation.
