(* ===== verification/Refusals.v ===== *)
(** * Refusals beside other sessions

    An operation that answers with an error of its own has a reason: at some
    moment between its start and its answer the committed tables were such that
    it could not be done ([refuses]). A settlement judges one moment. A
    reservation reads the key and then the stock or the seats, so its reason is
    about the stock or the seats only: the key may have been used in between. *)

From S2P Require Import Prelude GoRuntime DbTypes Schema Prog Wp SqlcReservations ReservationService Inventory Lifecycle Settlement Requests Creation SeatCreation Service Locks Interleaving Isolation Serial Steady SerialSettlement SerialCreation.
Local Open Scope string_scope.
Local Open Scope list_scope.
Local Open Scope Z_scope.

Lemma fault_no_sentinel s : ~ fault_err (Sentinel s).
Proof. intros He%(fault_err_sentinel _ s). simpl in He. by rewrite bool_decide_eq_true_2 in He. Qed.

(** ** The errors a program can end with *)

(** Its own errors, inside a transaction, are in [P]. *)
Definition blames {A} (P : sentinel -> Prop) (p : prog A) : Prop :=
  forall t C s t' C', iruns p t C (Err (Sentinel s)) t' C' -> P s.

Section blames.
Context (P : sentinel -> Prop).

Lemma blames_bind {A B} (p : prog A) (f : A -> prog B) :
  blames P p -> (forall x, blames P (f x)) -> blames P (bind p f).
Proof.
  intros Hp Hf t C s t' C' [(x & t1 & C1 & _ & Hr)|[(e & Hr & [= <-])|[_ [=]]]]%iruns_bind; [by eapply Hf|by eapply Hp].
Qed.

Lemma blames_Ret {A} (x : A) : blames P (Ret x).
Proof. by intros t C s t' C' ([=] & _). Qed.

Lemma blames_Fail {A} e : (forall s, e = Sentinel s -> P s) -> blames P (@Fail A e).
Proof. intros He t C s t' C' ([= Hs] & _). by apply He. Qed.

Lemma blames_Now {A} (k : Z -> prog A) : (forall z, blames P (k z)) -> blames P (Now k).
Proof. intros Hk t C s t' C' [z Hr]. by eapply Hk. Qed.

Lemma blames_try_sql {X B} lk (st : stmt X) (f : error + X -> prog B) :
  (forall r, blames P (f r)) -> blames P (bind (try (sql_locking lk st)) f).
Proof.
  intros Hf t C s t' C' (C1 & _ & [(e & Hr)|(ctx & x & D & _ & _ & Hr)])%iruns_try_sql; by eapply Hf.
Qed.

Lemma blames_wrapf_sql {X} text lk (st : stmt X) : blames P (wrapf text (sql_locking lk st)).
Proof. apply blames_try_sql. intros [e|x]; [by apply blames_Fail|apply blames_Ret]. Qed.

Lemma blames_for_each {X S} (l : list X) (body : X -> S -> prog S) s :
  (forall x s, blames P (body x s)) -> blames P (for_each l body s).
Proof.
  intros Hb. revert s. induction l as [|x l IH]; intros s; [apply blames_Ret|]. by apply blames_bind.
Qed.
End blames.

(** A statement in a transaction, with what it answered. *)
Lemma iruns_try_sql_cases {X B} lk (st : stmt X) (f : error + X -> prog B) t C r t' C' :
  iruns (bind (try (sql_locking lk st)) f) t C r t' C' ->
  exists C1, rely (versions t) C C1 /\
    ((exists e, iruns (f (inl (fault_error e))) t C1 r t' C') \/
     (exists ctx e, Valid (ctx_new_id ctx) = true /\ st ctx (overlay (tx_rows t) C1) = inl e /\
        iruns (f (inl e)) t C1 r t' C') \/
     exists ctx x D, Valid (ctx_new_id ctx) = true /\ st ctx (overlay (tx_rows t) C1) = inr (x, D) /\
       iruns (f (inr x)) (grown_tx t (lk x) C1 D) C1 r t' C').
Proof.
  intros (C1 & HC1 & Hr). exists C1. split; [done|].
  destruct Hr as [[e Hr]|(ctx & Hv & Hr)]; [left; by exists e|right].
  destruct (st ctx _) as [e|[x D]] eqn:Hst; [left; by exists ctx, e|right]. by exists ctx, x, D.
Qed.

Section refusals.
Context `{PgtypeLaws}.

(** ** Settlements *)

Definition not_visible (vs : VisitorSession) (rid : UUID) (s : sentinel) (D : Database) : Prop :=
  s = ErrReservationNotFound /\ invisible vs rid D.

Lemma settle_refuses target cannot (p : prog (ReservationResponse * option error)) vs rid :
  final_status target -> plain p -> (forall t C, serial t C p) ->
  (forall D, db_inv D -> wp adversary p (fun res σ' => σ'.2 = Some D /\
     settle_post adversary target cannot vs rid D res σ'.1) (D, Some D)) ->
  refuses (WithTx p) (not_visible vs rid).
Proof.
  intros Hf Hp Hs Hwp. eapply refuses_WithTx; [done|by eapply settle_takes_effect|].
  intros now C s t' C' Hinv Hr.
  destruct (serial_refusal _ _ _ _ _ _ _ Hp (Hs _ _) Hwp Hinv Hr) as (Hst & _ & D' & _ & Hpost).
  exists C'. split; [done|]. split; [|done]. destruct Hpost as [[_ He]|[[= ->] Hno]]; [|done].
  by apply fault_no_sentinel in He.
Qed.

Lemma CancelReservation_refuses vs rid : refuses (CancelReservation vs rid) (not_visible vs rid).
Proof.
  eapply settle_refuses; [| | |intros D Hinv; by apply cancelTx_wp].
  - by right; left.
  - apply (settleTx_plain _ _ _ _ _ _ cancel_locked_as).
  - intros. apply (settleTx_serial _ _ _ _ _ _ _ _ cancel_locked_as).
Qed.

Lemma ConfirmReservation_refuses vs rid : refuses (ConfirmReservation vs rid) (not_visible vs rid).
Proof.
  eapply settle_refuses; [| | |intros D Hinv; by apply confirmTx_wp].
  - by left.
  - apply (settleTx_plain _ _ _ _ _ _ confirm_locked_as).
  - intros. apply (settleTx_serial _ _ _ _ _ _ _ _ confirm_locked_as).
Qed.

Definition bad_batch (batchSize : Z) (s : sentinel) (_ : Database) : Prop :=
  s = ErrReservationInvariantBroken /\ batchSize <= 0.

Lemma expireBatchTx_takes_effect n : takes_effect (expireBatchTx n) (expires_batch n).
Proof.
  apply serial_takes_effect; [intros; apply expireBatchTx_serial|].
  intros D Hinv. eapply wp_mono; [|by apply expireBatchTx_wp].
  intros r [D' saved] [_ Hpost] x ->. destruct Hpost as (now & skip & _ & _ & Hdone).
  split; [by exists now, skip|]. eapply inventory_steps_world, expired_steps, Hdone.
Qed.

Lemma ExpireExpiredReservations_refuses n : refuses (ExpireExpiredReservations n) (bad_batch n).
Proof.
  unfold ExpireExpiredReservations. destruct (Z.leb_spec n 0); [by apply refuses_Fail|].
  eapply refuses_WithTx; [apply expireBatchTx_plain|apply expireBatchTx_takes_effect|].
  intros now C s t' C' Hinv Hr.
  destruct (serial_refusal _ _ _ _ _ _ _ (expireBatchTx_plain n) (expireBatchTx_serial n _ _)
    (fun D HD => expireBatchTx_wp adversary n D (Some D) HD) Hinv Hr) as (_ & _ & D' & _ & [_ He]).
  by apply fault_no_sentinel in He.
Qed.

(** ** Readings *)

Lemma GetReservation_refuses vs rid : refuses (GetReservation vs rid) (not_visible vs rid).
Proof.
  intros C Hinv C1 [[H1 _] [Hinv1 _]].
  split; [intros f; simpl; rewrite fault_err_rows by constructor; by apply refused_other|].
  intros ctx _. unfold open_rows. rewrite overlay_empty. unfold SqlcReservations.GetReservationByID, reading.
  assert (Hnone : invisible vs rid C1 -> refused_as (not_visible vs rid) C
    (@Err ReservationResponse (Sentinel ErrReservationNotFound)) None C1).
  { intros Hno. split; [done|]. intros s [= <-]. exists C1. by split_and!. }
  destruct (reservations C1 !! rid) as [r|] eqn:Hr; simpl; [|apply Hnone; intros r; congruence].
  split; [apply grows_refl|]. split; [apply Hinv1|]. split; [done|].
  destruct (canAccessReservation r vs) eqn:Hacc; cbn [negb]; [|apply Hnone; intros r' Hr'; congruence].
  assert (Hty := reservations_type _ (inv_schema _ Hinv1) _ _ Hr). cbv beta in Hty.
  assert (Hother : forall (res : res ReservationResponse) C2, rtc world_step C1 C2 -> (forall s, res <> Err (Sentinel s)) ->
    refused_as (not_visible vs rid) C res None C2) by (intros; apply refused_other; [by etrans|done]).
  unfold buildReservationResponse. unfold ck_reservation_type in Hty.
  destruct (Reservation_ReservationType r ==? ReservationTypeQuantity) eqn:Eq;
    [|destruct (Reservation_ReservationType r ==? ReservationTypeSeats) eqn:Es; [|done]];
    (intros C2 [[H2 _] [Hinv2 _]]; split; [intros f; by apply Hother|]; intros ctx2 _;
     unfold open_rows; rewrite overlay_empty; simpl; split; [apply grows_refl|]; split; [apply Hinv2|];
     split; [done|]; by apply Hother).
Qed.

(** ** Reservations *)

(** The ticket type of the event, if there is one, has less than [q] units. *)
Definition out_of_stock (ev tid : UUID) (q : Z) (D : Database) : Prop :=
  forall t, ticket_types D !! tid = Some t -> TicketType_EventID t = ev ->
    TicketType_TotalQuantity t - TicketType_SoldQuantity t - TicketType_ReservedQuantity t < q.

Definition quantity_tx_refused (ev tid : UUID) (q : Z) (s : sentinel) (D : Database) : Prop :=
  s = ErrIdempotencyReplayRequired \/ (s = ErrInsufficientStock /\ out_of_stock ev tid q D).

Lemma claim_quantity_refused vs ev tid q key exp t C s t' C' :
  0 < q -> tx_rows t = empty_db ->
  iruns (claim_quantity vs ev tid q key exp) t C (Err (Sentinel s)) t' C' ->
  exists D, rtc world_step C D /\ quantity_tx_refused ev tid q s D /\ rtc world_step D C'.
Proof.
  intros Hq Ht Hr. pose proof (proj1 (proj1 (iruns_later _ _ _ _ _ _ Hr))) as Hsteps.
  apply iruns_try_sql_cases in Hr as (C1 & HC1 & [(f & Hr)|[(ctx & e & Hv & Hst & Hr)|(ctx & x & D & _ & _ & Hr)]]).
  - rewrite fault_err_rows in Hr by constructor. by destruct Hr as ([=] & _).
  - rewrite Ht, overlay_empty in Hst.
    pose proof (ReserveTicketQuantity_ok ctx C1 tid ev q (inv_schema _ (proj1 (proj2 HC1))) Hq) as Hok.
    rewrite Hst in Hok. destruct Hok as [-> Hout]. destruct Hr as ([= ->] & -> & ->).
    exists C1. split_and!; [apply HC1|by right|done].
  - exists C'. split; [done|]. split; [left|done]. revert Hr.
    apply (blames_try_sql (fun s => s = ErrIdempotencyReplayRequired)). intros [e|r].
    + destruct (isUniqueViolation e); apply blames_Fail; by intros s' [= <-].
    + apply blames_bind; [apply blames_wrapf_sql|intros; apply blames_Ret].
Qed.

Lemma reserveQuantityTx_refused vs ev tid q key exp now C s t' C' :
  0 < q -> iruns (reserveQuantityTx vs ev tid q key exp) (MkTx now empty_db []) C (Err (Sentinel s)) t' C' ->
  exists D, rtc world_step C D /\ quantity_tx_refused ev tid q s D /\ rtc world_step D C'.
Proof.
  intros Hq (C1 & HC1 & [(e & Hr)|(ctx & x & D & _ & _ & Hr)])%iruns_try_sql; [|by destruct Hr as ([=] & _)].
  destruct (isNoRows e); cbn [negb] in Hr; [|by destruct Hr as ([=] & _)].
  apply claim_quantity_refused in Hr as (D & HD & Hs & HD'); [|done|done]. exists D. split_and!; [|done|done].
  etrans; [apply HC1|exact HD].
Qed.

Definition quantity_refused (vs : VisitorSession) (input : QuantityReservationRequest) (s : sentinel)
    (D : Database) : Prop :=
  match s with
  | ErrInvalidQuantityReservation => parseQuantityInput input = Err (Sentinel s)
  | ErrInsufficientStock => exists ev tid, parseQuantityInput input = Ok (ev, tid) /\
      out_of_stock ev tid (QReq_Quantity input) D
  | ErrIdempotencyKeyConflict => no_reservation_of ReservationTypeQuantity (VisitorSession_ID vs)
      (TrimSpace (QReq_IdempotencyKey input)) D
  | _ => False
  end.

Lemma replayQuantity_refuses sid key :
  refuses (replayQuantity sid key)
    (fun s D => s = ErrIdempotencyKeyConflict /\ no_reservation_of ReservationTypeQuantity sid key D).
Proof.
  intros C Hinv C1 [[Hsteps _] [Hinv1 _]]. split.
  - intros f. simpl. rewrite fault_err_rows by constructor. by apply refused_other.
  - intros ctx Hv. simpl. rewrite overlay_empty. pose proof (GetQuantity_ok ctx C1 sid key Hinv1) as Hget.
    destruct (GetQuantityReservationByIdempotencyKey _ _ _ _) as [e|[row D]].
    + destruct Hget as [-> Hno]. simpl. split; [done|]. intros s [= <-]. exists C1. by split_and!.
    + destruct Hget as [-> _]. split; [apply grows_refl|]. split; [apply Hinv1|]. split; [done|].
      by apply refused_other.
Qed.

(** What follows the transaction of a reservation: the error, or a replay. *)
Lemma reserve_refuses {A} (fn replay : prog A) spec tx_reason replay_reason (reason : sentinel -> Database -> Prop) C0 C :
  plain fn -> takes_effect fn spec ->
  (forall now C s t' C', db_inv C -> iruns fn (MkTx now empty_db []) C (Err (Sentinel s)) t' C' ->
     exists D, rtc world_step C D /\ tx_reason s D /\ rtc world_step D C') ->
  refuses replay replay_reason ->
  (forall s D, tx_reason s D -> s = ErrIdempotencyReplayRequired \/ reason s D) ->
  (forall s D, replay_reason s D -> reason s D) ->
  db_inv C -> rtc world_step C0 C ->
  safe (let* r := try (WithTx fn) in
        match r with
        | inl err => if errors_Is err (Sentinel ErrIdempotencyReplayRequired) then replay else Fail err
        | inr response => Ret response
        end) (refused_as reason C0) None C.
Proof.
  intros Hp Heff Hfn Hreplay Htx Hre Hinv HC0. apply safe_bind, safe_bind, safe_catch.
  eapply safe_mono; [|apply safe_and; [exact (linearizable_WithTx fn spec Hp Heff C Hinv)
    |exact (refuses_later _ _ C0 C (refuses_WithTx fn spec tx_reason Hp Heff Hfn) Hinv HC0)]].
  intros [x|e|] t C' [(-> & Hinv' & _ & _) [Hfrom Hr]]; simpl; [by apply refused_other| |by apply refused_other].
  destruct (errors_Is e _) eqn:He.
  - eapply safe_mono; [|exact (refuses_later _ _ C0 C' Hreplay Hinv' Hfrom)].
    intros r t C'' [Hfrom' Hr']. split; [done|]. intros s Hs. destruct (Hr' s Hs) as (D & ? & ? & ?).
    exists D. split_and!; [done|by apply Hre|done].
  - split; [done|]. intros s [= ->]. destruct (Hr s eq_refl) as (D & ? & HD & ?).
    exists D. split_and!; [done| |done]. destruct (Htx s D HD) as [->|?]; [|done].
    by rewrite errors_Is_refl in He.
Qed.

Lemma ReserveQuantity_refuses ttl vs input :
  refuses (ReserveQuantity ttl vs input) (quantity_refused vs input).
Proof.
  unfold ReserveQuantity. pose proof (parseQuantityInput_cases input) as Hin.
  destruct (parseQuantityInput input) as [[ev tid]|e|] eqn:Hparse; [|by rewrite Hin in *; apply refuses_Fail|done].
  destruct Hin as [Hq _]. intros C Hinv now. cbn [bind of_res]. set (key := TrimSpace _).
  eapply reserve_refuses; [apply reserveQuantityTx_plain|by apply reserveQuantityTx_takes_effect
    |intros; by eapply reserveQuantityTx_refused|apply replayQuantity_refuses| | |done|done].
  - intros s D [->|[-> Hout]]; [by left|right]. by exists ev, tid.
  - by intros s D [-> Hno].
Qed.

(** *** Seats *)

Definition seats_tx_refused (ev : UUID) (sids : list UUID) (s : sentinel) (D : Database) : Prop :=
  s = ErrIdempotencyReplayRequired \/ s = ErrSeatUnavailable \/ (s = ErrSeatsNotFound /\ seats_missing ev sids D).

Lemma claim_seats_blames vs ev sids key exp :
  blames (fun s => s = ErrIdempotencyReplayRequired \/ s = ErrSeatUnavailable)
    (releaseExpiredHolds sids ;;; claim_seats vs ev sids key exp).
Proof.
  apply blames_bind; [|intros _].
  - unfold releaseExpiredHolds. apply blames_Now. intros now. cbn [bind].
    apply blames_bind; [apply blames_wrapf_sql|intros ids]. destruct (negb _); [|apply blames_Ret].
    repeat (apply blames_bind; [apply blames_wrapf_sql|intros _]). apply blames_wrapf_sql.
  - apply blames_try_sql. intros [e|r].
    + destruct (isUniqueViolation e); apply blames_Fail; [|done]. intros s [= <-]. by left.
    + apply blames_bind; [|intros; apply blames_Ret]. apply blames_for_each. intros x acc.
      apply blames_try_sql. intros [e|row]; [|apply blames_Ret].
      destruct (isUniqueViolation e); apply blames_Fail; [|done]. intros s [= <-]. by right.
Qed.

(** The first statement of the callback fails, or goes on. *)
Lemma iruns_wrapf_fails {X B} text lk (st : stmt X) (f : X -> prog B) t C s t' C' :
  iruns (bind (wrapf text (sql_locking lk st)) f) t C (Err (Sentinel s)) t' C' ->
  exists C1 ctx y D, rely (versions t) C C1 /\ st ctx (overlay (tx_rows t) C1) = inr (y, D) /\
    iruns (f y) (grown_tx t (lk y) C1 D) C1 (Err (Sentinel s)) t' C'.
Proof.
  intros [(y & t1 & C1 & Hr1 & Hr2)|[(e & Hr & [= <-])|[_ [=]]]]%iruns_bind.
  - apply iruns_wrapf_sql in Hr1 as (HC1 & ctx & D & _ & Hst & ->). by exists C1, ctx, y, D.
  - by apply (blames_wrapf_sql (fun _ => False)) in Hr.
Qed.

Lemma reserveSeatsTx_refused vs ev sids key exp now C s t' C' :
  NoDup sids -> all_valid sids -> StronglySorted uuid_le sids ->
  iruns (reserveSeatsTx vs ev sids key exp) (MkTx now empty_db []) C (Err (Sentinel s)) t' C' ->
  exists D, rtc world_step C D /\ seats_tx_refused ev sids s D /\ rtc world_step D C'.
Proof.
  intros Hnd Hv Hs (Ca & ctx & existing & D & HCa & Hst & Hr)%iruns_wrapf_fails.
  unfold GetSeatReservationByIdempotencyKey in Hst. apply reading_inv in Hst as [_ ->].
  set (ta := grown_tx _ _ _ _) in *. assert (Hta : tx_rows ta = empty_db) by apply grown_reads.
  destruct (length existing =? 0)%nat; cbn [negb] in Hr.
  2: { destruct existing; simpl in Hr; by destruct Hr as ([=] & _). }
  apply iruns_wrapf_fails in Hr as (Cb & ctxb & l & D & HCb & Hst & Hr).
  unfold LockEventSeats in Hst. apply reading_inv in Hst as [Hl ->].
  rewrite Hta, overlay_empty in Hl. injection Hl as Hl. change (Seat_ID <$> _) with (locked_seats ev sids Cb) in Hl.
  subst l. pose proof (lock_check ev sids Cb (inv_schema _ (proj1 (proj2 HCb))) Hv Hnd Hs) as Hb.
  pose proof (proj1 (proj1 (iruns_later _ _ _ _ _ _ Hr))) as Hsteps.
  exists Cb. split; [etrans; [apply HCa|apply HCb]|]. split; [|exact Hsteps].
  destruct (sameUUIDSet (locked_seats ev sids Cb) sids); cbn [negb] in Hr.
  - destruct Hb as [Hb _]. rewrite Hb in Hr. apply claim_seats_blames in Hr as [-> | ->]; [by left|by right; left].
  - destruct Hr as ([= ->] & _). right; right. by split.
Qed.

(** A seat that is not available was held, or a generated identifier was in use:
    this says only that the request was valid. *)
Definition seats_refused (vs : VisitorSession) (input : SeatReservationRequest) (s : sentinel)
    (D : Database) : Prop :=
  match s with
  | ErrInvalidSeatReservation => parseSeatInput input = Err (Sentinel s)
  | ErrSeatsNotFound => exists ev sids, parseSeatInput input = Ok (ev, sids) /\ seats_missing ev sids D
  | ErrSeatUnavailable => exists ev sids, parseSeatInput input = Ok (ev, sids)
  | ErrIdempotencyKeyConflict => no_reservation_of ReservationTypeSeats (VisitorSession_ID vs)
      (TrimSpace (SReq_IdempotencyKey input)) D
  | _ => False
  end.

Lemma replaySeats_refuses sid key :
  refuses (replaySeats sid key)
    (fun s D => s = ErrIdempotencyKeyConflict /\ no_reservation_of ReservationTypeSeats sid key D).
Proof.
  intros C Hinv C1 [[Hsteps _] [Hinv1 _]]. split; [intros f; by apply refused_other|].
  intros ctx Hv. unfold open_rows. rewrite overlay_empty.
  destruct (GetSeat_ok ctx C1 sid key Hinv1) as (l & -> & Hl).
  split; [apply grows_refl|]. split; [apply Hinv1|]. split; [done|]. cbn -[seatRowsToResponse].
  destruct (length l =? 0)%nat eqn:Hlen.
  - split; [done|]. intros s [= <-]. exists C1. split_and!; [done|done| |done].
    apply Nat.eqb_eq, length_zero_iff_nil in Hlen. destruct Hl as [[_ ?]|(r & _ & _ & ?)]; done.
  - destruct l; [done|]. by apply refused_other.
Qed.

Lemma ReserveSeats_refuses ttl vs input : refuses (ReserveSeats ttl vs input) (seats_refused vs input).
Proof.
  unfold ReserveSeats. pose proof (parseSeatInput_cases input) as Hin.
  destruct (parseSeatInput input) as [[ev sids]|e|] eqn:Hparse; [|by rewrite Hin in *; apply refuses_Fail|done].
  destruct Hin as (_ & Hne & Hnd & Hv & Hs & _). intros C Hinv now. cbn [bind of_res]. set (key := TrimSpace _).
  eapply reserve_refuses; [apply reserveSeatsTx_plain|by apply reserveSeatsTx_takes_effect
    |intros; by eapply reserveSeatsTx_refused|apply replaySeats_refuses| | |done|done].
  - intros s D [->|[->|[-> Hout]]]; [by left|by right; exists ev, sids|]. by right; exists ev, sids.
  - by intros s D [-> Hno].
Qed.
End refusals.
