(* ===== verification/Events.v ===== *)
(** * internal/modules/events: the catalog and the public inventory

    dto.go and service.go, and what each operation does to the catalog for any
    environment. *)

From S2P Require Import Prelude GoRuntime DbTypes Schema Prog Wp SqlcReservations Inventory SqlcEvents.
Local Open Scope string_scope.
Local Open Scope list_scope.
Local Open Scope Z_scope.

(** ** dto.go *)

Record CreateEventRequest := MkCreateEventRequest {
  CEv_Name : string; CEv_StartsAt : Z; CEv_EndsAt : Z }.

Record EventResponse := MkEventResponse {
  EvResp_ID : string; EvResp_Name : string; EvResp_StartsAt : Z; EvResp_EndsAt : Z;
  EvResp_CreatedAt : Z; EvResp_UpdatedAt : Z }.

Record CreateTicketTypeRequest := MkCreateTicketTypeRequest {
  CTt_Name : string; CTt_TotalQuantity : Z }.

Record TicketTypeResponse := MkTicketTypeResponse {
  TtResp_ID : string; TtResp_EventID : string; TtResp_Name : string; TtResp_TotalQuantity : Z;
  TtResp_SoldQuantity : Z; TtResp_ReservedQuantity : Z; TtResp_CreatedAt : Z; TtResp_UpdatedAt : Z }.

Record CreateSeatRequest := MkCreateSeatRequest {
  CSeat_Section : string; CSeat_RowName : string; CSeat_SeatNumber : string }.

Record CreateSeatsRequest := MkCreateSeatsRequest { CSeats_Seats : list CreateSeatRequest }.

Record SeatResponse := MkSeatResponse {
  SeResp_ID : string; SeResp_EventID : string; SeResp_Section : string; SeResp_RowName : string;
  SeResp_SeatNumber : string; SeResp_CreatedAt : Z; SeResp_UpdatedAt : Z }.

Record TicketTypeInventoryResponse := MkTicketTypeInventoryResponse {
  TInv_ID : string; TInv_EventID : string; TInv_Name : string; TInv_TotalQuantity : Z;
  TInv_SoldQuantity : Z; TInv_ReservedQuantity : Z; TInv_AvailableQuantity : Z }.

Record SeatInventoryResponse := MkSeatInventoryResponse {
  SInv_ID : string; SInv_EventID : string; SInv_Section : string; SInv_RowName : string;
  SInv_SeatNumber : string; SInv_Status : string }.

Record InventoryResponse := MkInventoryResponse {
  Inv_TicketTypes : list TicketTypeInventoryResponse; Inv_Seats : list SeatInventoryResponse }.

(** ** Conversions *)

Definition ToEventResponse (event : Event) : EventResponse :=
  MkEventResponse (UUIDToString (Event_ID event)) (Event_Name event)
    (TimestamptzToTime (Event_StartsAt event)) (TimestamptzToTime (Event_EndsAt event))
    (TimestamptzToTime (Event_CreatedAt event)) (TimestamptzToTime (Event_UpdatedAt event)).

Definition ToTicketTypeResponse (t : TicketType) : TicketTypeResponse :=
  MkTicketTypeResponse (UUIDToString (TicketType_ID t)) (UUIDToString (TicketType_EventID t))
    (TicketType_Name t) (TicketType_TotalQuantity t) (TicketType_SoldQuantity t)
    (TicketType_ReservedQuantity t) (TimestamptzToTime (TicketType_CreatedAt t))
    (TimestamptzToTime (TicketType_UpdatedAt t)).

Definition ToSeatResponse (seat : Seat) : SeatResponse :=
  MkSeatResponse (UUIDToString (Seat_ID seat)) (UUIDToString (Seat_EventID seat))
    (Seat_Section seat) (Seat_RowName seat) (Seat_SeatNumber seat)
    (TimestamptzToTime (Seat_CreatedAt seat)) (TimestamptzToTime (Seat_UpdatedAt seat)).

Definition ToTicketTypeInventoryResponse (row : ListTicketTypeInventoryByEventRow)
    : TicketTypeInventoryResponse :=
  MkTicketTypeInventoryResponse (UUIDToString (TI_ID row)) (UUIDToString (TI_EventID row))
    (TI_Name row) (TI_TotalQuantity row) (TI_SoldQuantity row) (TI_ReservedQuantity row)
    (TI_AvailableQuantity row).

Definition ToTicketTypeInventoryResponses (l : list ListTicketTypeInventoryByEventRow)
    : list TicketTypeInventoryResponse := ToTicketTypeInventoryResponse <$> l.

Definition ToSeatInventoryResponse (row : ListSeatInventoryByEventRow) : SeatInventoryResponse :=
  MkSeatInventoryResponse (UUIDToString (SI_ID row)) (UUIDToString (SI_EventID row))
    (SI_Section row) (SI_RowName row) (SI_SeatNumber row) (SI_Status row).

Definition ToSeatInventoryResponses (l : list ListSeatInventoryByEventRow)
    : list SeatInventoryResponse := ToSeatInventoryResponse <$> l.

(** ** The repository *)

Module EventRepository.

Definition CreateEvent `{Pgtype} (name : string) (startsAt endsAt : Timestamptz) : prog Event :=
  sql (SqlcEvents.CreateEvent name startsAt endsAt).

Definition GetEvent (eventID : UUID) : prog Event := sql (GetEventByID eventID).

Definition CreateTicketType (eventID : UUID) (name : string) (totalQuantity : Z) : prog TicketType :=
  sql (SqlcEvents.CreateTicketType eventID name totalQuantity).

Definition CreateSeat (eventID : UUID) (seat : CreateSeatRequest) : prog Seat :=
  sql (SqlcEvents.CreateSeat eventID (CSeat_Section seat) (CSeat_RowName seat) (CSeat_SeatNumber seat)).

Definition ListTicketTypeInventory `{Collation} (eventID : UUID) : prog (list ListTicketTypeInventoryByEventRow) :=
  sql (ListTicketTypeInventoryByEvent eventID).

Definition ListSeatInventory `{Collation} (eventID : UUID) : prog (list ListSeatInventoryByEventRow) :=
  sql (ListSeatInventoryByEvent eventID).
End EventRepository.

(** ** The service *)

(** The event is looked up first by every operation on its children. *)
Definition require_event (eventID : UUID) : prog Event :=
  let* r := try (EventRepository.GetEvent eventID) in
  match r with
  | inl err => if isNoRows err then Fail (Sentinel ErrEventNotFound) else Fail (Wrapped "get event" err)
  | inr event => Ret event
  end.

Definition GetEvent (eventID : UUID) : prog EventResponse :=
  let* event := require_event eventID in Ret (ToEventResponse event).

Definition CreateTicketType (eventID : UUID) (input : CreateTicketTypeRequest)
    : prog TicketTypeResponse :=
  if (TrimSpace (CTt_Name input) ==? "") || (CTt_TotalQuantity input <? 0)
  then Fail (Sentinel ErrInvalidTicketTypeInput)
  else
    let* _ := require_event eventID in
    let* ticketType := wrapf "create ticket type" (EventRepository.CreateTicketType eventID
      (TrimSpace (CTt_Name input)) (CTt_TotalQuantity input)) in
    Ret (ToTicketTypeResponse ticketType).

(** One turn of the loop of CreateSeats. There is no transaction around the
    loop: the seats of earlier turns stay when a later turn fails. *)
Definition create_seat (eventID : UUID) (seatInput : CreateSeatRequest) (seats : list SeatResponse)
    : prog (list SeatResponse) :=
  if (TrimSpace (CSeat_Section seatInput) ==? "") || (TrimSpace (CSeat_RowName seatInput) ==? "") ||
     (TrimSpace (CSeat_SeatNumber seatInput) ==? "")
  then Fail (Sentinel ErrInvalidSeatInput)
  else
    let* created := wrapf "create seat" (EventRepository.CreateSeat eventID (MkCreateSeatRequest
      (TrimSpace (CSeat_Section seatInput)) (TrimSpace (CSeat_RowName seatInput))
      (TrimSpace (CSeat_SeatNumber seatInput)))) in
    Ret (seats ++ [ToSeatResponse created]).

Definition CreateSeats (eventID : UUID) (input : CreateSeatsRequest) : prog (list SeatResponse) :=
  if (length (CSeats_Seats input) =? 0)%nat then Fail (Sentinel ErrInvalidSeatInput)
  else
    let* _ := require_event eventID in
    for_each (CSeats_Seats input) (create_seat eventID) [].

Definition CreateEvent `{Pgtype} (input : CreateEventRequest) : prog EventResponse :=
  if (TrimSpace (CEv_Name input) ==? "") || (CEv_StartsAt input ==? zero_time) ||
     (CEv_EndsAt input ==? zero_time)
  then Fail (Sentinel ErrInvalidEventInput)
  else if negb (CEv_StartsAt input <? CEv_EndsAt input) then Fail (Sentinel ErrInvalidEventInput)
  else
    let* event := wrapf "create event" (EventRepository.CreateEvent (TrimSpace (CEv_Name input))
      (MkTs (CEv_StartsAt input) true) (MkTs (CEv_EndsAt input) true)) in
    Ret (ToEventResponse event).

Definition GetInventory `{Collation} (eventID : UUID) : prog InventoryResponse :=
  let* _ := require_event eventID in
  let* ticketTypes := wrapf "list ticket inventory" (EventRepository.ListTicketTypeInventory eventID) in
  let* seats := wrapf "list seat inventory" (EventRepository.ListSeatInventory eventID) in
  Ret (MkInventoryResponse (ToTicketTypeInventoryResponses ticketTypes) (ToSeatInventoryResponses seats)).

(** ** What the service does *)

Section events_specs.
Variable a : assm.

(** [require_event] reads and answers whether the event exists. *)
Lemma require_event_wp eventID (Q : res Event -> St -> Prop) σ :
  (forall e, faulty a e -> Q (Err e) σ) ->
  (events σ.1 !! eventID = None -> Q (Err (Sentinel ErrEventNotFound)) σ) ->
  (forall ev, events σ.1 !! eventID = Some ev -> Q (Ok ev) σ) ->
  wp a (require_event eventID) Q σ.
Proof.
  intros Hf Hn Hok. apply wp_try_sql.
  - intros e He. rewrite (fault_err_rows _ (proj2 He)). apply Hf. by destruct He; repeat constructor.
  - intros ctx _ _. unfold GetEventByID, reading. destruct σ as [db saved]. cbn [fst snd] in *.
    destruct (events db !! eventID) as [ev|]; simpl; [by apply Hok|by apply Hn].
Qed.

(** The catalog grows by complete rows, and without interference of the
    environment the error is one of the [expected] ones. *)
Definition catalog_post {A} (expected : error -> Prop) (db : Database) (res : res A) (σ : St) : Prop :=
  σ.2 = None /\ rtc catalog_step db σ.1 /\
  match res with
  | Ok _ => True
  | Err e => quiet a = true -> expected e
  | Panicked => False
  end.

(** A calm environment offers no identifier that is in use. *)
Lemma fresh_not_used {V} (table : Database -> gmap UUID V) db id :
  (quiet a = true -> fresh_id db id = true) -> quiet a = true -> is_Some (table db !! id) ->
  (fresh_id db id = true -> absent (table db) id = true) -> False.
Proof.
  intros Hf Hq [x Hx] Ha. specialize (Ha (Hf Hq)). apply absent_None in Ha. congruence.
Qed.

(** Nothing was written. *)
Ltac unchanged :=
  intros; split; [|split]; cbn [fst snd] in *; try done;
  try (intros Hq; match goal with Hf : faulty _ _ |- _ => destruct Hf; congruence end).

Ltac in_fresh := unfold fresh_id; intros; by to_prop.

Lemma CreateEvent_wp `{Pgtype} input db :
  schema_ok db -> wp a (CreateEvent input) (catalog_post (fun e => e = Sentinel ErrInvalidEventInput) db) (db, None).
Proof.
  intros Hdb. unfold CreateEvent. destruct (_ || _ || _); [by unchanged|].
  destruct (negb _); [by unchanged|]. apply wp_bind, wp_wrapf_sql; [by unchanged|].
  intros ctx Hv Hc0; pose proof (undisturbed_fresh _ _ _ Hc0) as Hf; clear Hc0. pose proof (CreateEvent_ok ctx db (TrimSpace (CEv_Name input))
    (MkTs (CEv_StartsAt input) true) (MkTs (CEv_EndsAt input) true) Hdb Hv) as Hc.
  cbn [fst snd] in *. destruct (SqlcEvents.CreateEvent _ _ _ _ _) as [e|[row db']].
  - unchanged. intros Hq. destruct Hc as [_ Hc]. exfalso.
    apply (fresh_not_used events db _ Hf Hq Hc). in_fresh.
  - destruct Hc as (_ & -> & Hnone & Hs). split_and!; [done| |done]. by apply rtc_once, catalog_event.
Qed.

Definition ticket_type_errors (e : error) : Prop :=
  e = Sentinel ErrInvalidTicketTypeInput \/ e = Sentinel ErrEventNotFound.

Lemma CreateTicketType_wp eventID input db :
  schema_ok db -> int32_range (CTt_TotalQuantity input) = true ->
  wp a (CreateTicketType eventID input) (catalog_post ticket_type_errors db) (db, None).
Proof.
  intros Hdb Hr. unfold CreateTicketType. destruct (_ || _) eqn:E; [unchanged; by left|]. to_prop.
  apply wp_bind, require_event_wp; [by unchanged|unchanged; by right|]. intros ev Hev.
  apply wp_bind, wp_wrapf_sql; [by unchanged|]. intros ctx Hv Hc0; pose proof (undisturbed_fresh _ _ _ Hc0) as Hf; clear Hc0.
  pose proof (CreateTicketType_ok ctx db eventID (TrimSpace (CTt_Name input))
    (CTt_TotalQuantity input) Hdb Hv Hr ltac:(done)) as Hc.
  cbn [fst snd] in *. destruct (SqlcEvents.CreateTicketType _ _ _ _ _) as [e|[row db']].
  - unchanged. intros Hq. destruct Hc as [[_ Hc]|[_ Hc]]; [|congruence]. exfalso.
    apply (fresh_not_used ticket_types db _ Hf Hq Hc). in_fresh.
  - destruct Hc as (-> & -> & Hnone & Hs). split_and!; [done| |done].
    by apply rtc_once, (catalog_ticket db (new_ticket_type _ _ _ _)).
Qed.

Definition place_of (eventID : UUID) (x : CreateSeatRequest) : UUID * string * string * string :=
  (eventID, TrimSpace (CSeat_Section x), TrimSpace (CSeat_RowName x), TrimSpace (CSeat_SeatNumber x)).

(** Two of the new seats are at one place, or one at that of a seat that exists. *)
Definition duplicate_place (eventID : UUID) (l : list CreateSeatRequest) (db : Database) : Prop :=
  ~ NoDup (place_of eventID <$> l) \/
  exists x k s, x ∈ l /\ seats db !! k = Some s /\ seat_place s = place_of eventID x.

(** A duplicate place is not a refusal of its own. *)
Definition seats_errors (eventID : UUID) (l : list CreateSeatRequest) (db : Database) (e : error) : Prop :=
  e = Sentinel ErrInvalidSeatInput \/ e = Sentinel ErrEventNotFound \/
  (e = Wrapped "create seat" unique_violation /\ duplicate_place eventID l db).

(** The place of each seat is that of an old one or of an entry of [dn]. *)
Definition placed (eventID : UUID) (dn : list CreateSeatRequest) (db db1 : Database) : Prop :=
  forall k s, seats db1 !! k = Some s ->
    seats db !! k = Some s \/ seat_place s ∈ place_of eventID <$> dn.

Lemma placed_duplicate eventID dn x rest db db1 k s :
  placed eventID dn db db1 -> seats db1 !! k = Some s -> seat_place s = place_of eventID x ->
  duplicate_place eventID (dn ++ x :: rest) db.
Proof.
  intros Hpl Hk Hp. destruct (Hpl k s Hk) as [Hk0|Hin]; [right; exists x, k, s; set_solver|left].
  rewrite fmap_app, fmap_cons, Hp in *. intros (_ & Hno & _)%NoDup_app. apply (Hno _ Hin). set_solver.
Qed.

Lemma CreateSeats_wp eventID input db :
  schema_ok db ->
  wp a (CreateSeats eventID input) (catalog_post (seats_errors eventID (CSeats_Seats input) db) db) (db, None).
Proof.
  intros Hdb. unfold CreateSeats. destruct (_ =? _)%nat; [unchanged; by left|].
  apply wp_bind, require_event_wp; [by unchanged|unchanged; by right; left|]. intros ev Hev.
  apply (wp_for_each a _ _ _ (fun dn _ σ => σ.2 = None /\ rtc catalog_step db σ.1 /\ schema_ok σ.1 /\
    events σ.1 !! eventID = Some ev /\ placed eventID dn db σ.1)); [by split_and!; try done; left| |by intros s σ (? & ? & _)].
  intros dn x rest s [db1 saved] Hl (Hσ & Hst & Hs & Hev1 & Hpl); cbn [fst snd] in *; subst saved.
  unfold create_seat. destruct (_ || _ || _); [unchanged; by left|].
  apply wp_bind, wp_wrapf_sql; [by unchanged|]. intros ctx Hv Hc0; pose proof (undisturbed_fresh _ _ _ Hc0) as Hf; clear Hc0.
  pose proof (CreateSeat_ok ctx db1 eventID (TrimSpace (CSeat_Section x)) (TrimSpace (CSeat_RowName x))
    (TrimSpace (CSeat_SeatNumber x)) Hs Hv) as Hc.
  cbn [fst snd] in *. destruct (CreateSeat _ _ _ _ _ _) as [e|[row db']].
  - unchanged. intros Hq. destruct Hc as [[-> [Hid|(k & s0 & Hk & Hp)]]|[_ Hc]]; [| |congruence].
    + exfalso. apply (fresh_not_used seats db1 _ Hf Hq Hid). in_fresh.
    + right; right. split; [done|]. rewrite Hl. by apply (placed_duplicate _ _ _ _ _ db1 k s0).
  - destruct Hc as (-> & -> & Hnone & Hs' & _). split_and!; [done| |done|done|].
    { eapply rtc_r; [done|]. by apply (catalog_seat db1 (new_seat_row _ _ _ _ _)). }
    intros k s0 Hk. simpl in Hk. rewrite fmap_app.
    apply lookup_insert_Some in Hk as [[<- <-]|[_ Hk]]; [right; set_solver|].
    destruct (Hpl k s0 Hk) as [?|?]; [by left|right; set_solver].
Qed.
End events_specs.

(** ** The public inventory *)

(** The row of [s] that reserves or sells it, if any. *)
Definition seat_holder (s : Seat) (db : Database) : option ReservationSeat := head (active_rows_of s db).

Lemma active_rows_elem s db rs :
  rs ∈ active_rows_of s db <-> exists k, reservation_seats db !! k = Some rs /\
    ReservationSeat_SeatID rs = Seat_ID s /\ active_seat rs = true.
Proof.
  unfold active_rows_of. rewrite elem_of_select. split.
  - intros (k & Hk & HP). to_prop. eauto.
  - intros (k & Hk & Hid & Ha). exists k. split; [done|]. by rewrite Ha, bool_decide_eq_true_2.
Qed.

(** The partial unique index leaves at most one. *)
Lemma active_rows_single db s :
  schema_ok db -> active_rows_of s db = option_list (seat_holder s db).
Proof.
  intros Hdb. unfold seat_holder.
  assert (Hnd : NoDup (ReservationSeat_ID <$> active_rows_of s db))
    by apply select_ids_NoDup, (rseats_keyed _ Hdb).
  assert (Hin : forall rs, rs ∈ active_rows_of s db -> exists k, reservation_seats db !! k = Some rs /\
    ReservationSeat_SeatID rs = Seat_ID s /\ active_seat rs = true) by (intros; by apply active_rows_elem).
  destruct (active_rows_of s db) as [|x [|y l]]; [done|done|]. exfalso.
  destruct (Hin x) as (kx & Hx & Hidx & Hax); [set_solver|].
  destruct (Hin y) as (ky & Hy & Hidy & Hay); [set_solver|].
  assert (kx = ky) as <- by (eapply (rseats_unique _ Hdb); eauto; congruence).
  simplify_eq. rewrite !fmap_cons in Hnd. apply NoDup_cons in Hnd as [Hnd _]. set_solver.
Qed.

Lemma seat_holder_None db s :
  seat_holder s db = None <-> forall k rs, reservation_seats db !! k = Some rs ->
    ReservationSeat_SeatID rs = Seat_ID s -> active_seat rs = false.
Proof.
  unfold seat_holder. split.
  - intros Hn k rs Hk Hid. apply not_true_iff_false. intros Ha.
    assert (Hin : rs ∈ active_rows_of s db) by (apply active_rows_elem; eauto).
    destruct (active_rows_of s db); [by apply not_elem_of_nil in Hin|done].
  - intros Hall. destruct (active_rows_of s db) as [|rs l] eqn:Hl; [done|].
    assert (Hin : rs ∈ active_rows_of s db) by (rewrite Hl; set_solver).
    apply active_rows_elem in Hin as (k & Hk & Hid & Ha). rewrite (Hall k rs Hk Hid) in Ha. done.
Qed.

Lemma seat_holder_Some db s rs :
  schema_ok db ->
  seat_holder s db = Some rs <-> (exists k, reservation_seats db !! k = Some rs /\
    ReservationSeat_SeatID rs = Seat_ID s /\ active_seat rs = true).
Proof.
  intros Hdb. rewrite <- active_rows_elem, (active_rows_single _ _ Hdb).
  destruct (seat_holder s db); simpl; set_solver.
Qed.

Definition ticket_inventory (t : TicketType) : TicketTypeInventoryResponse :=
  MkTicketTypeInventoryResponse (UUIDToString (TicketType_ID t)) (UUIDToString (TicketType_EventID t))
    (TicketType_Name t) (TicketType_TotalQuantity t) (TicketType_SoldQuantity t)
    (TicketType_ReservedQuantity t)
    (TicketType_TotalQuantity t - TicketType_SoldQuantity t - TicketType_ReservedQuantity t).

Definition seat_inventory (db : Database) (s : Seat) : SeatInventoryResponse :=
  MkSeatInventoryResponse (UUIDToString (Seat_ID s)) (UUIDToString (Seat_EventID s)) (Seat_Section s)
    (Seat_RowName s) (Seat_SeatNumber s) (seat_status (seat_holder s db)).

Lemma ticket_inventory_rows db (l : list TicketType) :
  schema_ok db -> (forall t, t ∈ l -> exists k, ticket_types db !! k = Some t) ->
  exists rs, each_row ticket_inventory_row l = inr rs /\
    ToTicketTypeInventoryResponses rs = ticket_inventory <$> l.
Proof.
  intros Hdb. induction l as [|t l IH]; intros Hl; [by exists []|].
  destruct IH as (rs & Hrs & Heq); [set_solver|]. destruct (Hl t) as [k Hk]; [set_solver|].
  pose proof (ticket_bounds db k t Hdb Hk). cbn [each_row]. rewrite Hrs.
  unfold ticket_inventory_row.
  rewrite (int4_in (_ - TicketType_SoldQuantity t)) by (apply int32_range_spec; lia).
  rewrite int4_in by (apply int32_range_spec; lia).
  eexists. split; [done|]. unfold ToTicketTypeInventoryResponses in *. rewrite !fmap_cons, Heq. done.
Qed.

Lemma seat_inventory_rows db (l : list Seat) :
  schema_ok db ->
  ToSeatInventoryResponses (flat_map
    (fun s => seat_inventory_row s <$> left_join (active_rows_of s db)) l) = seat_inventory db <$> l.
Proof.
  intros Hdb. unfold ToSeatInventoryResponses. induction l as [|s l IH]; [done|].
  cbn [flat_map]. rewrite fmap_app, IH, (active_rows_single db s Hdb), fmap_cons.
  unfold seat_inventory at 2. by destruct (seat_holder s db).
Qed.

Lemma GetInventory_wp `{Collation} a eventID db :
  schema_ok db ->
  wp a (GetInventory eventID) (fun res σ => σ = (db, None) /\
    match res with
    | Ok inv => is_Some (events db !! eventID) /\
        inv = MkInventoryResponse (ticket_inventory <$> ticket_types_of eventID db)
                (seat_inventory db <$> seats_of eventID db)
    | Err e => faulty a e \/ (e = Sentinel ErrEventNotFound /\ events db !! eventID = None)
    | Panicked => False
    end) (db, None).
Proof.
  intros Hdb. unfold GetInventory. apply wp_bind, require_event_wp; cbn [fst snd].
  { intros e He. by split; [|left]. }
  { intros Hn. by split; [|right]. }
  intros ev Hev. apply wp_bind, wp_wrapf_sql; [intros e He; by split; [|left]|].
  intros ctx _ _. cbn [fst snd]. unfold ListTicketTypeInventoryByEvent, reading.
  destruct (ticket_inventory_rows db (ticket_types_of eventID db) Hdb) as (rs & -> & Hrs).
  { intros t (k & Hk & _)%elem_of_select. eauto. }
  apply wp_bind, wp_wrapf_sql; [intros e He; by split; [|left]|].
  intros ctx2 _ _. cbn [fst snd]. unfold ListSeatInventoryByEvent, reading.
  split; [done|]. split; [eauto|]. by rewrite Hrs, seat_inventory_rows.
Qed.
