(* ===== verification/IsolatedServices.v ===== *)
(** * Services beside other sessions

    Every operation of the services is safe to run beside any others: its
    transactions are serial ([SerialSettlement], [SerialCreation]), and a
    statement outside a transaction is a legal step of its own. *)

From S2P Require Import Prelude GoRuntime DbTypes Schema Prog Wp SqlcReservations ReservationService Inventory Settlement Requests Creation SeatCreation Service NetHttp SqlcAccounts Sessions Auth Worker SqlcEvents Locks Interleaving Isolation Serial Steady SerialSettlement SerialCreation Events.
Local Open Scope string_scope.
Local Open Scope list_scope.
Local Open Scope Z_scope.

(** ** Rules *)

Definition idle_end {A} (_ : res A) (t : option Tx) (C : Database) : Prop := t = None /\ db_inv C.

Lemma isolated_Ret {A} (x : A) : isolated (Ret x).
Proof. by intros C Hinv. Qed.

Lemma isolated_Fail {A} e : isolated (@Fail A e).
Proof. by intros C Hinv. Qed.

Lemma isolated_Panic {A} : isolated (@Panic A).
Proof. by intros C Hinv. Qed.

Lemma isolated_bind {A B} (p : prog A) (f : A -> prog B) :
  isolated p -> (forall x, isolated (f x)) -> isolated (bind p f).
Proof.
  intros Hp Hf C Hinv. apply safe_bind. eapply safe_mono; [|by apply Hp].
  intros [x|e|] t C' [-> Hinv']; [by apply Hf|done..].
Qed.

Lemma isolated_catch {A} (p : prog A) : isolated p -> isolated (catch p).
Proof. intros Hp C Hinv. apply safe_catch. eapply safe_mono; [|by apply Hp]. done. Qed.

Lemma isolated_try {A} (p : prog A) : isolated p -> isolated (try p).
Proof. intros Hp. apply isolated_bind; [by apply isolated_catch|]. by intros []. Qed.

Lemma isolated_wrapf {A} text (p : prog A) : isolated p -> isolated (wrapf text p).
Proof. intros Hp. apply isolated_bind; [by apply isolated_try|]. by intros []. Qed.

Lemma isolated_Now {A} (k : Z -> prog A) : (forall z, isolated (k z)) -> isolated (Now k).
Proof. intros Hk C Hinv z. by apply Hk. Qed.

Lemma isolated_time_Now : isolated time_Now.
Proof. by apply isolated_Now. Qed.

Lemma isolated_RandRead n : isolated (RandRead n of_sum).
Proof. by intros C Hinv []. Qed.

Lemma isolated_of_res {A} (r : res A) : isolated (of_res r).
Proof. by destruct r. Qed.

Lemma isolated_for_each {X S} (l : list X) (body : X -> S -> prog S) s :
  (forall x s, isolated (body x s)) -> isolated (for_each l body s).
Proof.
  intros Hb. revert s. induction l as [|x l IH]; intros s; [apply isolated_Ret|]. by apply isolated_bind.
Qed.

(** A statement that is a legal step. *)
Definition legal {X} (st : stmt X) : Prop :=
  forall ctx C x D, db_inv C -> Valid (ctx_new_id ctx) = true -> st ctx C = inr (x, D) -> rtc world_step C D.

Lemma isolated_sql {X} (st : stmt X) : legal st -> isolated (sql st).
Proof.
  intros Hst C Hinv C1 HC1. assert (Hinv1 : db_inv C1) by apply HC1. split; [done|].
  intros ctx Hv. unfold open_rows. rewrite overlay_empty. destruct (st ctx C1) as [e|[x D]] eqn:Heq; [done|].
  pose proof (Hst ctx _ _ _ Hinv1 Hv Heq) as Hsteps. pose proof (world_steps_inv _ _ Hsteps Hinv1) as HinvD.
  split; [by apply world_steps_grow|]. split; [apply HinvD|]. done.
Qed.

Lemma legal_reading {X} (f : Database -> error + X) : legal (reading f).
Proof. intros ctx C x D _ _ [_ ->]%reading_inv. done. Qed.

Create HintDb isolated.
#[export] Hint Resolve isolated_Ret isolated_Fail isolated_Panic isolated_time_Now isolated_RandRead
  isolated_of_res isolated_sql : isolated.
#[export] Hint Extern 5 (legal _) => apply legal_reading : isolated.

Ltac unfold_repository :=
  progress unfold ReservationRepository.GetReservationByID, SessionRepository.Create,
    SessionRepository.GetByTokenHash, SessionRepository.AttachUser, SessionRepository.Touch,
    AuthRepository.CreateUser, AuthRepository.GetUserByEmail, AuthRepository.GetUserByID,
    EventRepository.CreateEvent, EventRepository.GetEvent, EventRepository.CreateTicketType,
    EventRepository.CreateSeat, EventRepository.ListTicketTypeInventory, EventRepository.ListSeatInventory.

(** Through the structure of a program; calls of other operations are left. *)
Ltac isolated_tac :=
  repeat match goal with
  | |- isolated (bind _ _) => apply isolated_bind; [|intros]
  | |- isolated (try _) => apply isolated_try
  | |- isolated (wrapf _ _) => apply isolated_wrapf
  | |- isolated (for_each _ _ _) => apply isolated_for_each; intros
  | |- isolated (sql_locking _ _) => apply isolated_sql
  | |- isolated (Ret _) => apply isolated_Ret
  | |- isolated (Fail _) => apply isolated_Fail
  | |- isolated Panic => apply isolated_Panic
  | |- isolated time_Now => apply isolated_time_Now
  | |- isolated (RandRead _ of_sum) => apply isolated_RandRead
  | |- isolated (of_res _) => apply isolated_of_res
  | |- isolated (match ?x with _ => _ end) => destruct x
  | |- isolated (if ?b then _ else _) => destruct b
  | |- isolated _ => unfold_repository
  end; try match goal with |- legal _ => apply legal_reading end.

(** ** reservations *)

Section reservations.
Context `{PgtypeLaws}.
Variable reservationTTL : Z.

Lemma isolated_GetReservation vs rid : isolated (GetReservation vs rid).
Proof. unfold GetReservation, buildReservationResponse. isolated_tac. Qed.

Lemma isolated_handle req : isolated (handle reservationTTL req).
Proof.
  destruct req; (apply isolated_bind; [|done]).
  - eapply linearizable_isolated, ReserveQuantity_linearizable.
  - eapply linearizable_isolated, ReserveSeats_linearizable.
  - apply isolated_GetReservation.
  - eapply linearizable_isolated, CancelReservation_linearizable.
  - eapply linearizable_isolated, ConfirmReservation_linearizable.
  - eapply linearizable_isolated, ExpireExpiredReservations_linearizable.
Qed.
End reservations.

(** ** sessions and auth *)

Lemma legal_accounts {X} (st : stmt X) :
  (forall ctx C x D, schema_ok C -> Valid (ctx_new_id ctx) = true -> st ctx C = inr (x, D) ->
     accounts_changed C D /\ grows C D) -> legal st.
Proof.
  intros Hst ctx C x D Hinv Hv Heq. destruct (Hst ctx C x D (inv_schema _ Hinv) Hv Heq).
  by apply rtc_once, ws_accounts.
Qed.

Ltac account_insert := unfold grows, tables2; simpl; split_and!; auto with schema.

Lemma legal_CreateVisitorSession `{Pgtype} hash seen exp : legal (CreateVisitorSession hash seen exp).
Proof.
  apply legal_accounts. intros ctx C x D Hdb Hv Heq.
  pose proof (CreateVisitorSession_ok ctx C hash seen exp Hdb Hv) as Hok. rewrite Heq in Hok.
  destruct Hok as (_ & _ & -> & Hacc). split; [done|]. account_insert.
Qed.

Lemma legal_AttachUser sid uid : legal (AttachUserToVisitorSession sid uid).
Proof.
  apply legal_accounts. intros ctx C x D Hdb Hv Heq.
  pose proof (AttachUser_ok ctx C sid uid Hdb) as Hok. rewrite Heq in Hok.
  destruct Hok as (s & _ & _ & -> & Hacc). split; [done|]. account_insert.
Qed.

Lemma legal_Touch sid : legal (TouchVisitorSession sid).
Proof.
  apply legal_accounts. intros ctx C x D Hdb Hv Heq.
  pose proof (Touch_ok ctx C sid Hdb) as Hok. rewrite Heq in Hok.
  destruct Hok as (s & _ & _ & -> & Hacc). split; [done|]. account_insert.
Qed.

Lemma legal_CreateUser email hash : legal (CreateUser email hash).
Proof.
  apply legal_accounts. intros ctx C x D Hdb Hv Heq.
  pose proof (CreateUser_ok ctx C email hash Hdb Hv) as Hok. rewrite Heq in Hok.
  destruct Hok as (_ & _ & _ & -> & Hacc). split; [done|]. account_insert.
Qed.

(** What a client of the sessions module relies on beside other sessions. *)
Class SessionIsolated (S : SessionService) := {
  create_isolated : isolated svc_CreateAnonymousSession;
  current_isolated : forall r, isolated (svc_GetCurrentSession r);
  attach_isolated : forall session userID, isolated (svc_AttachUser session userID) }.

#[export] Instance NewService_isolated `{Pgtype} ttl cookieSecure : SessionIsolated (NewService ttl cookieSecure).
Proof.
  split; simpl.
  - unfold CreateAnonymousSession, GenerateToken, rand_Read. isolated_tac. apply legal_CreateVisitorSession.
  - intros r. unfold GetCurrentSession. isolated_tac. apply legal_Touch.
  - intros session userID. unfold AttachUser. isolated_tac. apply legal_AttachUser.
Qed.

Section auth.
Context `{Libraries} `{S : SessionService} `{!SessionIsolated S}.

Lemma isolated_Register email password : isolated (Register email password).
Proof. unfold Register, GenerateFromPassword. isolated_tac. apply legal_CreateUser. Qed.

Lemma isolated_Login r email password : isolated (Login r email password).
Proof.
  unfold Login. isolated_tac; auto using create_isolated, current_isolated, attach_isolated.
Qed.
End auth.

(** ** The worker *)

Lemma isolated_loop `{Pgtype} w moments log : isolated (@loop ReservationExpiry w moments log).
Proof.
  revert log. induction moments as [|m moments IH]; intros log; [apply isolated_Ret|]. simpl.
  isolated_tac; try apply IH. eapply linearizable_isolated, ExpireExpiredReservations_linearizable.
Qed.

Lemma isolated_Run `{Pgtype} w moments : isolated (@Run ReservationExpiry w moments).
Proof. unfold Run. destruct (_ <=? _); [apply isolated_Panic|apply isolated_loop]. Qed.

(** ** events *)

Lemma legal_catalog {X} (st : stmt X) :
  (forall ctx C x D, schema_ok C -> Valid (ctx_new_id ctx) = true -> st ctx C = inr (x, D) ->
     catalog_step C D) -> legal st.
Proof.
  intros Hst ctx C x D Hinv Hv Heq. apply rtc_once, ws_catalog. by apply (Hst ctx C x D (inv_schema _ Hinv)).
Qed.

Lemma legal_CreateEvent `{Pgtype} name starts ends : legal (SqlcEvents.CreateEvent name starts ends).
Proof.
  apply legal_catalog. intros ctx C x D Hdb Hv Heq.
  pose proof (CreateEvent_ok ctx C name starts ends Hdb Hv) as Hok. rewrite Heq in Hok.
  destruct Hok as (_ & -> & Hnone & Hs). by apply catalog_event.
Qed.

Lemma legal_CreateTicketType ev name total :
  int32_range total = true -> 0 <= total -> legal (SqlcEvents.CreateTicketType ev name total).
Proof.
  intros Hr H0. apply legal_catalog. intros ctx C x D Hdb Hv Heq.
  pose proof (CreateTicketType_ok ctx C ev name total Hdb Hv Hr H0) as Hok. rewrite Heq in Hok.
  destruct Hok as (-> & -> & Hnone & Hs). by apply (catalog_ticket C (new_ticket_type ctx ev name total)).
Qed.

Lemma legal_CreateSeat ev sec row number : legal (CreateSeat ev sec row number).
Proof.
  apply legal_catalog. intros ctx C x D Hdb Hv Heq.
  pose proof (CreateSeat_ok ctx C ev sec row number Hdb Hv) as Hok. rewrite Heq in Hok.
  destruct Hok as (_ & -> & Hnone & Hs & _). by apply catalog_seat.
Qed.

Section events.
Context `{Pgtype} `{Collation}.

Lemma isolated_require_event ev : isolated (require_event ev).
Proof. unfold require_event. isolated_tac. Qed.

Lemma isolated_GetEvent ev : isolated (GetEvent ev).
Proof. unfold GetEvent. isolated_tac. apply isolated_require_event. Qed.

Lemma isolated_CreateEvent input : isolated (Events.CreateEvent input).
Proof. unfold Events.CreateEvent. isolated_tac. apply legal_CreateEvent. Qed.

Lemma isolated_CreateTicketType ev input :
  int32_range (CTt_TotalQuantity input) = true -> isolated (Events.CreateTicketType ev input).
Proof.
  intros Hr. unfold Events.CreateTicketType. destruct (_ || _) eqn:E; [apply isolated_Fail|]. to_prop.
  isolated_tac; [apply isolated_require_event|]. by apply legal_CreateTicketType.
Qed.

Lemma isolated_CreateSeats ev input : isolated (CreateSeats ev input).
Proof.
  unfold CreateSeats, create_seat. isolated_tac; [apply isolated_require_event|apply legal_CreateSeat].
Qed.

Lemma isolated_GetInventory ev : isolated (GetInventory ev).
Proof. unfold GetInventory. isolated_tac. apply isolated_require_event. Qed.
End events.
