(* ===== verification/Config.v ===== *)
(** * internal/config: the environment of the processes

    Load and its helpers over the environment variables, with strconv.Atoi and
    strconv.ParseBool written out. time.ParseDuration (whose fractions go
    through float64) is a parameter. *)

From S2P Require Import Prelude GoRuntime.
Local Open Scope string_scope.
Local Open Scope list_scope.
Local Open Scope Z_scope.

(** ** strconv *)

Definition is_digit (c : ascii) : bool := (48 <=? byte_of_ascii c) && (byte_of_ascii c <=? 57).

(** The value of a digit string, left to right. *)
Definition digits_value (l : list ascii) : Z :=
  fold_left (fun n c => 10 * n + (byte_of_ascii c - 48)) l 0.

Definition ErrSyntax : error := ErrorString "invalid syntax".
Definition ErrRange : error := ErrorString "value out of range".

(** strconv.Atoi on a 64-bit int: an optional sign and decimal digits. *)
Definition Atoi (s : string) : error + Z :=
  let l := list_ascii_of_string s in
  let '(neg, digits) :=
    match l with
    | "-"%char :: l' => (true, l')
    | "+"%char :: l' => (false, l')
    | _ => (false, l)
    end in
  if (length digits =? 0)%nat || negb (forallb is_digit digits) then inl ErrSyntax
  else
    let n := if neg : bool then - digits_value digits else digits_value digits in
    if (- 2 ^ 63 <=? n) && (n <=? 2 ^ 63 - 1) then inr n else inl ErrRange.

Definition ParseBool (s : string) : error + bool :=
  if bool_decide (s ∈ ["1"; "t"; "T"; "true"; "TRUE"; "True"]) then inr true
  else if bool_decide (s ∈ ["0"; "f"; "F"; "false"; "FALSE"; "False"]) then inr false
  else inl ErrSyntax.

(** The conversion int32(x) keeps the low 32 bits. *)
Definition to_int32 (x : Z) : Z := (x + 2 ^ 31) mod 2 ^ 32 - 2 ^ 31.

Lemma to_int32_range x : int32_range (to_int32 x) = true.
Proof.
  unfold int32_range, int32_min, int32_max, to_int32. apply andb_true_iff. rewrite !Z.leb_le.
  pose proof (Z.mod_pos_bound (x + 2 ^ 31) (2 ^ 32)). lia.
Qed.

Lemma to_int32_id x : int32_range x = true -> to_int32 x = x.
Proof.
  unfold int32_range, int32_min, int32_max, to_int32. intros [H1 H2]%andb_true_iff.
  apply Z.leb_le in H1, H2. rewrite Z.mod_small; lia.
Qed.

(** ** Reading variables *)

Section config.
(** time.ParseDuration, in nanoseconds. *)
Variable ParseDuration : string -> error + Z.

(** os.Getenv: "" for a variable that is not set. *)
Variable Getenv : string -> string.

Definition getenv (key fallback : string) : string :=
  if Getenv key ==? "" then fallback else Getenv key.

Definition getenvDuration (key : string) (fallback : Z) : res Z :=
  if Getenv key ==? "" then Ok fallback
  else match ParseDuration (Getenv key) with
       | inl err => Err (Wrapped (key ++ " must be a valid duration") err)
       | inr duration => Ok duration
       end.

Definition getenvInt (key : string) (fallback : Z) : res Z :=
  if Getenv key ==? "" then Ok fallback
  else match Atoi (Getenv key) with
       | inl err => Err (Wrapped (key ++ " must be a valid integer") err)
       | inr parsed => Ok parsed
       end.

Definition getenvBool (key : string) (fallback : bool) : res bool :=
  if Getenv key ==? "" then Ok fallback
  else match ParseBool (Getenv key) with
       | inl err => Err (Wrapped (key ++ " must be a valid boolean") err)
       | inr parsed => Ok parsed
       end.

Record Config := MkConfig {
  AppEnv : string; HTTPAddr : string; LogLevel : string; DatabaseURL : string;
  RedisAddr : string; RedisPassword : string; RedisDB : Z; CookieSecure : bool;
  VisitorSessionTTL : Z; ReservationTTL : Z; ExpirationWorkerInterval : Z;
  ExpirationWorkerBatchSize : Z; StartupTimeout : Z; ReadinessTimeout : Z; ShutdownTimeout : Z }.

(** The [if err != nil return] of each step. *)
Definition and_then {A B} (r : res A) (k : A -> res B) : res B :=
  match r with Ok x => k x | Err e => Err e | Panicked => Panicked end.

Definition Second : Z := 10 ^ 9.

Definition Load : res Config :=
  and_then (getenvInt "REDIS_DB" 0) (fun redisDB =>
  and_then (getenvDuration "STARTUP_TIMEOUT" (10 * Second)) (fun startupTimeout =>
  and_then (getenvDuration "READINESS_TIMEOUT" (2 * Second)) (fun readinessTimeout =>
  and_then (getenvDuration "SHUTDOWN_TIMEOUT" (10 * Second)) (fun shutdownTimeout =>
  and_then (getenvDuration "VISITOR_SESSION_TTL" (30 * 24 * 3600 * Second)) (fun visitorSessionTTL =>
  and_then (getenvBool "COOKIE_SECURE" false) (fun cookieSecure =>
  and_then (getenvDuration "RESERVATION_TTL" (15 * 60 * Second)) (fun reservationTTL =>
  and_then (getenvDuration "EXPIRATION_WORKER_INTERVAL" (5 * Second)) (fun expirationWorkerInterval =>
  and_then (getenvInt "EXPIRATION_WORKER_BATCH_SIZE" 100) (fun expirationWorkerBatchSize =>
  if expirationWorkerBatchSize <=? 0
  then Err (ErrorString "EXPIRATION_WORKER_BATCH_SIZE must be greater than zero")
  else
    let cfg := MkConfig (getenv "APP_ENV" "development") (getenv "HTTP_ADDR" ":8080")
      (getenv "LOG_LEVEL" "INFO") (Getenv "DATABASE_URL") (Getenv "REDIS_ADDR")
      (Getenv "REDIS_PASSWORD") redisDB cookieSecure visitorSessionTTL reservationTTL
      expirationWorkerInterval (to_int32 expirationWorkerBatchSize) startupTimeout
      readinessTimeout shutdownTimeout in
    if DatabaseURL cfg ==? "" then Err (ErrorString "DATABASE_URL is required")
    else if RedisAddr cfg ==? "" then Err (ErrorString "REDIS_ADDR is required")
    else Ok cfg))))))))).
End config.

(** ** Logging *)

Inductive Level := LevelDebug | LevelInfo | LevelWarn | LevelError.

Definition ascii_upper (c : ascii) : ascii :=
  if (97 <=? byte_of_ascii c) && (byte_of_ascii c <=? 122)
  then ascii_of_N (N_of_ascii c - 32) else c.

(** strings.ToUpper for the comparisons of ConfigureLogger: no letter outside
    ASCII has an upper case that occurs in the four names. *)
Definition ToUpper (s : string) : string :=
  string_of_list_ascii (ascii_upper <$> list_ascii_of_string s).

(** The level of the logger it builds. *)
Definition ConfigureLogger (level : string) : Level :=
  let name := ToUpper level in
  if name ==? "DEBUG" then LevelDebug
  else if name ==? "WARN" then LevelWarn
  else if name ==? "ERROR" then LevelError
  else LevelInfo.

(** ** What Load guarantees *)

Lemma and_then_Ok {A B} (r : res A) (k : A -> res B) b :
  and_then r k = Ok b <-> exists x, r = Ok x /\ k x = Ok b.
Proof. destruct r; simpl; split; intros H; try done; [eauto|by destruct H as (y & [= ->] & ?)|..];
  by destruct H as (? & ? & _). Qed.

Section load.
Variable ParseDuration : string -> error + Z.
Variable Getenv : string -> string.

(** The batch size the environment asks for. *)
Definition requested_batch (n : Z) : Prop :=
  getenvInt Getenv "EXPIRATION_WORKER_BATCH_SIZE" 100 = Ok n.

Lemma Load_Ok cfg :
  Load ParseDuration Getenv = Ok cfg ->
  (exists n, requested_batch n /\ 0 < n /\ ExpirationWorkerBatchSize cfg = to_int32 n) /\
  DatabaseURL cfg = Getenv "DATABASE_URL" /\ DatabaseURL cfg <> "" /\
  RedisAddr cfg = Getenv "REDIS_ADDR" /\ RedisAddr cfg <> "" /\
  getenvDuration ParseDuration Getenv "RESERVATION_TTL" (15 * 60 * Second) = Ok (ReservationTTL cfg) /\
  getenvDuration ParseDuration Getenv "VISITOR_SESSION_TTL" (30 * 24 * 3600 * Second) =
    Ok (VisitorSessionTTL cfg).
Proof.
  unfold Load. intros HL.
  repeat (apply and_then_Ok in HL as (? & ? & HL)).
  destruct (_ <=? 0) eqn:E; [done|]. cbv zeta in HL.
  destruct (bool_decide (DatabaseURL _ = "")) eqn:Edb; [done|].
  destruct (bool_decide (RedisAddr _ = "")) eqn:Era; [done|]. injection HL as <-.
  to_prop. simpl in *. split_and!; eauto.
Qed.
End load.

(** A number strconv.Atoi returns fits in 64 bits. *)
Lemma Atoi_range s n : Atoi s = inr n -> - 2 ^ 63 <= n <= 2 ^ 63 - 1.
Proof.
  unfold Atoi. set (parsed := match list_ascii_of_string s with [] => _ | _ :: _ => _ end).
  destruct parsed as [neg digits]. destruct (_ || _); [done|].
  destruct (_ && _) eqn:E; [|done]. intros [= <-].
  apply andb_true_iff in E as [H1 H2]. apply Z.leb_le in H1, H2. lia.
Qed.

Lemma requested_batch_range Getenv n : requested_batch Getenv n -> n <= 2 ^ 63 - 1.
Proof.
  unfold requested_batch, getenvInt. destruct (_ ==? ""); [intros [= <-]; lia|].
  destruct (Atoi _) as [e|m] eqn:E; [done|]. intros [= <-]. apply Atoi_range in E. lia.
Qed.
