(* ===== verification/SqlcStress.v ===== *)
(** * internal/sqlc/stress_admin.sql.go: fixtures and consistency checks

    The statements of the stress-test administration: the search for fixture
    events by a LIKE pattern, the deletions with their cascades, and the
    queries that look for violated invariants. *)

From S2P Require Import Prelude GoRuntime DbTypes Schema Prog SqlcReservations Inventory.
Local Open Scope string_scope.
Local Open Scope list_scope.
Local Open Scope Z_scope.

(** ** LIKE *)

(** The characters of a UTF-8 string: a continuation byte belongs to the
    character before it. *)
Definition continuation (c : ascii) : bool := (128 <=? byte_of_ascii c) && (byte_of_ascii c <? 192).

Fixpoint characters (l : list ascii) : list (list ascii) :=
  match l with
  | [] => []
  | c :: l' =>
      match characters l' with
      | (d :: ds) :: rest => if continuation d then (c :: d :: ds) :: rest else [c] :: (d :: ds) :: rest
      | rest => [c] :: rest
      end
  end.

Inductive like_token := AnyString | AnyCharacter | Character (c : list ascii).

(** [%], [_], and the escape [\]; a pattern that ends with the escape is an
    error in PostgreSQL and does not occur here. *)
Fixpoint like_tokens (pattern : list (list ascii)) : list like_token :=
  match pattern with
  | ["%"%char] :: p => AnyString :: like_tokens p
  | ["_"%char] :: p => AnyCharacter :: like_tokens p
  | ["\"%char] :: c :: p => Character c :: like_tokens p
  | c :: p => Character c :: like_tokens p
  | [] => []
  end.

Fixpoint like_match (tokens : list like_token) : list (list ascii) -> bool :=
  match tokens with
  | [] => fun s => match s with [] => true | _ => false end
  | AnyString :: ts =>
      fix skip s := like_match ts s || match s with [] => false | _ :: s' => skip s' end
  | AnyCharacter :: ts => fun s => match s with [] => false | _ :: s' => like_match ts s' end
  | Character c :: ts => fun s => match s with [] => false | d :: s' => (c ==? d) && like_match ts s' end
  end.

Definition LIKE (value pattern : string) : bool :=
  like_match (like_tokens (characters (list_ascii_of_string pattern)))
    (characters (list_ascii_of_string value)).

Example LIKE_1 : LIKE "stress:42" "stress:%" = true. Proof. reflexivity. Qed.
Example LIKE_2 : LIKE "xxstress" "__stress%" = true. Proof. reflexivity. Qed.
Example LIKE_3 : LIKE "xstress" "__stress%" = false. Proof. reflexivity. Qed.
Example LIKE_4 : LIKE "a_" "a\_" = true. Proof. reflexivity. Qed.

(** ** DELETE *)

(** The rows that stay. *)
Definition keep {V} (P : V -> bool) (m : gmap UUID V) : gmap UUID V := filter (fun kr => P kr.2 = true) m.

Lemma keep_lookup {V} (P : V -> bool) (m : gmap UUID V) k r :
  keep P m !! k = Some r <-> m !! k = Some r /\ P r = true.
Proof. unfold keep. by rewrite map_lookup_filter_Some. Qed.

(** A reservation of one of these events. *)
Definition reservation_of (ids : list UUID) (db : Database) (rid : UUID) : bool :=
  match reservations db !! rid with
  | Some r => bool_decide (Reservation_EventID r ∈ ids)
  | None => false
  end.

Definition ListStressEventIDs (name : string) : stmt (list UUID) :=
  reading (fun db => inr (Event_ID <$> select (fun e => LIKE (Event_Name e) name)
    (by_key (fun e => uuid_bytes (Event_ID e))) (events db))).

Definition DeleteStressReservationSeats (ids : list UUID) : stmt unit := fun _ db =>
  inr (tt, set_reservation_seats
    (keep (fun s => negb (reservation_of ids db (ReservationSeat_ReservationID s)))
      (reservation_seats db)) db).

Definition DeleteStressReservationItems (ids : list UUID) : stmt unit := fun _ db =>
  inr (tt, set_reservation_items
    (keep (fun i => negb (reservation_of ids db (ReservationItem_ReservationID i)))
      (reservation_items db)) db).

(** ON DELETE CASCADE takes the items and seat rows along. *)
Definition DeleteStressReservations (ids : list UUID) : stmt unit := fun _ db =>
  inr (tt, MkDatabase (users db) (visitor_sessions db) (events db) (ticket_types db) (seats db)
    (keep (fun r => negb (bool_decide (Reservation_EventID r ∈ ids))) (reservations db))
    (keep (fun i => negb (reservation_of ids db (ReservationItem_ReservationID i)))
      (reservation_items db))
    (keep (fun s => negb (reservation_of ids db (ReservationSeat_ReservationID s)))
      (reservation_seats db))).

Definition ticket_of (ids : list UUID) (db : Database) (k : UUID) : bool :=
  match ticket_types db !! k with
  | Some t => bool_decide (TicketType_EventID t ∈ ids)
  | None => false
  end.

Definition seat_of (ids : list UUID) (db : Database) (k : UUID) : bool :=
  match seats db !! k with
  | Some s => bool_decide (Seat_EventID s ∈ ids)
  | None => false
  end.

(** ON DELETE CASCADE takes ticket types and seats along; ON DELETE RESTRICT
    refuses while a reservation refers to the event, an item to one of those
    ticket types, or a seat row to one of those seats. *)
Definition DeleteStressEvents (ids : list UUID) : stmt Z := fun _ db =>
  if existsb (fun r => bool_decide (Reservation_EventID r ∈ ids)) (rows (reservations db)) ||
     existsb (fun i => ticket_of ids db (ReservationItem_TicketTypeID i)) (rows (reservation_items db)) ||
     existsb (fun s => seat_of ids db (ReservationSeat_SeatID s)) (rows (reservation_seats db))
  then inl foreign_key_violation
  else inr (Z.of_nat (length (List.filter (fun e => bool_decide (Event_ID e ∈ ids)) (rows (events db)))),
    MkDatabase (users db) (visitor_sessions db)
      (keep (fun e => negb (bool_decide (Event_ID e ∈ ids))) (events db))
      (keep (fun t => negb (bool_decide (TicketType_EventID t ∈ ids))) (ticket_types db))
      (keep (fun s => negb (bool_decide (Seat_EventID s ∈ ids))) (seats db))
      (reservations db) (reservation_items db) (reservation_seats db)).

(** ** Violations *)

Definition by_ticket_id : relation TicketType := by_key (fun t => uuid_bytes (TicketType_ID t)).

Definition ListNegativeTicketQuantityViolations : stmt (list TicketQuantityRow) :=
  reading (fun db => inr (ticket_row <$> select
    (fun t => (TicketType_TotalQuantity t <? 0) || (TicketType_SoldQuantity t <? 0) ||
              (TicketType_ReservedQuantity t <? 0)) by_ticket_id (ticket_types db))).

(** sold_quantity + reserved_quantity is int4 arithmetic. *)
Definition ListOversoldTicketQuantityViolations : stmt (list TicketQuantityRow) :=
  reading (fun db =>
    if existsb (fun t => negb (int32_range (TicketType_SoldQuantity t + TicketType_ReservedQuantity t)))
         (rows (ticket_types db))
    then inl numeric_value_out_of_range
    else inr (ticket_row <$> select
      (fun t => TicketType_TotalQuantity t <? TicketType_SoldQuantity t + TicketType_ReservedQuantity t)
      by_ticket_id (ticket_types db))).

Record ListDuplicateActiveSeatViolationsRow := MkDuplicateSeatRow {
  DS_SeatID : UUID; DS_ActiveCount : Z }.

Definition active_count (seatID : UUID) (db : Database) : Z :=
  Z.of_nat (length (List.filter (fun s => ReservationSeat_SeatID s ==? seatID)
    (List.filter active_seat (rows (reservation_seats db))))).

(** GROUP BY seat_id HAVING COUNT( * ) > 1 ORDER BY seat_id. *)
Definition ListDuplicateActiveSeatViolations : stmt (list ListDuplicateActiveSeatViolationsRow) :=
  reading (fun db => inr
    ((fun seatID => MkDuplicateSeatRow seatID (active_count seatID db)) <$>
     merge_sort uuid_le (List.filter (fun seatID => 1 <? active_count seatID db)
       (remove_dups (active_seat_ids (reservation_seats db)))))).

Record OrphanRow := MkOrphanRow { Orphan_ID : UUID; Orphan_ReservationID : UUID }.

Definition missing_reservation (db : Database) (rid : UUID) : bool := negb (has_row (reservations db) rid).

Definition ListOrphanReservationItemViolations : stmt (list OrphanRow) :=
  reading (fun db => inr
    ((fun i => MkOrphanRow (ReservationItem_ID i) (ReservationItem_ReservationID i)) <$>
     select (fun i => missing_reservation db (ReservationItem_ReservationID i))
       (by_key (fun i => uuid_bytes (ReservationItem_ID i))) (reservation_items db))).

Definition ListOrphanReservationSeatViolations : stmt (list OrphanRow) :=
  reading (fun db => inr
    ((fun s => MkOrphanRow (ReservationSeat_ID s) (ReservationSeat_ReservationID s)) <$>
     select (fun s => missing_reservation db (ReservationSeat_ReservationID s))
       (by_key (fun s => uuid_bytes (ReservationSeat_ID s))) (reservation_seats db))).

Record ListStaleRow := MkStaleRow { Stale_ID : UUID; Stale_Status : string; Stale_ExpiresAt : Timestamptz }.

(** The condition and the order are those of ListExpiredReservationsForUpdate. *)
Definition ListStaleExpiredActiveReservationViolations `{Pgtype} (expiresAt : Timestamptz)
    : stmt (list ListStaleRow) :=
  reading (fun db => inr
    ((fun r => MkStaleRow (Reservation_ID r) (Reservation_Status r) (Reservation_ExpiresAt r)) <$>
     select (overdue expiresAt) expiry_le (reservations db))).
