(* ===== verification/StressAdmin.v ===== *)
(** * internal/modules/stressadmin: fixtures, cleanup, consistency checks

    The repository's two transactions and the service; [StressFacts] proves
    what they do. *)

From Stdlib Require Import DecimalString.
From S2P Require Import Prelude GoRuntime DbTypes Schema Prog Wp Crypto SqlcReservations Inventory SqlcEvents SqlcStress.
Local Open Scope string_scope.
Local Open Scope list_scope.
Local Open Scope Z_scope.

(** ** dto.go *)

Record SeedResponse := MkSeedResponse {
  Seed_EventID : string; Seed_TicketTypeID : string; Seed_SeatIDs : list string }.

Record ResetResponse := MkResetResponse { Reset_EventsDeleted : Z }.

(** The values of the map[string]any of a detail. *)
Inductive any := AnyText (s : string) | AnyInt (z : Z) | AnyTime (t : Z).

Record ConsistencyDetail := MkConsistencyDetail {
  Detail_Check : string; Detail_Message : string; Detail_Data : list (string * any) }.

Record ConsistencyChecks := MkConsistencyChecks {
  TicketQuantityNotOversold : bool; TicketQuantityNotNegative : bool;
  NoDuplicateActiveSeats : bool; NoOrphanReservationItems : bool;
  NoOrphanReservationSeats : bool; NoStaleExpiredActiveReservations : bool }.

Record ConsistencyResponse := MkConsistencyResponse {
  Cons_OK : bool; Cons_Checks : ConsistencyChecks; Cons_Details : list ConsistencyDetail }.

(** ** repository.go *)

(** pool.Begin, a deferred tx.Rollback, and a tx.Commit at the end of [body];
    errors are returned as they are, and a rollback after the commit does
    nothing. *)
Definition in_tx {A} (body : prog A) : prog A :=
  let* begun := try (Begin of_sum) in
  match begun with
  | inl err => Fail err
  | inr _ =>
      let* r := catch (let* x := body in let* _ := Commit of_sum in Ret x) in
      Rollback (of_res r)
  end.

(** strconv.Itoa *)
Definition Itoa (z : Z) : string := NilZero.string_of_int (Z.to_int z).

Definition seed_seat (eventID : UUID) (row seat : Z) (created : list Seat) : prog (list Seat) :=
  let* s := sql (CreateSeat eventID "A" (Itoa row) (Itoa seat)) in Ret (created ++ [s]).

(** for i := 1; i <= 10; i++ *)
Definition one_to_ten : list Z := seqZ 1 10.

Definition seedTx `{Pgtype} (eventName : string) (startsAt endsAt : Timestamptz)
    : prog (Event * TicketType * list Seat) :=
  let* event := sql (CreateEvent eventName startsAt endsAt) in
  let* ticketType := sql (CreateTicketType (Event_ID event) "General Admission" 1000) in
  let* created := for_each one_to_ten (fun row =>
    for_each one_to_ten (seed_seat (Event_ID event) row)) [] in
  Ret (event, ticketType, created).

Definition resetTx (eventNamePattern : string) : prog Z :=
  let* eventIDs := sql (ListStressEventIDs eventNamePattern) in
  if (length eventIDs =? 0)%nat then Ret 0
  else
    let* _ := sql (DeleteStressReservationSeats eventIDs) in
    let* _ := sql (DeleteStressReservationItems eventIDs) in
    let* _ := sql (DeleteStressReservations eventIDs) in
    sql (DeleteStressEvents eventIDs).

(** The checks of AssertConsistency. *)
Module StressRepository.

Definition ListNegativeTicketQuantityViolations : prog (list TicketQuantityRow) :=
  sql SqlcStress.ListNegativeTicketQuantityViolations.

Definition ListOversoldTicketQuantityViolations : prog (list TicketQuantityRow) :=
  sql SqlcStress.ListOversoldTicketQuantityViolations.

Definition ListDuplicateActiveSeatViolations : prog (list ListDuplicateActiveSeatViolationsRow) :=
  sql SqlcStress.ListDuplicateActiveSeatViolations.

Definition ListOrphanReservationItemViolations : prog (list OrphanRow) :=
  sql SqlcStress.ListOrphanReservationItemViolations.

Definition ListOrphanReservationSeatViolations : prog (list OrphanRow) :=
  sql SqlcStress.ListOrphanReservationSeatViolations.

Definition ListStaleExpiredActiveReservationViolations `{Pgtype} (threshold : Timestamptz)
    : prog (list ListStaleRow) :=
  sql (SqlcStress.ListStaleExpiredActiveReservationViolations threshold).
End StressRepository.

(** ** service.go *)

Definition StressEventPrefix : string := "__stress_seed__:".
Definition staleActiveReservationTolerance : Z := 60 * 10 ^ 9.
Definition Hour : Z := 3600 * 10 ^ 9.

Definition randomHex (size : nat) : prog string :=
  let* bytes := wrapf "generate random suffix" (RandRead size of_sum) in
  Ret (hex_EncodeToString (byte_value <$> bytes)).

Definition quantity_detail (check message : string) (row : TicketQuantityRow) : ConsistencyDetail :=
  MkConsistencyDetail check message
    [("ticket_type_id", AnyText (UUIDToString (TQ_ID row)));
     ("total_quantity", AnyInt (TQ_TotalQuantity row));
     ("sold_quantity", AnyInt (TQ_SoldQuantity row));
     ("reserved_quantity", AnyInt (TQ_ReservedQuantity row))].

Definition duplicate_detail (row : ListDuplicateActiveSeatViolationsRow) : ConsistencyDetail :=
  MkConsistencyDetail "no_duplicate_active_seats" "Seat has more than one active reservation"
    [("seat_id", AnyText (UUIDToString (DS_SeatID row))); ("active_count", AnyInt (DS_ActiveCount row))].

Definition orphan_detail (check message key : string) (row : OrphanRow) : ConsistencyDetail :=
  MkConsistencyDetail check message
    [(key, AnyText (UUIDToString (Orphan_ID row)));
     ("reservation_id", AnyText (UUIDToString (Orphan_ReservationID row)))].

Definition stale_detail (row : ListStaleRow) : ConsistencyDetail :=
  MkConsistencyDetail "no_stale_expired_active_reservations"
    "Reserved reservation is expired beyond the local processing tolerance"
    [("reservation_id", AnyText (UUIDToString (Stale_ID row))); ("status", AnyText (Stale_Status row));
     ("expires_at", AnyTime (TimestamptzToTime (Stale_ExpiresAt row)))].

Section service.
Context `{Pgtype}.
Variable appEnv : string.

Definition isLocal : bool :=
  (appEnv ==? "development") || (appEnv ==? "local") || (appEnv ==? "test").

Definition Seed : prog SeedResponse :=
  if negb isLocal then Fail (Sentinel ErrStressAdminDisabled)
  else
    let* suffix := randomHex 8 in
    let* now := time_Now in
    let* out := wrapf "seed stress fixture" (in_tx (seedTx (StressEventPrefix ++ suffix)
      (MkTs (now + 24 * Hour) true) (MkTs (now + 27 * Hour) true))) in
    let '(event, ticketType, created) := out in
    Ret (MkSeedResponse (UUIDToString (Event_ID event)) (UUIDToString (TicketType_ID ticketType))
           ((fun s => UUIDToString (Seat_ID s)) <$> created)).

Definition Reset : prog ResetResponse :=
  if negb isLocal then Fail (Sentinel ErrStressAdminDisabled)
  else
    let* deleted := wrapf "reset stress fixture" (in_tx (resetTx (StressEventPrefix ++ "%"))) in
    Ret (MkResetResponse deleted).

Definition no_rows {A} (l : list A) : bool := (length l =? 0)%nat.

Definition AssertConsistency : prog ConsistencyResponse :=
  if negb isLocal then Fail (Sentinel ErrStressAdminDisabled)
  else
    let* negative := wrapf "check negative ticket quantities"
      StressRepository.ListNegativeTicketQuantityViolations in
    let* oversold := wrapf "check oversold ticket quantities"
      StressRepository.ListOversoldTicketQuantityViolations in
    let* duplicates := wrapf "check duplicate active seats" StressRepository.ListDuplicateActiveSeatViolations in
    let* orphanItems := wrapf "check orphan reservation items"
      StressRepository.ListOrphanReservationItemViolations in
    let* orphanSeats := wrapf "check orphan reservation seats"
      StressRepository.ListOrphanReservationSeatViolations in
    let* now := time_Now in
    let* staleRows := wrapf "check stale expired active reservations"
      (StressRepository.ListStaleExpiredActiveReservationViolations
         (MkTs (now - staleActiveReservationTolerance) true)) in
    let checks := MkConsistencyChecks (no_rows oversold) (no_rows negative) (no_rows duplicates)
      (no_rows orphanItems) (no_rows orphanSeats) (no_rows staleRows) in
    Ret (MkConsistencyResponse
      (TicketQuantityNotOversold checks && TicketQuantityNotNegative checks &&
       NoDuplicateActiveSeats checks && NoOrphanReservationItems checks &&
       NoOrphanReservationSeats checks && NoStaleExpiredActiveReservations checks)
      checks
      ((quantity_detail "ticket_quantity_not_negative" "Ticket type has a negative quantity"
          <$> negative) ++
       (quantity_detail "ticket_quantity_not_oversold"
          "Ticket type has sold + reserved greater than total" <$> oversold) ++
       (duplicate_detail <$> duplicates) ++
       (orphan_detail "no_orphan_reservation_items" "Reservation item points to a missing reservation"
          "reservation_item_id" <$> orphanItems) ++
       (orphan_detail "no_orphan_reservation_seats" "Reservation seat points to a missing reservation"
          "reservation_seat_id" <$> orphanSeats) ++
       (stale_detail <$> staleRows))).
End service.

(** ** The rule of the transactions *)

Lemma wp_in_tx {A} a (body : prog A) (Q : res A -> St -> Prop) db :
  (forall e, faulty a e -> Q (Err e) (db, None)) ->
  wp a body (fun r σ' =>
    σ'.2 = Some db /\
    match r with
    | Ok x => Q (Ok x) (σ'.1, None) /\ (forall e, faulty a e -> Q (Err e) (σ'.1, None))
    | Err e => Q (Err e) (db, None)
    | Panicked => Q Panicked (db, None)
    end) (db, Some db) ->
  wp a (in_tx body) Q (db, None).
Proof.
  intros Hf Hbody. apply wp_bind, wp_try.
  split; [intros Hq f; apply Hf; by split; [|constructor]|]. cbn [fst snd of_sum wp].
  apply wp_bind, wp_catch, wp_bind. revert Hbody. apply wp_mono.
  intros [x|e|] [db' saved]; cbn [fst snd]; intros [-> HQ]; [|exact HQ..].
  apply wp_bind. destruct HQ as [HQ HQf]. split; [exact HQ|].
  intros Hq f. split; simpl; unfold wp_rollback; simpl; [apply Hf|apply HQf]; by split; [|constructor].
Qed.
