(* ===== verification/StressFacts.v ===== *)
(** * What the stress administration does

    On tables that satisfy the invariant the consistency report can only show
    stale reservations; Reset removes the matching events with everything that
    hangs on them and keeps the invariant; Seed creates a whole fixture or
    nothing. *)

From S2P Require Import Prelude GoRuntime DbTypes Schema Prog Wp Crypto SqlcReservations Inventory SqlcEvents SqlcStress StressAdmin.
Local Open Scope string_scope.
Local Open Scope list_scope.
Local Open Scope Z_scope.

(** ** AssertConsistency *)

Lemma no_negative db :
  schema_ok db -> select (fun t => (TicketType_TotalQuantity t <? 0) || (TicketType_SoldQuantity t <? 0) ||
    (TicketType_ReservedQuantity t <? 0)) by_ticket_id (ticket_types db) = [].
Proof.
  intros Hdb. apply (select_nil _ by_ticket_id). intros k t Hk. pose proof (ticket_bounds db k t Hdb Hk).
  rewrite !orb_false_iff, !Z.ltb_ge. lia.
Qed.

Lemma no_oversold ctx db :
  schema_ok db -> ListOversoldTicketQuantityViolations ctx db = inr ([], db).
Proof.
  intros Hdb. unfold ListOversoldTicketQuantityViolations, reading.
  rewrite (proj2 (existsb_false _ _)).
  - rewrite (proj2 (select_nil _ by_ticket_id _)); [done|]. intros k t Hk.
    pose proof (ticket_bounds db k t Hdb Hk). apply Z.ltb_ge. lia.
  - intros t [k Hk]%elem_of_rows. pose proof (ticket_bounds db k t Hdb Hk).
    apply negb_false_iff, int32_range_spec. lia.
Qed.

Lemma active_count_le_1 db seatID : schema_ok db -> active_count seatID db <= 1.
Proof.
  intros Hdb. unfold active_count.
  pose proof (filter_ids_NoDup ReservationSeat_ID (fun s => ReservationSeat_SeatID s ==? seatID)
    (List.filter active_seat (rows (reservation_seats db)))
    (filter_ids_NoDup _ active_seat _ (rows_ids_NoDup _ _ (rseats_keyed _ Hdb)))) as Hnd.
  assert (Hin : forall s, s ∈ List.filter (fun s => ReservationSeat_SeatID s ==? seatID)
      (List.filter active_seat (rows (reservation_seats db))) ->
    reservation_seats db !! ReservationSeat_ID s = Some s /\ active_seat s = true /\
    ReservationSeat_SeatID s = seatID).
  { intros s. rewrite list_elem_of_In, !filter_In. intros [[Hs Ha] Hid]. to_prop.
    apply list_elem_of_In, elem_of_rows in Hs as [k Hk].
    by destruct (rseats_keyed _ Hdb k s Hk) as [-> _]. }
  destruct (List.filter _ _) as [|x [|y l]]; [done|done|]. exfalso.
  destruct (Hin x) as (Hx & Hax & Hix); [by left|]. destruct (Hin y) as (Hy & Hay & Hiy); [by right; left|].
  rewrite !fmap_cons in Hnd. apply NoDup_cons in Hnd as [Hnd _]. apply Hnd.
  replace (ReservationSeat_ID x) with (ReservationSeat_ID y); [by left|].
  eapply (rseats_unique _ Hdb); eauto. congruence.
Qed.

Lemma no_duplicates ctx db : schema_ok db -> ListDuplicateActiveSeatViolations ctx db = inr ([], db).
Proof.
  intros Hdb. unfold ListDuplicateActiveSeatViolations, reading.
  replace (List.filter _ (remove_dups _)) with (@nil UUID); [done|]. symmetry.
  induction (remove_dups (active_seat_ids (reservation_seats db))) as [|k l IH]; [done|]. simpl.
  pose proof (active_count_le_1 db k Hdb). destruct (Z.ltb_spec 1 (active_count k db)); [lia|done].
Qed.

Lemma no_orphan_items ctx db : schema_ok db -> ListOrphanReservationItemViolations ctx db = inr ([], db).
Proof.
  intros Hdb. unfold ListOrphanReservationItemViolations, reading.
  rewrite (proj2 (select_nil _ _ _)); [done|]. intros k i Hi.
  apply negb_false_iff, has_row_spec, (items_reservation _ Hdb k i Hi).
Qed.

Lemma no_orphan_seats ctx db : schema_ok db -> ListOrphanReservationSeatViolations ctx db = inr ([], db).
Proof.
  intros Hdb. unfold ListOrphanReservationSeatViolations, reading.
  rewrite (proj2 (select_nil _ _ _)); [done|]. intros k i Hi.
  apply negb_false_iff, has_row_spec, (rseats_reservation _ Hdb k i Hi).
Qed.

Section consistency.
Context `{Pgtype}.
Variable a : assm.

(** The reservations that the report calls stale. *)
Definition stale_reservations (now : Z) (db : Database) : list Reservation :=
  select (overdue (MkTs (now - staleActiveReservationTolerance) true)) expiry_le (reservations db).

Definition stale_row (r : Reservation) : ListStaleRow :=
  MkStaleRow (Reservation_ID r) (Reservation_Status r) (Reservation_ExpiresAt r).

Definition report (stale : list Reservation) : ConsistencyResponse :=
  MkConsistencyResponse (no_rows stale)
    (MkConsistencyChecks true true true true true (no_rows stale))
    ((fun r => stale_detail (stale_row r)) <$> stale).

Lemma AssertConsistency_wp appEnv db :
  db_inv db ->
  wp a (AssertConsistency appEnv) (fun res σ => σ = (db, None) /\
    match res with
    | Ok r => isLocal appEnv = true /\
        exists now, clock_ok a now = true /\ r = report (stale_reservations now db)
    | Err e => faulty a e \/ (e = Sentinel ErrStressAdminDisabled /\ isLocal appEnv = false)
    | Panicked => False
    end) (db, None).
Proof.
  intros Hinv. pose proof (inv_schema _ Hinv) as Hdb. unfold AssertConsistency.
  destruct (negb _) eqn:Hl; to_prop; [by split; [|right]|].
  apply wp_bind, wp_wrapf_sql; [by intros; split; [|left]|]. intros ctx1 _ _. cbn [fst snd].
  unfold ListNegativeTicketQuantityViolations, reading. rewrite (no_negative db Hdb). cbn [fmap list_fmap].
  apply wp_bind, wp_wrapf_sql; [by intros; split; [|left]|]. intros ctx2 _ _. cbn [fst snd].
  rewrite (no_oversold ctx2 db Hdb).
  apply wp_bind, wp_wrapf_sql; [by intros; split; [|left]|]. intros ctx3 _ _. cbn [fst snd].
  rewrite (no_duplicates ctx3 db Hdb).
  apply wp_bind, wp_wrapf_sql; [by intros; split; [|left]|]. intros ctx4 _ _. cbn [fst snd].
  rewrite (no_orphan_items ctx4 db Hdb).
  apply wp_bind, wp_wrapf_sql; [by intros; split; [|left]|]. intros ctx5 _ _. cbn [fst snd].
  rewrite (no_orphan_seats ctx5 db Hdb).
  apply wp_bind, wp_time_Now. intros now Hnow.
  apply wp_bind, wp_wrapf_sql; [by intros; split; [|left]|]. intros ctx6 _ _. cbn [fst snd].
  unfold ListStaleExpiredActiveReservationViolations, reading.
  split; [done|]. split; [done|]. exists now. split; [done|].
  fold (stale_reservations now db). unfold report, no_rows. rewrite length_fmap. f_equal.
  cbn [fmap list_fmap app]. by rewrite <- list_fmap_compose.
Qed.
End consistency.

(** ** Reset *)

Section keep_lemmas.
Context {V W K : Type}.
Implicit Types (m : gmap UUID V) (target : gmap UUID W).

Lemma all_rows_keep (R : V -> Prop) P m : all_rows R m -> all_rows R (keep P m).
Proof. intros Hm k r [Hk _]%keep_lookup. eauto. Qed.

Lemma keyed_keep (id : V -> UUID) P m : keyed id m -> keyed id (keep P m).
Proof. intros Hm k r [Hk _]%keep_lookup. eauto. Qed.

Lemma unique_keep (A : V -> bool) (key : V -> K) P m : unique A key m -> unique A key (keep P m).
Proof. intros Hm i j r s [Hr _]%keep_lookup [Hs _]%keep_lookup. eauto. Qed.

Lemma refers_keep (fk : V -> UUID) P Q m target :
  refers fk m target ->
  (forall k r t, m !! k = Some r -> P r = true -> target !! fk r = Some t -> Q t = true) ->
  refers fk (keep P m) (keep Q target).
Proof.
  intros Hm HQ k r [Hk HP]%keep_lookup. destruct (Hm k r Hk) as [t Ht].
  exists t. apply keep_lookup. eauto.
Qed.

Lemma refers_keep_rows (fk : V -> UUID) P m target : refers fk m target -> refers fk (keep P m) target.
Proof. apply all_rows_keep. Qed.

Lemma refers_opt_keep_rows (fk : V -> UUID) P m target :
  refers_opt fk m target -> refers_opt fk (keep P m) target.
Proof. apply all_rows_keep. Qed.

Lemma keep_keep P m : keep P (keep P m) = keep P m.
Proof. apply map_eq. intros k. apply option_eq. intros r. rewrite !keep_lookup. tauto. Qed.

Lemma rows_keep P m : rows (keep P m) ≡ₚ List.filter P (rows m).
Proof.
  induction m as [|k r m Hk IH] using map_ind; [done|]. rewrite (rows_insert m k r Hk).
  unfold keep in *. cbn [List.filter]. destruct (P r) eqn:HP.
  - rewrite map_filter_insert_True by done. rewrite rows_insert, IH; [done|].
    apply map_lookup_filter_None. by left.
  - rewrite map_filter_insert_False by (simpl; congruence). rewrite delete_id by done. exact IH.
Qed.

Lemma map_sum_keep (f : V -> Z) P m :
  map_sum f (keep P m) = map_sum (fun r => if P r then f r else 0) m.
Proof.
  unfold map_sum. rewrite rows_keep. generalize (rows m). intros l. induction l as [|r l IH]; [done|].
  cbn [List.filter]. rewrite fmap_cons, Zsum_cons. destruct (P r); rewrite ?fmap_cons, ?Zsum_cons; lia.
Qed.
End keep_lemmas.

#[export] Hint Resolve all_rows_keep keyed_keep unique_keep refers_keep_rows refers_opt_keep_rows : schema.

(** The tables without these events and what hangs on them. *)
Definition outside (ids : list UUID) (ev : UUID) : bool := negb (bool_decide (ev ∈ ids)).

Definition purge (ids : list UUID) (db : Database) : Database :=
  MkDatabase (users db) (visitor_sessions db)
    (keep (fun e => outside ids (Event_ID e)) (events db))
    (keep (fun t => outside ids (TicketType_EventID t)) (ticket_types db))
    (keep (fun s => outside ids (Seat_EventID s)) (seats db))
    (keep (fun r => outside ids (Reservation_EventID r)) (reservations db))
    (keep (fun i => negb (reservation_of ids db (ReservationItem_ReservationID i))) (reservation_items db))
    (keep (fun s => negb (reservation_of ids db (ReservationSeat_ReservationID s))) (reservation_seats db)).

Section purge.
Variable db : Database.
Hypothesis Hinv : db_inv db.
Variable ids : list UUID.

(** The row of a kept item is in a reservation and a ticket type that are kept. *)
Lemma kept_item k i :
  reservation_items db !! k = Some i ->
  negb (reservation_of ids db (ReservationItem_ReservationID i)) = true ->
  exists r t, reservations db !! ReservationItem_ReservationID i = Some r /\
    outside ids (Reservation_EventID r) = true /\
    ticket_types db !! ReservationItem_TicketTypeID i = Some t /\
    outside ids (TicketType_EventID t) = true.
Proof.
  intros Hk Hkept.
  destruct (items_follow _ (inv_lifecycle _ Hinv) k i Hk) as (r & t & Hr & _ & _ & Ht & Hev).
  exists r, t. unfold reservation_of in Hkept. rewrite Hr in Hkept. unfold outside. rewrite Hev. done.
Qed.

Lemma kept_rseat k s :
  reservation_seats db !! k = Some s ->
  negb (reservation_of ids db (ReservationSeat_ReservationID s)) = true ->
  exists r p, reservations db !! ReservationSeat_ReservationID s = Some r /\
    outside ids (Reservation_EventID r) = true /\
    seats db !! ReservationSeat_SeatID s = Some p /\ outside ids (Seat_EventID p) = true.
Proof.
  intros Hk Hkept.
  destruct (rseats_follow _ (inv_lifecycle _ Hinv) k s Hk) as (r & p & Hr & _ & _ & _ & Hp & Hev).
  exists r, p. unfold reservation_of in Hkept. rewrite Hr in Hkept. unfold outside. rewrite Hev. done.
Qed.

Lemma purge_schema : schema_ok (purge ids db).
Proof.
  pose proof (inv_schema _ Hinv) as Hdb.
  assert (Hev : forall k e, events db !! k = Some e -> Event_ID e = k) by (intros; by apply (events_keyed _ Hdb)).
  assert (He : forall {V} (fk : V -> UUID) m, refers fk m (events db) ->
    refers fk (keep (fun r => outside ids (fk r)) m) (keep (fun e => outside ids (Event_ID e)) (events db))).
  { intros V fk m Hm. apply refers_keep; [done|]. intros k r e _ HP Hk. by rewrite (Hev _ _ Hk). }
  pose proof Hdb as Hdb'. destruct Hdb'. constructor; simpl; eauto 3 with schema.
  - apply refers_keep; [done|]. intros k i r Hk HP Hr.
    destruct (kept_item k i Hk HP) as (r' & t & Hr' & ? & _). congruence.
  - apply refers_keep; [done|]. intros k i t Hk HP Ht.
    destruct (kept_item k i Hk HP) as (r' & t' & _ & _ & Ht' & ?). congruence.
  - apply refers_keep; [done|]. intros k i r Hk HP Hr.
    destruct (kept_rseat k i Hk HP) as (r' & t & Hr' & ? & _). congruence.
  - apply refers_keep; [done|]. intros k i t Hk HP Ht.
    destruct (kept_rseat k i Hk HP) as (r' & t' & _ & _ & Ht' & ?). congruence.
Qed.

(** The items that go held none of the stock that stays. *)
Lemma purge_units status k t :
  ticket_types db !! k = Some t -> outside ids (TicketType_EventID t) = true ->
  units status k (purge ids db) = units status k db.
Proof.
  intros Ht Hout. unfold units. simpl. rewrite map_sum_keep. apply map_sum_ext. intros j i Hi.
  destruct (negb _) eqn:Hkept; [done|]. apply negb_false_iff in Hkept.
  destruct (items_follow _ (inv_lifecycle _ Hinv) j i Hi) as (r & t' & Hr & _ & _ & Ht' & Hev).
  unfold item_units. destruct (bool_decide (ReservationItem_TicketTypeID i = k)) eqn:E; [|by rewrite andb_false_r].
  to_prop. subst k. rewrite Ht in Ht'. simplify_eq. unfold reservation_of in Hkept. rewrite Hr in Hkept.
  unfold outside in Hout. rewrite Hev, Hkept in Hout. done.
Qed.

Lemma purge_inv : db_inv (purge ids db).
Proof.
  pose proof Hinv as Hinv'. destruct Hinv' as [Hdb [HR HC] [HI HS HH HU]].
  split; [apply purge_schema| |].
  - split; intros k t; simpl; intros [Hk Hout]%keep_lookup; rewrite (purge_units _ k t Hk Hout); eauto.
  - split; simpl.
    + intros k i [Hk Hkept]%keep_lookup. destruct (HI k i Hk) as (r & t & Hr & Hty & Hst & Ht & Hev).
      destruct (kept_item k i Hk Hkept) as (r' & t' & Hr' & Ho & Ht' & Ho'). simplify_eq.
      exists r, t. simpl. rewrite !keep_lookup. by split_and!.
    + intros k s [Hk Hkept]%keep_lookup. destruct (HS k s Hk) as (r & p & Hr & Hty & Hst & Hex & Hp & Hev).
      destruct (kept_rseat k s Hk Hkept) as (r' & p' & Hr' & Ho & Hp' & Ho'). simplify_eq.
      exists r, p. simpl. rewrite !keep_lookup. by split_and!.
    + intros k r [Hk Ho]%keep_lookup. destruct (HH k r Hk) as (Hts & Hq & Hs).
      destruct (reservations_keyed _ Hdb k r Hk) as [HID _].
      assert (Hno : reservation_of ids db (Reservation_ID r) = false).
      { unfold reservation_of. rewrite HID, Hk. by apply negb_true_iff. }
      split; [done|]. split; simpl; intros Hty.
      * destruct (Hq Hty) as (j & i & Hj & Hid). exists j, i. split; [|done].
        apply keep_lookup. split; [done|]. by rewrite Hid, Hno.
      * destruct (Hs Hty) as (j & i & Hj & Hid). exists j, i. split; [|done].
        apply keep_lookup. split; [done|]. by rewrite Hid, Hno.
    + by apply unique_keep.
Qed.

(** The number of events that go. *)
Definition purged_count : Z :=
  Z.of_nat (length (List.filter (fun e => bool_decide (Event_ID e ∈ ids)) (rows (events db)))).

(** Once the reservations of the events are gone, nothing restricts the
    deletion of the events. *)
Lemma DeleteStressEvents_purges ctx db3 :
  events db3 = events db -> ticket_types db3 = ticket_types db -> seats db3 = seats db ->
  users db3 = users db -> visitor_sessions db3 = visitor_sessions db ->
  reservations db3 = reservations (purge ids db) ->
  reservation_items db3 = reservation_items (purge ids db) ->
  reservation_seats db3 = reservation_seats (purge ids db) ->
  DeleteStressEvents ids ctx db3 = inr (purged_count, purge ids db).
Proof.
  intros He Ht Hs Hu Hv Hr Hi Hrs. unfold DeleteStressEvents.
  assert (H1 : existsb (fun r => bool_decide (Reservation_EventID r ∈ ids)) (rows (reservations db3)) = false).
  { apply existsb_false. intros r [k Hk]%elem_of_rows. rewrite Hr in Hk. simpl in Hk.
    apply keep_lookup in Hk as [_ Ho]. by apply negb_true_iff. }
  assert (H2 : existsb (fun i => ticket_of ids db3 (ReservationItem_TicketTypeID i))
                 (rows (reservation_items db3)) = false).
  { apply existsb_false. intros i [k Hk]%elem_of_rows. rewrite Hi in Hk. simpl in Hk.
    apply keep_lookup in Hk as [Hk Ho]. destruct (kept_item k i Hk Ho) as (r & t & _ & _ & Hti & Hto).
    unfold ticket_of. rewrite Ht, Hti. by apply negb_true_iff. }
  assert (H3 : existsb (fun s => seat_of ids db3 (ReservationSeat_SeatID s))
                 (rows (reservation_seats db3)) = false).
  { apply existsb_false. intros s [k Hk]%elem_of_rows. rewrite Hrs in Hk. simpl in Hk.
    apply keep_lookup in Hk as [Hk Ho]. destruct (kept_rseat k s Hk Ho) as (r & p & _ & _ & Hp & Hpo).
    unfold seat_of. rewrite Hs, Hp. by apply negb_true_iff. }
  rewrite H1, H2, H3. cbn [orb]. rewrite He, Ht, Hs, Hu, Hv, Hr, Hi, Hrs. done.
Qed.
End purge.

(** The events whose name matches the pattern. *)
Definition matching_events (pattern : string) (db : Database) : list UUID :=
  Event_ID <$> select (fun e => LIKE (Event_Name e) pattern)
    (by_key (fun e => uuid_bytes (Event_ID e))) (events db).

Lemma elem_of_matching pattern db id :
  schema_ok db -> id ∈ matching_events pattern db <->
  exists e, events db !! id = Some e /\ LIKE (Event_Name e) pattern = true.
Proof.
  intros Hdb. unfold matching_events. rewrite list_elem_of_fmap. split.
  - intros (e & -> & He). apply (elem_of_select_key Event_ID) in He; [eauto|apply (events_keyed _ Hdb)].
  - intros (e & He & HL). destruct (events_keyed _ Hdb id e He) as [Hid _]. exists e. split; [done|].
    apply elem_of_select. eauto.
Qed.

Lemma keep_all {V} (P : V -> bool) (m : gmap UUID V) : (forall r, P r = true) -> keep P m = m.
Proof.
  intros HP. apply map_eq. intros k. apply option_eq. intros r. rewrite keep_lookup.
  split; [tauto|]. intros Hk. by rewrite HP.
Qed.

Lemma purge_nil db : purge [] db = db.
Proof.
  assert (Hno : forall rid, reservation_of [] db rid = false).
  { intros rid. unfold reservation_of. by destruct (reservations db !! rid). }
  unfold purge. rewrite !keep_all; [by destruct db|..]; try done; intros x; by rewrite Hno.
Qed.

Lemma purged_count_nil db : purged_count db [] = 0.
Proof. unfold purged_count. by induction (rows (events db)). Qed.

Section reset.
Variable a : assm.

Lemma resetTx_wp pattern db :
  db_inv db ->
  wp a (resetTx pattern) (fun r σ => σ.2 = Some db /\
    match r with
    | Ok n => n = purged_count db (matching_events pattern db) /\
              σ.1 = purge (matching_events pattern db) db
    | Err e => faulty a e
    | Panicked => False
    end) (db, Some db).
Proof.
  intros Hinv. unfold resetTx.
  assert (Hf : forall (f : fault_kind) (st : Database), quiet a = false ->
    (st, Some db).2 = Some db /\ faulty a (fault_error f)) by (intros; split; [done|by split; [|constructor]]).
  apply wp_bind, wp_sql_intro. split; [intros; by apply Hf|]. intros ctx1 _ _. cbn [fst snd].
  unfold ListStressEventIDs, reading. fold (matching_events pattern db).
  destruct (_ =? 0)%nat eqn:Hlen.
  { apply Nat.eqb_eq, length_zero_iff_nil in Hlen. rewrite Hlen.
    split; [done|]. by rewrite purge_nil, purged_count_nil. }
  set (ids := matching_events pattern db).
  apply wp_bind, wp_sql_intro. split; [intros; by apply Hf|]. intros ctx2 _ _. cbn [fst snd].
  unfold DeleteStressReservationSeats.
  apply wp_bind, wp_sql_intro. split; [intros; by apply Hf|]. intros ctx3 _ _. cbn [fst snd].
  unfold DeleteStressReservationItems.
  apply wp_bind, wp_sql_intro. split; [intros; by apply Hf|]. intros ctx4 _ _. cbn [fst snd].
  unfold DeleteStressReservations.
  apply wp_sql_intro. split; [intros; by apply Hf|]. intros ctx5 _ _. cbn [fst snd].
  rewrite (DeleteStressEvents_purges db Hinv ids); try done; simpl; apply keep_keep.
Qed.

Definition Reset_post (appEnv : string) (db : Database) (res : res ResetResponse) (σ : St) : Prop :=
  let ids := matching_events (StressEventPrefix ++ "%") db in
  σ.2 = None /\
  match res with
  | Ok r => isLocal appEnv = true /\ r = MkResetResponse (purged_count db ids) /\ σ.1 = purge ids db
  | Err e => (e = Sentinel ErrStressAdminDisabled /\ isLocal appEnv = false /\ σ.1 = db) \/
             (faulty a e /\ (σ.1 = db \/ σ.1 = purge ids db))
  | Panicked => False
  end.

Lemma Reset_wp appEnv db : db_inv db -> wp a (Reset appEnv) (Reset_post appEnv db) (db, None).
Proof.
  intros Hinv. unfold Reset. destruct (negb _) eqn:Hl; to_prop; [by split; [|left]|].
  apply wp_bind, wp_wrapf, wp_in_tx.
  - intros e He. split; [done|]. right. split; [by destruct He; repeat constructor|by left].
  - eapply wp_mono, resetTx_wp; [|done]. intros [n|e|] [db' saved] [Hσ Hr]; cbn [fst snd] in *; [| |done].
    + destruct Hr as [-> ->]. split; [done|]. split; [done|].
      intros e He. split; [done|]. right. split; [by destruct He; repeat constructor|by right].
    + split; [done|]. split; [done|]. right. split; [by destruct Hr; repeat constructor|by left].
Qed.
End reset.

(** ** Seed *)

(** The places of the given rows, seat by seat. *)
Definition row_places (row : Z) (numbers : list Z) : list (string * string * string) :=
  (fun number => ("A", Itoa row, Itoa number)) <$> numbers.

Definition places_of (rows : list Z) : list (string * string * string) :=
  flat_map (fun row => row_places row one_to_ten) rows.

Lemma places_NoDup : NoDup (places_of one_to_ten).
Proof. apply (bool_decide_unpack _). vm_compute. exact I. Qed.

(** The tables with the new event and its ticket type, and with seats of that
    event only besides the old ones. *)
Definition grown (db : Database) (e : Event) (t : TicketType) (db' : Database) : Prop :=
  events db' = <[Event_ID e:=e]> (events db) /\
  ticket_types db' = <[TicketType_ID t:=t]> (ticket_types db) /\ ticket_types db !! TicketType_ID t = None /\
  keep (fun s => outside [Event_ID e] (Seat_EventID s)) (seats db') = seats db /\
  users db' = users db /\ visitor_sessions db' = visitor_sessions db /\
  reservations db' = reservations db /\ reservation_items db' = reservation_items db /\
  reservation_seats db' = reservation_seats db.

(** The rows of a fixture. *)
Record seeded (name : string) (db db' : Database) (e : Event) (t : TicketType) (ss : list Seat) : Prop := {
  seeded_steps : rtc catalog_step db db';
  seeded_grown : grown db e t db';
  seeded_event : events db !! Event_ID e = None /\ events db' !! Event_ID e = Some e /\ Event_Name e = name;
  seeded_ticket : ticket_types db' !! TicketType_ID t = Some t /\
    TicketType_EventID t = Event_ID e /\ TicketType_TotalQuantity t = 1000;
  seeded_seats : forall s, s ∈ ss <-> (seats db' !! Seat_ID s = Some s /\ Seat_EventID s = Event_ID e);
  seeded_places : (fun s => (Seat_Section s, Seat_RowName s, Seat_SeatNumber s)) <$> ss =
    places_of one_to_ten }.

Lemma outside_single id ev : outside [id] ev = true <-> ev <> id.
Proof. unfold outside. by rewrite negb_true_iff, bool_decide_eq_false, list_elem_of_singleton. Qed.

Lemma keep_same {V} (P : V -> bool) (m : gmap UUID V) : all_rows (fun r => P r = true) m -> keep P m = m.
Proof.
  intros HP. apply map_eq. intros k. apply option_eq. intros r. rewrite keep_lookup.
  split; [tauto|]. intros Hk. eauto.
Qed.

Lemma keep_insert_out {V} (P : V -> bool) (m : gmap UUID V) k r :
  m !! k = None -> P r = false -> keep P (<[k:=r]> m) = keep P m.
Proof.
  intros Hk HP. unfold keep. rewrite map_filter_insert_False by (simpl; congruence).
  by rewrite delete_id.
Qed.

Lemma grown_seat db e t db' k s :
  grown db e t db' -> seats db' !! k = None -> Seat_EventID s = Event_ID e ->
  grown db e t (set_seats (<[k:=s]> (seats db')) db').
Proof.
  intros (He & Ht & Hn & Hs & Hrest) Hk Hev. split; [done|]. split; [done|]. split; [done|].
  split; [|exact Hrest]. simpl. rewrite keep_insert_out; [done|done|].
  apply not_true_iff_false. rewrite outside_single. by intros [].
Qed.

Section seed.
Context `{Pgtype}.
Variable a : assm.

(** What holds between two turns of the loops: [ss] are the seats of the new
    event, at the places met so far. *)
Definition seeding (db : Database) (e : Event) (t : TicketType) (placed : list (string * string * string))
    (ss : list Seat) (σ : St) : Prop :=
  σ.2 = Some db /\ rtc catalog_step db σ.1 /\ schema_ok σ.1 /\ grown db e t σ.1 /\
  events σ.1 !! Event_ID e = Some e /\ ticket_types σ.1 !! TicketType_ID t = Some t /\
  (forall s, s ∈ ss <-> (seats σ.1 !! Seat_ID s = Some s /\ Seat_EventID s = Event_ID e)) /\
  (fun s => (Seat_Section s, Seat_RowName s, Seat_SeatNumber s)) <$> ss = placed.

Lemma seed_seat_wp db e t placed ss row number σ (Q : res (list Seat) -> St -> Prop) :
  seeding db e t placed ss σ -> ("A", Itoa row, Itoa number) ∉ placed ->
  (forall err σ', quiet a = false -> σ'.2 = Some db -> Q (Err err) σ') ->
  (forall ss' σ', seeding db e t (placed ++ [("A", Itoa row, Itoa number)]) ss' σ' -> Q (Ok ss') σ') ->
  wp a (seed_seat (Event_ID e) row number ss) Q σ.
Proof.
  intros (Hσ & Hst & Hs & Hg & He & Ht & Hss & Hpl) Hnew Herr Hok.
  apply wp_bind, wp_sql_intro. split; [intros Hq f; by apply Herr|].
  intros ctx Hv Hc0; pose proof (undisturbed_fresh _ _ _ Hc0) as Hfresh; clear Hc0. pose proof (CreateSeat_ok ctx σ.1 (Event_ID e) "A" (Itoa row) (Itoa number) Hs Hv) as Hc.
  destruct (CreateSeat _ _ _ _ _ _) as [err|[s db']].
  - apply Herr; [|done]. destruct (quiet a); [|done]. exfalso. specialize (Hfresh eq_refl).
    unfold fresh_id in Hfresh. to_prop.
    destruct Hc as [[_ [[x Hx]|(k & s & Hk & Hpk)]]|[_ Hn]]; [| |by rewrite Hn in He].
    + match goal with Ha : absent (seats _) _ = true |- _ => apply absent_None in Ha end. congruence.
    + unfold seat_place in Hpk. injection Hpk as Hev Hsec Hrow Hnum.
      destruct (seats_keyed _ Hs k s Hk) as [Hid _]. apply Hnew. rewrite <- Hpl.
      apply list_elem_of_fmap. exists s. split; [by rewrite Hsec, Hrow, Hnum|].
      apply Hss. by rewrite Hid.
  - destruct Hc as (-> & -> & Hnone & Hs' & _). apply Hok. unfold seeding. cbn [fst snd].
    set (s := new_seat_row ctx (Event_ID e) "A" (Itoa row) (Itoa number)) in *.
    assert (Hnone' : seats σ.1 !! ctx_new_id ctx = None) by exact Hnone.
    split; [done|]. split; [by eapply rtc_r, catalog_seat|].
    split; [done|]. split; [by apply grown_seat|]. split_and!; [done..| |].
    + intros s'. rewrite elem_of_app, list_elem_of_singleton, Hss. simpl. split.
      * intros [[Hk Hev]| ->]; [|by rewrite lookup_insert_eq]. split; [|done].
        rewrite lookup_insert_ne; [done|]. intros Heq. rewrite <- Heq in Hk. by rewrite Hk in Hnone'.
      * intros [[[_ <-]|[Hne Hk]]%lookup_insert_Some Hev]; [by right|by left].
    + by rewrite fmap_app, Hpl.
Qed.

Lemma seed_row_wp db e t row before after ss σ (Q : res (list Seat) -> St -> Prop) :
  one_to_ten = before ++ row :: after -> seeding db e t (places_of before) ss σ ->
  (forall err σ', quiet a = false -> σ'.2 = Some db -> Q (Err err) σ') ->
  (forall ss' σ', seeding db e t (places_of (before ++ [row])) ss' σ' -> Q (Ok ss') σ') ->
  wp a (for_each one_to_ten (seed_seat (Event_ID e) row) ss) Q σ.
Proof.
  intros Hrows Hinv Herr Hok.
  apply (wp_for_each a _ _ _ (fun dn => seeding db e t (places_of before ++ row_places row dn))).
  - unfold row_places. by rewrite app_nil_r.
  - intros dn number rest s σ' Hsplit Hs. eapply seed_seat_wp; [exact Hs| |by apply Herr|].
    + assert (Hnd : NoDup (places_of (before ++ row :: after))) by (rewrite <- Hrows; apply places_NoDup).
      assert (Hrow : row_places row one_to_ten =
        row_places row dn ++ ("A", Itoa row, Itoa number) :: row_places row rest).
      { unfold row_places. by rewrite Hsplit, fmap_app. }
      unfold places_of in *. rewrite flat_map_app in Hnd. cbn [flat_map] in Hnd.
      rewrite Hrow, <- !app_assoc, app_assoc in Hnd. apply NoDup_app in Hnd as (_ & Hnd & _).
      intros Hin. by apply (Hnd _ Hin), list_elem_of_here.
    + intros ss' σ'' Hs'. unfold row_places. by rewrite fmap_app, app_assoc.
  - intros s σ' Hs. apply Hok. unfold places_of. rewrite flat_map_app. cbn [flat_map].
    by rewrite app_nil_r.
Qed.

Definition seedTx_post (name : string) (db : Database) (r : res (Event * TicketType * list Seat))
    (σ : St) : Prop :=
  σ.2 = Some db /\
  match r with
  | Ok (e, t, ss) => seeded name db σ.1 e t ss
  | Err _ => quiet a = false
  | Panicked => False
  end.

Lemma seedTx_wp name starts ends db :
  schema_ok db -> wp a (seedTx name starts ends) (seedTx_post name db) (db, Some db).
Proof.
  intros Hdb. unfold seedTx. apply wp_bind, wp_sql_intro. split; [by intros|].
  intros ctx1 Hv1 Hf1. cbn [fst snd] in *.
  pose proof (CreateEvent_ok ctx1 db name starts ends Hdb Hv1) as He.
  destruct (CreateEvent _ _ _ _ _) as [err|[e db1]].
  { split; [done|]. destruct (quiet a); [|done]. exfalso. specialize (Hf1 eq_refl).
    unfold undisturbed, fresh_id in Hf1. to_prop. destruct He as [_ [x Hx]].
    match goal with Ha : absent (events _) _ = true |- _ => apply absent_None in Ha end. congruence. }
  destruct He as (Hname & -> & Hnone & Hs1).
  assert (Hfree : forall k s, seats db !! k = Some s -> Seat_EventID s <> Event_ID e).
  { intros k s Hk Heq. destruct (seats_event _ Hdb k s Hk) as [x Hx]. rewrite Heq, Hnone in Hx. done. }
  apply wp_bind, wp_sql_intro. split; [by intros|]. intros ctx2 Hv2 Hf2. cbn [fst snd] in *.
  pose proof (CreateTicketType_ok ctx2 _ (Event_ID e) "General Admission" 1000 Hs1 Hv2 eq_refl ltac:(lia)) as Ht.
  destruct (CreateTicketType _ _ _ _ _) as [err|[t db2]].
  { split; [done|]. destruct (quiet a); [|done]. exfalso. specialize (Hf2 eq_refl).
    unfold undisturbed, fresh_id in Hf2. to_prop. destruct Ht as [[_ [x Hx]]|[_ Hn]].
    - match goal with Ha : absent (ticket_types _) _ = true |- _ => apply absent_None in Ha end. congruence.
    - simpl in Hn. by rewrite lookup_insert_eq in Hn. }
  destruct Ht as (Htt & -> & Hnone2 & Hs2).
  apply wp_bind. apply (wp_for_each a _ _ _ (fun dn => seeding db e t (places_of dn))).
  - split; [done|]. cbn [fst snd]. split.
    { eapply rtc_l; [by apply catalog_event|]. apply rtc_once.
      apply catalog_ticket; [done| | |done]; by rewrite Htt. }
    split; [done|]. split.
    { unfold grown. simpl. split_and!; try done.
      apply keep_same. intros k s Hk. by apply outside_single, (Hfree k s). }
    split_and!; [by apply lookup_insert_eq|by apply lookup_insert_eq| |done].
    intros s. split; [by intros ?%not_elem_of_nil|]. intros [Hk Hev]. by destruct (Hfree _ _ Hk).
  - intros dn row rest ss σ Hsplit Hs. eapply seed_row_wp; [done|done|by intros|by intros].
  - intros ss σ (Hσ & Hst & Hs & Hg & He & Ht & Hss & Hpl). split; [done|]. split; try done.
    + split_and!; [done|done|by rewrite Hname].
    + split_and!; [done|by rewrite Htt|by rewrite Htt].
Qed.

(** The hexadecimal form of eight random bytes. *)
Definition random_suffix (suffix : string) : Prop :=
  exists bs, length bs = 8%nat /\ suffix = hex_EncodeToString (byte_value <$> bs).

Definition Seed_post (appEnv : string) (db : Database) (res : res SeedResponse) (σ : St) : Prop :=
  σ.2 = None /\
  match res with
  | Ok r => isLocal appEnv = true /\ exists suffix e t ss, random_suffix suffix /\
      seeded (StressEventPrefix ++ suffix) db σ.1 e t ss /\
      r = MkSeedResponse (UUIDToString (Event_ID e)) (UUIDToString (TicketType_ID t))
            ((fun s => UUIDToString (Seat_ID s)) <$> ss)
  | Err err => (err = Sentinel ErrStressAdminDisabled /\ isLocal appEnv = false /\ σ.1 = db) \/
      (quiet a = false /\ (σ.1 = db \/ exists suffix e t ss,
         random_suffix suffix /\ seeded (StressEventPrefix ++ suffix) db σ.1 e t ss))
  | Panicked => False
  end.

Lemma wp_randomHex n (Q : res string -> St -> Prop) σ :
  (forall e, quiet a = false -> Q (Err e) σ) -> 
  (forall bs, length bs = n -> Q (Ok (hex_EncodeToString (byte_value <$> bs))) σ) ->
  wp a (randomHex n) Q σ.
Proof.
  intros He Hok. apply wp_bind, wp_wrapf. split; [intros Hq text; by apply He|intros bs Hbs _; by apply Hok].
Qed.

Lemma Seed_wp appEnv db : schema_ok db -> wp a (Seed appEnv) (Seed_post appEnv db) (db, None).
Proof.
  intros Hdb. unfold Seed. destruct (negb _) eqn:Hl; to_prop; [by split; [|left]|].
  apply wp_bind, wp_randomHex.
  { intros err Hq. split; [done|]. right. split; [done|by left]. }
  intros bs Hbs. set (suffix := hex_EncodeToString _).
  assert (Hsuf : random_suffix suffix) by (by exists bs).
  apply wp_bind, wp_time_Now. intros now Hnow. apply wp_bind, wp_wrapf, wp_in_tx.
  - intros err [Hq _]. split; [done|]. right. split; [done|by left].
  - eapply wp_mono, seedTx_wp; [|done]. intros [[[e t] ss]|err|] [db' saved] [Hσ Hr];
      cbn [fst snd] in *; [| |done]; (split; [done|]).
    + split; [split; [done|]; split; [done|]; by exists suffix, e, t, ss|].
      intros err [Hq _]. split; [done|]. right. split; [done|]. right. by exists suffix, e, t, ss.
    + split; [done|]. right. split; [done|by left].
Qed.
End seed.
