(* ===== verification/StressReport.v ===== *)
(** * What the consistency report of the stress administration means

    AssertConsistency on arbitrary tables, also inconsistent ones: each check
    of the report is true exactly when the tables have the property it names. *)

From S2P Require Import Prelude GoRuntime DbTypes Schema Prog Wp Crypto SqlcReservations Inventory SqlcEvents SqlcStress StressAdmin StressFacts.
Local Open Scope string_scope.
Local Open Scope list_scope.
Local Open Scope Z_scope.

(** ** The properties the report looks for *)

Definition quantities_not_negative (db : Database) : Prop :=
  all_rows (fun t => 0 <= TicketType_TotalQuantity t /\ 0 <= TicketType_SoldQuantity t /\
                     0 <= TicketType_ReservedQuantity t) (ticket_types db).

Definition not_oversold (db : Database) : Prop :=
  all_rows (fun t => TicketType_SoldQuantity t + TicketType_ReservedQuantity t <=
                     TicketType_TotalQuantity t) (ticket_types db).

(** An int4 sum of the query overflows. *)
Definition sum_overflows (db : Database) : Prop :=
  exists k t, ticket_types db !! k = Some t /\
    int32_range (TicketType_SoldQuantity t + TicketType_ReservedQuantity t) = false.

Definition one_holder_per_seat (db : Database) : Prop :=
  unique active_seat ReservationSeat_SeatID (reservation_seats db).

Definition items_have_reservations (db : Database) : Prop :=
  refers ReservationItem_ReservationID (reservation_items db) (reservations db).

Definition seats_have_reservations (db : Database) : Prop :=
  refers ReservationSeat_ReservationID (reservation_seats db) (reservations db).

(** No reservation is still reserved although its deadline lies at least the
    tolerance before [now]. *)
Definition expired_in_time `{Pgtype} (now : Z) (db : Database) : Prop :=
  all_rows (fun r => overdue (MkTs (now - staleActiveReservationTolerance) true) r = false)
    (reservations db).

(** The report on the tables [db] at [now]. *)
Record decides `{Pgtype} (now : Z) (db : Database) (r : ConsistencyResponse) : Prop := {
  decides_negative : TicketQuantityNotNegative (Cons_Checks r) = true <-> quantities_not_negative db;
  decides_oversold : TicketQuantityNotOversold (Cons_Checks r) = true <-> not_oversold db;
  decides_duplicates : NoDuplicateActiveSeats (Cons_Checks r) = true <-> one_holder_per_seat db;
  decides_items : NoOrphanReservationItems (Cons_Checks r) = true <-> items_have_reservations db;
  decides_seats : NoOrphanReservationSeats (Cons_Checks r) = true <-> seats_have_reservations db;
  decides_stale : NoStaleExpiredActiveReservations (Cons_Checks r) = true <-> expired_in_time now db;
  decides_OK : Cons_OK r = true <->
    quantities_not_negative db /\ not_oversold db /\ one_holder_per_seat db /\
    items_have_reservations db /\ seats_have_reservations db /\ expired_in_time now db;
  decides_details : Cons_OK r = true <-> Cons_Details r = [] }.

(** ** The queries *)

Lemma no_rows_nil {A} (l : list A) : no_rows l = true <-> l = [].
Proof. unfold no_rows. rewrite Nat.eqb_eq. apply length_zero_iff_nil. Qed.

Lemma no_rows_fmap {A B} (f : A -> B) (l : list A) : no_rows (f <$> l) = no_rows l.
Proof. unfold no_rows. by rewrite length_fmap. Qed.

Lemma no_rows_select {V} (P : V -> bool) R `{!RelDecision R} (m : gmap UUID V) :
  no_rows (select P R m) = true <-> all_rows (fun r => P r = false) m.
Proof. rewrite no_rows_nil. apply select_nil. Qed.

Lemma all_rows_iff {V} (P Q : V -> Prop) (m : gmap UUID V) :
  (forall r, P r <-> Q r) -> all_rows P m <-> all_rows Q m.
Proof. intros HPQ. unfold all_rows. by setoid_rewrite HPQ. Qed.

Lemma count_elem_of {A} `{EqDecision A} (x : A) (l : list A) :
  x ∈ l -> (0 < length (List.filter (fun y => y ==? x) l))%nat.
Proof.
  induction 1 as [x l|x y l Hx IH]; simpl.
  - rewrite bool_decide_eq_true_2 by done. simpl. lia.
  - destruct (y ==? x); simpl; lia.
Qed.

Lemma NoDup_counts {A} `{EqDecision A} (l : list A) :
  NoDup l <-> forall x, (length (List.filter (fun y => y ==? x) l) <= 1)%nat.
Proof.
  induction l as [|y l IH].
  - split; [simpl; lia|constructor].
  - rewrite NoDup_cons, IH. split.
    + intros [Hy Hc] x. simpl. destruct (bool_decide (y = x)) eqn:E; [|apply Hc]. to_prop. subst x.
      simpl. assert (Hn : List.filter (fun z => z ==? y) l = []); [|rewrite Hn; simpl; lia].
      destruct (List.filter _ l) as [|z l'] eqn:Hf; [done|]. exfalso. apply Hy.
      assert (Hz : In z (List.filter (fun z => z ==? y) l)) by (rewrite Hf; by left).
      apply filter_In in Hz as [Hz Hzy]. to_prop. subst z. by apply list_elem_of_In.
    + intros Hc. split.
      * intros Hy%count_elem_of. specialize (Hc y). simpl in Hc.
        rewrite bool_decide_eq_true_2 in Hc by done. simpl in Hc. lia.
      * intros x. specialize (Hc x). simpl in Hc. destruct (y ==? x); simpl in Hc; lia.
Qed.

Lemma active_count_ids seatID db :
  active_count seatID db =
  Z.of_nat (length (List.filter (fun x => x ==? seatID) (active_seat_ids (reservation_seats db)))).
Proof.
  unfold active_count, active_seat_ids. f_equal.
  induction (List.filter active_seat (rows (reservation_seats db))) as [|s l IH]; [done|].
  simpl. destruct (_ ==? seatID); simpl; by rewrite IH.
Qed.

Lemma active_seat_ids_insert m k x :
  m !! k = None ->
  active_seat_ids (<[k:=x]> m) ≡ₚ
    (if active_seat x then [ReservationSeat_SeatID x] else []) ++ active_seat_ids m.
Proof.
  intros Hk. unfold active_seat_ids. rewrite (rows_insert m k x Hk). cbn [List.filter].
  by destruct (active_seat x).
Qed.

Lemma NoDup_unique m : NoDup (active_seat_ids m) -> unique active_seat ReservationSeat_SeatID m.
Proof.
  induction m as [|k x m Hk IH] using map_ind; [by intros _ i j r s Hi|].
  rewrite active_seat_ids_insert by done. intros (Hx & Hdisj & Hm)%NoDup_app. specialize (IH Hm).
  assert (Hno : forall j s, m !! j = Some s -> active_seat x = true -> active_seat s = true ->
    ReservationSeat_SeatID x <> ReservationSeat_SeatID s).
  { intros j s Hj Hax Has Heq. apply (Hdisj (ReservationSeat_SeatID x)).
    - rewrite Hax. by left.
    - apply active_seat_ids_spec. eauto. }
  intros i j r s [[<- <-]|[Hi Hr]]%lookup_insert_Some [[<- <-]|[Hj Hs]]%lookup_insert_Some Har Has Heq.
  - done.
  - by destruct (Hno j s Hs Har Has).
  - by destruct (Hno i r Hr Has Har).
  - by apply (IH i j r s).
Qed.

Lemma duplicates_nil db :
  List.filter (fun k => 1 <? active_count k db) (remove_dups (active_seat_ids (reservation_seats db))) = [] <->
  one_holder_per_seat db.
Proof.
  assert (Hiff : one_holder_per_seat db <-> NoDup (active_seat_ids (reservation_seats db)))
    by (split; [apply unique_NoDup|apply NoDup_unique]).
  rewrite Hiff, NoDup_counts. split.
  - intros Hnil x. destruct (decide (x ∈ active_seat_ids (reservation_seats db))) as [Hin|Hout].
    + destruct (Z.ltb_spec 1 (active_count x db)) as [E|E]; [apply Z.ltb_lt in E|rewrite active_count_ids in E; lia].
      exfalso. assert (Hx : In x (List.filter (fun k => 1 <? active_count k db)
        (remove_dups (active_seat_ids (reservation_seats db))))); [|by rewrite Hnil in Hx].
      apply filter_In. split; [|done]. by apply list_elem_of_In, elem_of_remove_dups.
    + destruct (List.filter (fun y => y ==? x) (active_seat_ids (reservation_seats db))) as [|y l] eqn:Hf;
        [apply Nat.le_0_l|]. exfalso. apply Hout.
      assert (Hy : In y (List.filter (fun y => y ==? x) (active_seat_ids (reservation_seats db))))
        by (rewrite Hf; by left).
      apply filter_In in Hy as [Hy Hyx]. to_prop. subst y. by apply list_elem_of_In.
  - intros Hc. induction (remove_dups _) as [|k l IH]; [done|]. simpl. specialize (Hc k).
    rewrite active_count_ids. destruct (Z.ltb_spec 1
      (Z.of_nat (length (List.filter (fun x => x ==? k) (active_seat_ids (reservation_seats db)))))); [lia|].
    exact IH.
Qed.

Lemma refers_missing {V} (fk : V -> UUID) (m : gmap UUID V) db :
  all_rows (fun r => missing_reservation db (fk r) = false) m <-> refers fk m (reservations db).
Proof.
  apply all_rows_iff. intros r. unfold missing_reservation. by rewrite negb_false_iff, has_row_spec.
Qed.

Lemma negative_spec db :
  all_rows (fun t => (TicketType_TotalQuantity t <? 0) || (TicketType_SoldQuantity t <? 0) ||
    (TicketType_ReservedQuantity t <? 0) = false) (ticket_types db) <-> quantities_not_negative db.
Proof. apply all_rows_iff. intros t. rewrite !orb_false_iff, !Z.ltb_ge. lia. Qed.

Lemma oversold_spec db :
  all_rows (fun t => (TicketType_TotalQuantity t <? TicketType_SoldQuantity t + TicketType_ReservedQuantity t)
    = false) (ticket_types db) <-> not_oversold db.
Proof. apply all_rows_iff. intros t. apply Z.ltb_ge. Qed.

Lemma no_overflow db :
  existsb (fun t => negb (int32_range (TicketType_SoldQuantity t + TicketType_ReservedQuantity t)))
    (rows (ticket_types db)) = true -> sum_overflows db.
Proof.
  intros (t & Hin & Ht)%existsb_exists. apply list_elem_of_In, elem_of_rows in Hin as [k Hk].
  exists k, t. split; [done|]. by apply negb_true_iff.
Qed.

(** ** The report *)

(** The report as a function of the rows the queries found. *)
Definition report_of (negative oversold : list TicketQuantityRow)
    (duplicates : list ListDuplicateActiveSeatViolationsRow) (orphanItems orphanSeats : list OrphanRow)
    (staleRows : list ListStaleRow) : ConsistencyResponse :=
  let checks := MkConsistencyChecks (no_rows oversold) (no_rows negative) (no_rows duplicates)
    (no_rows orphanItems) (no_rows orphanSeats) (no_rows staleRows) in
  MkConsistencyResponse
    (TicketQuantityNotOversold checks && TicketQuantityNotNegative checks &&
     NoDuplicateActiveSeats checks && NoOrphanReservationItems checks &&
     NoOrphanReservationSeats checks && NoStaleExpiredActiveReservations checks)
    checks
    ((quantity_detail "ticket_quantity_not_negative" "Ticket type has a negative quantity" <$> negative) ++
     (quantity_detail "ticket_quantity_not_oversold" "Ticket type has sold + reserved greater than total"
        <$> oversold) ++
     (duplicate_detail <$> duplicates) ++
     (orphan_detail "no_orphan_reservation_items" "Reservation item points to a missing reservation"
        "reservation_item_id" <$> orphanItems) ++
     (orphan_detail "no_orphan_reservation_seats" "Reservation seat points to a missing reservation"
        "reservation_seat_id" <$> orphanSeats) ++
     (stale_detail <$> staleRows)).

Lemma no_fmap_nil {A B} (f : A -> B) (l : list A) : f <$> l = [] <-> l = [].
Proof. by destruct l. Qed.

(** Each kind of rows is empty exactly when its property holds. *)
Lemma report_decides `{Pgtype} now db negative oversold duplicates orphanItems orphanSeats staleRows :
  (no_rows negative = true <-> quantities_not_negative db) ->
  (no_rows oversold = true <-> not_oversold db) ->
  (no_rows duplicates = true <-> one_holder_per_seat db) ->
  (no_rows orphanItems = true <-> items_have_reservations db) ->
  (no_rows orphanSeats = true <-> seats_have_reservations db) ->
  (no_rows staleRows = true <-> expired_in_time now db) ->
  decides now db (report_of negative oversold duplicates orphanItems orphanSeats staleRows).
Proof.
  intros H1 H2 H3 H4 H5 H6. split; try done; cbn [Cons_OK Cons_Details report_of].
  - rewrite !andb_true_iff. cbn. rewrite H1, H2, H3, H4, H5, H6. tauto.
  - rewrite !andb_true_iff. cbn. rewrite !no_rows_nil, !app_nil. rewrite !no_fmap_nil. tauto.
Qed.

Section consistency.
Context `{Pgtype}.
Variable a : assm.

Definition AssertConsistency_post (appEnv : string) (db : Database) (res : res ConsistencyResponse)
    (σ : St) : Prop :=
  σ = (db, None) /\
  match res with
  | Ok r => isLocal appEnv = true /\ exists now, clock_ok a now = true /\ decides now db r
  | Err e => faulty a e \/ (e = Sentinel ErrStressAdminDisabled /\ isLocal appEnv = false) \/
             sum_overflows db
  | Panicked => False
  end.

(** A query that changes nothing. *)
Lemma wp_reading {X} text (f : Database -> error + X) appEnv db (k : X -> prog ConsistencyResponse) :
  (forall e, f db = inl e -> sum_overflows db) ->
  (forall x, f db = inr x -> wp a (k x) (AssertConsistency_post appEnv db) (db, None)) ->
  wp a (bind (wrapf text (sql (reading f))) k) (AssertConsistency_post appEnv db) (db, None).
Proof.
  intros He Hx. apply wp_bind, wp_wrapf_sql; [by intros; split; [|left]|].
  intros ctx _ _. cbn [fst snd]. unfold reading.
  destruct (f db) as [e|x]; [|by apply Hx]. split; [done|]. right. right. by eapply He.
Qed.

Lemma AssertConsistency_decides_wp appEnv db :
  wp a (AssertConsistency appEnv) (AssertConsistency_post appEnv db) (db, None).
Proof.
  unfold AssertConsistency. destruct (negb _) eqn:Hl; to_prop; [by split; [|right; left]|].
  apply wp_reading; [done|]. intros negative [= <-].
  apply wp_reading; [intros e; destruct (existsb _ _) eqn:E; [by intros _; apply no_overflow|done]|].
  intros oversold. destruct (existsb _ _); [done|]. intros [= <-].
  apply wp_reading; [done|]. intros duplicates [= <-].
  apply wp_reading; [done|]. intros orphanItems [= <-].
  apply wp_reading; [done|]. intros orphanSeats [= <-].
  apply wp_bind, wp_time_Now. intros now Hnow.
  apply wp_reading; [done|]. intros staleRows [= <-].
  split; [done|]. split; [done|]. exists now. split; [done|].
  apply report_decides; rewrite no_rows_fmap, ?no_rows_select;
    [apply negative_spec|apply oversold_spec| |apply refers_missing|apply refers_missing|done].
  rewrite no_rows_nil, <- duplicates_nil.
  split; [|by intros ->]. intros Hnil. apply Permutation_nil. by rewrite <- Hnil, merge_sort_Permutation.
Qed.
End consistency.
