(* ===== verification/StressRoundtrip.v ===== *)
(** * Seeding and resetting the stress fixture

    Which event names the pattern of Reset matches, and that Reset takes away
    exactly what Seed has put there. *)

From S2P Require Import Prelude GoRuntime DbTypes Schema Prog Wp Crypto SqlcReservations Inventory SqlcEvents SqlcStress StressAdmin StressFacts.
Local Open Scope string_scope.
Local Open Scope list_scope.
Local Open Scope Z_scope.

(** ** The pattern *)

(** The text does not begin in the middle of a character. *)
Definition starts_character (l : list ascii) : Prop :=
  match l with [] => True | c :: _ => continuation c = false end.

Lemma characters_head l d ds rest : characters l = (d :: ds) :: rest -> exists l', l = d :: l'.
Proof.
  destruct l as [|c l']; [done|]. simpl.
  destruct (characters l') as [|[|d' ds'] rest']; [by intros [= -> _ _]; eauto..|].
  destruct (continuation d'); intros [= -> _ _]; eauto.
Qed.

Lemma characters_cons c l : starts_character l -> characters (c :: l) = [c] :: characters l.
Proof.
  intros Hl. simpl. destruct (characters l) as [|[|d ds] rest] eqn:E; [done..|].
  destruct (characters_head _ _ _ _ E) as [l' ->]. simpl in Hl. by rewrite Hl.
Qed.

Lemma any_string s : like_match [AnyString] s = true.
Proof. by induction s as [|c s IH]; [|exact IH || rewrite orb_true_r]. Qed.

Lemma stress_tokens :
  like_tokens (characters (list_ascii_of_string (StressEventPrefix ++ "%"))) =
  [AnyCharacter; AnyCharacter] ++ ((fun c => Character [c]) <$> list_ascii_of_string "stress") ++
  [AnyCharacter] ++ ((fun c => Character [c]) <$> list_ascii_of_string "seed") ++
  [AnyCharacter; AnyCharacter; Character [":"%char]; AnyString].
Proof. reflexivity. Qed.

(** What stands for itself in StressEventPrefix is "stress", "seed" and ":". *)
Definition stress_like (c1 c2 c3 c4 c5 : ascii) (rest : string) : string :=
  string_of_list_ascii ([c1; c2] ++ list_ascii_of_string "stress" ++ [c3] ++
    list_ascii_of_string "seed" ++ [c4; c5] ++ list_ascii_of_string ":" ++ list_ascii_of_string rest).

Lemma LIKE_stress c1 c2 c3 c4 c5 rest :
  Forall (fun c => continuation c = false) [c1; c2; c3; c4; c5] ->
  starts_character (list_ascii_of_string rest) ->
  LIKE (stress_like c1 c2 c3 c4 c5 rest) (StressEventPrefix ++ "%") = true.
Proof.
  rewrite !Forall_cons. intros (H1 & H2 & H3 & H4 & H5 & _) Hrest. unfold LIKE, stress_like.
  rewrite list_ascii_of_string_of_list_ascii. cbn [app list_ascii_of_string].
  repeat (rewrite characters_cons by done).
  rewrite stress_tokens. simpl. apply any_string.
Qed.

Lemma hex_starts bs : starts_character (list_ascii_of_string (hex_EncodeToString (byte_value <$> bs))).
Proof.
  destruct bs as [|b bs]; [exact I|]. unfold hex_EncodeToString. rewrite list_ascii_of_string_of_list_ascii.
  apply negb_true_iff.
  apply (all_bytes_spec (fun b => negb (continuation (hex_digit (Z.to_N (Z.shiftr (byte_value b) 4)))))).
  vm_compute. reflexivity.
Qed.

(** Reset recognises the events of Seed. *)
Lemma LIKE_fixture suffix :
  random_suffix suffix -> LIKE (StressEventPrefix ++ suffix) (StressEventPrefix ++ "%") = true.
Proof.
  intros (bs & _ & ->). set (s := hex_EncodeToString _).
  replace (StressEventPrefix ++ s)%string with (stress_like "_" "_" "_" "_" "_" s).
  - apply LIKE_stress; [by repeat constructor|apply hex_starts].
  - unfold stress_like, StressEventPrefix. simpl. by rewrite string_of_list_ascii_of_string.
Qed.

(** ** Reset after Seed *)

Lemma filter_none {A} (P : A -> bool) (l : list A) : (forall x, x ∈ l -> P x = false) -> List.filter P l = [].
Proof.
  induction l as [|x l IH]; [done|]. intros Hall. simpl. rewrite (Hall x) by apply list_elem_of_here.
  apply IH. intros y Hy. by apply Hall, list_elem_of_further.
Qed.

Lemma keep_ext {V} (P Q : V -> bool) (m : gmap UUID V) : (forall r, P r = Q r) -> keep P m = keep Q m.
Proof. intros HPQ. apply map_eq. intros k. apply option_eq. intros r. by rewrite !keep_lookup, HPQ. Qed.

(** A row is kept by both tests one after the other when both tests hold. *)
Lemma keep_both {V} (P Q R : V -> bool) (m : gmap UUID V) :
  (forall r, P r = Q r && R r) -> keep P m = keep R (keep Q m).
Proof.
  intros HP. apply map_eq. intros k. apply option_eq. intros r. rewrite !keep_lookup, HP, andb_true_iff. tauto.
Qed.

Lemma keep_ext_rows {V} (P Q : V -> bool) (m : gmap UUID V) :
  all_rows (fun r => P r = Q r) m -> keep P m = keep Q m.
Proof.
  intros HPQ. apply map_eq. intros k. apply option_eq. intros r. rewrite !keep_lookup.
  split; intros [Hk HP]; (split; [done|]); specialize (HPQ k r Hk); cbv beta in HPQ; congruence.
Qed.

(** [ids] are the new event and [ids0]. *)
Section fixture.
Context (name : string) (db db' : Database) (e : Event) (t : TicketType) (ss : list Seat).
Hypothesis Hdb : schema_ok db.
Hypothesis Hseeded : seeded name db db' e t ss.
Variables ids0 ids : list UUID.
Hypothesis Hids : forall id, id ∈ ids <-> id = Event_ID e \/ id ∈ ids0.

Lemma outside_event ev : outside ids ev = outside [Event_ID e] ev && outside ids0 ev.
Proof.
  apply eq_true_iff_eq. unfold outside. rewrite andb_true_iff, !negb_true_iff, !bool_decide_eq_false, Hids.
  rewrite list_elem_of_singleton. tauto.
Qed.

Lemma outside_old ev : ev <> Event_ID e -> outside ids ev = outside ids0 ev.
Proof. intros Hne. rewrite outside_event. by rewrite (proj2 (outside_single _ _) Hne). Qed.

Lemma outside_new : outside ids (Event_ID e) = false.
Proof. unfold outside. apply negb_false_iff, bool_decide_eq_true_2, Hids. by left. Qed.

(** The rows of the old events go or stay as without the new one. *)
Lemma keep_elsewhere {V} (fk : V -> UUID) m :
  refers fk m (events db) -> keep (fun r => outside ids (fk r)) m = keep (fun r => outside ids0 (fk r)) m.
Proof.
  intros Hm. apply keep_ext_rows. intros k r Hk. apply outside_old. intros Heq.
  destruct (Hm k r Hk) as [x Hx]. rewrite Heq in Hx. destruct Hseeded as [_ _ [Hnone _] _ _ _]. congruence.
Qed.

Lemma reservations_elsewhere rid : reservation_of ids db' rid = reservation_of ids0 db rid.
Proof.
  unfold reservation_of. destruct Hseeded as [_ (_ & _ & _ & _ & _ & _ & -> & _) [Hnone _] _ _ _].
  destruct (reservations db !! rid) as [rs|] eqn:Hr; [|done].
  assert (Hne : Reservation_EventID rs <> Event_ID e).
  { intros Heq. destruct (reservations_event _ Hdb _ _ Hr) as [x Hx]. congruence. }
  pose proof (outside_old _ Hne) as Ho. unfold outside in Ho. by destruct (bool_decide _), (bool_decide _).
Qed.

Lemma purge_fixture : purge ids db' = purge ids0 db.
Proof.
  pose proof Hseeded as [_ (He & Ht & Htn & Hs & Hu & Hv & Hr & Hi & Hrs) (Hnone & _) (_ & Htev & _) _ _].
  unfold purge. rewrite He, Ht, Hu, Hv, Hr, Hi, Hrs. f_equal.
  - rewrite keep_insert_out by (done || apply outside_new). apply keep_ext_rows. intros k x Hk.
    destruct (events_keyed _ Hdb k x Hk) as [-> _]. apply outside_old. congruence.
  - rewrite keep_insert_out by (done || (rewrite Htev; apply outside_new)). apply keep_elsewhere, Hdb.
  - rewrite <- Hs. apply keep_both. intros s. apply outside_event.
  - apply keep_elsewhere, Hdb.
  - apply keep_ext. intros r. by rewrite reservations_elsewhere.
  - apply keep_ext. intros r. by rewrite reservations_elsewhere.
Qed.

Lemma purged_fixture : purged_count db' ids = 1 + purged_count db ids0.
Proof.
  pose proof Hseeded as [_ (He & _) (Hnone & _) _ _ _]. unfold purged_count.
  rewrite He, (rows_insert _ _ _ Hnone). cbn [List.filter].
  rewrite bool_decide_eq_true_2 by (apply Hids; by left). cbn [length].
  replace (List.filter (fun x => bool_decide (Event_ID x ∈ ids)) (rows (events db)))
    with (List.filter (fun x => bool_decide (Event_ID x ∈ ids0)) (rows (events db))); [lia|].
  apply filter_ext_in. intros x [k Hk]%list_elem_of_In%elem_of_rows. apply bool_decide_ext. rewrite Hids.
  destruct (events_keyed _ Hdb k x Hk) as [-> _]. split; [by right|intros [->|?]; [congruence|done]].
Qed.
End fixture.

(** ** What Reset leaves *)

Definition fixture_name (e : Event) : bool := LIKE (Event_Name e) (StressEventPrefix ++ "%").

(** The events with a matching name are gone, and of the other tables exactly
    the rows that hang on them. *)
Record cleared (db db' : Database) : Prop := {
  cleared_users : users db' = users db /\ visitor_sessions db' = visitor_sessions db;
  cleared_events : forall k e,
    events db' !! k = Some e <-> events db !! k = Some e /\ fixture_name e = false;
  cleared_tickets : forall k t, ticket_types db' !! k = Some t <->
    ticket_types db !! k = Some t /\ is_Some (events db' !! TicketType_EventID t);
  cleared_seats : forall k s, seats db' !! k = Some s <->
    seats db !! k = Some s /\ is_Some (events db' !! Seat_EventID s);
  cleared_reservations : forall k r, reservations db' !! k = Some r <->
    reservations db !! k = Some r /\ is_Some (events db' !! Reservation_EventID r);
  cleared_items : forall k i, reservation_items db' !! k = Some i <->
    reservation_items db !! k = Some i /\ is_Some (reservations db' !! ReservationItem_ReservationID i);
  cleared_rseats : forall k s, reservation_seats db' !! k = Some s <->
    reservation_seats db !! k = Some s /\ is_Some (reservations db' !! ReservationSeat_ReservationID s) }.

Definition fixture_ids (db : Database) : list UUID := matching_events (StressEventPrefix ++ "%") db.

Section cleared.
Variable db : Database.
Hypothesis Hinv : db_inv db.

Lemma outside_fixture k e :
  events db !! k = Some e -> outside (fixture_ids db) k = negb (fixture_name e).
Proof.
  intros Hk. unfold outside. f_equal. apply eq_true_iff_eq. rewrite bool_decide_eq_true.
  unfold fixture_ids. rewrite elem_of_matching by apply Hinv. split; [|by eauto].
  intros (e' & He' & HL). by simplify_eq.
Qed.

Lemma cleared_event k e :
  events (purge (fixture_ids db) db) !! k = Some e <-> events db !! k = Some e /\ fixture_name e = false.
Proof.
  simpl. rewrite keep_lookup. split; intros [Hk Ho]; (split; [done|]);
    destruct (events_keyed _ (inv_schema _ Hinv) k e Hk) as [Hid _]; rewrite Hid, (outside_fixture k e Hk) in *.
  - by apply negb_true_iff.
  - by apply negb_true_iff.
Qed.

(** A row stays exactly when its event does. *)
Lemma cleared_rows {V} (fk : V -> UUID) m :
  refers fk m (events db) -> forall k r,
  keep (fun r => outside (fixture_ids db) (fk r)) m !! k = Some r <->
  m !! k = Some r /\ is_Some (events (purge (fixture_ids db) db) !! fk r).
Proof.
  intros Hm k r. rewrite keep_lookup. split; intros [Hk Ho]; (split; [done|]).
  - destruct (Hm k r Hk) as [e He]. exists e. apply cleared_event. split; [done|].
    apply negb_true_iff. by rewrite <- (outside_fixture _ _ He).
  - destruct Ho as [e [He Hn]%cleared_event]. by rewrite (outside_fixture _ _ He), Hn.
Qed.

Lemma cleared_dependents {V} (fk : V -> UUID) m :
  refers fk m (reservations db) -> forall k r,
  keep (fun r => negb (reservation_of (fixture_ids db) db (fk r))) m !! k = Some r <->
  m !! k = Some r /\ is_Some (reservations (purge (fixture_ids db) db) !! fk r).
Proof.
  intros Hm k r. rewrite keep_lookup. unfold reservation_of. split; intros [Hk Ho]; (split; [done|]).
  - destruct (Hm k r Hk) as [x Hx]. rewrite Hx in Ho. exists x. simpl. by apply keep_lookup.
  - destruct Ho as [x [Hx Ho]%keep_lookup]. by rewrite Hx.
Qed.

Lemma purge_cleared : cleared db (purge (fixture_ids db) db).
Proof.
  pose proof (inv_schema _ Hinv) as Hdb. split; [done|apply cleared_event|..].
  - apply cleared_rows, Hdb.
  - apply cleared_rows, Hdb.
  - apply cleared_rows, Hdb.
  - apply cleared_dependents, Hdb.
  - apply cleared_dependents, Hdb.
Qed.

Lemma purged_fixtures :
  purged_count db (fixture_ids db) = Z.of_nat (length (List.filter fixture_name (rows (events db)))).
Proof.
  unfold purged_count. do 2 f_equal.
  assert (Hall : forall e, e ∈ rows (events db) -> bool_decide (Event_ID e ∈ fixture_ids db) = fixture_name e).
  { intros e [k Hk]%elem_of_rows. destruct (events_keyed _ (inv_schema _ Hinv) k e Hk) as [Hid _].
    pose proof (outside_fixture k e Hk) as Ho. rewrite Hid. unfold outside in Ho.
    by destruct (bool_decide _), (fixture_name e). }
  induction (rows (events db)) as [|e l IH]; [done|]. simpl. rewrite Hall by apply list_elem_of_here.
  rewrite IH; [done|]. intros x Hx. by apply Hall, list_elem_of_further.
Qed.
End cleared.

Lemma cleared_nothing db :
  schema_ok db -> (forall k e, events db !! k = Some e -> fixture_name e = false) ->
  purge (fixture_ids db) db = db.
Proof.
  intros Hdb Hno. assert (fixture_ids db = []) as ->; [|apply purge_nil].
  destruct (fixture_ids db) as [|id ids] eqn:Hids; [done|].
  assert (Hin : id ∈ fixture_ids db) by (rewrite Hids; left).
  apply elem_of_matching in Hin as (e & He & HL); [|done].
  pose proof (Hno id e He) as Hn. unfold fixture_name in Hn. congruence.
Qed.

(** After Seed the matching events are the new one and the old ones. *)
Lemma seeded_fixture_ids suffix db db' e t ss :
  db_inv db -> db_inv db' -> random_suffix suffix -> seeded (StressEventPrefix ++ suffix) db db' e t ss ->
  forall id, id ∈ fixture_ids db' <-> id = Event_ID e \/ id ∈ fixture_ids db.
Proof.
  intros Hinv Hinv' Hsuf Hsd. destruct (seeded_grown _ _ _ _ _ _ Hsd) as [He _].
  destruct (seeded_event _ _ _ _ _ _ Hsd) as (Hnone & Hrow & Hname). unfold fixture_ids.
  intros id. rewrite !elem_of_matching by (apply Hinv || apply Hinv'). split.
  - intros (x & Hx & HL). rewrite He in Hx. apply lookup_insert_Some in Hx as [[<- _]|[_ Hx]]; [by left|eauto].
  - intros [->|(x & Hx & HL)].
    + exists e. split; [done|]. rewrite Hname. by apply LIKE_fixture.
    + exists x. split; [|done]. rewrite He. apply lookup_insert_Some. right. split; [congruence|done].
Qed.
