(* ===== verification/SerialStress.v ===== *)
(** * Seeding beside other sessions

    The transaction that creates the stress fixtures only inserts, so it is
    serial as well. *)

From S2P Require Import Prelude GoRuntime DbTypes Schema Prog Wp SqlcReservations Inventory SqlcAccounts SqlcEvents SqlcStress StressAdmin StressFacts Locks Interleaving Isolation Serial Steady SerialSettlement IsolatedServices.
Local Open Scope string_scope.
Local Open Scope list_scope.
Local Open Scope Z_scope.

Section seed.
Context `{Pgtype}.

Lemma seed_seat_plain ev row seat acc : plain (seed_seat ev row seat acc).
Proof. unfold seed_seat. plain_tac. apply CreateSeat_extends. Qed.

Lemma general_admission : int32_range 1000 = true /\ 0 <= 1000.
Proof. done. Qed.

Lemma seedTx_plain name starts ends : plain (seedTx name starts ends).
Proof.
  destruct general_admission as [Hr H0]. unfold seedTx.
  apply plain_bind; [apply plain_sql, CreateEvent_extends|intros event].
  apply plain_bind; [by apply plain_sql, CreateTicketType_extends|intros tt].
  apply plain_bind; [|done]. apply plain_for_each. intros. apply plain_for_each. intros. apply seed_seat_plain.
Qed.

Lemma seedTx_serial name starts ends t C : serial t C (seedTx name starts ends).
Proof.
  destruct general_admission as [Hr H0].
  apply serial_bind; [apply serial_sql; intros; apply CreateEvent_steady|]. intros event t1 C1 _.
  apply serial_bind; [apply serial_sql; intros; by apply CreateTicketType_steady|]. intros tt t2 C2 _.
  apply serial_bind; [|intros; apply serial_Ret].
  apply (serial_for_each (fun _ => True)); [|intros; apply plain_for_each, seed_seat_plain|done|done].
  intros row acc t3 C3 _ _. apply (serial_for_each (fun _ => True)); [|apply seed_seat_plain|done|done].
  intros seat acc' t4 C4 _ _. apply serial_bind; [apply serial_sql; intros; apply CreateSeat_steady|].
  intros. apply serial_Ret.
Qed.

Lemma isolated_in_tx {A} (body : prog A) spec : plain body -> takes_effect body spec -> isolated (in_tx body).
Proof.
  intros Hp Hc C Hinv. unfold in_tx. apply safe_bind, safe_bind, safe_catch. simpl.
  intros C1 HC1. assert (Hinv1 : db_inv C1) by apply HC1. split; [done|]. intros now.
  apply safe_bind, safe_catch, safe_bind, safe_callback; [done|]. intros r t' C' Hr.
  destruct r as [x|e|]; simpl.
  - intros C2 HC2. destruct (Hc _ _ _ _ _ _ Hinv1 Hr HC2) as [Hst _].
    pose proof (world_steps_inv _ _ Hst (proj1 (proj2 HC2))) as Hinv3.
    split; [done|]. split; [|intros f; split]; intros C3 HC3; (split; [done|apply HC3]).
  - intros C2 HC2. split; [done|apply HC2].
  - intros C2 HC2. split; [done|apply HC2].
Qed.

Lemma seedTx_takes_effect name starts ends :
  takes_effect (seedTx name starts ends) (fun out D D' => seeded name D D' out.1.1 out.1.2 out.2).
Proof.
  apply serial_takes_effect; [intros; apply seedTx_serial|]. intros D Hinv.
  eapply wp_mono; [|apply seedTx_wp, (inv_schema _ Hinv)].
  intros r [D' s] [_ Hpost] [[e t] ss] ->. split; [exact Hpost|].
  eapply (rtc_subrel catalog_step); [apply ws_catalog|exact (seeded_steps _ _ _ _ _ _ Hpost)].
Qed.

Lemma isolated_Seed appEnv : isolated (Seed appEnv).
Proof.
  unfold Seed, randomHex. isolated_tac.
  eapply isolated_in_tx; [apply seedTx_plain|apply seedTx_takes_effect].
Qed.
End seed.
