(* ===== verification/Handlers.v ===== *)
(** * The HTTP handlers of the modules, and the API they make up

    One definition per handler method of internal/modules/*/handler.go: the
    calls, the mapping of errors to statuses and codes, the response. [api] has
    the handler of every [endpoint]; [serve_http] is what the server does with a
    request to it (middleware included). Decoding a body with encoding/json is
    a parameter of the model, one instance per request type. *)

From S2P Require Import Prelude GoRuntime DbTypes Schema Prog SqlcReservations SqlcEvents NetHttp HttpServer Sessions Auth ReservationService Events StressAdmin.
Local Open Scope string_scope.
Local Open Scope list_scope.
Local Open Scope Z_scope.
Local Open Scope http_scope.

(** ** What the handlers encode *)

Inductive response :=
  | AnonymousSessionResponse (VisitorSessionID : string)
  | SessionJSON (r : SessionResponse)
  | UserJSON (r : UserResponse)
  | LogoutResponse (Status : string)
  | QuantityReservationJSON (r : QuantityReservationResponse)
  | SeatReservationJSON (r : SeatReservationResponse)
  | ReservationJSON (r : ReservationResponse)
  | EventJSON (r : EventResponse)
  | TicketTypeJSON (r : TicketTypeResponse)
  | SeatsJSON (seats : list SeatResponse)
  | InventoryJSON (r : InventoryResponse)
  | SeedJSON (r : SeedResponse)
  | ResetJSON (r : ResetResponse)
  | ConsistencyJSON (r : ConsistencyResponse)
  | HealthJSON (fields : list (string * string))
  | HealthErrorJSON (code message : string).

(** The fields of type time.Time of each. *)
#[export] Instance response_times : JsonEncode response := fun p =>
  match p with
  | SessionJSON r => [Sess_CreatedAt r; Sess_UpdatedAt r; Sess_LastSeenAt r; Sess_ExpiresAt r]
  | UserJSON r => [UserResp_CreatedAt r; UserResp_UpdatedAt r]
  | QuantityReservationJSON r => [QResp_ExpiresAt r]
  | SeatReservationJSON r => [SResp_ExpiresAt r]
  | ReservationJSON r => [RResp_ExpiresAt r]
  | EventJSON r => [EvResp_StartsAt r; EvResp_EndsAt r; EvResp_CreatedAt r; EvResp_UpdatedAt r]
  | TicketTypeJSON r => [TtResp_CreatedAt r; TtResp_UpdatedAt r]
  | SeatsJSON seats => concat ((fun s => [SeResp_CreatedAt s; SeResp_UpdatedAt s]) <$> seats)
  | AnonymousSessionResponse _ | LogoutResponse _ | InventoryJSON _ | SeedJSON _ | ResetJSON _
  | ConsistencyJSON _ | HealthJSON _ | HealthErrorJSON _ _ => []
  end.

(** ** Bodies *)

(** json.NewDecoder(r.Body).Decode(&payload) *)
Class JsonBody (T : Type) := json_Decode : string -> error + T.

Record RegisterRequest := MkRegisterRequest { Reg_Email : string; Reg_Password : string }.
Record LoginRequest := MkLoginRequest { Log_Email : string; Log_Password : string }.

(** Decoding into an int32 field fails on a number out of its range. *)
Class JsonLaws `{JsonBody CreateTicketTypeRequest} := {
  total_quantity_int32 : forall s p,
    json_Decode s = inr p -> int32_range (CTt_TotalQuantity p) = true }.

Abbreviation reply := (http (json response) unit).

Definition decodeJSON {T} `{JsonBody T} (r : Request) (k : T -> reply) : reply :=
  match json_Decode (Body r) with
  | inl _ => WriteError 400 "INVALID_JSON" "Request body must be valid JSON"
  | inr payload => k payload
  end.

Definition SetCookie (c : HttpCookie) : reply := modify (add_cookie c).

(** [if errors.Is(err, s) { WriteError(...); return }] *)
Definition on_error (err : error) (s : sentinel) (statusCode : Z) (code message : string) (rest : reply)
    : reply :=
  if errors_Is err (Sentinel s) then WriteError statusCode code message else rest.

Section handlers.
Context `{Pgtype} `{Collation} `{Libraries} `{SessionService}.
Context `{JsonBody RegisterRequest} `{JsonBody LoginRequest}.
Context `{JsonBody QuantityReservationRequest} `{JsonBody SeatReservationRequest}.
Context `{JsonBody CreateEventRequest} `{JsonBody CreateTicketTypeRequest} `{JsonBody CreateSeatsRequest}.
Variables (reservationTTL : Z) (appEnv : string).

(** ** sessions/handler.go *)

Definition CreateAnonymousSession_handler (r : Request) : reply :=
  let! created := call svc_CreateAnonymousSession in
  match created with
  | inl _ => WriteError 500 "SESSION_CREATE_FAILED" "Could not create session"
  | inr created =>
      let! _ := SetCookie (BuildCookie session_ttl cookie_secure (Token created)) in
      WriteJSON 201 (Payload (AnonymousSessionResponse (UUIDToString (VisitorSession_ID (Session created)))))
  end.

Definition session_error (err : error) : reply :=
  on_error err ErrSessionRequired 401 "SESSION_REQUIRED" "A valid visitor session is required"
    (WriteError 500 "SESSION_LOOKUP_FAILED" "Could not read session").

Definition GetCurrentSession_handler (r : Request) : reply :=
  let! session := call (svc_GetCurrentSession r) in
  match session with
  | inl err => session_error err
  | inr session => WriteJSON 200 (Payload (SessionJSON (ToSessionResponse session)))
  end.

(** ** auth/handler.go *)

Definition Register_handler (r : Request) : reply :=
  decodeJSON r (fun payload =>
  let! user := call (Register (Reg_Email payload) (Reg_Password payload)) in
  match user with
  | inl err =>
      on_error err ErrEmailAlreadyRegistered 409 "EMAIL_ALREADY_REGISTERED" "Email is already registered"
        (WriteError 400 "INVALID_REGISTER_REQUEST" "Email and password are required")
  | inr user => WriteJSON 201 (Payload (UserJSON (ToUserResponse user)))
  end).

Definition Login_handler (r : Request) : reply :=
  decodeJSON r (fun payload =>
  let! result := call (Login r (Log_Email payload) (Log_Password payload)) in
  match result with
  | inl err =>
      on_error err ErrInvalidCredentials 401 "INVALID_CREDENTIALS" "Invalid email or password"
        (WriteError 500 "LOGIN_FAILED" "Could not login")
  | inr result =>
      let! _ := if SessionToken result !=? ""
                then SetCookie (BuildCookie session_ttl cookie_secure (SessionToken result))
                else hret tt in
      WriteJSON 200 (Payload (UserJSON (ToUserResponse (LoginResult_User result))))
  end).

Definition Logout_handler (r : Request) : reply :=
  let! _ := SetCookie (ClearCookie cookie_secure) in
  WriteJSON 200 (Payload (LogoutResponse "logged_out")).

(** ** reservations/handler.go *)

(** The lookup that opens every handler of the module. *)
Definition with_session (r : Request) (k : VisitorSession -> reply) : reply :=
  let! session := call (svc_GetCurrentSession r) in
  match session with
  | inl err => session_error err
  | inr session => k session
  end.

Definition currentSessionAndReservationID (r : Request) (k : VisitorSession -> UUID -> reply) : reply :=
  with_session r (fun session =>
  match ParseUUID (URLParam r "reservation_id") with
  | Ok reservationID => k session reservationID
  | _ => WriteError 400 "INVALID_RESERVATION_ID" "reservation_id must be a valid UUID"
  end).

Definition ReserveQuantity_handler (r : Request) : reply :=
  with_session r (fun currentSession => decodeJSON r (fun payload =>
  let! out := call (ReserveQuantity reservationTTL currentSession payload) in
  match out with
  | inl err =>
      on_error err ErrInvalidQuantityReservation 400 "INVALID_QUANTITY_RESERVATION"
        "Invalid quantity reservation payload"
      (on_error err ErrInsufficientStock 409 "INSUFFICIENT_STOCK" "Not enough stock available"
      (on_error err ErrIdempotencyKeyConflict 409 "IDEMPOTENCY_KEY_CONFLICT"
        "Idempotency key was already used"
      (WriteError 500 "RESERVATION_CREATE_FAILED" "Could not create reservation")))
  | inr response => WriteJSON 201 (Payload (QuantityReservationJSON response))
  end)).

Definition ReserveSeats_handler (r : Request) : reply :=
  with_session r (fun currentSession => decodeJSON r (fun payload =>
  let! out := call (ReserveSeats reservationTTL currentSession payload) in
  match out with
  | inl err =>
      on_error err ErrInvalidSeatReservation 400 "INVALID_SEAT_RESERVATION"
        "Invalid seat reservation payload"
      (on_error err ErrSeatsNotFound 404 "SEATS_NOT_FOUND" "One or more seats do not exist for this event"
      (on_error err ErrSeatUnavailable 409 "SEAT_UNAVAILABLE" "One or more seats are not available"
      (on_error err ErrIdempotencyKeyConflict 409 "IDEMPOTENCY_KEY_CONFLICT"
        "Idempotency key was already used"
      (WriteError 500 "SEAT_RESERVATION_CREATE_FAILED" "Could not create seat reservation"))))
  | inr response => WriteJSON 201 (Payload (SeatReservationJSON response))
  end)).

Definition reservation_not_found (err : error) (rest : reply) : reply :=
  on_error err ErrReservationNotFound 404 "RESERVATION_NOT_FOUND" "Reservation not found" rest.

Definition GetReservation_handler (r : Request) : reply :=
  currentSessionAndReservationID r (fun currentSession reservationID =>
  let! out := call (GetReservation currentSession reservationID) in
  match out with
  | inl err => reservation_not_found err
      (WriteError 500 "RESERVATION_LOOKUP_FAILED" "Could not read reservation")
  | inr response => WriteJSON 200 (Payload (ReservationJSON response))
  end).

(** The error of a lifecycle call, which may come with a response. *)
Definition outcome_error (out : error + ReservationResponse * option error)
    : error + ReservationResponse :=
  match out with
  | inl err => inl err
  | inr (_, Some err) => inl err
  | inr (response, None) => inr response
  end.

Definition CancelReservation_handler (r : Request) : reply :=
  currentSessionAndReservationID r (fun currentSession reservationID =>
  let! out := call (CancelReservation currentSession reservationID) in
  match outcome_error out with
  | inl err => reservation_not_found err
      (on_error err ErrReservationCannotCancel 409 "RESERVATION_CANNOT_BE_CANCELLED"
        "Reservation cannot be cancelled"
      (on_error err ErrReservationInvariantBroken 409 "RESERVATION_INCONSISTENT"
        "Reservation cannot be transitioned safely"
      (WriteError 500 "RESERVATION_CANCEL_FAILED" "Could not cancel reservation")))
  | inr response => WriteJSON 200 (Payload (ReservationJSON response))
  end).

Definition ConfirmReservation_handler (r : Request) : reply :=
  currentSessionAndReservationID r (fun currentSession reservationID =>
  let! out := call (ConfirmReservation currentSession reservationID) in
  match outcome_error out with
  | inl err => reservation_not_found err
      (on_error err ErrReservationCannotConfirm 409 "RESERVATION_CANNOT_BE_CONFIRMED"
        "Reservation cannot be confirmed"
      (on_error err ErrReservationInvariantBroken 409 "RESERVATION_INCONSISTENT"
        "Reservation cannot be transitioned safely"
      (WriteError 500 "RESERVATION_CONFIRM_FAILED" "Could not confirm reservation")))
  | inr response => WriteJSON 200 (Payload (ReservationJSON response))
  end).

(** ** events/handler.go *)

Definition eventIDFromRequest (r : Request) (k : UUID -> reply) : reply :=
  match ParseUUID (URLParam r "event_id") with
  | Ok eventID => k eventID
  | _ => WriteError 400 "INVALID_EVENT_ID" "event_id must be a valid UUID"
  end.

Definition event_not_found (err : error) (rest : reply) : reply :=
  on_error err ErrEventNotFound 404 "EVENT_NOT_FOUND" "Event not found" rest.

Definition CreateEvent_handler (r : Request) : reply :=
  decodeJSON r (fun payload =>
  let! out := call (Events.CreateEvent payload) in
  match out with
  | inl err => on_error err ErrInvalidEventInput 400 "INVALID_EVENT" "Invalid event payload"
      (WriteError 500 "EVENT_CREATE_FAILED" "Could not create event")
  | inr event => WriteJSON 201 (Payload (EventJSON event))
  end).

Definition GetEvent_handler (r : Request) : reply :=
  eventIDFromRequest r (fun eventID =>
  let! out := call (GetEvent eventID) in
  match out with
  | inl err => event_not_found err (WriteError 500 "EVENT_LOOKUP_FAILED" "Could not read event")
  | inr event => WriteJSON 200 (Payload (EventJSON event))
  end).

Definition CreateTicketType_handler (r : Request) : reply :=
  eventIDFromRequest r (fun eventID => decodeJSON r (fun payload =>
  let! out := call (Events.CreateTicketType eventID payload) in
  match out with
  | inl err => event_not_found err
      (on_error err ErrInvalidTicketTypeInput 400 "INVALID_TICKET_TYPE" "Invalid ticket type payload"
      (WriteError 500 "TICKET_TYPE_CREATE_FAILED" "Could not create ticket type"))
  | inr ticketType => WriteJSON 201 (Payload (TicketTypeJSON ticketType))
  end)).

Definition CreateSeats_handler (r : Request) : reply :=
  eventIDFromRequest r (fun eventID => decodeJSON r (fun payload =>
  let! out := call (CreateSeats eventID payload) in
  match out with
  | inl err => event_not_found err
      (on_error err ErrInvalidSeatInput 400 "INVALID_SEATS" "Invalid seats payload"
      (WriteError 500 "SEATS_CREATE_FAILED" "Could not create seats"))
  | inr seats => WriteJSON 201 (Payload (SeatsJSON seats))
  end)).

Definition GetInventory_handler (r : Request) : reply :=
  eventIDFromRequest r (fun eventID =>
  let! out := call (GetInventory eventID) in
  match out with
  | inl err => event_not_found err (WriteError 500 "INVENTORY_LOOKUP_FAILED" "Could not read inventory")
  | inr inventory => WriteJSON 200 (Payload (InventoryJSON inventory))
  end).

(** ** stressadmin/handler.go *)

Definition stress_error (err : error) (code message : string) : reply :=
  on_error err ErrStressAdminDisabled 404 "NOT_FOUND" "Not found" (WriteError 500 code message).

Definition Seed_handler (r : Request) : reply :=
  let! out := call (Seed appEnv) in
  match out with
  | inl err => stress_error err "STRESS_SEED_FAILED" "Could not seed stress data"
  | inr response => WriteJSON 201 (Payload (SeedJSON response))
  end.

Definition Reset_handler (r : Request) : reply :=
  let! out := call (Reset appEnv) in
  match out with
  | inl err => stress_error err "STRESS_RESET_FAILED" "Could not reset stress data"
  | inr response => WriteJSON 200 (Payload (ResetJSON response))
  end.

Definition AssertConsistency_handler (r : Request) : reply :=
  let! out := call (AssertConsistency appEnv) in
  match out with
  | inl err => stress_error err "CONSISTENCY_ASSERT_FAILED" "Could not assert database consistency"
  | inr response => WriteJSON 200 (Payload (ConsistencyJSON response))
  end.

(** ** health/handler.go *)

(** Pool.Ping and RedisPinger.Ping: a round trip that fails or not as the
    environment decides, and touches no table. *)
Definition Ping : prog unit := sql (reading (fun _ => inr tt)).

Definition Health_handler (r : Request) : reply := WriteJSON 200 (Payload (HealthJSON [("status", "ok")])).

Definition health_error (code message : string) : reply :=
  WriteJSON 503 (Payload (HealthErrorJSON code message)).

Definition Ready_handler (r : Request) : reply :=
  let! pg := call Ping in
  match pg with
  | inl _ => health_error "POSTGRES_UNAVAILABLE" "PostgreSQL is unavailable"
  | inr _ =>
      let! rd := call Ping in
      match rd with
      | inl _ => health_error "REDIS_UNAVAILABLE" "Redis is unavailable"
      | inr _ => WriteJSON 200 (Payload (HealthJSON [("status", "ready"); ("postgres", "ok"); ("redis", "ok")]))
      end
  end.

(** ** The API *)

(** A route of RegisterRoutes of some module. *)
Inductive endpoint :=
  | PostAnonymousSession | GetMeSession
  | PostRegister | PostLogin | PostLogout
  | PostReservationQuantity | PostReservationSeats | GetReservationByID
  | PostReservationCancel | PostReservationConfirm
  | PostEvent | GetEventByID_ | PostTicketType | PostSeats | GetEventInventory
  | PostStressSeed | PostStressReset | GetStressConsistency
  | GetHealth | GetReady.

Definition api (e : endpoint) : Handler (json response) :=
  match e with
  | PostAnonymousSession => CreateAnonymousSession_handler
  | GetMeSession => GetCurrentSession_handler
  | PostRegister => Register_handler
  | PostLogin => Login_handler
  | PostLogout => Logout_handler
  | PostReservationQuantity => ReserveQuantity_handler
  | PostReservationSeats => ReserveSeats_handler
  | GetReservationByID => GetReservation_handler
  | PostReservationCancel => CancelReservation_handler
  | PostReservationConfirm => ConfirmReservation_handler
  | PostEvent => CreateEvent_handler
  | GetEventByID_ => GetEvent_handler
  | PostTicketType => CreateTicketType_handler
  | PostSeats => CreateSeats_handler
  | GetEventInventory => GetInventory_handler
  | PostStressSeed => Seed_handler
  | PostStressReset => Reset_handler
  | GetStressConsistency => AssertConsistency_handler
  | GetHealth => Health_handler
  | GetReady => Ready_handler
  end.

(** One request through the router, on a fresh response writer. *)
Definition serve_http (e : endpoint) (r : Request) : prog (option unit * HttpState (json response)) :=
  NewRouter (api e) r (MkHttp new_writer []).
End handlers.
