(* ===== verification/Routes.v ===== *)
(** * The routes of the API

    The RegisterRoutes of every module in the order of cmd/api, and the request
    that a method and path select. chi is a library: what is used of it is that
    a route answers a request when the methods are equal and the path has the
    segments of the pattern, with any text for a segment in braces. No request is
    answered by two routes ([registered_apart]), so it does not matter in which
    order chi tries them. At the end of a path chi wants a parameter to have some
    text: a path that ends in a slash does not answer a pattern that ends in a
    parameter. The path is the one chi routes on, RawPath if the request has one. *)

From S2P Require Import Prelude GoRuntime DbTypes Schema Prog SqlcEvents NetHttp HttpServer Sessions Auth ReservationService Events StressAdmin Handlers.
Local Open Scope string_scope.
Local Open Scope list_scope.

(** ** Patterns and paths *)

Inductive segment := Static (text : string) | Param (name : string).

(** The parts of a path between its slashes. *)
Fixpoint split_slash (s : string) : list string :=
  match s with
  | EmptyString => [""]
  | String c s' =>
      if Ascii.eqb c "/" then "" :: split_slash s'
      else match split_slash s' with
           | [] => [String c ""]
           | part :: parts => String c part :: parts
           end
  end.

Fixpoint join_slash (parts : list string) : string :=
  match parts with
  | [] => ""
  | [part] => part
  | part :: parts' => (part ++ String "/" (join_slash parts'))%string
  end.

(** The name in a segment that is written in braces. *)
Definition parse_segment (part : string) : segment :=
  match part with
  | String "{" rest => Param (String.substring 0 (String.length rest - 1) rest)
  | _ => Static part
  end.

Definition parse_pattern (pattern : string) : list segment := parse_segment <$> split_slash pattern.

(** Nothing is left of the path. *)
Definition path_over (part : string) (parts : list string) : bool :=
  match parts with [] => part ==? "" | _ => false end.

(** The parameters with which the pattern answers the parts of a path. *)
Fixpoint match_segments (segs : list segment) (parts : list string) : option (list (string * string)) :=
  match segs, parts with
  | [], [] => Some []
  | Static text :: segs', part :: parts' =>
      if part ==? text then match_segments segs' parts' else None
  | Param name :: segs', part :: parts' =>
      if path_over part parts' then None
      else match match_segments segs' parts' with
           | Some params => Some ((name, part) :: params)
           | None => None
           end
  | _, _ => None
  end.

(** ** Registration *)

Record Route := MkRoute { verb : string; pattern : string; handler : endpoint }.

Definition Get (pattern : string) (h : endpoint) : Route := MkRoute "GET" pattern h.
Definition Post (pattern : string) (h : endpoint) : Route := MkRoute "POST" pattern h.

Module Health.
Definition RegisterRoutes : list Route :=
  [Get "/health" GetHealth;
   Get "/ready" GetReady].
End Health.

Module SessionsHandler.
Definition RegisterRoutes : list Route :=
  [Post "/v1/sessions/anonymous" PostAnonymousSession;
   Get "/v1/me/session" GetMeSession].
End SessionsHandler.

Module AuthHandler.
Definition RegisterRoutes : list Route :=
  [Post "/v1/auth/register" PostRegister;
   Post "/v1/auth/login" PostLogin;
   Post "/v1/auth/logout" PostLogout].
End AuthHandler.

Module EventsHandler.
Definition RegisterRoutes : list Route :=
  [Post "/v1/events" PostEvent;
   Get "/v1/events/{event_id}" GetEventByID_;
   Post "/v1/events/{event_id}/ticket-types" PostTicketType;
   Post "/v1/events/{event_id}/seats" PostSeats;
   Get "/v1/events/{event_id}/inventory" GetEventInventory].
End EventsHandler.

Module ReservationsHandler.
Definition RegisterRoutes : list Route :=
  [Post "/v1/reservations/quantity" PostReservationQuantity;
   Post "/v1/reservations/seats" PostReservationSeats;
   Get "/v1/reservations/{reservation_id}" GetReservationByID;
   Post "/v1/reservations/{reservation_id}/cancel" PostReservationCancel;
   Post "/v1/reservations/{reservation_id}/confirm" PostReservationConfirm].
End ReservationsHandler.

Module StressHandler.
Definition RegisterRoutes : list Route :=
  [Post "/v1/admin/stress/seed" PostStressSeed;
   Post "/v1/admin/stress/reset" PostStressReset;
   Get "/v1/admin/stress/assert-consistency" GetStressConsistency].
End StressHandler.

(** The order of cmd/api/main.go. *)
Definition registered : list Route :=
  Health.RegisterRoutes ++ SessionsHandler.RegisterRoutes ++ AuthHandler.RegisterRoutes ++
  EventsHandler.RegisterRoutes ++ ReservationsHandler.RegisterRoutes ++ StressHandler.RegisterRoutes.

(** What a route makes of a request. *)
Definition route_params (method path : string) (rt : Route) : option (list (string * string)) :=
  if method ==? verb rt then match_segments (parse_pattern (pattern rt)) (split_slash path) else None.

Fixpoint find_route (method path : string) (rts : list Route) : option (endpoint * list (string * string)) :=
  match rts with
  | [] => None
  | rt :: rts' =>
      match route_params method path rt with
      | Some params => Some (handler rt, params)
      | None => find_route method path rts'
      end
  end.

(** [None]: chi answers 404 or 405 itself. *)
Definition dispatch (method path : string) : option (endpoint * list (string * string)) :=
  find_route method path registered.

Example dispatch_event :
  dispatch "GET" "/v1/events/42/inventory" = Some (GetEventInventory, [("event_id", "42")]).
Proof. vm_compute. reflexivity. Qed.

Example dispatch_no_event : dispatch "GET" "/v1/events/" = None.
Proof. vm_compute. reflexivity. Qed.

Section server.
Context `{Pgtype} `{Collation} `{Libraries} `{SessionService}.
Context `{JsonBody RegisterRequest} `{JsonBody LoginRequest}.
Context `{JsonBody QuantityReservationRequest} `{JsonBody SeatReservationRequest}.
Context `{JsonBody CreateEventRequest} `{JsonBody CreateTicketTypeRequest} `{JsonBody CreateSeatsRequest}.
Variables (reservationTTL : Z) (appEnv : string).

Definition with_params (params : list (string * string)) (r : Request) : Request :=
  MkRequest (Method r) (URLPath r) (Cookies r) (XRequestID r) params (Body r) (context_request_id r).

(** A request as it arrives at the router. *)
Definition ServeHTTP (r : Request) : option (prog (option unit * HttpState (json response))) :=
  match dispatch (Method r) (URLPath r) with
  | Some (e, params) => Some (serve_http reservationTTL appEnv e (with_params params r))
  | None => None
  end.
End server.

(** ** No request is answered by two routes *)

Definition apart_segment (a b : segment) : bool :=
  match a, b with Static s, Static t => s !=? t | _, _ => false end.

(** Patterns of different lengths, or with different texts at some place. *)
Fixpoint apart_patterns (p q : list segment) : bool :=
  match p, q with
  | [], [] => false
  | a :: p', b :: q' => apart_segment a b || apart_patterns p' q'
  | _, _ => true
  end.

Definition apart_routes (r1 r2 : Route) : bool :=
  (verb r1 !=? verb r2) || apart_patterns (parse_pattern (pattern r1)) (parse_pattern (pattern r2)).

Fixpoint pairwise_apart (rts : list Route) : bool :=
  match rts with [] => true | rt :: rts' => forallb (apart_routes rt) rts' && pairwise_apart rts' end.

Lemma registered_apart : pairwise_apart registered = true.
Proof. vm_compute. reflexivity. Qed.

Lemma match_tail seg segs part parts params :
  match_segments (seg :: segs) (part :: parts) = Some params ->
  exists params', match_segments segs parts = Some params'.
Proof.
  destruct seg; simpl; [case_bool_decide; [eauto|done]|].
  destruct (path_over part parts); [done|]. destruct (match_segments segs parts); eauto.
Qed.

Lemma apart_patterns_match p q parts params params' :
  apart_patterns p q = true -> match_segments p parts = Some params ->
  match_segments q parts = Some params' -> False.
Proof.
  revert q parts params params'.
  induction p as [|a p IH]; intros q parts params params' Hap Hp Hq.
  - destruct q as [|b q]; [done|]. by destruct parts, b.
  - destruct parts as [|part parts]; [by destruct a|]. destruct q as [|b q]; [done|].
    simpl in Hap. apply orb_true_iff in Hap as [Hab|Hpq].
    + destruct a as [s|], b as [t|]; try done. simpl in *. to_prop. repeat case_bool_decide; congruence.
    + apply match_tail in Hp as [p1 Hp1], Hq as [q1 Hq1]. by eapply IH.
Qed.

Lemma apart_routes_params method path r1 r2 p1 p2 :
  apart_routes r1 r2 = true -> route_params method path r1 = Some p1 ->
  route_params method path r2 = Some p2 -> False.
Proof.
  unfold apart_routes, route_params. intros [Hv|Hp]%orb_true_iff; to_prop.
  - repeat case_bool_decide; try done; congruence.
  - repeat case_bool_decide; try done. by apply apart_patterns_match.
Qed.

(** The first route that answers is the only one. *)
Lemma find_route_spec method path rts rt params :
  pairwise_apart rts = true -> rt ∈ rts -> route_params method path rt = Some params ->
  find_route method path rts = Some (handler rt, params).
Proof.
  intros Hap Hrt Hp. induction rts as [|rt' rts IH]; [by apply elem_of_nil in Hrt|].
  simpl in Hap. apply andb_true_iff in Hap as [Hhead Htail]. simpl. apply elem_of_cons in Hrt as [<-|Hrt].
  - by rewrite Hp.
  - destruct (route_params method path rt') as [p'|] eqn:Hp'; [|by apply IH]. exfalso.
    rewrite forallb_forall in Hhead. apply list_elem_of_In in Hrt.
    by apply (apart_routes_params method path rt' rt p' params (Hhead rt Hrt)).
Qed.

(** ** A path made from a pattern *)

Definition no_slash (s : string) : bool := forallb (fun c => negb (Ascii.eqb c "/")) (list_ascii_of_string s).

Fixpoint fill (segs : list segment) (values : list string) : list string :=
  match segs, values with
  | Static text :: segs', _ => text :: fill segs' values
  | Param _ :: segs', value :: values' => value :: fill segs' values'
  | Param _ :: segs', [] => "" :: fill segs' []
  | [], _ => []
  end.

Fixpoint param_names (segs : list segment) : list string :=
  match segs with
  | [] => []
  | Static _ :: segs' => param_names segs'
  | Param name :: segs' => name :: param_names segs'
  end.

(** The path of a route with these values for its parameters. *)
Definition path_of (rt : Route) (values : list string) : string :=
  join_slash (fill (parse_pattern (pattern rt)) values).

Lemma split_part s rest :
  no_slash s = true -> split_slash (s ++ String "/" rest) = s :: split_slash rest.
Proof.
  induction s as [|c s IH]; [done|]. unfold no_slash. simpl. intros [Hc Hs]%andb_true_iff.
  apply negb_true_iff in Hc. rewrite Hc. by rewrite (IH Hs).
Qed.

Lemma split_last s : no_slash s = true -> split_slash s = [s].
Proof.
  induction s as [|c s IH]; [done|]. unfold no_slash. simpl. intros [Hc Hs]%andb_true_iff.
  apply negb_true_iff in Hc. rewrite Hc. by rewrite (IH Hs).
Qed.

Lemma split_join parts :
  parts <> [] -> Forall (fun s => no_slash s = true) parts -> split_slash (join_slash parts) = parts.
Proof.
  intros Hne Hall. induction Hall as [|s parts Hs Hall IH]; [done|].
  destruct parts as [|s' parts]; [by apply split_last|].
  change (split_slash (s ++ String "/" (join_slash (s' :: parts))) = s :: s' :: parts).
  rewrite split_part by done. f_equal. by apply IH.
Qed.

Definition plain_segment (seg : segment) : bool :=
  match seg with Static text => no_slash text | Param _ => true end.

Lemma fill_plain segs values :
  forallb plain_segment segs = true -> Forall (fun s => no_slash s = true) values ->
  Forall (fun s => no_slash s = true) (fill segs values).
Proof.
  revert values. induction segs as [|[text|name] segs IH]; intros values Hsegs Hv; [done|..]; simpl in *.
  - apply andb_true_iff in Hsegs as [Ht Hsegs]. constructor; [done|by apply IH].
  - destruct Hv; (constructor; [done|by apply IH]).
Qed.

(** A value for a parameter: some text without a slash. *)
Definition is_value (s : string) : Prop := s <> "" /\ no_slash s = true.

Lemma path_over_value part parts : is_value part -> path_over part parts = false.
Proof. intros [Hne _]. destruct parts; [|done]. by apply bool_decide_eq_false_2. Qed.

Lemma match_fill segs values :
  length values = length (param_names segs) -> Forall is_value values ->
  match_segments segs (fill segs values) = Some (zip (param_names segs) values).
Proof.
  revert values. induction segs as [|[text|name] segs IH]; intros values Hlen Hv; simpl in *.
  - by destruct values.
  - rewrite bool_decide_eq_true_2 by done. by apply IH.
  - destruct Hv as [|value values Hvalue Hv]; [done|]. injection Hlen as Hlen.
    rewrite path_over_value by done. by rewrite IH.
Qed.

(** The patterns have a segment, and no slash inside one. *)
Lemma registered_plain :
  forallb (fun rt => forallb plain_segment (parse_pattern (pattern rt)) &&
    negb (length (parse_pattern (pattern rt)) =? 0)%nat) registered = true.
Proof. vm_compute. reflexivity. Qed.

Lemma dispatch_path rt values :
  rt ∈ registered -> length values = length (param_names (parse_pattern (pattern rt))) ->
  Forall is_value values ->
  dispatch (verb rt) (path_of rt values) =
    Some (handler rt, zip (param_names (parse_pattern (pattern rt))) values).
Proof.
  intros Hrt Hlen Hv. apply find_route_spec; [apply registered_apart|done|].
  pose proof registered_plain as Hplain. rewrite forallb_forall in Hplain.
  apply list_elem_of_In in Hrt. specialize (Hplain rt Hrt). apply andb_true_iff in Hplain as [Hseg Hne].
  unfold route_params, path_of. rewrite bool_decide_eq_true_2 by done.
  rewrite split_join; [by apply match_fill| |apply fill_plain; [done|]].
  2: { eapply Forall_impl; [exact Hv|]. by intros s []. }
  destruct (parse_pattern (pattern rt)) as [|[text|name] segs]; [done|done|by destruct values].
Qed.
