(* ===== verification/Process.v ===== *)
(** * cmd/api and cmd/worker: the processes

    The two main functions with internal/db/postgres.go and redis.go: start-up,
    wiring, the resources that are opened and closed, and the exit status. A
    [process] is a program that also records what a supervisor sees: resources,
    log lines, and how the process ends. os.Exit ends it at once and runs no
    deferred call; a panic runs them and then crashes. *)

From S2P Require Import Prelude GoRuntime DbTypes Schema Prog Wp SqlcReservations SqlcEvents NetHttp HttpServer Sessions Auth Worker ReservationService Events StressAdmin Config Handlers Routes.
Local Open Scope string_scope.
Local Open Scope list_scope.
Local Open Scope Z_scope.

(** ** What a supervisor sees *)

Inductive resource := Signals | StartupTimeout | PostgresPool | RedisClient | ShutdownTimeout.

#[export] Instance resource_eq_dec : EqDecision resource.
Proof. solve_decision. Defined.

Inductive event :=
  | Acquired (r : resource) | Released (r : resource)
  | Listening (addr : string)
  | InfoLine (msg : string) | ErrorLine (msg : string) (err : error) | WorkerLine (e : log_entry).

(** [Waiting]: what the environment lets happen is used up, and the process
    goes on. *)
Inductive outcome (A : Type) := Value (x : A) | Exit (code : Z) | Crash | Waiting.
Arguments Value {A} x.
Arguments Exit {A} code.
Arguments Crash {A}.
Arguments Waiting {A}.

Definition process (A : Type) : Type := prog (list event * outcome A).

Definition pret {A} (x : A) : process A := Ret ([], Value x).

Definition pbind {A B} (p : process A) (k : A -> process B) : process B :=
  let* r := p in
  match r.2 with
  | Value x => let* r' := k x in Ret (r.1 ++ r'.1, r'.2)
  | Exit code => Ret (r.1, Exit code)
  | Crash => Ret (r.1, Crash)
  | Waiting => Ret (r.1, Waiting)
  end.

Declare Scope process_scope.
Delimit Scope process_scope with process.
Notation "'let%' x ':=' m 'in' f" := (pbind m (fun x => f))
  (at level 10, x name, f at level 200) : process_scope.
Local Open Scope process_scope.

Definition emit (es : list event) : process unit := Ret (es, Value tt).
Definition os_Exit {A} (code : Z) : process A := Ret ([], Exit code).
Definition wait {A} : process A := Ret ([], Waiting).

(** Code of the program within a process. *)
Definition perform {A} (p : prog A) : process (error + A) :=
  let* r := catch p in
  Ret ([], match r with Ok x => Value (inr x) | Err e => Value (inl e) | Panicked => Crash end).

(** [defer] of the release of a resource. *)
Definition defer_release {A} (r : resource) (p : process A) : process A :=
  let* out := p in
  match out.2 with
  | Value _ | Crash => Ret (out.1 ++ [Released r], out.2)
  | Exit _ | Waiting => Ret out
  end.

Definition with_resource {A} (r : resource) (p : process A) : process A :=
  let% _ := emit [Acquired r] in defer_release r p.

(** A logger of this level. *)
Definition Info (level : Level) (msg : string) : process unit :=
  emit (match level with LevelDebug | LevelInfo => [InfoLine msg] | _ => [] end).

Definition Error (msg : string) (err : error) : process unit := emit [ErrorLine msg err].

Definition worker_lines (level : Level) (log : list log_entry) : list event :=
  WorkerLine <$> List.filter (fun e =>
    match e, level with
    | BatchFailed _, _ | BatchProcessed _, LevelDebug | BatchProcessed _, LevelInfo => true
    | _, _ => false
    end) log.

(** ** internal/db: connections *)

(** What pgxpool makes of a connection string: an error or not. *)
Class Pgxpool := {
  pgxpool_ParseConfig : string -> option error;
  pgxpool_NewWithConfig : string -> option error }.

Record RedisOptions := MkRedisConfig { Redis_Addr : string; Redis_Password : string; Redis_DB : Z }.

Section connections.
Context `{Pgxpool}.

Definition OpenPostgres (databaseURL : string) : process (error + unit) :=
  match pgxpool_ParseConfig databaseURL with
  | Some err => pret (inl (Wrapped "parse postgres config" err))
  | None =>
      match pgxpool_NewWithConfig databaseURL with
      | Some err => pret (inl (Wrapped "create postgres pool" err))
      | None =>
          let% _ := emit [Acquired PostgresPool] in
          let% r := perform Ping in
          match r with
          | inl err =>
              let% _ := emit [Released PostgresPool] in
              pret (inl (Wrapped "ping postgres" err))
          | inr _ => pret (inr tt)
          end
      end
  end.
End connections.

Definition OpenRedis (cfg : RedisOptions) : process (error + unit) :=
  let% _ := emit [Acquired RedisClient] in
  let% r := perform Ping in
  match r with
  | inl err =>
      let% _ := emit [Released RedisClient] in
      pret (inl (Wrapped "ping redis" err))
  | inr _ => pret (inr tt)
  end.

Definition redis_config (cfg : Config) : RedisOptions :=
  MkRedisConfig (RedisAddr cfg) (RedisPassword cfg) (RedisDB cfg).

(** ** Start-up *)

Section start.
Context `{Pgxpool}.
Variable ParseDuration : string -> error + Z.
Variable Getenv : string -> string.

(** The first part of both mains, which differ in the log lines; [body] is what
    follows once the connections are open. *)
Definition start (name : string) (body : Level -> Config -> process unit) : process unit :=
  match Load ParseDuration Getenv with
  | Err err => let% _ := Error "configuration error" err in os_Exit 1
  | Panicked => Ret ([], Crash)
  | Ok cfg =>
      let level := ConfigureLogger (LogLevel cfg) in
      with_resource Signals (with_resource StartupTimeout (
        let% pg := OpenPostgres (DatabaseURL cfg) in
        match pg with
        | inl err => let% _ := Error (name ++ "postgres connection failed") err in os_Exit 1
        | inr _ => defer_release PostgresPool (
            let% rd := OpenRedis (redis_config cfg) in
            match rd with
            | inl err => let% _ := Error (name ++ "redis connection failed") err in os_Exit 1
            | inr _ => defer_release RedisClient (body level cfg)
            end)
        end))
  end.
End start.

(** ** cmd/worker/main.go *)

Section worker_main.
Context `{Pgtype} `{Pgxpool}.
Variable ParseDuration : string -> error + Z.
Variable Getenv : string -> string.

(** The part of main after the connections, with what the worker observes. *)
Definition worker_body (level : Level) (cfg : Config) (moments : list moment) : process unit :=
  let expirationWorker :=
    NewExpirationWorker (ExpirationWorkerInterval cfg) (ExpirationWorkerBatchSize cfg) in
  let% _ := Info level "expiration worker started" in
  let% r := perform (@Run ReservationExpiry expirationWorker moments) in
  match r with
  | inl err => let% _ := Error "expiration worker failed" err in os_Exit 1
  | inr (status, log) =>
      let% _ := emit (worker_lines level log) in
      match status with
      | Running => wait
      | Returned => Info level "worker shutting down"
      end
  end.

Definition worker_main (moments : list moment) : process unit :=
  start ParseDuration Getenv "worker " (fun level cfg => worker_body level cfg moments).
End worker_main.

(** ** cmd/api/main.go *)

(** What happens to the server: the error with which ListenAndServe ends by
    itself, or the requests it serves until a signal; and the error of its
    shutdown. *)
Inductive server_life := ListenFails (err : error) | Serves (requests : list Request).

Record http_Server := MkServer { Addr : string; ReadHeaderTimeout : Z }.

Definition NewServer (addr : string) : http_Server := MkServer addr (5 * Second).

Section api_main.
Context `{Pgtype} `{Collation} `{Libraries} `{Pgxpool}.
Context `{JsonBody RegisterRequest} `{JsonBody LoginRequest}.
Context `{JsonBody QuantityReservationRequest} `{JsonBody SeatReservationRequest}.
Context `{JsonBody CreateEventRequest} `{JsonBody CreateTicketTypeRequest} `{JsonBody CreateSeatsRequest}.
Variable ParseDuration : string -> error + Z.
Variable Getenv : string -> string.

(** The router with the services as main wires them. *)
Definition api_router (cfg : Config) (r : Request) : option (prog (option unit * HttpState (json response))) :=
  @ServeHTTP _ _ _ (NewService (VisitorSessionTTL cfg) (CookieSecure cfg)) _ _ _ _ _ _ _
    (ReservationTTL cfg) (AppEnv cfg) r.

(** net/http recovers what a handler panics with. *)
Fixpoint serve_all (cfg : Config) (requests : list Request) : prog unit :=
  match requests with
  | [] => Ret tt
  | r :: requests' =>
      let* _ := match api_router cfg r with
                | Some p => let* _ := catch p in Ret tt
                | None => Ret tt
                end in
      serve_all cfg requests'
  end.

(** The part of main after the connections. A listener that fails calls stop(),
    which ends the wait for a signal. *)
Definition api_body (level : Level) (cfg : Config) (life : server_life) (shutdown : option error)
    : process unit :=
  let server := NewServer (HTTPAddr cfg) in
  let% _ := Info level "api server started" in
  let% _ := match life with
            | ListenFails err => Error "api server failed" err
            | Serves requests =>
                let% _ := emit [Listening (Addr server)] in
                let% _ := perform (serve_all cfg requests) in pret tt
            end in
  let% _ := Info level "api server shutting down" in
  with_resource ShutdownTimeout (
    match shutdown with
    | Some err => let% _ := Error "api server shutdown failed" err in os_Exit 1
    | None => pret tt
    end).

Definition api_main (life : server_life) (shutdown : option error) : process unit :=
  start ParseDuration Getenv "" (fun level cfg => api_body level cfg life shutdown).
End api_main.

(** ** Reasoning about processes *)

Section rules.
Variable a : assm.

(** [Q] of the events, the outcome and the state. *)
Definition pwp {A} (p : process A) (Q : list event -> outcome A -> St -> Prop) (σ : St) : Prop :=
  wp a p (fun r σ' => exists es out, r = Ok (es, out) /\ Q es out σ') σ.

Lemma pwp_mono {A} (p : process A) (Q Q' : list event -> outcome A -> St -> Prop) σ :
  (forall es out σ, Q es out σ -> Q' es out σ) -> pwp p Q σ -> pwp p Q' σ.
Proof. intros HQ. apply wp_mono. intros r σ' (es & out & -> & H). eauto 6. Qed.

Lemma pwp_ret {A} es (out : outcome A) (Q : list event -> outcome A -> St -> Prop) σ :
  Q es out σ -> pwp (Ret (es, out)) Q σ.
Proof. intros H. by exists es, out. Qed.

Definition after {A B} (k : A -> process B) (Q : list event -> outcome B -> St -> Prop)
    (es : list event) (out : outcome A) (σ : St) : Prop :=
  match out with
  | Value x => pwp (k x) (fun es' out' => Q (es ++ es') out') σ
  | Exit code => Q es (Exit code) σ
  | Crash => Q es Crash σ
  | Waiting => Q es Waiting σ
  end.

Lemma pwp_bind {A B} (p : process A) (k : A -> process B) (Q : list event -> outcome B -> St -> Prop) σ :
  pwp p (after k Q) σ -> pwp (pbind p k) Q σ.
Proof.
  intros Hp. apply wp_bind. eapply wp_mono, Hp. intros r σ' (es & out & -> & H). simpl.
  destruct out as [x|code| |]; simpl in *; [|by exists es; eexists..].
  apply wp_bind. eapply wp_mono, H. intros r' σ'' (es' & out' & -> & H'). by exists (es ++ es'), out'.
Qed.

Lemma pwp_emit {B} es (k : unit -> process B) (Q : list event -> outcome B -> St -> Prop) σ :
  pwp (k tt) (fun es' out => Q (es ++ es') out) σ -> pwp (pbind (emit es) k) Q σ.
Proof. intros H. by apply pwp_bind, pwp_ret. Qed.

Lemma pwp_perform {A B} (p : prog A) (k : error + A -> process B) (Q : list event -> outcome B -> St -> Prop) σ :
  wp a p (fun r σ' => match r with
                      | Ok x => pwp (k (inr x)) Q σ'
                      | Err e => pwp (k (inl e)) Q σ'
                      | Panicked => Q [] Crash σ'
                      end) σ ->
  pwp (pbind (perform p) k) Q σ.
Proof.
  intros Hp. apply pwp_bind, wp_bind, wp_catch. eapply wp_mono, Hp.
  intros r σ' H. apply pwp_ret. by destruct r.
Qed.

Lemma pwp_defer {A} r (p : process A) (Q : list event -> outcome A -> St -> Prop) σ :
  pwp p (fun es out => Q match out with Value _ | Crash => es ++ [Released r] | _ => es end out) σ ->
  pwp (defer_release r p) Q σ.
Proof.
  intros Hp. apply wp_bind. eapply wp_mono, Hp. intros r' σ' (es & out & -> & H). simpl.
  destruct out; by eexists _, _.
Qed.
End rules.

(** ** Resources *)

(** The resources held, last acquired first; [None]: one was released that was
    not the last acquired. *)
Fixpoint replay (es : list event) (held : list resource) : option (list resource) :=
  match es with
  | [] => Some held
  | Acquired r :: es' => replay es' (r :: held)
  | Released r :: es' =>
      match held with
      | r' :: held' => if r ==? r' then replay es' held' else None
      | [] => None
      end
  | _ :: es' => replay es' held
  end.

(** A process that returns or crashes has released what it acquired, in the
    reverse order. *)
Definition tidy {A} (es : list event) (out : outcome A) : Prop :=
  match out with
  | Value _ | Crash => forall held, replay es held = Some held
  | Exit _ | Waiting => True
  end.

Lemma replay_app es es' held :
  replay (es ++ es') held = match replay es held with Some held' => replay es' held' | None => None end.
Proof.
  revert held. induction es as [|e es IH]; intros held; [done|].
  destruct e as [r|r|addr|msg|msg err|e]; simpl; try apply IH.
  destruct held as [|r' held]; [done|]. case_bool_decide; [apply IH|done].
Qed.

(** Lines of a log leave the resources alone. *)
Definition is_line (e : event) : bool :=
  match e with Acquired _ | Released _ => false | _ => true end.

Lemma replay_lines es held : forallb is_line es = true -> replay es held = Some held.
Proof.
  intros Hes. revert held. induction es as [|e es IH]; intros held; [done|]. simpl in Hes.
  apply andb_true_iff in Hes as [He Hes]. destruct e; [done|done|by apply IH..].
Qed.

Lemma replay_released r es held :
  (forall held, replay es held = Some held) -> replay (es ++ [Released r]) (r :: held) = Some held.
Proof. intros Hes. rewrite replay_app, Hes. simpl. by rewrite bool_decide_eq_true_2. Qed.

(** ** Start-up *)

Lemma getenvInt_no_panic Getenv key n : getenvInt Getenv key n <> Panicked.
Proof. unfold getenvInt. split_if; [done|]. by destruct (Atoi _). Qed.

Lemma getenvDuration_no_panic P Getenv key n : getenvDuration P Getenv key n <> Panicked.
Proof. unfold getenvDuration. split_if; [done|]. by destruct (P _). Qed.

Lemma getenvBool_no_panic Getenv key b : getenvBool Getenv key b <> Panicked.
Proof. unfold getenvBool. split_if; [done|]. by destruct (ParseBool _). Qed.

Lemma and_then_no_panic {A B} (r : res A) (k : A -> res B) :
  r <> Panicked -> (forall x, k x <> Panicked) -> and_then r k <> Panicked.
Proof. intros Hr Hk. destruct r; simpl; [apply Hk|done|done]. Qed.

Lemma Load_no_panic P Getenv : Load P Getenv <> Panicked.
Proof.
  unfold Load. repeat (apply and_then_no_panic;
    [apply getenvInt_no_panic || apply getenvDuration_no_panic || apply getenvBool_no_panic|intros ?]).
  by repeat split_if.
Qed.

Section startup.
Context `{Pgxpool}.
Variable a : assm.

Lemma Ping_wp (Q : res unit -> St -> Prop) σ :
  (forall e, quiet a = false -> Q (Err e) σ) -> Q (Ok tt) σ -> wp a Ping Q σ.
Proof.
  intros Herr Hok. apply wp_sql_intro. split; [intros Hq f; by apply Herr|].
  intros ctx _ _. by destruct σ.
Qed.

(** The pool refuses the connection string. *)
Definition refused (url : string) : Prop :=
  pgxpool_ParseConfig url <> None \/ pgxpool_NewWithConfig url <> None.

Lemma OpenPostgres_wp url (Q : list event -> outcome (error + unit) -> St -> Prop) σ :
  (forall err es, (forall held, replay es held = Some held) -> refused url \/ quiet a = false ->
     Q es (Value (inl err)) σ) ->
  Q [Acquired PostgresPool] (Value (inr tt)) σ -> pwp a (OpenPostgres url) Q σ.
Proof.
  intros Herr Hok. unfold OpenPostgres, refused in *.
  destruct (pgxpool_ParseConfig url) as [e|]; [by apply pwp_ret, Herr; [|left; left]|].
  destruct (pgxpool_NewWithConfig url) as [e|]; [by apply pwp_ret, Herr; [|left; right]|].
  apply pwp_emit, pwp_perform, Ping_wp.
  - intros e Hq. apply pwp_emit, pwp_ret, Herr; [|by right]. done.
  - by apply pwp_ret.
Qed.

Lemma OpenRedis_wp cfg (Q : list event -> outcome (error + unit) -> St -> Prop) σ :
  (forall err es, (forall held, replay es held = Some held) -> quiet a = false ->
     Q es (Value (inl err)) σ) ->
  Q [Acquired RedisClient] (Value (inr tt)) σ -> pwp a (OpenRedis cfg) Q σ.
Proof.
  intros Herr Hok. apply pwp_emit, pwp_perform, Ping_wp.
  - intros e Hq. apply pwp_emit, pwp_ret, Herr; [|done]. done.
  - by apply pwp_ret.
Qed.

(** A resource that is released in the end leaves nothing behind. *)
Lemma tidy_resource {A} r es (out : outcome A) :
  tidy es out ->
  tidy ([Acquired r] ++ match out with Value _ | Crash => es ++ [Released r] | _ => es end) out.
Proof. destruct out; simpl; auto using replay_released. Qed.

Variable ParseDuration : string -> error + Z.
Variable Getenv : string -> string.

(** What a process ends with: [R] does not mind more events before and after. *)
Variable R : list event -> outcome unit -> St -> Prop.
Hypothesis R_more : forall before es after out σ, R es out σ -> R (before ++ es ++ after) out σ.

Definition ends_well (es : list event) (out : outcome unit) (σ : St) : Prop := tidy es out /\ R es out σ.

Lemma ends_well_resource r es out σ :
  ends_well es out σ ->
  ends_well ([Acquired r] ++ match out with Value _ | Crash => es ++ [Released r] | _ => es end) out σ.
Proof.
  intros [Ht HR]. split; [by apply tidy_resource|].
  destruct out; first [by apply R_more|rewrite <- (app_nil_r es); by apply R_more].
Qed.

Lemma pwp_resource r (p : process unit) σ :
  pwp a p ends_well σ -> pwp a (with_resource r p) ends_well σ.
Proof.
  intros Hp. apply pwp_emit, pwp_defer. eapply pwp_mono, Hp. intros es out σ'. apply ends_well_resource.
Qed.

(** The process exits with 1, or its main goes on with open connections. *)
Lemma start_wp name body σ :
  ((forall cfg, Load ParseDuration Getenv = Ok cfg -> refused (DatabaseURL cfg) \/ quiet a = false) ->
     R [] (Exit 1) σ) ->
  (forall cfg, Load ParseDuration Getenv = Ok cfg ->
     pwp a (body (ConfigureLogger (LogLevel cfg)) cfg) ends_well σ) ->
  pwp a (start ParseDuration Getenv name body) ends_well σ.
Proof.
  intros Hexit Hbody. pose proof (Load_no_panic ParseDuration Getenv) as Hnp. unfold start.
  assert (Hfail : forall es, (forall cfg, Load ParseDuration Getenv = Ok cfg ->
    refused (DatabaseURL cfg) \/ quiet a = false) -> ends_well es (Exit 1) σ).
  { intros es Hwhy. split; [done|]. pose proof (R_more es [] [] _ _ (Hexit Hwhy)) as HR. by rewrite app_nil_r in HR. }
  destruct (Load ParseDuration Getenv) as [cfg|e|]; [|by apply pwp_emit, pwp_ret, Hfail|done].
  apply pwp_resource, pwp_resource, pwp_bind, OpenPostgres_wp.
  - intros err es Hes Hwhy. apply pwp_emit, pwp_ret, Hfail. by intros cfg' [= <-].
  - apply pwp_defer, pwp_bind, OpenRedis_wp.
    + intros err es Hes Hq. apply pwp_emit, pwp_ret, Hfail. by right.
    + apply pwp_defer. eapply pwp_mono; [|by apply Hbody]. intros es out σ' Hend.
      pose proof (ends_well_resource PostgresPool _ _ _ (ends_well_resource RedisClient _ _ _ Hend)) as Hend'.
      by destruct out.
Qed.
End startup.
