(* ===== verification/IsolatedApi.v ===== *)
(** * The API beside other sessions

    Every endpoint, through the router and its middleware, is safe to run beside
    any other requests and the worker. The reset of the stress fixtures, which
    deletes rows, is the only one left out. *)

From S2P Require Import Prelude GoRuntime DbTypes Schema Prog Wp SqlcReservations ReservationService Inventory NetHttp HttpServer SqlcAccounts Sessions Auth SqlcEvents Locks Interleaving Isolation Serial Steady Events IsolatedServices SqlcStress StressAdmin SerialSettlement SerialCreation SerialStress Handlers.
Local Open Scope string_scope.
Local Open Scope list_scope.
Local Open Scope Z_scope.
Local Open Scope http_scope.

(** ** Handler code *)

Definition isolated_http {B A} (m : http B A) : Prop := forall s, isolated (m s).

Section rules.
Context {B : Type}.

Lemma ihttp_hret {A} (x : A) : isolated_http (B:=B) (hret x).
Proof. intros s. apply isolated_Ret. Qed.

Lemma ihttp_hbind {A C} (m : http B A) (f : A -> http B C) :
  isolated_http m -> (forall x, isolated_http (f x)) -> isolated_http (hbind m f).
Proof.
  intros Hm Hf s. apply isolated_bind; [apply Hm|]. intros [[x|] s']; [apply Hf|apply isolated_Ret].
Qed.

Lemma ihttp_call {A} (p : prog A) : isolated p -> isolated_http (B:=B) (call p).
Proof. intros Hp s. apply isolated_bind; [by apply isolated_catch|]. by intros []. Qed.

Lemma ihttp_modify f : isolated_http (B:=B) (modify f).
Proof. intros s. apply isolated_Ret. Qed.

Lemma ihttp_get_writer : isolated_http (B:=B) get_writer.
Proof. intros s. apply isolated_Ret. Qed.

Lemma ihttp_log l : isolated_http (B:=B) (log l).
Proof. intros s. apply isolated_Ret. Qed.

Lemma ihttp_recovering {A} (m handler : http B A) :
  isolated_http m -> isolated_http handler -> isolated_http (recovering m handler).
Proof.
  intros Hm Hh s. apply isolated_bind; [apply Hm|]. intros [[x|] s']; [apply isolated_Ret|apply Hh].
Qed.

Lemma ihttp_recording {A} rec (m : http B A) : isolated_http m -> isolated_http (recording rec m).
Proof. intros Hm s. apply isolated_bind; [apply Hm|]. by intros [[x|] s']. Qed.
End rules.

Lemma ihttp_WriteJSON `{JsonEncode P} code (p : json P) : isolated_http (WriteJSON code p).
Proof.
  apply ihttp_hbind; [apply ihttp_modify|intros _]. apply ihttp_hbind; [apply ihttp_modify|intros _].
  destruct (encodes p); [apply ihttp_modify|apply ihttp_log].
Qed.

Lemma ihttp_WriteError `{JsonEncode P} status code message : isolated_http (WriteError (P:=P) status code message).
Proof.
  apply ihttp_hbind; [|intros; apply ihttp_WriteJSON].
  apply ihttp_hbind; [apply ihttp_get_writer|intros; apply ihttp_hret].
Qed.

Lemma ihttp_on_error err s status code message rest :
  isolated_http rest -> isolated_http (on_error err s status code message rest).
Proof. intros Hr. unfold on_error. destruct (errors_Is _ _); [apply ihttp_WriteError|done]. Qed.

Lemma ihttp_decodeJSON {T} `{JsonBody T} r k :
  (forall p, json_Decode (Body r) = inr p -> isolated_http (k p)) -> isolated_http (decodeJSON r k).
Proof. intros Hk. unfold decodeJSON. destruct (json_Decode (Body r)); [apply ihttp_WriteError|by apply Hk]. Qed.

(** ** The middleware *)

Lemma isolated_newRequestID : isolated newRequestID.
Proof. unfold newRequestID. isolated_tac. Qed.

Lemma ihttp_NewRouter `{JsonEncode P} (next : Handler (json P)) r :
  (forall r, isolated_http (next r)) -> isolated_http (NewRouter next r).
Proof.
  intros Hn. apply ihttp_recovering.
  - apply ihttp_hbind.
    + destruct (_ ==? ""); [|apply ihttp_hret].
      intros s. apply isolated_bind; [apply isolated_newRequestID|intros; apply isolated_Ret].
    + intros id. apply ihttp_hbind; [apply ihttp_modify|intros _].
      assert (Hnow : isolated_http (B:=json P) now_call) by (intros s; by apply isolated_Now).
      do 3 (apply ihttp_hbind; [first [exact Hnow|apply ihttp_recording, Hn]|intros]). apply ihttp_log.
  - apply ihttp_hbind; [apply ihttp_log|intros; apply ihttp_WriteError].
Qed.

(** ** The handlers *)

Ltac ihttp_tac :=
  repeat match goal with
  | |- isolated_http (hbind _ _) => apply ihttp_hbind; [|intros]
  | |- isolated_http (call _) => apply ihttp_call
  | |- isolated_http (WriteJSON _ _) => apply ihttp_WriteJSON
  | |- isolated_http (WriteError _ _ _) => apply ihttp_WriteError
  | |- isolated_http (on_error _ _ _ _ _ _) => apply ihttp_on_error
  | |- isolated_http (reservation_not_found _ _) => apply ihttp_on_error
  | |- isolated_http (event_not_found _ _) => apply ihttp_on_error
  | |- isolated_http (session_error _) => apply ihttp_on_error
  | |- isolated_http (stress_error _ _ _) => apply ihttp_on_error
  | |- isolated_http (SetCookie _) => apply ihttp_modify
  | |- isolated_http (hret _) => apply ihttp_hret
  | |- isolated_http (decodeJSON _ _) => apply ihttp_decodeJSON; intros
  | |- isolated_http (match ?x with _ => _ end) => destruct x
  | |- isolated_http (if ?b then _ else _) => destruct b
  end.

Section handlers.
Context `{PgtypeLaws} `{Collation} `{Libraries} `{S : SessionService} `{!SessionIsolated S}.
Context `{JsonBody RegisterRequest} `{JsonBody LoginRequest}.
Context `{JsonBody QuantityReservationRequest} `{JsonBody SeatReservationRequest}.
Context `{JsonBody CreateEventRequest} `{!JsonBody CreateTicketTypeRequest} `{!JsonLaws}.
Context `{JsonBody CreateSeatsRequest}.
Variables (reservationTTL : Z) (appEnv : string).

Lemma ihttp_with_session r k : (forall vs, isolated_http (k vs)) -> isolated_http (with_session r k).
Proof. intros Hk. unfold with_session. ihttp_tac; [apply current_isolated|apply Hk]. Qed.

Lemma ihttp_with_reservation r k :
  (forall vs rid, isolated_http (k vs rid)) -> isolated_http (currentSessionAndReservationID r k).
Proof.
  intros Hk. apply ihttp_with_session. intros vs. destruct (ParseUUID _); [apply Hk|apply ihttp_WriteError..].
Qed.

Lemma ihttp_with_event r k : (forall ev, isolated_http (k ev)) -> isolated_http (eventIDFromRequest r k).
Proof. intros Hk. unfold eventIDFromRequest. destruct (ParseUUID _); [apply Hk|apply ihttp_WriteError..]. Qed.

Lemma isolated_AssertConsistency : isolated (AssertConsistency appEnv).
Proof.
  unfold AssertConsistency, StressRepository.ListNegativeTicketQuantityViolations,
    StressRepository.ListOversoldTicketQuantityViolations, StressRepository.ListDuplicateActiveSeatViolations,
    StressRepository.ListOrphanReservationItemViolations, StressRepository.ListOrphanReservationSeatViolations,
    StressRepository.ListStaleExpiredActiveReservationViolations.
  isolated_tac.
Qed.

(** Every endpoint but the one that deletes rows. *)
Definition concurrent (e : endpoint) : bool :=
  match e with PostStressReset => false | _ => true end.

Lemma isolated_api e r : concurrent e = true -> isolated_http (api reservationTTL appEnv e r).
Proof.
  intros He. destruct e; try done; unfold api,
    CreateAnonymousSession_handler, GetCurrentSession_handler, Register_handler, Login_handler, Logout_handler,
    ReserveQuantity_handler, ReserveSeats_handler, GetReservation_handler, CancelReservation_handler,
    ConfirmReservation_handler, CreateEvent_handler, GetEvent_handler, CreateTicketType_handler,
    CreateSeats_handler, GetInventory_handler, Seed_handler, AssertConsistency_handler, Health_handler,
    Ready_handler, health_error;
    try apply ihttp_with_session; try apply ihttp_with_reservation; try apply ihttp_with_event; intros; ihttp_tac;
    match goal with
    | |- isolated svc_CreateAnonymousSession => apply create_isolated
    | |- isolated (svc_GetCurrentSession _) => apply current_isolated
    | |- isolated (Register _ _) => apply isolated_Register
    | |- isolated (Login _ _ _) => apply isolated_Login
    | |- isolated (ReserveQuantity _ _ _) => eapply linearizable_isolated, ReserveQuantity_linearizable
    | |- isolated (ReserveSeats _ _ _) => eapply linearizable_isolated, ReserveSeats_linearizable
    | |- isolated (GetReservation _ _) => apply isolated_GetReservation
    | |- isolated (CancelReservation _ _) => eapply linearizable_isolated, CancelReservation_linearizable
    | |- isolated (ConfirmReservation _ _) => eapply linearizable_isolated, ConfirmReservation_linearizable
    | |- isolated (Events.CreateEvent _) => apply isolated_CreateEvent
    | |- isolated (GetEvent _) => apply isolated_GetEvent
    | |- isolated (Events.CreateTicketType _ _) => by eapply isolated_CreateTicketType, (total_quantity_int32 (Body r))
    | |- isolated (CreateSeats _ _) => apply isolated_CreateSeats
    | |- isolated (GetInventory _) => apply isolated_GetInventory
    | |- isolated (Seed _) => apply isolated_Seed
    | |- isolated (AssertConsistency _) => apply isolated_AssertConsistency
    | |- isolated Ping => unfold Ping; isolated_tac
    end.
Qed.
End handlers.
