(* ===== verification/HandlerFacts.v ===== *)
(** * What the API answers

    Every handler writes exactly one JSON response, coherent with its status
    and request identifier, keeps the invariant, and answers with a 5xx status
    only when the environment fails it (or in the listed corner cases). *)

From S2P Require Import Prelude GoRuntime DbTypes Schema Prog Wp Crypto SqlcReservations ReservationService Inventory Settlement Requests Creation SeatCreation Service ServiceFacts SqlcEvents SqlcAccounts NetHttp HttpServer Sessions Auth Events SqlcStress StressAdmin StressFacts Handlers.
Local Open Scope string_scope.
Local Open Scope list_scope.
Local Open Scope Z_scope.
Local Open Scope http_scope.

(** ** One response *)

Abbreviation state := (HttpState (json response)).
Abbreviation reply_result := (res (option unit * HttpState (json response))).

(** The state after one WriteJSON. *)
Definition wrote (code : Z) (p : json response) (s : state) : state :=
  let w := WriteHeader code (set_header "Content-Type" "application/json" (writer s)) in
  if encodes p then MkHttp (Write p w) (logs s) else MkHttp w (logs s ++ [EncodeFailed]).

Definition with_cookies (cks : list HttpCookie) (s : state) : state :=
  let w := writer s in
  MkHttp (MkWriter (header w) (cookies w ++ cks) (sent w) (body w) (recorder w)) (logs s).

Definition request_id (s : state) : string := get_header RequestIDHeader (writer s).

(** An error body comes with an error status and names the request; a payload
    comes with 200 or 201, or with 503 when it says what is not ready. *)
Definition coherent (code : Z) (p : json response) (rid : string) : Prop :=
  match p with
  | ErrorBody d => 400 <= code <= 500 /\ Detail_RequestID d = rid
  | Payload (HealthErrorJSON _ _) => code = 503
  | Payload _ => code = 200 \/ code = 201
  end.

Section answers.
Variable a : assm.

(** The handler has written one response and left the tables in [Post]. *)
Definition answered (s : state) (Post : Z -> St -> Prop) (res : reply_result) (σ : St) : Prop :=
  exists cks code p, res = Ok (Some tt, wrote code p (with_cookies cks s)) /\
    coherent code p (request_id s) /\ Post code σ.

Lemma with_cookies_nil s : with_cookies [] s = s.
Proof. destruct s as [[h c st b r] l]. unfold with_cookies. simpl. by rewrite app_nil_r. Qed.

Lemma wp_WriteJSON code p s (Q : reply_result -> St -> Prop) σ :
  Q (Ok (Some tt, wrote code p s)) σ -> wp a (WriteJSON code p s) Q σ.
Proof. unfold wrote, WriteJSON, hbind. simpl. by destruct (encodes p). Qed.

Lemma answered_json code p s (Post : Z -> St -> Prop) σ :
  coherent code (Payload p) (request_id s) -> Post code σ ->
  wp a (WriteJSON code (Payload p) s) (answered s Post) σ.
Proof.
  intros Hc HP. apply (wp_WriteJSON code (Payload p)). exists [], code, (Payload p).
  by rewrite with_cookies_nil.
Qed.

Lemma answered_cookie_json c code p s (Post : Z -> St -> Prop) σ :
  coherent code (Payload p) (request_id s) -> Post code σ ->
  wp a (hbind (SetCookie c) (fun _ => WriteJSON code (Payload p)) s) (answered s Post) σ.
Proof. intros Hc HP. apply wp_hbind, (wp_WriteJSON code (Payload p)). by exists [c], code, (Payload p). Qed.

Lemma answered_error code c m s (Post : Z -> St -> Prop) σ :
  400 <= code <= 500 -> Post code σ -> wp a (WriteError code c m s) (answered s Post) σ.
Proof.
  intros Hc HP. exists [], code, (ErrorBody (MkErrorDetail c m (request_id s))).
  by rewrite with_cookies_nil.
Qed.

(** An expected error is answered; the others go on. *)
Lemma answered_on_error err sen code c m rest s (Post : Z -> St -> Prop) σ :
  400 <= code <= 500 -> Post code σ ->
  (errors_Is err (Sentinel sen) = false -> wp a (rest s) (answered s Post) σ) ->
  wp a (on_error err sen code c m rest s) (answered s Post) σ.
Proof.
  intros Hc HP Hrest. unfold on_error. destruct (errors_Is _ _) eqn:E; [|auto].
  by apply answered_error.
Qed.

(** The invariant holds, no transaction is open, and a server error has an
    excuse. *)
Definition reached (excuse : Prop) (code : Z) (σ : St) : Prop :=
  σ.2 = None /\ db_inv σ.1 /\ (500 <= code -> quiet a = true -> excuse).

Lemma reached_ok excuse code σ : σ.2 = None -> db_inv σ.1 -> code < 500 -> reached excuse code σ.
Proof. intros ? ? ?. split_and!; [done|done|lia]. Qed.

Lemma decodeJSON_wp {T} `{JsonBody T} r (k : T -> reply) s (Post : Z -> St -> Prop) σ :
  Post 400 σ -> (forall payload, json_Decode (Body r) = inr payload -> wp a (k payload s) (answered s Post) σ) ->
  wp a (decodeJSON r k s) (answered s Post) σ.
Proof.
  intros HP Hk. unfold decodeJSON. destruct (json_Decode (Body r)) as [e|payload]; [|by apply Hk].
  apply answered_error; [lia|done].
Qed.
End answers.

(** [errors] works through a chain of [on_error]. *)
Ltac errors :=
  repeat (apply answered_on_error; [lia|by apply reached_ok|intros ?]);
  apply answered_error; [lia|].

(** In a calm environment the error was one of those the chain looked for. *)
Ltac excluded :=
  split; [done|split; [done|]]; intros _ Hq; exfalso;
  repeat match goal with H : errors_Is ?e ?t = false |- _ =>
    assert (e <> t) by (intros ->; by rewrite errors_Is_refl in H); clear H end.

Section handlers.
Context `{PgtypeLaws} `{Collation} `{Libraries} `{S : SessionService} `{!SessionLaws S}.
Context `{JsonBody RegisterRequest} `{JsonBody LoginRequest}.
Context `{JsonBody QuantityReservationRequest} `{JsonBody SeatReservationRequest}.
Context `{JsonBody CreateEventRequest} `{JsonLaws} `{JsonBody CreateSeatsRequest}.
Variables (reservationTTL : Z) (appEnv : string).
Variable a : assm.

(** ** Sessions and accounts *)

Lemma session_error_wp err s db (excuse : Prop) :
  db_inv db -> (faulty a err \/ err = Sentinel ErrSessionRequired) ->
  wp a (session_error err s) (answered s (reached a excuse)) (db, None).
Proof.
  intros Hinv He. unfold session_error. errors. excluded. destruct He as [[Hq' _]|He]; congruence.
Qed.

Lemma CreateAnonymousSession_answers r s db :
  db_inv db ->
  wp a (CreateAnonymousSession_handler r s)
    (answered s (reached a (token_clash (bytes_ok a) db))) (db, None).
Proof.
  intros Hinv. apply wp_hbind, wp_call. eapply wp_mono, create_law; [|apply Hinv].
  intros [c|e|] [db1 saved] (Hσ & Hch & Hr); cbn [fst snd] in *; subst saved; [| |done].
  - apply answered_cookie_json; [by right|]. apply reached_ok; [done|by eapply accounts_changed_inv|lia].
  - destruct Hr as [-> Hr]. apply answered_error; [lia|]. split_and!; [done|done|].
    intros _ Hq. destruct Hr as [[? _]|[_ Ht]]; [congruence|auto].
Qed.

Lemma GetCurrentSession_answers r s db :
  db_inv db -> wp a (GetCurrentSession_handler r s) (answered s (reached a False)) (db, None).
Proof.
  intros Hinv. apply wp_hbind, wp_call. eapply wp_mono, current_law; [|apply Hinv].
  intros [c|e|] [db1 saved] (Hσ & Hch & Hr); cbn [fst snd] in *; subst saved; [| |done].
  - apply answered_json; [by left|]. apply reached_ok; [done|by eapply accounts_changed_inv|lia].
  - destruct Hr as [-> Hr]. apply session_error_wp; [done|]. destruct Hr as [?|[? _]]; auto.
Qed.

Lemma Register_answers r s db :
  db_inv db -> wp a (Register_handler r s) (answered s (reached a False)) (db, None).
Proof.
  intros Hinv. apply decodeJSON_wp; [by apply reached_ok|]. intros payload _.
  apply wp_hbind, wp_call. eapply wp_mono, Register_wp; [|apply Hinv].
  intros [u|e|] [db1 saved] (Hσ & Hch & Hr); cbn [fst snd] in *; subst saved;
    (assert (Hinv1 : db_inv db1) by (by eapply accounts_changed_inv)).
  - apply answered_json; [by right|]. by apply reached_ok.
  - apply answered_on_error; [lia|by apply reached_ok|]. intros _.
    apply answered_error; [lia|]. by apply reached_ok.
  - inversion Hr.
Qed.

Lemma Login_answers r s db :
  db_inv db ->
  wp a (Login_handler r s) (answered s (reached a (token_clash (bytes_ok a) db))) (db, None).
Proof.
  intros Hinv. apply decodeJSON_wp; [by apply reached_ok|]. intros payload _.
  apply wp_hbind, wp_call. eapply wp_mono, Login_wp; [|apply Hinv].
  intros [u|e|] [db1 saved] (Hσ & Hch & Hr); cbn [fst snd] in *; subst saved; [| |done];
    (assert (Hinv1 : db_inv db1) by (by eapply accounts_changed_inv)).
  - destruct Hr as (vs & _ & (_ & _ & Hne & _) & _).
    rewrite (bool_decide_eq_false_2 (SessionToken u = "")) by done. cbn [negb].
    apply answered_cookie_json; [by left|]. by apply reached_ok.
  - apply answered_on_error; [lia|by apply reached_ok|]. intros Hno.
    apply answered_error; [lia|]. split_and!; [done|done|]. intros _ Hq.
    destruct Hr as [[? _]|[(-> & _)|(_ & _ & _ & Ht)]]; [congruence|by rewrite errors_Is_refl in Hno|auto].
Qed.

Lemma Logout_answers r s db :
  db_inv db -> wp a (Logout_handler r s) (answered s (reached a False)) (db, None).
Proof. intros Hinv. apply answered_cookie_json; [by left|]. by apply reached_ok. Qed.

(** ** Reservations *)

(** A session the database knows, with its user. *)
Definition known_session (vs : VisitorSession) (db : Database) : Prop :=
  visitor_sessions db !! VisitorSession_ID vs = Some vs /\
  (Valid (VisitorSession_UserID vs) = true -> is_Some (users db !! VisitorSession_UserID vs)).

Lemma known_owner vs db :
  known_session vs db -> ~ owner_unknown (VisitorSession_ID vs) (VisitorSession_UserID vs) db.
Proof. intros [Hs Hu] [Hn|[Hv Hn]]; [congruence|]. destruct (Hu Hv). congruence. Qed.

Lemma with_session_wp r (k : VisitorSession -> reply) s db (excuse : Prop) :
  db_inv db ->
  (forall vs db1, db_inv db1 -> known_session vs db1 -> accounts_changed db db1 ->
     wp a (k vs s) (answered s (reached a excuse)) (db1, None)) ->
  wp a (with_session r k s) (answered s (reached a excuse)) (db, None).
Proof.
  intros Hinv Hk. apply wp_hbind, wp_call. eapply wp_mono, current_law; [|apply Hinv].
  intros [vs|e|] [db1 saved] (Hσ & Hch & Hr); cbn [fst snd] in *; subst saved; [| |done].
  - assert (Hinv1 : db_inv db1) by (by eapply accounts_changed_inv).
    apply Hk; [done| |done]. destruct Hr as (vs0 & now & ts & _ & _ & _ & -> & Hdb1).
    assert (Hrow : visitor_sessions db1 !! VisitorSession_ID vs0 = Some (with_last_seen ts vs0))
      by (rewrite Hdb1; apply lookup_insert_eq).
    split; [exact Hrow|]. exact (sessions_user _ (inv_schema _ Hinv1) _ _ Hrow).
  - destruct Hr as [-> Hr]. apply session_error_wp; [done|]. destruct Hr as [?|[? _]]; auto.
Qed.

Lemma with_reservation_wp r (k : VisitorSession -> UUID -> reply) s db (excuse : Prop) :
  db_inv db ->
  (forall vs rid db1, db_inv db1 -> wp a (k vs rid s) (answered s (reached a excuse)) (db1, None)) ->
  wp a (currentSessionAndReservationID r k s) (answered s (reached a excuse)) (db, None).
Proof.
  intros Hinv Hk. apply with_session_wp; [done|]. intros vs db1 Hinv1 _ _.
  destruct (ParseUUID _); [by apply Hk|..]; (apply answered_error; [lia|by apply reached_ok]).
Qed.

Lemma ReserveQuantity_answers r s db :
  db_inv db -> wp a (ReserveQuantity_handler reservationTTL r s) (answered s (reached a False)) (db, None).
Proof.
  intros Hinv. apply with_session_wp; [done|]. intros vs db1 Hinv1 Hvs _.
  apply decodeJSON_wp; [by apply reached_ok|]. intros payload _.
  apply wp_hbind, wp_call. eapply wp_mono, ReserveQuantity_wp; [|done].
  intros res [db2 saved] [Hσ Hr]; cbn [fst snd] in *; subst saved.
  assert (Hinv2 : db_inv db2).
  { destruct Hr as [|? ? ? ? ? _ _ _ Hq]; [done|]. by eapply inventory_steps_inv, Hinv1; eapply quantity_outcome_steps. }
  destruct res as [resp|e|].
  - apply answered_json; [by right|by apply reached_ok].
  - errors. excluded. inversion Hr as [|? ? ? ? ? _ _ _ Hout]; subst; [done|].
    inversion Hout; subst; try done; try (match goal with Hh : hostile _ _ |- _ => destruct Hh; congruence end);
      try (match goal with Hf : faulty _ _ |- _ => destruct Hf; congruence end).
    by eapply known_owner.
  - inversion Hr as [|? ? ? ? ? _ _ _ Hout]; subst. inversion Hout.
Qed.

Lemma ReserveSeats_answers r s db :
  db_inv db -> wp a (ReserveSeats_handler reservationTTL r s) (answered s (reached a False)) (db, None).
Proof.
  intros Hinv. apply with_session_wp; [done|]. intros vs db1 Hinv1 Hvs _.
  apply decodeJSON_wp; [by apply reached_ok|]. intros payload _.
  apply wp_hbind, wp_call. eapply wp_mono, ReserveSeats_wp; [|done].
  intros res [db2 saved] [Hσ Hr]; cbn [fst snd] in *; subst saved.
  assert (Hinv2 : db_inv db2).
  { destruct Hr as [|? ? ? ? ? _ _ Hq]; [done|]. by eapply inventory_steps_inv, Hinv1; eapply seats_outcome_steps. }
  destruct res as [resp|e|].
  - apply answered_json; [by right|by apply reached_ok].
  - errors. excluded. inversion Hr as [|? ? ? ? ? _ _ Hout]; subst; [done|].
    inversion Hout; subst; try done; try (match goal with Hh : hostile _ _ |- _ => destruct Hh; congruence end);
      try (match goal with Hf : faulty _ _ |- _ => destruct Hf; congruence end).
    by eapply known_owner.
  - inversion Hr as [|? ? ? ? ? _ _ Hout]; subst. inversion Hout.
Qed.

Lemma GetReservation_answers r s db :
  db_inv db -> wp a (GetReservation_handler r s) (answered s (reached a False)) (db, None).
Proof.
  intros Hinv. apply with_reservation_wp; [done|]. intros vs rid db1 Hinv1.
  apply wp_hbind, wp_call. eapply wp_mono, GetReservation_wp; [|done].
  intros res σ [-> Hr]. destruct res as [resp|e|]; [| |done].
  - apply answered_json; [by left|by apply reached_ok].
  - unfold reservation_not_found. errors. excluded. destruct Hr as [[? _]|[? _]]; congruence.
Qed.

Lemma settled_inv target cannot vs rid db out db' :
  final_status target -> db_inv db -> settled (clock_ok a) target cannot vs rid db out db' -> db_inv db'.
Proof. intros Hf Hinv Hset. by eapply inventory_steps_inv, Hinv; eapply settled_steps. Qed.

Lemma settled_error target cannot vs rid db resp e db' :
  settled (clock_ok a) target cannot vs rid db (resp, Some e) db' -> e = Sentinel cannot.
Proof. intros Hset. by inversion Hset. Qed.

(** Cancel and confirm differ in the target status and its refusal. *)
Lemma settle_answers (p : prog (ReservationResponse * option error)) target cannot vs rid code m c2 m2 s db :
  db_inv db -> final_status target ->
  wp a p (settleOp_post a target cannot vs rid db) (db, None) ->
  wp a (hbind (call p) (fun out =>
    match outcome_error out with
    | inl err => reservation_not_found err
        (on_error err cannot 409 code m
        (on_error err ErrReservationInvariantBroken 409 "RESERVATION_INCONSISTENT"
          "Reservation cannot be transitioned safely" (WriteError 500 c2 m2)))
    | inr response => WriteJSON 200 (Payload (ReservationJSON response))
    end) s) (answered s (reached a False)) (db, None).
Proof.
  intros Hinv Hfin Hp. apply wp_hbind, wp_call. revert Hp. apply wp_mono.
  intros res [db1 saved] [Hσ Hr]; cbn [fst snd] in *; subst saved.
  destruct res as [[resp [e|]]|e|]; cbn [outcome_error]; [| | |done].
  - assert (Hinv1 : db_inv db1) by (by eapply settled_inv). apply settled_error in Hr.
    unfold reservation_not_found. errors. excluded. congruence.
  - assert (Hinv1 : db_inv db1) by (by eapply settled_inv).
    apply answered_json; [by left|by apply reached_ok].
  - assert (Hinv1 : db_inv db1).
    { destruct Hr as [[_ [->|[out Hset]]]|(_ & _ & ->)]; [done| |done]. by eapply settled_inv. }
    unfold reservation_not_found. errors. excluded. destruct Hr as [[[? _] _]|[? _]]; congruence.
Qed.

Lemma CancelReservation_answers r s db :
  db_inv db -> wp a (CancelReservation_handler r s) (answered s (reached a False)) (db, None).
Proof.
  intros Hinv. apply with_reservation_wp; [done|]. intros vs rid db1 Hinv1.
  apply (settle_answers _ StatusCancelled ErrReservationCannotCancel vs rid); [done|by right; left|].
  by apply CancelReservation_wp.
Qed.

Lemma ConfirmReservation_answers r s db :
  db_inv db -> wp a (ConfirmReservation_handler r s) (answered s (reached a False)) (db, None).
Proof.
  intros Hinv. apply with_reservation_wp; [done|]. intros vs rid db1 Hinv1.
  apply (settle_answers _ StatusConfirmed ErrReservationCannotConfirm vs rid); [done|by left|].
  by apply ConfirmReservation_wp.
Qed.

(** ** Catalog, administration, health *)

Lemma with_event_wp r (k : UUID -> reply) s db (excuse : Prop) :
  db_inv db ->
  (forall ev, ParseUUID (URLParam r "event_id") = Ok ev ->
     wp a (k ev s) (answered s (reached a excuse)) (db, None)) ->
  wp a (eventIDFromRequest r k s) (answered s (reached a excuse)) (db, None).
Proof.
  intros Hinv Hk. unfold eventIDFromRequest.
  destruct (ParseUUID _); [by apply Hk|..]; (apply answered_error; [lia|by apply reached_ok]).
Qed.

Lemma CreateEvent_answers r s db :
  db_inv db -> wp a (CreateEvent_handler r s) (answered s (reached a False)) (db, None).
Proof.
  intros Hinv. apply decodeJSON_wp; [by apply reached_ok|]. intros payload _.
  apply wp_hbind, wp_call. eapply wp_mono, CreateEvent_wp; [|apply Hinv].
  intros res [db1 saved] (Hσ & Hst & Hr); cbn [fst snd] in *; subst saved.
  assert (Hinv1 : db_inv db1) by (by eapply catalog_steps_inv). destruct res as [ev|e|]; [| |done].
  - apply answered_json; [by right|by apply reached_ok].
  - errors. excluded. by specialize (Hr Hq).
Qed.

Lemma GetEvent_answers r s db :
  db_inv db -> wp a (GetEvent_handler r s) (answered s (reached a False)) (db, None).
Proof.
  intros Hinv. apply with_event_wp; [done|]. intros ev Hev. apply wp_hbind, wp_call, wp_bind, require_event_wp.
  - intros e He. unfold event_not_found. errors. excluded. destruct He; congruence.
  - intros _. unfold event_not_found. errors. by excluded.
  - intros e _. apply answered_json; [by left|by apply reached_ok].
Qed.

Lemma CreateTicketType_answers r s db :
  db_inv db -> wp a (CreateTicketType_handler r s) (answered s (reached a False)) (db, None).
Proof.
  intros Hinv. apply with_event_wp; [done|]. intros ev Hev.
  apply decodeJSON_wp; [by apply reached_ok|]. intros payload Hdec.
  apply wp_hbind, wp_call. eapply wp_mono, CreateTicketType_wp;
    [|apply Hinv|by eapply total_quantity_int32].
  intros res [db1 saved] (Hσ & Hst & Hr); cbn [fst snd] in *; subst saved.
  assert (Hinv1 : db_inv db1) by (by eapply catalog_steps_inv). destruct res as [t|e|]; [| |done].
  - apply answered_json; [by right|by apply reached_ok].
  - unfold event_not_found. errors. excluded. by destruct (Hr Hq).
Qed.

Lemma CreateSeats_answers r s db :
  db_inv db ->
  wp a (CreateSeats_handler r s)
    (answered s (reached a (exists eventID payload, ParseUUID (URLParam r "event_id") = Ok eventID /\
       json_Decode (Body r) = inr payload /\ duplicate_place eventID (CSeats_Seats payload) db))) (db, None).
Proof.
  intros Hinv. apply with_event_wp; [done|]. intros ev Hev.
  apply decodeJSON_wp; [by apply reached_ok|]. intros payload Hdec.
  apply wp_hbind, wp_call. eapply wp_mono, CreateSeats_wp; [|apply Hinv].
  intros res [db1 saved] (Hσ & Hst & Hr); cbn [fst snd] in *; subst saved.
  assert (Hinv1 : db_inv db1) by (by eapply catalog_steps_inv). destruct res as [t|e|]; [| |done].
  - apply answered_json; [by right|by apply reached_ok].
  - unfold event_not_found. apply answered_on_error; [lia|by apply reached_ok|]. intros Hn1.
    apply answered_on_error; [lia|by apply reached_ok|]. intros Hn2.
    apply answered_error; [lia|]. split_and!; [done|done|]. intros _ Hq. exists ev, payload.
    split; [done|]. split; [done|].
    destruct (Hr Hq) as [->|[->|[_ Hd]]]; [by rewrite errors_Is_refl in Hn2|by rewrite errors_Is_refl in Hn1|done].
Qed.

Lemma GetInventory_answers r s db :
  db_inv db -> wp a (GetInventory_handler r s) (answered s (reached a False)) (db, None).
Proof.
  intros Hinv. apply with_event_wp; [done|]. intros ev Hev. apply wp_hbind, wp_call.
  eapply wp_mono, GetInventory_wp; [|apply Hinv]. intros res σ [-> Hr]. destruct res as [inv|e|]; [| |done].
  - apply answered_json; [by left|by apply reached_ok].
  - unfold event_not_found. errors. excluded. destruct Hr as [[? _]|[? _]]; congruence.
Qed.

Lemma Seed_answers r s db :
  db_inv db -> wp a (Seed_handler appEnv r s) (answered s (reached a False)) (db, None).
Proof.
  intros Hinv. apply wp_hbind, wp_call. eapply wp_mono, Seed_wp; [|apply Hinv].
  intros res [db1 saved] [Hσ Hr]; cbn [fst snd] in *; subst saved. destruct res as [out|e|]; [| |done].
  - destruct Hr as (_ & suffix & ev & t & ss & _ & Hseed & _). apply answered_json; [by right|].
    apply reached_ok; [done| |lia]. by eapply catalog_steps_inv, Hinv; apply Hseed.
  - assert (Hinv1 : db_inv db1).
    { destruct Hr as [(_ & _ & ->)|[_ [->|(suffix & ev & t & ss & _ & Hseed)]]]; [done..|].
      by eapply catalog_steps_inv, Hinv; apply Hseed. }
    unfold stress_error. errors. excluded. destruct Hr as [(? & _)|[? _]]; congruence.
Qed.

Lemma Reset_answers r s db :
  db_inv db -> wp a (Reset_handler appEnv r s) (answered s (reached a False)) (db, None).
Proof.
  intros Hinv. apply wp_hbind, wp_call. eapply wp_mono, Reset_wp; [|done].
  intros res [db1 saved] [Hσ Hr]; cbn [fst snd] in *; subst saved. destruct res as [out|e|]; [| |done].
  - destruct Hr as (_ & _ & ->). apply answered_json; [by left|]. apply reached_ok; [done|by apply purge_inv|lia].
  - assert (Hinv1 : db_inv db1).
    { destruct Hr as [(_ & _ & ->)|[_ [->| ->]]]; [done..|]. by apply purge_inv. }
    unfold stress_error. errors. excluded. destruct Hr as [(? & _)|[[? _] _]]; congruence.
Qed.

Lemma AssertConsistency_answers r s db :
  db_inv db -> wp a (AssertConsistency_handler appEnv r s) (answered s (reached a False)) (db, None).
Proof.
  intros Hinv. apply wp_hbind, wp_call. eapply wp_mono, AssertConsistency_wp; [|done].
  intros res σ [-> Hr]. destruct res as [out|e|]; [| |done].
  - apply answered_json; [by left|by apply reached_ok].
  - unfold stress_error. errors. excluded. destruct Hr as [[? _]|[? _]]; congruence.
Qed.

(** ** The API *)

Lemma Ready_answers r s db :
  db_inv db -> wp a (Ready_handler r s) (answered s (reached a False)) (db, None).
Proof.
  intros Hinv.
  assert (Hping : forall k c m, wp a (k s) (answered s (reached a False)) (db, None) ->
    wp a (hbind (call Ping) (fun x => match x with inl _ => health_error c m | inr _ => k end) s)
      (answered s (reached a False)) (db, None)).
  { intros k c m Hk. apply wp_hbind, wp_call, wp_sql_intro. split; [intros Hq f|intros ctx Hv Hc; exact Hk].
    exists [], 503, (Payload (HealthErrorJSON c m)). rewrite with_cookies_nil.
    split; [done|]. split; [done|]. split; [done|]. split; [done|]. intros _ Hq'. congruence. }
  apply Hping, Hping, answered_json; [by left|by apply reached_ok].
Qed.

(** The requests that may be answered 5xx although nothing failed: two endpoints
    on a collision of random tokens, and the creation of seats when two of them
    are at one place or one is at the place of a seat that exists. *)
Definition excuse (bytes : list byte -> bool) (e : endpoint) (r : Request) (db : Database) : Prop :=
  match e with
  | PostAnonymousSession | PostLogin => token_clash bytes db
  | PostSeats => exists eventID payload, ParseUUID (URLParam r "event_id") = Ok eventID /\
      json_Decode (Body r) = inr payload /\ duplicate_place eventID (CSeats_Seats payload) db
  | _ => False
  end.

Lemma api_answers e r s db :
  db_inv db -> wp a (api reservationTTL appEnv e r s) (answered s (reached a (excuse (bytes_ok a) e r db))) (db, None).
Proof.
  intros Hinv. destruct e; simpl.
  - by apply CreateAnonymousSession_answers.
  - by apply GetCurrentSession_answers.
  - by apply Register_answers.
  - by apply Login_answers.
  - by apply Logout_answers.
  - by apply ReserveQuantity_answers.
  - by apply ReserveSeats_answers.
  - by apply GetReservation_answers.
  - by apply CancelReservation_answers.
  - by apply ConfirmReservation_answers.
  - by apply CreateEvent_answers.
  - by apply GetEvent_answers.
  - by apply CreateTicketType_answers.
  - by apply CreateSeats_answers.
  - by apply GetInventory_answers.
  - by apply Seed_answers.
  - by apply Reset_answers.
  - by apply AssertConsistency_answers.
  - apply answered_json; [by left|by apply reached_ok].
  - by apply Ready_answers.
Qed.

(** ** Through the middleware *)

(** The identifier of the request: its own, or a new one. *)
Definition names_request (r : Request) (rid : string) : Prop :=
  rid <> "" /\ (TrimSpace (XRequestID r) <> "" -> rid = TrimSpace (XRequestID r)).

Lemma append_dash_ne s t : (s ++ "-" ++ t)%string <> "".
Proof. by destruct s. Qed.

Lemma format_instant_ne t : format_instant t <> "".
Proof.
  unfold format_instant. destruct (civil_from_days _) as [[y m] d]. cbn [padded app]. done.
Qed.

Lemma newRequestID_wp (Q : res string -> St -> Prop) σ :
  (forall rid, rid <> "" -> Q (Ok rid) σ) -> wp a newRequestID Q σ.
Proof.
  intros HQ. unfold newRequestID. apply wp_bind, wp_try. split.
  - intros _ text. apply wp_bind, wp_time_Now. intros t _. apply HQ, format_instant_ne.
  - intros bs _ _. apply HQ, append_dash_ne.
Qed.

(** The response of a request, as the client and the log see it. *)
Definition responded (r : Request) (Post : Z -> St -> Prop)
    (res : res (option unit * HttpState (json response))) (σ : St) : Prop :=
  exists rid code p cks ms s',
    res = Ok (Some tt, s') /\ names_request r rid /\ coherent code p rid /\
    sent (writer s') = Some (code, {[ "Content-Type" := "application/json"; RequestIDHeader := rid ]}, cks) /\
    body (writer s') = (if encodes p then [p] else []) /\
    logs s' = (if encodes p then [] else [EncodeFailed]) ++ [RequestCompleted (Method r) (URLPath r) code ms rid] /\
    Post code σ.

Lemma logged_wp (h : Handler (json response)) r rid Post db :
  names_request r rid ->
  (forall s, wp a (h (with_request_id rid r) s) (answered s Post) (db, None)) ->
  wp a (RequestLogger h (with_request_id rid r)
    (MkHttp (set_header RequestIDHeader rid new_writer) [])) (responded r Post) (db, None).
Proof.
  intros Hrid Hh. apply wp_hbind, wp_bind, wp_time_Now. intros t0 _. cbv beta iota.
  apply wp_hbind, wp_bind. eapply wp_mono, Hh.
  intros res σ (cks & code & p & -> & Hco & HP). cbv beta iota.
  apply wp_hbind, wp_bind, wp_time_Now. intros t1 _. cbv beta iota.
  unfold wrote. destruct (encodes p) eqn:Henc;
    exists rid, code, p, cks, (Z.quot (t1 - t0) (10 ^ 6)); eexists; rewrite Henc; by split_and!.
Qed.

Lemma serve_http_wp e r db :
  db_inv db ->
  wp a (serve_http reservationTTL appEnv e r) (responded r (reached a (excuse (bytes_ok a) e r db))) (db, None).
Proof.
  intros Hinv. unfold serve_http, NewRouter, Recoverer. apply wp_bind.
  apply (wp_mono a _ (responded r (reached a (excuse (bytes_ok a) e r db)))).
  { intros res σ Hresp. destruct Hresp as (rid & code & p & cks & ms & s' & -> & Hrest).
    exists rid, code, p, cks, ms, s'. by split. }
  unfold RequestID. apply wp_hbind. destruct (bool_decide _) eqn:E; to_prop.
  - apply wp_bind, newRequestID_wp. intros rid Hrid. cbv beta iota. apply wp_hbind. cbv beta iota.
    apply logged_wp; [by split|]. intros s. exact (api_answers e (with_request_id rid r) s db Hinv).
  - cbv beta iota. apply wp_hbind. cbv beta iota. apply logged_wp; [by split|]. intros s. exact (api_answers e (with_request_id (TrimSpace (XRequestID r)) r) s db Hinv).
Qed.
End handlers.
