(* ===== verification/Fixtures.v ===== *)
(** * A concrete environment

    One instance of every parameter of the model, for the witnesses: a driver
    that scans the canonical textual form of identifiers and stores
    microseconds, clocks that stand still, identifiers that count up, no
    faults, and small databases to run the operations on. *)

From S2P Require Import Prelude GoRuntime DbTypes Schema Prog Wp SqlcReservations ReservationService Inventory.
Local Open Scope string_scope.
Local Open Scope list_scope.
Local Open Scope Z_scope.

(** ** A driver *)

Definition hex_value (c : ascii) : option N :=
  let n := N_of_ascii c in
  if (48 <=? n)%N && (n <=? 57)%N then Some (n - 48)%N
  else if (97 <=? n)%N && (n <=? 102)%N then Some (n - 87)%N
  else None.

Fixpoint unhex (l : list ascii) : option (list byte) :=
  match l with
  | [] => Some []
  | [_] => None
  | a :: b :: l' =>
      match hex_value a, hex_value b, unhex l' with
      | Some x, Some y, Some bs =>
          match Byte.of_N (16 * x + y) with Some z => Some (z :: bs) | None => None end
      | _, _, _ => None
      end
  end.

Definition not_dash (c : ascii) : bool := negb (Ascii.eqb c "-"%char).

Definition scan36 (s : string) : error + UUID :=
  let digits := List.filter not_dash (list_ascii_of_string s) in
  match unhex digits with
  | Some bs =>
      match bytes16 bs with
      | Some v => inr (MkUUID v true)
      | None => inl (DriverErr "cannot parse UUID")
      end
  | None => inl (DriverErr "cannot parse UUID")
  end.

Definition hex_decodes (b : byte) : bool :=
  match hex_byte b with
  | [x; y] => match hex_value x, hex_value y with
              | Some u, Some v => Byte.of_N (16 * u + v) ==? Some b
              | _, _ => false
              end
  | _ => false
  end.

Lemma unhex_hex_byte b l :
  unhex (hex_byte b ++ l) = (cons b) <$> unhex l.
Proof.
  assert (H : hex_decodes b = true)
    by (apply (all_bytes_spec hex_decodes); vm_compute; reflexivity).
  unfold hex_decodes in H.
  unfold hex_byte in *. cbn [app unhex].
  destruct (hex_value (hex_digit (Byte.to_N b / 16))) as [u|]; [|done].
  destruct (hex_value (hex_digit (Byte.to_N b mod 16))) as [v|]; [|done].
  apply bool_decide_eq_true in H. rewrite H. by destruct (unhex l).
Qed.

Lemma unhex_hex_bytes bs : unhex (hex_bytes bs) = Some bs.
Proof.
  induction bs as [|b bs IH]; [done|].
  change (hex_bytes (b :: bs)) with (hex_byte b ++ hex_bytes bs).
  by rewrite unhex_hex_byte, IH.
Qed.

Lemma hex_bytes_app xs ys : hex_bytes (xs ++ ys) = hex_bytes xs ++ hex_bytes ys.
Proof. unfold hex_bytes. by rewrite flat_map_app. Qed.

Lemma filter_hex_bytes bs :
  List.filter not_dash (hex_bytes bs) = hex_bytes bs.
Proof.
  induction bs as [|b bs IH]; [done|].
  change (hex_bytes (b :: bs)) with (hex_byte b ++ hex_bytes bs).
  rewrite List.filter_app, IH. f_equal.
  assert (H : forallb not_dash (hex_byte b) = true)
    by (apply (all_bytes_spec (fun b => forallb not_dash (hex_byte b))); vm_compute; reflexivity).
  unfold hex_byte in *. cbn [forallb] in H. to_prop. cbn [List.filter].
  repeat match goal with H : not_dash _ = true |- _ => rewrite H; clear H end. done.
Qed.

Lemma scan36_format id : Valid id = true -> scan36 (UUIDToString id) = inr id.
Proof.
  intros Hv. unfold scan36, UUIDToString. rewrite Hv. cbn [negb].
  rewrite list_ascii_of_string_of_list_ascii.
  pose proof (slices_app (vec_to_list (Bytes id)) (length_vec_to_list _)) as Hs.
  rewrite !List.filter_app, !filter_hex_bytes. change (List.filter not_dash ["-"%char]) with (@nil ascii). rewrite !app_nil_l.
  rewrite <- !hex_bytes_app, <- Hs, unhex_hex_bytes, bytes16_vec.
  destruct id; simpl in *; congruence.
Qed.

#[export] Instance demo_driver : Pgtype :=
  {| uuid_Scan := scan36; timestamptz_encode t := t / 1000 * 1000 |}.

#[export] Instance demo_driver_laws : PgtypeLaws.
Proof.
  constructor; simpl.
  - unfold scan36. intros s id. destruct (unhex _) as [bs|]; [|done].
    destruct (bytes16 bs); [|done]. by intros [= <-].
  - apply scan36_format.
  - intros s t Hst. pose proof (Z.div_le_mono s t 1000). lia.
  - intros t. pose proof (Z.mod_pos_bound t 1000). pose proof (Z.div_mod t 1000). lia.
Qed.

(** ** Identifiers, clocks, rows *)

Definition low_byte (n : N) : byte :=
  match Byte.of_N (n mod 256) with Some b => b | None => "000"%byte end.

(** The identifier whose last two bytes hold [n]. *)
Definition uid_bytes (n : N) : vec byte 16 :=
  let z := "000"%byte in
  [# z; z; z; z; z; z; z; z; z; z; z; z; z; z; low_byte (n / 256); low_byte n].

Definition uid (n : N) : UUID := MkUUID (uid_bytes n) true.

(** A clock reading, in nanoseconds. *)
Definition demo_time : Z := 1000000000.
Definition demo_ts : Timestamptz := MkTs demo_time true.
Definition demo_ttl : Z := 900000000000.

(** The environment whose clock shows [now] and whose n-th effect is offered
    the identifier [uid (1000 + n)]. *)
Definition calm_env (now : Z) : Env := {|
  wall_clock _ := now;
  db_clock _ := now;
  gen_random_uuid n := uid_bytes (1000 + N.of_nat n);
  other_locks _ := [];
  fault _ := None;
  commit_outcome _ := Acked;
  rand_read _ n := inr (replicate n "042"%byte) |}.

Definition demo_event : Event := MkEvent (uid 1) "launch" demo_ts demo_ts demo_ts demo_ts.

Definition demo_tickets (sold reserved : Z) : TicketType :=
  MkTicketType (uid 2) (uid 1) "standing" 10 sold reserved demo_ts demo_ts.

Definition demo_seat (n : N) (number : string) : Seat :=
  MkSeat (uid n) (uid 1) "A" "1" number demo_ts demo_ts.

Definition demo_session (n : N) : VisitorSession :=
  MkVisitorSession (uid n) zero_UUID (UUIDToString (uid n)) demo_ts demo_ts demo_ts
    (MkTs (demo_time + demo_ttl) true).

(** One event with 10 standing tickets and three seats, and two visitors. *)
Definition demo_db : Database :=
  MkDatabase ∅
    {[ uid 6 := demo_session 6; uid 7 := demo_session 7 ]}
    {[ uid 1 := demo_event ]}
    {[ uid 2 := demo_tickets 0 0 ]}
    {[ uid 3 := demo_seat 3 "1"; uid 4 := demo_seat 4 "2"; uid 5 := demo_seat 5 "3" ]}
    ∅ ∅ ∅.

Definition demo_world (db : Database) : World := MkWorld db None 0.

Definition demo_quantity_request (quantity : Z) (key : string) : QuantityReservationRequest :=
  MkQuantityReservationRequest (UUIDToString (uid 1)) (UUIDToString (uid 2)) quantity key.

Definition demo_seat_request (ns : list N) (key : string) : SeatReservationRequest :=
  MkSeatReservationRequest (UUIDToString (uid 1)) ((fun n => UUIDToString (uid n)) <$> ns) key.

(** The rows of a table given as a literal. *)
Ltac rows_cases :=
  repeat match goal with
  | H : <[_:=_]> _ !! _ = Some _ |- _ => apply lookup_insert_Some in H as [[? ?]|[_ H]]
  | H : {[_ := _]} !! _ = Some _ |- _ => apply lookup_singleton_Some in H as [? ?]
  | H : ∅ !! _ = Some _ |- _ => by rewrite lookup_empty in H
  end; subst.

Definition run_at (now : Z) {A} (p : prog A) (w : World) : res A * World :=
  @run (calm_env now) A p w.

(** A run is determined by its answer and the world it leaves. *)
Lemma run_pair {A B} (out : A * B) x : out.1 = x -> out = (x, out.2).
Proof. destruct out. simpl. by intros ->. Qed.

(** ** The example database satisfies the invariant *)

Lemma demo_db_inv : db_inv demo_db.
Proof.
  split; [constructor|constructor|constructor];
    unfold keyed, unique, refers, refers_opt, all_rows; simpl; intros; rows_cases; done || eauto.
Qed.
