(* ===== verification/Correctness.v ===== *)
(** * Properties of the reservation service

    The theorems a reader should look at first. [Env] is universally
    quantified: the clock, the generated identifiers, the failures and the fate
    of every commit are arbitrary, unless the statement says that the run
    [respects] a calm assumption. A world is [ready] when no transaction is open
    and its tables satisfy the invariant [db_inv]. *)

From S2P Require Import Prelude GoRuntime DbTypes Schema Prog Wp SqlcReservations ReservationService Inventory Lifecycle Settlement Requests Creation SeatCreation Service ServiceFacts Fixtures.
Local Open Scope string_scope.
Local Open Scope list_scope.
Local Open Scope Z_scope.

Lemma demo_ready : ready (demo_world demo_db).
Proof. split; [done|apply demo_db_inv]. Qed.

(** A history on the example database: a reservation of three tickets, one of
    two seats, a request for more tickets than there are, a request for a seat
    that is held, and a batch of the worker after the deadline. *)
Definition demo_history : list request :=
  [ReqReserveQuantity (demo_session 6) (demo_quantity_request 3 "k1");
   ReqReserveSeats (demo_session 6) (demo_seat_request [4; 3]%N "k2");
   ReqReserveQuantity (demo_session 7) (demo_quantity_request 8 "k1");
   ReqReserveSeats (demo_session 7) (demo_seat_request [3]%N "k2");
   ReqExpire 50].

(** ** The service as a whole *)

(** C1: in every environment, with any failures and any fate of its commits,
    every request leaves the tables in a state that the inventory machine
    reaches from the one before, with no transaction left open: the programs
    make the changes of the machine, in full, or none. *)
Theorem service_refines_inventory `{PgtypeLaws} `{Env} ttl req w :
  w_saved w = None -> db_inv (w_db w) ->
  let w' := (run (handle ttl req) w).2 in
  rtc inventory_step (w_db w) (w_db w') /\ w_saved w' = None.
Proof.
  intros Hs Hinv. destruct (run (handle ttl req) w) as [r w'] eqn:Hrun. simpl.
  destruct (handle_run ttl req w r w') as ([? _] & ? & _); done.
Qed.

Lemma service_refines_inventory_witness :
  let w' := (@run (calm_env demo_time) _
    (handle demo_ttl (ReqReserveQuantity (demo_session 6) (demo_quantity_request 3 "k1")))
    (demo_world demo_db)).2 in
  rtc inventory_step demo_db (w_db w') /\ w_saved w' = None.
Proof.
  apply (@service_refines_inventory _ _ (calm_env demo_time) demo_ttl
    (ReqReserveQuantity (demo_session 6) (demo_quantity_request 3 "k1")) (demo_world demo_db)).
  - reflexivity.
  - exact demo_db_inv.
Defined.

(** No history oversells. After any sequence of requests, in any
    environment, the reserved and sold counters of every ticket type are the
    sums of the reserved and confirmed items, and together they stay within the
    total. *)
Theorem service_never_oversells `{PgtypeLaws} `{Env} ttl reqs w k t :
  w_saved w = None -> db_inv (w_db w) ->
  let db' := w_db (serve ttl reqs w) in
  ticket_types db' !! k = Some t ->
  TicketType_ReservedQuantity t = units StatusReserved k db' /\
  TicketType_SoldQuantity t = units StatusConfirmed k db' /\
  0 <= TicketType_ReservedQuantity t /\ 0 <= TicketType_SoldQuantity t /\
  TicketType_SoldQuantity t + TicketType_ReservedQuantity t <= TicketType_TotalQuantity t.
Proof.
  intros Hs Hinv db' Ht. destruct (serve_run ttl reqs w) as [[_ Hinv'] _]; [done|].
  pose proof (ticket_bounds _ _ _ (inv_schema _ Hinv') Ht).
  split; [by apply (inv_stock _ Hinv')|]. split; [by apply (inv_stock _ Hinv')|]. lia.
Qed.

Lemma service_never_oversells_witness :
  let db' := w_db (@serve demo_driver demo_ttl (calm_env demo_time) demo_history
                     (demo_world demo_db)) in
  ticket_types db' !! uid 2 = Some (demo_tickets 0 3) /\ units StatusReserved (uid 2) db' = 3.
Proof.
  assert (Ht : ticket_types (w_db (@serve demo_driver demo_ttl (calm_env demo_time) demo_history
    (demo_world demo_db))) !! uid 2 = Some (demo_tickets 0 3)) by (vm_compute; reflexivity).
  split; [exact Ht|].
  pose proof (@service_never_oversells _ _ (calm_env demo_time) demo_ttl demo_history
    (demo_world demo_db) (uid 2) (demo_tickets 0 3) eq_refl demo_db_inv Ht) as [Hu _].
  symmetry. exact Hu.
Defined.

(** No history books a seat twice. After any sequence of requests, in any
    environment, two seat rows that hold the same seat are the same row, and
    its reservation is reserved or confirmed with it. *)
Theorem no_double_booking `{PgtypeLaws} `{Env} ttl reqs w i j s s' :
  w_saved w = None -> db_inv (w_db w) ->
  let db' := w_db (serve ttl reqs w) in
  reservation_seats db' !! i = Some s -> reservation_seats db' !! j = Some s' ->
  active_seat s = true -> active_seat s' = true ->
  ReservationSeat_SeatID s = ReservationSeat_SeatID s' ->
  i = j /\ s = s' /\ exists r, reservations db' !! ReservationSeat_ReservationID s = Some r /\
    Reservation_Status r = ReservationSeat_Status s.
Proof.
  intros Hs Hinv db' Hi Hj Ha Ha' Heq. destruct (serve_run ttl reqs w) as [[_ Hinv'] _]; [done|].
  assert (i = j) as <- by (by eapply (rseats_unique _ (inv_schema _ Hinv'))).
  split; [done|]. fold db' in Hinv'. split; [congruence|].
  destruct (rseats_follow _ (inv_lifecycle _ Hinv') i s Hi) as (r & p & Hr & _ & Hst & _). eauto.
Qed.

(** The world after the first two requests of the history. *)
Definition demo_held : World :=
  @serve demo_driver demo_ttl (calm_env demo_time) (take 2 demo_history) (demo_world demo_db).

Lemma no_double_booking_witness :
  exists i s r, reservation_seats (w_db demo_held) !! i = Some s /\ active_seat s = true /\
    reservations (w_db demo_held) !! ReservationSeat_ReservationID s = Some r /\
    Reservation_Status r = ReservationSeat_Status s.
Proof.
  assert (Hrow : exists i s, reservation_seats (w_db demo_held) !! i = Some s /\ active_seat s = true)
    by (exists (uid 1015); vm_compute; eexists; split; reflexivity).
  destruct Hrow as (i & s & Hi & Ha).
  destruct (@no_double_booking _ _ (calm_env demo_time) demo_ttl (take 2 demo_history)
    (demo_world demo_db) i i s s eq_refl demo_db_inv Hi Hi Ha Ha eq_refl) as (_ & _ & r & Hr & Hst).
  exists i, s, r. auto.
Defined.

(** Final statuses are final. A reservation that is confirmed, cancelled or
    expired stays exactly as it is through every history, in any environment. *)
Theorem final_status_is_final `{PgtypeLaws} `{Env} ttl reqs w rid r :
  w_saved w = None -> db_inv (w_db w) ->
  reservations (w_db w) !! rid = Some r -> final_status (Reservation_Status r) ->
  reservations (w_db (serve ttl reqs w)) !! rid = Some r.
Proof.
  intros Hs Hinv Hr Hf. destruct (serve_run ttl reqs w) as [_ Hsteps]; [done|].
  eapply inventory_steps_final; eauto using final_not_reserved.
Qed.

(** The quantity reservation and the seats reservation of the history. *)
Definition demo_rq : UUID := uid 1004.
Definition demo_rs : UUID := uid 1013.

(** The visitor confirms the tickets and cancels the seats. *)
Definition demo_settled : World :=
  @serve demo_driver demo_ttl (calm_env demo_time)
    [ReqConfirm (demo_session 6) demo_rq; ReqCancel (demo_session 6) demo_rs] demo_held.

Lemma demo_held_ready : ready demo_held.
Proof. by apply (@serve_run _ _ (calm_env demo_time)); apply demo_ready. Qed.

Lemma demo_settled_ready : ready demo_settled.
Proof. by apply (@serve_run _ _ (calm_env demo_time)); apply demo_held_ready. Qed.

Lemma final_status_is_final_witness :
  exists r, reservations (w_db demo_settled) !! demo_rq = Some r /\
    reservations (w_db (@serve demo_driver demo_ttl (calm_env (demo_time + demo_ttl))
      [ReqCancel (demo_session 6) demo_rq; ReqExpire 50] demo_settled)) !! demo_rq = Some r.
Proof.
  assert (Hr : exists r, reservations (w_db demo_settled) !! demo_rq = Some r /\
    Reservation_Status r = StatusConfirmed) by (vm_compute; eexists; split; reflexivity).
  destruct Hr as (r & Hr & Hst). exists r. split; [exact Hr|].
  apply (@final_status_is_final _ _ (calm_env (demo_time + demo_ttl)) demo_ttl
    [ReqCancel (demo_session 6) demo_rq; ReqExpire 50] demo_settled demo_rq r);
    [apply demo_settled_ready|apply demo_settled_ready|exact Hr|left; exact Hst].
Defined.

(** On tables that satisfy the invariant no request panics and none ends
    in ErrReservationInvariantBroken, whatever the environment does (a worker
    batch size that is not positive is the caller's mistake). *)
Theorem service_never_breaks `{PgtypeLaws} `{Env} ttl req w :
  w_saved w = None -> db_inv (w_db w) -> sensible req ->
  match (run (handle ttl req) w).1 with
  | Ok _ => True
  | Err e => errors_Is e (Sentinel ErrReservationInvariantBroken) = false
  | Panicked => False
  end.
Proof.
  intros Hs Hinv Hreq. destruct (run (handle ttl req) w) as [r w'] eqn:Hrun. simpl.
  destruct (handle_run ttl req w r w') as (_ & _ & Hr); [done|done|].
  destruct r; [done|by apply Hr|done].
Qed.

Lemma service_never_breaks_witness :
  errors_Is (Sentinel ErrReservationCannotCancel) (Sentinel ErrReservationInvariantBroken) = false /\
  match (@run (calm_env demo_time) _ (handle demo_ttl (ReqExpire 50)) (demo_world demo_db)).1 with
  | Ok _ => True
  | Err e => errors_Is e (Sentinel ErrReservationInvariantBroken) = false
  | Panicked => False
  end.
Proof.
  split; [reflexivity|].
  apply (@service_never_breaks _ _ (calm_env demo_time) demo_ttl (ReqExpire 50) (demo_world demo_db)).
  - reflexivity.
  - exact demo_db_inv.
  - simpl. lia.
Defined.

(** ** Creating reservations *)

(** C7: with q unallocated units of a ticket type of the event, a request
    under a new key is granted; with fewer it is refused with
    ErrInsufficientStock and changes nothing. The grant takes exactly q units
    and stores the deadline now + TTL. *)
Theorem ReserveQuantity_succeeds_iff `{PgtypeLaws} `{Env} ttl now vs input ev tid w r w' :
  w_saved w = None -> db_inv (w_db w) ->
  respects (calm_at now) (ReserveQuantity ttl vs input) w = true ->
  parseQuantityInput input = Ok (ev, tid) ->
  session_key_free (VisitorSession_ID vs) (TrimSpace (QReq_IdempotencyKey input))
    (reservations (w_db w)) = true ->
  ~ owner_unknown (VisitorSession_ID vs) (VisitorSession_UserID vs) (w_db w) ->
  run (ReserveQuantity ttl vs input) w = (r, w') ->
  (stock_short ev tid (QReq_Quantity input) (w_db w) /\
     r = Err (Sentinel ErrInsufficientStock) /\ w_db w' = w_db w) \/
  (~ stock_short ev tid (QReq_Quantity input) (w_db w) /\ exists rid,
     r = Ok (quantity_receipt rid tid (QReq_Quantity input) (now + ttl)) /\
     quantity_reserved ev (VisitorSession_ID vs) (VisitorSession_UserID vs) tid
       (QReq_Quantity input) (TrimSpace (QReq_IdempotencyKey input))
       (encode_ts (MkTs (now + ttl) true)) rid (w_db w) (w_db w')).
Proof.
  intros Hs Hinv Hresp Hparse Hfree Hown Hrun.
  destruct (ReserveQuantity_run ttl _ vs input w r w' (conj Hs Hinv) Hresp Hrun) as [_ Hout].
  revert Hout. generalize (w_db w'). intros db' Hout.
  destruct Hout as [Hbad|ev' tid' now' res db' Hok Hq Hnow Hout]; [congruence|].
  rewrite Hparse in Hok. injection Hok as <- <-. apply Z.eqb_eq in Hnow as ->.
  destruct Hout as [resp (r & k & i & (Hr & Hk & _) & _)|rid db' _ Hqr _|_ Hshort|_ Hk _|_ Ho|e He|e rid db' He _ _ _].
  - exfalso. by eapply (proj1 (session_key_free_spec _ _ _) Hfree).
  - right. split; [|eauto]. intros Hshort.
    destruct (qr_tables _ _ _ _ _ _ _ _ _ _ Hqr) as (t & _ & _ & _ & Ht & Hev & Hav & _).
    specialize (Hshort t Ht Hev). lia.
  - by left.
  - congruence.
  - done.
  - by destruct (calm_hostile _ _ He).
  - by destruct (calm_faulty _ _ He).
Qed.

Lemma ReserveQuantity_succeeds_iff_witness :
  exists rid, (@run (calm_env demo_time) _ (ReserveQuantity demo_ttl (demo_session 6)
    (demo_quantity_request 3 "k1")) (demo_world demo_db)).1 =
    Ok (quantity_receipt rid (uid 2) 3 (demo_time + demo_ttl)).
Proof.
  destruct (@ReserveQuantity_succeeds_iff _ _ (calm_env demo_time) demo_ttl demo_time
    (demo_session 6) (demo_quantity_request 3 "k1") (uid 1) (uid 2) (demo_world demo_db)
    (@run (calm_env demo_time) _ (ReserveQuantity demo_ttl (demo_session 6)
       (demo_quantity_request 3 "k1")) (demo_world demo_db)).1
    (@run (calm_env demo_time) _ (ReserveQuantity demo_ttl (demo_session 6)
       (demo_quantity_request 3 "k1")) (demo_world demo_db)).2)
    as [(_ & Hr & _)|(_ & rid & Hr & _)].
  - reflexivity.
  - exact demo_db_inv.
  - vm_compute. reflexivity.
  - vm_compute. reflexivity.
  - vm_compute. reflexivity.
  - intros [Hn|[Hv _]]; [vm_compute in Hn; discriminate Hn|vm_compute in Hv; discriminate Hv].
  - apply surjective_pairing.
  - vm_compute in Hr. discriminate Hr.
  - exists rid. exact Hr.
Defined.

(** C8: a seat request under a new key at clock reading [now] ends in one of
    three ways, told apart by the tables before: some seat is not of the event
    (ErrSeatsNotFound), some seat is sold or held within its deadline
    (ErrSeatUnavailable), or all of them are granted after the overdue holds on
    them expired. A refusal changes nothing, not even the overdue holds. *)
Theorem ReserveSeats_succeeds_iff `{PgtypeLaws} `{Env} ttl now vs input ev sids w r w' :
  w_saved w = None -> db_inv (w_db w) ->
  respects (calm_at now) (ReserveSeats ttl vs input) w = true ->
  parseSeatInput input = Ok (ev, sids) ->
  session_key_free (VisitorSession_ID vs) (TrimSpace (SReq_IdempotencyKey input))
    (reservations (w_db w)) = true ->
  ~ owner_unknown (VisitorSession_ID vs) (VisitorSession_UserID vs) (w_db w) ->
  run (ReserveSeats ttl vs input) w = (r, w') ->
  (seats_missing ev sids (w_db w) /\ r = Err (Sentinel ErrSeatsNotFound) /\ w_db w' = w_db w) \/
  ((exists x, x ∈ sids /\ seat_taken now x (w_db w)) /\
     r = Err (Sentinel ErrSeatUnavailable) /\ w_db w' = w_db w) \/
  (~ (exists x, x ∈ sids /\ seat_taken now x (w_db w)) /\ exists rid,
     r = Ok (seats_receipt rid sids (now + ttl)) /\
     seats_granted (calm_at now) vs ev sids (TrimSpace (SReq_IdempotencyKey input)) (now + ttl) now
       rid (w_db w) (w_db w')).
Proof.
  intros Hs Hinv Hresp Hparse Hfree Hown Hrun.
  destruct (ReserveSeats_run ttl _ vs input w r w' (conj Hs Hinv) Hresp Hrun) as [_ Hout].
  revert Hout. generalize (w_db w'). intros db' Hout.
  destruct Hout as [Hbad|ev' sids' now' res db' Hok Hnow Hout]; [congruence|].
  rewrite Hparse in Hok. injection Hok as <- <-. apply Z.eqb_eq in Hnow as ->.
  destruct Hout as [resp (r & (Hr & Hk & _) & _)|now2 rid db' Hgr|_ Hmiss|now2 x _ _ Hn Hx Htk|_ Hk|_ Ho|e He|e now2 rid db' He _].
  - exfalso. by eapply (proj1 (session_key_free_spec _ _ _) Hfree).
  - pose proof Hgr as (Hn & _ & db1 & Hrel & Hres & _). apply Z.eqb_eq in Hn as ->.
    right; right. split; [|eauto]. intros (x & Hx & Htk).
    apply (sr_free _ _ _ _ _ _ _ _ _ Hres x Hx). by eapply holds_released_taken.
  - by left.
  - apply Z.eqb_eq in Hn as ->. right; left. eauto.
  - congruence.
  - done.
  - by destruct (calm_hostile _ _ He).
  - by destruct (calm_faulty _ _ He).
Qed.

(** The seats of the example are held until the deadline and free after it. *)
Definition demo_late : Z := demo_time + demo_ttl.

Lemma ReserveSeats_succeeds_iff_witness :
  exists rid, (@run (calm_env demo_late) _ (ReserveSeats demo_ttl (demo_session 7)
    (demo_seat_request [5; 3]%N "k2")) demo_held).1 =
    Ok (seats_receipt rid [uid 3; uid 5] (demo_late + demo_ttl)).
Proof.
  destruct (@ReserveSeats_succeeds_iff _ _ (calm_env demo_late) demo_ttl demo_late
    (demo_session 7) (demo_seat_request [5; 3]%N "k2") (uid 1) [uid 3; uid 5] demo_held
    (@run (calm_env demo_late) _ (ReserveSeats demo_ttl (demo_session 7)
       (demo_seat_request [5; 3]%N "k2")) demo_held).1
    (@run (calm_env demo_late) _ (ReserveSeats demo_ttl (demo_session 7)
       (demo_seat_request [5; 3]%N "k2")) demo_held).2)
    as [(_ & Hr & _)|[(_ & Hr & _)|(_ & rid & Hr & _)]].
  - apply demo_held_ready.
  - apply demo_held_ready.
  - vm_compute. reflexivity.
  - vm_compute. reflexivity.
  - vm_compute. reflexivity.
  - intros [Hn|[Hv _]]; [vm_compute in Hn; discriminate Hn|vm_compute in Hv; discriminate Hv].
  - apply surjective_pairing.
  - vm_compute in Hr. discriminate Hr.
  - vm_compute in Hr. discriminate Hr.
  - exists rid. exact Hr.
Defined.

(** C9: a retry is answered with the first receipt. When ReserveQuantity
    returned a response, in any environment, a later call of the same session
    with the same key, whatever else its payload says, returns the same
    response and changes nothing, while the tables are unchanged. *)
Theorem ReserveQuantity_idempotent `{PgtypeLaws} (E1 E2 : Env) ttl vs input input2 w resp w1 w2 :
  w_saved w = None -> db_inv (w_db w) ->
  @run E1 _ (ReserveQuantity ttl vs input) w = (Ok resp, w1) ->
  w_db w2 = w_db w1 -> w_saved w2 = None ->
  TrimSpace (QReq_IdempotencyKey input2) = TrimSpace (QReq_IdempotencyKey input) ->
  (exists ids, parseQuantityInput input2 = Ok ids) ->
  @respects E2 (calm (fun _ => true)) _ (ReserveQuantity ttl vs input2) w2 = true ->
  let '(r, w3) := @run E2 _ (ReserveQuantity ttl vs input2) w2 in
  r = Ok resp /\ w_db w3 = w_db w1.
Proof.
  intros Hs Hinv Hrun Hdb Hs2 Hkey [ids Hparse2] Hresp.
  assert (Hrep : db_inv (w_db w1) /\
    quantity_replay (VisitorSession_ID vs) (TrimSpace (QReq_IdempotencyKey input)) (w_db w1) resp).
  { destruct (@ReserveQuantity_run _ E1 ttl adversary vs input w _ w1 (conj Hs Hinv)
      (respects_adversary _ _) Hrun) as [_ Hout].
    remember (Ok resp) as r0 eqn:Er0. revert Er0 Hout. generalize (w_db w1). intros db' Er0 Hout.
    destruct Hout as [|ev tid now res db' _ _ _ Hout]; [done|].
    assert (Hinv' : db_inv db') by (eapply inventory_steps_inv, Hinv; by eapply quantity_outcome_steps).
    subst res. split; [done|]. by eapply quantity_outcome_replay; [apply Hinv|]. }
  destruct Hrep as [Hinv1 Hrep]. rewrite <- Hdb in *. rewrite <- Hkey in Hrep.
  destruct (run (ReserveQuantity ttl vs input2) w2) as [r w3] eqn:Hrun2.
  destruct (@ReserveQuantity_run _ E2 ttl _ vs input2 w2 _ w3 (conj Hs2 Hinv1) Hresp Hrun2) as [_ Hout].
  destruct Hrep as (r0 & k & i & (Hr0 & Hk0 & Hty0) & Hrest).
  revert Hout. generalize (w_db w3). intros db' Hout.
  destruct Hout as [Hbad|ev tid now res db' _ _ _ Hout]; [congruence|].
  destruct Hout as [resp' Hrep'|rid db' Hno|Hno|Hno|Hno|e He|e rid db' He];
    try (by destruct (Hno _ _ Hr0 Hk0)); [|by destruct (calm_hostile _ _ He)|by destruct (calm_faulty _ _ He)].
  split; [|done]. f_equal. eapply quantity_replay_unique; [done|exact Hrep'|].
  exists r0, k, i. done.
Qed.

Definition demo_first : res QuantityReservationResponse * World :=
  @run (calm_env demo_time) _ (ReserveQuantity demo_ttl (demo_session 6)
    (demo_quantity_request 3 "k1")) (demo_world demo_db).

Definition demo_second : res QuantityReservationResponse * World :=
  @run (calm_env demo_late) _ (ReserveQuantity demo_ttl (demo_session 6)
    (demo_quantity_request 9 " k1 ")) demo_first.2.

Lemma ReserveQuantity_idempotent_witness :
  exists resp, demo_first.1 = Ok resp /\ demo_second.1 = Ok resp /\
    w_db demo_second.2 = w_db demo_first.2.
Proof.
  assert (Hfirst : exists resp, demo_first.1 = Ok resp) by (vm_compute; eexists; reflexivity).
  destruct Hfirst as [resp Hfirst]. exists resp. split; [exact Hfirst|].
  pose proof (@ReserveQuantity_idempotent _ _ (calm_env demo_time) (calm_env demo_late) demo_ttl
    (demo_session 6) (demo_quantity_request 3 "k1") (demo_quantity_request 9 " k1 ")
    (demo_world demo_db) resp demo_first.2 demo_first.2 eq_refl demo_db_inv) as Hid.
  assert (Hrun : demo_first = (Ok resp, demo_first.2))
    by (rewrite <- Hfirst; apply surjective_pairing).
  assert (Hsaved : w_saved demo_first.2 = None) by (vm_compute; reflexivity).
  assert (Hparse : parseQuantityInput (demo_quantity_request 9 " k1 ") = Ok (uid 1, uid 2))
    by (vm_compute; reflexivity).
  assert (Hresp : @respects (calm_env demo_late) (calm (fun _ => true)) _
    (ReserveQuantity demo_ttl (demo_session 6) (demo_quantity_request 9 " k1 ")) demo_first.2 = true)
    by (vm_compute; reflexivity).
  specialize (Hid Hrun eq_refl Hsaved eq_refl (ex_intro _ _ Hparse) Hresp).
  fold demo_second in Hid. destruct demo_second as [r w3]. exact Hid.
Defined.

(** C10: likewise for seats: the retry gets the same receipt, seats in the same
    order, and changes nothing, overdue holds included. *)
Theorem ReserveSeats_idempotent `{PgtypeLaws} (E1 E2 : Env) ttl vs input input2 w resp w1 w2 :
  w_saved w = None -> db_inv (w_db w) ->
  @run E1 _ (ReserveSeats ttl vs input) w = (Ok resp, w1) ->
  w_db w2 = w_db w1 -> w_saved w2 = None ->
  TrimSpace (SReq_IdempotencyKey input2) = TrimSpace (SReq_IdempotencyKey input) ->
  (exists ids, parseSeatInput input2 = Ok ids) ->
  @respects E2 (calm (fun _ => true)) _ (ReserveSeats ttl vs input2) w2 = true ->
  let '(r, w3) := @run E2 _ (ReserveSeats ttl vs input2) w2 in
  r = Ok resp /\ w_db w3 = w_db w1.
Proof.
  intros Hs Hinv Hrun Hdb Hs2 Hkey [ids Hparse2] Hresp.
  assert (Hrep : db_inv (w_db w1) /\
    seats_replay (VisitorSession_ID vs) (TrimSpace (SReq_IdempotencyKey input)) (w_db w1) resp).
  { destruct (@ReserveSeats_run _ _ E1 ttl adversary vs input w _ w1 (conj Hs Hinv)
      (respects_adversary _ _) Hrun) as [_ Hout].
    remember (Ok resp) as r0 eqn:Er0. revert Er0 Hout. generalize (w_db w1). intros db' Er0 Hout.
    destruct Hout as [|ev sids now res db' Hparse _ Hout]; [done|].
    assert (Hinv' : db_inv db') by (eapply inventory_steps_inv, Hinv; by eapply seats_outcome_steps).
    subst res. split; [done|]. by eapply seats_outcome_replay. }
  destruct Hrep as [Hinv1 Hrep]. rewrite <- Hdb in *. rewrite <- Hkey in Hrep.
  destruct (run (ReserveSeats ttl vs input2) w2) as [r w3] eqn:Hrun2.
  destruct (@ReserveSeats_run _ _ E2 ttl _ vs input2 w2 _ w3 (conj Hs2 Hinv1) Hresp Hrun2) as [_ Hout].
  pose proof Hrep as (r0 & (Hr0 & Hk0 & Hty0) & _).
  revert Hout. generalize (w_db w3). intros db' Hout.
  destruct Hout as [Hbad|ev sids now res db' _ _ Hout]; [congruence|].
  destruct Hout as [resp' Hrep'|now2 rid db' (_ & Hno & _)|Hno|now2 x Hno|Hno|Hno|e He|e now2 rid db' He];
    try (by destruct (Hno _ _ Hr0 Hk0)); [|by destruct (calm_hostile _ _ He)|by destruct (calm_faulty _ _ He)].
  split; [|done]. f_equal. by eapply seats_replay_unique; [apply Hinv1|..].
Qed.

Definition demo_seats_first : res SeatReservationResponse * World :=
  @run (calm_env demo_time) _ (ReserveSeats demo_ttl (demo_session 6)
    (demo_seat_request [4; 3]%N "k2")) (demo_world demo_db).

Definition demo_seats_second : res SeatReservationResponse * World :=
  @run (calm_env demo_late) _ (ReserveSeats demo_ttl (demo_session 6)
    (demo_seat_request [5]%N "k2")) demo_seats_first.2.

Lemma ReserveSeats_idempotent_witness :
  exists resp, demo_seats_first.1 = Ok resp /\ demo_seats_second.1 = Ok resp /\
    w_db demo_seats_second.2 = w_db demo_seats_first.2.
Proof.
  assert (Hfirst : exists resp, demo_seats_first.1 = Ok resp) by (vm_compute; eexists; reflexivity).
  destruct Hfirst as [resp Hfirst]. exists resp. split; [exact Hfirst|].
  pose proof (@ReserveSeats_idempotent _ _ (calm_env demo_time) (calm_env demo_late) demo_ttl
    (demo_session 6) (demo_seat_request [4; 3]%N "k2") (demo_seat_request [5]%N "k2")
    (demo_world demo_db) resp demo_seats_first.2 demo_seats_first.2 eq_refl demo_db_inv) as Hid.
  assert (Hrun : demo_seats_first = (Ok resp, demo_seats_first.2))
    by (rewrite <- Hfirst; apply surjective_pairing).
  assert (Hsaved : w_saved demo_seats_first.2 = None) by (vm_compute; reflexivity).
  assert (Hparse : parseSeatInput (demo_seat_request [5]%N "k2") = Ok (uid 1, [uid 5]))
    by (vm_compute; reflexivity).
  assert (Hresp : @respects (calm_env demo_late) (calm (fun _ => true)) _
    (ReserveSeats demo_ttl (demo_session 6) (demo_seat_request [5]%N "k2"))
    demo_seats_first.2 = true) by (vm_compute; reflexivity).
  specialize (Hid Hrun eq_refl Hsaved eq_refl (ex_intro _ _ Hparse) Hresp).
  fold demo_seats_second in Hid. destruct demo_seats_second as [r w3]. exact Hid.
Defined.

(** C11: an error that hides a commit is repaired by a retry. When
    ReserveQuantity returned an error and yet the tables changed, exactly one
    reservation was made, and a calm retry with the same key returns its
    receipt and changes nothing. *)
Theorem lost_commit_is_replayed `{PgtypeLaws} (E1 E2 : Env) ttl vs input w e w1 w2 :
  w_saved w = None -> db_inv (w_db w) ->
  @run E1 _ (ReserveQuantity ttl vs input) w = (Err e, w1) -> w_db w1 <> w_db w ->
  w_db w2 = w_db w1 -> w_saved w2 = None ->
  @respects E2 (calm (fun _ => true)) _ (ReserveQuantity ttl vs input) w2 = true ->
  exists ev tid rid expiresAt,
    parseQuantityInput input = Ok (ev, tid) /\
    quantity_reserved ev (VisitorSession_ID vs) (VisitorSession_UserID vs) tid
      (QReq_Quantity input) (TrimSpace (QReq_IdempotencyKey input))
      (encode_ts (MkTs expiresAt true)) rid (w_db w) (w_db w1) /\
    let '(r, w3) := @run E2 _ (ReserveQuantity ttl vs input) w2 in
    r = Ok (quantity_receipt rid tid (QReq_Quantity input) expiresAt) /\ w_db w3 = w_db w1.
Proof.
  intros Hs Hinv Hrun Hch Hdb Hs2 Hresp.
  destruct (@ReserveQuantity_run _ E1 ttl adversary vs input w _ w1 (conj Hs Hinv)
    (respects_adversary _ _) Hrun) as [_ Hout].
  remember (Err e) as r0 eqn:Er0. revert Er0 Hch Hdb Hout. generalize (w_db w1).
  intros db1 Er0 Hch Hdb Hout.
  destruct Hout as [|ev tid now res db1 Hparse _ _ Hout]; [done|].
  destruct Hout as [| | | | |e' He|e' rid db1 He Hno Hqr Hs']; try done.
  exists ev, tid, rid, (now + ttl). split; [done|]. split; [done|].
  assert (Hinv1 : db_inv db1).
  { eapply inventory_steps_inv, Hinv. by eapply rtc_once, step_reserve_quantity. }
  pose proof (quantity_reserved_replay _ _ _ _ _ _ _ _ _ _ (inv_schema _ Hinv) Hs' Hqr) as Hrep.
  rewrite <- Hdb in *. destruct (run (ReserveQuantity ttl vs input) w2) as [r w3] eqn:Hrun2.
  destruct (@ReserveQuantity_run _ E2 ttl _ vs input w2 _ w3 (conj Hs2 Hinv1) Hresp Hrun2) as [_ Hout].
  pose proof Hrep as (r1 & k & i & (Hr1 & Hk1 & Hty1) & _).
  revert Hout. generalize (w_db w3). intros db' Hout.
  destruct Hout as [Hbad|ev2 tid2 now2 res2 db' _ _ _ Hout]; [congruence|].
  destruct Hout as [resp' Hrep'|rid2 db' Hno2|Hno2|Hno2|Hno2|e2 He2|e2 rid2 db' He2];
    try (by destruct (Hno2 _ _ Hr1 Hk1));
    [|by destruct (calm_hostile _ _ He2)|by destruct (calm_faulty _ _ He2)].
  split; [|done]. f_equal. by eapply quantity_replay_unique.
Qed.

(** The environment in which the acknowledgement of every commit is lost. *)
Definition lossy_env (now : Z) : Env := {|
  wall_clock _ := now;
  db_clock _ := now;
  gen_random_uuid n := uid_bytes (1000 + N.of_nat n);
  other_locks _ := [];
  fault _ := None;
  commit_outcome _ := AckLost (FaultDriver "connection reset");
  rand_read _ n := inr (replicate n "042"%byte) |}.

Definition demo_lost : res QuantityReservationResponse * World :=
  @run (lossy_env demo_time) _ (ReserveQuantity demo_ttl (demo_session 6)
    (demo_quantity_request 3 "k1")) (demo_world demo_db).

Definition demo_retry : res QuantityReservationResponse * World :=
  @run (calm_env demo_late) _ (ReserveQuantity demo_ttl (demo_session 6)
    (demo_quantity_request 3 "k1")) demo_lost.2.

Lemma lost_commit_is_replayed_witness :
  demo_lost.1 = Err (Wrapped "commit transaction" (DriverErr "connection reset")) /\
  exists rid expiresAt, demo_retry.1 = Ok (quantity_receipt rid (uid 2) 3 expiresAt) /\
    w_db demo_retry.2 = w_db demo_lost.2.
Proof.
  assert (Hlost : demo_lost.1 = Err (Wrapped "commit transaction" (DriverErr "connection reset")))
    by (vm_compute; reflexivity).
  split; [exact Hlost|].
  assert (Hrun : demo_lost = (Err (Wrapped "commit transaction" (DriverErr "connection reset")),
    demo_lost.2)) by (rewrite <- Hlost; apply surjective_pairing).
  assert (Hch : w_db demo_lost.2 <> demo_db).
  { intros Heq. apply (f_equal (fun db => size (reservations db))) in Heq.
    vm_compute in Heq. discriminate Heq. }
  assert (Hsaved : w_saved demo_lost.2 = None) by (vm_compute; reflexivity).
  assert (Hresp : @respects (calm_env demo_late) (calm (fun _ => true)) _ (ReserveQuantity demo_ttl
    (demo_session 6) (demo_quantity_request 3 "k1")) demo_lost.2 = true) by (vm_compute; reflexivity).
  destruct (@lost_commit_is_replayed _ _ (lossy_env demo_time) (calm_env demo_late) demo_ttl
    (demo_session 6) (demo_quantity_request 3 "k1") (demo_world demo_db) _ demo_lost.2 demo_lost.2
    eq_refl demo_db_inv Hrun Hch eq_refl Hsaved Hresp) as (ev & tid & rid & expiresAt & Hparse & _ & Hsecond).
  assert (Hp : parseQuantityInput (demo_quantity_request 3 "k1") = Ok (uid 1, uid 2))
    by (vm_compute; reflexivity).
  rewrite Hp in Hparse. injection Hparse as <- <-.
  exists rid, expiresAt. fold demo_retry in Hsecond. destruct demo_retry as [r w3]. exact Hsecond.
Defined.

(** ** Settling reservations *)

(** C12: in every environment ConfirmReservation answers and does one of the
    four things [settled] lists; with an error it did nothing, or settled and
    lost the answer; it never panics and leaves no transaction open. *)
Theorem ConfirmReservation_settles `{Env} vs rid w r w' :
  w_saved w = None -> db_inv (w_db w) ->
  run (ConfirmReservation vs rid) w = (r, w') ->
  w_saved w' = None /\
  match r with
  | Ok out => settled (fun _ => true) StatusConfirmed ErrReservationCannotConfirm vs rid
                (w_db w) out (w_db w')
  | Err e => w_db w' = w_db w \/ exists out,
      settled (fun _ => true) StatusConfirmed ErrReservationCannotConfirm vs rid
        (w_db w) out (w_db w')
  | Panicked => False
  end.
Proof.
  intros Hs Hinv Hrun.
  destruct (ConfirmReservation_run adversary vs rid w r w' (conj Hs Hinv)
    (respects_adversary _ _) Hrun) as [Hs' Hr].
  split; [by apply st_of_saved|]. destruct r as [out|e|]; [exact Hr| |exact Hr].
  by destruct Hr as [[_ Hdb]|(_ & _ & Hdb)]; [|left].
Qed.

Definition demo_confirm : res (ReservationResponse * option error) * World :=
  @run (calm_env demo_time) _ (ConfirmReservation (demo_session 6) demo_rq) demo_held.

Lemma ConfirmReservation_settles_witness :
  exists out, demo_confirm.1 = Ok out /\
    settled (fun _ => true) StatusConfirmed ErrReservationCannotConfirm (demo_session 6) demo_rq
      (w_db demo_held) out (w_db demo_confirm.2).
Proof.
  assert (Hok : exists out, demo_confirm.1 = Ok out) by (vm_compute; eexists; reflexivity).
  destruct Hok as [out Hok]. exists out. split; [exact Hok|].
  destruct (@ConfirmReservation_settles (calm_env demo_time) (demo_session 6) demo_rq demo_held
    (Ok out) demo_confirm.2) as [_ Hset].
  - apply demo_held_ready.
  - apply demo_held_ready.
  - rewrite <- Hok. apply surjective_pairing.
  - exact Hset.
Defined.

(** The same of CancelReservation. *)
Theorem CancelReservation_settles `{Env} vs rid w r w' :
  w_saved w = None -> db_inv (w_db w) ->
  run (CancelReservation vs rid) w = (r, w') ->
  w_saved w' = None /\
  match r with
  | Ok out => settled (fun _ => true) StatusCancelled ErrReservationCannotCancel vs rid
                (w_db w) out (w_db w')
  | Err e => w_db w' = w_db w \/ exists out,
      settled (fun _ => true) StatusCancelled ErrReservationCannotCancel vs rid
        (w_db w) out (w_db w')
  | Panicked => False
  end.
Proof.
  intros Hs Hinv Hrun.
  destruct (CancelReservation_run adversary vs rid w r w' (conj Hs Hinv)
    (respects_adversary _ _) Hrun) as [Hs' Hr].
  split; [by apply st_of_saved|]. destruct r as [out|e|]; [exact Hr| |exact Hr].
  by destruct Hr as [[_ Hdb]|(_ & _ & Hdb)]; [|left].
Qed.

Definition demo_cancel : res (ReservationResponse * option error) * World :=
  @run (calm_env demo_time) _ (CancelReservation (demo_session 6) demo_rs) demo_held.

Lemma CancelReservation_settles_witness :
  exists out, demo_cancel.1 = Ok out /\
    settled (fun _ => true) StatusCancelled ErrReservationCannotCancel (demo_session 6) demo_rs
      (w_db demo_held) out (w_db demo_cancel.2).
Proof.
  assert (Hok : exists out, demo_cancel.1 = Ok out) by (vm_compute; eexists; reflexivity).
  destruct Hok as [out Hok]. exists out. split; [exact Hok|].
  destruct (@CancelReservation_settles (calm_env demo_time) (demo_session 6) demo_rs demo_held
    (Ok out) demo_cancel.2) as [_ Hset].
  - apply demo_held_ready.
  - apply demo_held_ready.
  - rewrite <- Hok. apply surjective_pairing.
  - exact Hset.
Defined.

(** Confirming a reservation in time sells exactly what it holds: every
    ticket type loses the held units from its reserved counter and gains them
    on its sold counter, the seats are confirmed, and the answer says
    confirmed. *)
Theorem confirm_in_time `{Env} vs rid w now rsv r w' :
  w_saved w = None -> db_inv (w_db w) ->
  respects (calm_at now) (ConfirmReservation vs rid) w = true ->
  reservations (w_db w) !! rid = Some rsv -> canAccessReservation rsv vs = true ->
  Reservation_Status rsv = StatusReserved -> reservationExpired rsv now = false ->
  run (ConfirmReservation vs rid) w = (r, w') ->
  (exists resp, r = Ok (resp, None) /\ RResp_Status resp = StatusConfirmed /\
     RResp_ReservationID resp = UUIDToString rid) /\
  (forall k t, ticket_types (w_db w) !! k = Some t -> exists t',
     ticket_types (w_db w') !! k = Some t' /\
     TicketType_ReservedQuantity t' = TicketType_ReservedQuantity t - held rid k (w_db w) /\
     TicketType_SoldQuantity t' = TicketType_SoldQuantity t + held rid k (w_db w)) /\
  (forall k s, reservation_seats (w_db w') !! k = Some s -> ReservationSeat_ReservationID s = rid ->
     ReservationSeat_Status s = StatusConfirmed).
Proof.
  intros Hs Hinv Hresp Hr Hacc Hst Hexp Hrun.
  pose proof (ConfirmReservation_run (calm_at now) vs rid w r w' (conj Hs Hinv) Hresp Hrun) as Hpost.
  apply settle_calm in Hpost as [_ [(out & -> & Hset)|(_ & Hinvis & _)]];
    [|by rewrite (Hinvis rsv Hr) in Hacc].
  destruct (settled_visible _ _ _ _ _ _ _ _ _ Hset Hr)
    as [(Ht & _)|[(_ & Hf & _)|(_ & now' & ts & Hn & Hout)]].
  - by rewrite Hst in Ht.
  - by destruct (final_not_reserved _ Hf).
  - apply Z.eqb_eq in Hn as ->. rewrite Hexp in Hout. destruct Hout as [Htr ->].
    destruct (reservations_keyed _ (inv_schema _ Hinv) _ _ Hr) as [HID _]. split_and!.
    + eexists. split; [done|]. simpl. by rewrite HID.
    + intros k t Ht. destruct (transitioned_ticket _ _ _ _ _ _ Htr Ht) as (t' & ? & _ & ? & Hsold).
      rewrite bool_decide_eq_true_2 in Hsold by done. eauto.
    + intros k s Hk. by apply (transitioned_rows _ _ _ _ _ _ Htr Hk).
Qed.

Lemma confirm_in_time_witness :
  exists t t', ticket_types (w_db demo_held) !! uid 2 = Some t /\
    ticket_types (w_db demo_confirm.2) !! uid 2 = Some t' /\
    TicketType_ReservedQuantity t' = TicketType_ReservedQuantity t - held demo_rq (uid 2) (w_db demo_held) /\
    TicketType_SoldQuantity t' = TicketType_SoldQuantity t + held demo_rq (uid 2) (w_db demo_held).
Proof.
  assert (Hr : exists rsv, reservations (w_db demo_held) !! demo_rq = Some rsv /\
    canAccessReservation rsv (demo_session 6) = true /\
    Reservation_Status rsv = StatusReserved /\ reservationExpired rsv demo_time = false)
    by (eexists; split; [vm_compute; reflexivity|vm_compute; repeat split]).
  destruct Hr as (rsv & Hr & Hacc & Hst & Hexp).
  assert (Ht : exists t, ticket_types (w_db demo_held) !! uid 2 = Some t)
    by (vm_compute; eexists; reflexivity).
  destruct Ht as [t Ht]. exists t.
  assert (Hresp : @respects (calm_env demo_time) (calm_at demo_time) _
    (ConfirmReservation (demo_session 6) demo_rq) demo_held = true) by (vm_compute; reflexivity).
  destruct (@confirm_in_time (calm_env demo_time) (demo_session 6) demo_rq demo_held demo_time rsv
    demo_confirm.1 demo_confirm.2 (proj1 demo_held_ready) (proj2 demo_held_ready) Hresp Hr Hacc Hst
    Hexp (surjective_pairing _)) as (_ & Hmoved & _).
  destruct (Hmoved (uid 2) t Ht) as (t' & Ht' & Hres & Hsold). exists t'. auto.
Defined.

(** Cancelling in time gives exactly what it held back: the reserved
    counters drop by the held units, nothing is sold, and no seat row of the
    reservation stands in the way of another. *)
Theorem cancel_in_time `{Env} vs rid w now rsv r w' :
  w_saved w = None -> db_inv (w_db w) ->
  respects (calm_at now) (CancelReservation vs rid) w = true ->
  reservations (w_db w) !! rid = Some rsv -> canAccessReservation rsv vs = true ->
  Reservation_Status rsv = StatusReserved -> reservationExpired rsv now = false ->
  run (CancelReservation vs rid) w = (r, w') ->
  (exists resp, r = Ok (resp, None) /\ RResp_Status resp = StatusCancelled /\
     RResp_ReservationID resp = UUIDToString rid) /\
  (forall k t, ticket_types (w_db w) !! k = Some t -> exists t',
     ticket_types (w_db w') !! k = Some t' /\ available t' = available t + held rid k (w_db w) /\
     TicketType_SoldQuantity t' = TicketType_SoldQuantity t) /\
  (forall k s, reservation_seats (w_db w') !! k = Some s -> ReservationSeat_ReservationID s = rid ->
     active_seat s = false).
Proof.
  intros Hs Hinv Hresp Hr Hacc Hst Hexp Hrun.
  pose proof (CancelReservation_run (calm_at now) vs rid w r w' (conj Hs Hinv) Hresp Hrun) as Hpost.
  apply settle_calm in Hpost as [_ [(out & -> & Hset)|(_ & Hinvis & _)]];
    [|by rewrite (Hinvis rsv Hr) in Hacc].
  destruct (settled_visible _ _ _ _ _ _ _ _ _ Hset Hr)
    as [(Ht & _)|[(_ & Hf & _)|(_ & now' & ts & Hn & Hout)]].
  - by rewrite Hst in Ht.
  - by destruct (final_not_reserved _ Hf).
  - apply Z.eqb_eq in Hn as ->. rewrite Hexp in Hout. destruct Hout as [Htr ->].
    destruct (reservations_keyed _ (inv_schema _ Hinv) _ _ Hr) as [HID _]. split_and!.
    + eexists. split; [done|]. simpl. by rewrite HID.
    + intros k t Ht. destruct (transitioned_ticket _ _ _ _ _ _ Htr Ht) as (t' & ? & Htot & Hres & Hsold).
      rewrite bool_decide_eq_false_2 in Hsold by done. exists t'. split; [done|].
      unfold available. lia.
    + intros k s Hk Hid. pose proof (transitioned_rows _ _ _ _ _ _ Htr Hk Hid) as Hss.
      unfold active_seat. by rewrite Hss.
Qed.

Lemma cancel_in_time_witness :
  exists resp, demo_cancel.1 = Ok (resp, None) /\ RResp_Status resp = StatusCancelled /\
    forall k s, reservation_seats (w_db demo_cancel.2) !! k = Some s ->
      ReservationSeat_ReservationID s = demo_rs -> active_seat s = false.
Proof.
  assert (Hr : exists rsv, reservations (w_db demo_held) !! demo_rs = Some rsv /\
    canAccessReservation rsv (demo_session 6) = true /\
    Reservation_Status rsv = StatusReserved /\ reservationExpired rsv demo_time = false)
    by (eexists; split; [vm_compute; reflexivity|vm_compute; repeat split]).
  destruct Hr as (rsv & Hr & Hacc & Hst & Hexp).
  assert (Hresp : @respects (calm_env demo_time) (calm_at demo_time) _
    (CancelReservation (demo_session 6) demo_rs) demo_held = true) by (vm_compute; reflexivity).
  destruct (@cancel_in_time (calm_env demo_time) (demo_session 6) demo_rs demo_held demo_time rsv
    demo_cancel.1 demo_cancel.2 (proj1 demo_held_ready) (proj2 demo_held_ready) Hresp Hr Hacc Hst
    Hexp (surjective_pairing _)) as ((resp & Hok & Hstatus & _) & _ & Hfree).
  exists resp. split; [exact Hok|]. split; [exact Hstatus|exact Hfree].
Defined.

(** C13: a reservation is never confirmed nor cancelled past its deadline. In a
    calm environment at a reading that is not before the deadline, both
    operations expire it instead, tell the caller that they cannot, and make
    the units available again. *)
Theorem overdue_is_expired `{Env} vs rid w now rsv r w' (confirm : bool) :
  w_saved w = None -> db_inv (w_db w) ->
  let op := if confirm then ConfirmReservation vs rid else CancelReservation vs rid in
  let cannot := if confirm then ErrReservationCannotConfirm else ErrReservationCannotCancel in
  respects (calm_at now) op w = true ->
  reservations (w_db w) !! rid = Some rsv -> canAccessReservation rsv vs = true ->
  Reservation_Status rsv = StatusReserved -> Time (Reservation_ExpiresAt rsv) <= now ->
  run op w = (r, w') ->
  (exists resp, r = Ok (resp, Some (Sentinel cannot)) /\ RResp_Status resp = StatusExpired) /\
  (exists rsv', reservations (w_db w') !! rid = Some rsv' /\
     Reservation_Status rsv' = StatusExpired) /\
  (forall k t, ticket_types (w_db w) !! k = Some t -> exists t',
     ticket_types (w_db w') !! k = Some t' /\ available t' = available t + held rid k (w_db w)).
Proof.
  intros Hs Hinv op cannot Hresp Hr Hacc Hst Hlate Hrun.
  assert (Hexp : reservationExpired rsv now = true).
  { unfold reservationExpired. destruct (headers_ok _ (inv_lifecycle _ Hinv) _ _ Hr) as (-> & _).
    simpl. apply negb_true_iff. by apply Z.ltb_ge. }
  assert (Hset : exists target out, r = Ok out /\ target <> StatusReserved /\
    final_status target /\ settled (fun t => t =? now) target cannot vs rid (w_db w) out (w_db w')).
  { destruct confirm; subst op cannot;
      [pose proof (ConfirmReservation_run (calm_at now) vs rid w r w' (conj Hs Hinv) Hresp Hrun) as Hpost
      |pose proof (CancelReservation_run (calm_at now) vs rid w r w' (conj Hs Hinv) Hresp Hrun) as Hpost];
      (apply settle_calm in Hpost as [_ [(out & -> & Hset)|(_ & Hinvis & _)]];
        [eexists _, out; split_and!; [done| | |exact Hset]; [done|unfold final_status; by auto]
        |by rewrite (Hinvis rsv Hr) in Hacc]). }
  destruct Hset as (target & out & -> & Hnt & Hf & Hset).
  destruct (settled_visible _ _ _ _ _ _ _ _ _ Hset Hr)
    as [(Ht & _)|[(_ & Hf' & _)|(_ & now' & ts & Hn & Hout)]].
  - by rewrite Hst in Ht.
  - by destruct (final_not_reserved _ Hf').
  - apply Z.eqb_eq in Hn as ->. rewrite Hexp in Hout. destruct Hout as [Htr ->]. split_and!.
    + eexists. split; [done|]. done.
    + destruct (transitioned_header _ _ _ _ Htr) as (r0 & ts' & _ & _ & Hk). rewrite Hk.
      rewrite bool_decide_eq_true_2 by done. by eexists.
    + intros k t Ht. destruct (transitioned_ticket _ _ _ _ _ _ Htr Ht) as (t' & ? & Htot & Hres & Hsold).
      rewrite bool_decide_eq_false_2 in Hsold by done. exists t'. split; [done|].
      unfold available. lia.
Qed.

Definition demo_overdue : res (ReservationResponse * option error) * World :=
  @run (calm_env demo_late) _ (ConfirmReservation (demo_session 6) demo_rq) demo_held.

Lemma overdue_is_expired_witness :
  exists resp, demo_overdue.1 = Ok (resp, Some (Sentinel ErrReservationCannotConfirm)) /\
    RResp_Status resp = StatusExpired.
Proof.
  assert (Hr : exists rsv, reservations (w_db demo_held) !! demo_rq = Some rsv /\
    canAccessReservation rsv (demo_session 6) = true /\
    Reservation_Status rsv = StatusReserved /\ (Time (Reservation_ExpiresAt rsv) <=? demo_late) = true)
    by (eexists; split; [vm_compute; reflexivity|vm_compute; repeat split]).
  destruct Hr as (rsv & Hr & Hacc & Hst & Hlate).
  assert (Hresp : @respects (calm_env demo_late) (calm_at demo_late) _
    (ConfirmReservation (demo_session 6) demo_rq) demo_held = true) by (vm_compute; reflexivity).
  pose proof (@overdue_is_expired (calm_env demo_late) (demo_session 6) demo_rq demo_held demo_late rsv
    demo_overdue.1 demo_overdue.2 true) as Hthm. cbv beta iota zeta in Hthm.
  destruct (Hthm (proj1 demo_held_ready) (proj2 demo_held_ready) Hresp Hr Hacc
    Hst (proj1 (Z.leb_le _ _) Hlate) (surjective_pairing _)) as (Hok & _ & _).
  exact Hok.
Defined.

(** C14: settling is idempotent and final for the other operation. Once a
    confirmation (or a cancellation) succeeded, repeating it in a calm
    environment answers the same response without an error, and the opposite
    operation is refused with the response unchanged; neither changes the
    tables. *)
Theorem settling_is_idempotent (E1 E2 : Env) vs rid w resp w1 w2 (confirm again : bool) :
  w_saved w = None -> db_inv (w_db w) ->
  let op (b : bool) := if b then ConfirmReservation vs rid else CancelReservation vs rid in
  @run E1 _ (op confirm) w = (Ok (resp, None), w1) ->
  w_db w2 = w_db w1 -> w_saved w2 = None ->
  @respects E2 (calm (fun _ => true)) _ (op again) w2 = true ->
  let '(r, w3) := @run E2 _ (op again) w2 in
  r = Ok (resp, if Bool.eqb again confirm then None
                else Some (Sentinel (if again then ErrReservationCannotConfirm
                                     else ErrReservationCannotCancel))) /\
  w_db w3 = w_db w1.
Proof.
  intros Hs Hinv op Hrun Hdb Hs2 Hresp.
  set (target (b : bool) := if b then StatusConfirmed else StatusCancelled).
  set (cannot (b : bool) := if b then ErrReservationCannotConfirm else ErrReservationCannotCancel).
  assert (Hfinal : forall b, final_status (target b)) by (intros []; unfold final_status; simpl; auto).
  assert (Hset : settled (fun _ => true) (target confirm) (cannot confirm) vs rid (w_db w)
    (resp, None) (w_db w1)).
  { destruct confirm;
      [by eapply (ConfirmReservation_run (H1:=E1) adversary vs rid w _ w1 (conj Hs Hinv)
         (respects_adversary _ _) Hrun)
      |by eapply (CancelReservation_run (H1:=E1) adversary vs rid w _ w1 (conj Hs Hinv)
         (respects_adversary _ _) Hrun)]. }
  assert (Hinv1 : db_inv (w_db w1)).
  { eapply inventory_steps_inv, Hinv. by eapply (settled_steps adversary), Hset. }
  assert (Hafter : exists r1, reservations (w_db w1) !! rid = Some r1 /\
    canAccessReservation r1 vs = true /\ Reservation_Status r1 = target confirm /\
    resp = response_of (w_db w1) r1).
  { remember (resp, @None error) as out eqn:Eo. revert Eo. generalize (w_db w1), Hset.
    clear Hset Hrun Hdb Hinv1. intros db1 Hset Eo. destruct Hset as
      [r1 Hr1 Hacc Hst| |r1 now db1 ts Hr1 Hacc Hst _ _ Htr _|]; simplify_eq; [by eauto|].
    destruct (transitioned_header _ _ _ _ Htr) as (r0 & ts' & Hr0 & _ & Hk). simplify_eq.
    exists (with_reservation_status (target confirm) ts' r1). rewrite Hk.
    rewrite bool_decide_eq_true_2 by done. split_and!; done. }
  destruct Hafter as (r1 & Hr1 & Hacc1 & Hst1 & ->). rewrite <- Hdb in *.
  destruct (run (op again) w2) as [r w3] eqn:Hrun2.
  assert (Hpost : settleOp_post (calm (fun _ => true)) (target again) (cannot again) vs rid
    (w_db w2) r (st_of w3)).
  { destruct again; [by apply (ConfirmReservation_run (H1:=E2)); [split|..]
                    |by apply (CancelReservation_run (H1:=E2)); [split|..]]. }
  apply settle_calm in Hpost as [_ [(out & -> & Hset2)|(_ & Hinvis & _)]];
    [|by rewrite (Hinvis r1 Hr1) in Hacc1].
  destruct (settled_visible _ _ _ _ _ _ _ _ _ Hset2 Hr1)
    as [(Ht & -> & ->)|[(Hne & _ & -> & ->)|(Hres & _)]].
  - split; [|done]. rewrite Hst1 in Ht. by destruct again, confirm.
  - split; [|done]. rewrite Hst1 in Hne. by destruct again, confirm.
  - rewrite Hst1 in Hres. by destruct confirm.
Qed.

Definition demo_confirm_again : res (ReservationResponse * option error) * World :=
  @run (calm_env demo_late) _ (ConfirmReservation (demo_session 6) demo_rq) demo_confirm.2.

Lemma settling_is_idempotent_witness :
  exists resp, demo_confirm.1 = Ok (resp, None) /\ demo_confirm_again.1 = Ok (resp, None) /\
    w_db demo_confirm_again.2 = w_db demo_confirm.2.
Proof.
  assert (Hfirst : exists resp, demo_confirm.1 = Ok (resp, None)) by (vm_compute; eexists; reflexivity).
  destruct Hfirst as [resp Hfirst]. exists resp. split; [exact Hfirst|].
  assert (Hrun : demo_confirm = (Ok (resp, None), demo_confirm.2))
    by (rewrite <- Hfirst; apply surjective_pairing).
  assert (Hsaved : w_saved demo_confirm.2 = None) by (vm_compute; reflexivity).
  assert (Hresp : @respects (calm_env demo_late) (calm (fun _ => true)) _
    (ConfirmReservation (demo_session 6) demo_rq) demo_confirm.2 = true) by (vm_compute; reflexivity).
  pose proof (settling_is_idempotent (calm_env demo_time) (calm_env demo_late) (demo_session 6)
    demo_rq demo_held resp demo_confirm.2 demo_confirm.2 true true) as Hthm.
  cbv beta iota zeta delta [Bool.eqb] in Hthm.
  specialize (Hthm (proj1 demo_held_ready) (proj2 demo_held_ready) Hrun eq_refl Hsaved Hresp).
  fold demo_confirm_again in Hthm. destruct demo_confirm_again as [r w3]. exact Hthm.
Defined.

(** ** Access *)

(** The reservation is neither of the session nor of its account. *)
Definition foreign (vs : VisitorSession) (r : Reservation) : Prop :=
  Reservation_VisitorSessionID r <> VisitorSession_ID vs /\
  (Valid (Reservation_UserID r) = false \/ Reservation_UserID r <> VisitorSession_UserID vs).

Lemma sameUUID_eq a b : sameUUID a b = true -> Valid a = true /\ a = b.
Proof.
  unfold sameUUID. intros Hs. to_prop. split; [done|]. destruct a, b; simpl in *. congruence.
Qed.

Lemma foreign_no_access vs r : foreign vs r -> canAccessReservation r vs = false.
Proof.
  intros [Hid Huser]. unfold canAccessReservation.
  destruct (sameUUID _ (VisitorSession_ID vs)) eqn:E; [by apply sameUUID_eq in E as [_ ?]|].
  apply not_true_iff_false. intros [_ [Hv Heq]%sameUUID_eq]%andb_true_iff.
  destruct Huser; congruence.
Qed.

(** C15: nobody else's reservation can be seen or acted on. A session that is
    neither the one that made a reservation nor logged in to its account cannot
    read, cancel or confirm it, and cannot tell it from one that does not
    exist: nothing changes and the call fails in every environment; in a calm
    one the error is ErrReservationNotFound. *)
Theorem invisible_is_not_found `{PgtypeLaws} `{Env} ttl vs rid w req :
  w_saved w = None -> db_inv (w_db w) ->
  (forall r, reservations (w_db w) !! rid = Some r -> foreign vs r) ->
  req ∈ [ReqGet vs rid; ReqCancel vs rid; ReqConfirm vs rid] ->
  let '(r, w') := run (handle ttl req) w in
  w_db w' = w_db w /\ (exists e, r = Err e) /\
  (respects (calm (fun _ => true)) (handle ttl req) w = true ->
     r = Err (Sentinel ErrReservationNotFound)).
Proof.
  intros Hs Hinv Hforeign Hreq. assert (Hw : ready w) by done.
  assert (Hinvis : forall r, reservations (w_db w) !! rid = Some r -> canAccessReservation r vs = false)
    by (intros r Hr; by apply foreign_no_access, Hforeign).
  assert (Hwp : forall a, wp a (handle ttl req) (fun r σ => σ.1 = w_db w /\
    exists e, r = Err e /\ (faulty a e \/ e = Sentinel ErrReservationNotFound)) (w_db w, None)).
  { intros a. rewrite !elem_of_cons, elem_of_nil in Hreq.
    destruct Hreq as [->|[->|[->|[]]]]; apply wp_bind.
    - eapply wp_mono, GetReservation_wp; [|done]. intros [resp|e|] σ [-> Hr]; [|split; [done|eauto]|done].
      + destruct Hr as (r & Hr & Hacc & _). by rewrite (Hinvis r Hr) in Hacc.
      + destruct Hr as [?|[? _]]; eauto.
    - eapply wp_mono, CancelReservation_wp; [|done]. intros [out|e|] σ [_ Hr]; [|split|done].
      + by destruct Hr as [r Hr Hacc|r Hr Hacc|r now db' ts Hr Hacc|r now db' ts Hr Hacc];
          rewrite (Hinvis r Hr) in Hacc.
      + destruct Hr as [[_ [?|[out Hr]]]|(_ & _ & ?)]; [done| |done].
        by destruct Hr as [r Hr Hacc|r Hr Hacc|r now db' ts Hr Hacc|r now db' ts Hr Hacc];
          rewrite (Hinvis r Hr) in Hacc.
      + destruct Hr as [[? _]|(-> & _)]; eauto.
    - eapply wp_mono, ConfirmReservation_wp; [|done]. intros [out|e|] σ [_ Hr]; [|split|done].
      + by destruct Hr as [r Hr Hacc|r Hr Hacc|r now db' ts Hr Hacc|r now db' ts Hr Hacc];
          rewrite (Hinvis r Hr) in Hacc.
      + destruct Hr as [[_ [?|[out Hr]]]|(_ & _ & ?)]; [done| |done].
        by destruct Hr as [r Hr Hacc|r Hr Hacc|r now db' ts Hr Hacc|r now db' ts Hr Hacc];
          rewrite (Hinvis r Hr) in Hacc.
      + destruct Hr as [[? _]|(-> & _)]; eauto. }
  destruct (run (handle ttl req) w) as [r w'] eqn:Hrun.
  destruct (run_adversary _ _ w r w' Hw (Hwp adversary) Hrun) as [Hdb (e & -> & _)].
  split; [exact Hdb|]. split; [eauto|]. intros Hresp.
  destruct (run_wp _ _ _ w _ w' Hw (Hwp _) Hresp Hrun) as [_ (e' & [= ->] & Hcase)].
  destruct Hcase as [He| ->]; [|done]. by destruct (calm_faulty _ _ He).
Qed.

Definition demo_stranger : res unit * World :=
  @run (calm_env demo_time) _ (@handle demo_driver demo_ttl (ReqConfirm (demo_session 7) demo_rq))
    demo_held.

Lemma invisible_is_not_found_witness :
  demo_stranger.1 = Err (Sentinel ErrReservationNotFound) /\ w_db demo_stranger.2 = w_db demo_held.
Proof.
  assert (Hr : exists rsv, reservations (w_db demo_held) !! demo_rq = Some rsv /\
    foreign (demo_session 7) rsv)
    by (eexists; split; [vm_compute; reflexivity|split; [vm_compute; discriminate|left; reflexivity]]).
  destruct Hr as (rsv & Hr & Hacc).
  assert (Hresp : @respects (calm_env demo_time) (calm (fun _ => true)) _
    (@handle demo_driver demo_ttl (ReqConfirm (demo_session 7) demo_rq)) demo_held = true)
    by (vm_compute; reflexivity).
  pose proof (@invisible_is_not_found _ _ (calm_env demo_time) demo_ttl (demo_session 7) demo_rq
    demo_held (ReqConfirm (demo_session 7) demo_rq) (proj1 demo_held_ready) (proj2 demo_held_ready))
    as Hthm.
  specialize (Hthm ltac:(intros r; rewrite Hr; intros [= <-]; exact Hacc)
    ltac:(right; right; left)).
  fold demo_stranger in Hthm. destruct demo_stranger as [r w'].
  destruct Hthm as (Hdb & _ & Hnf). split; [exact (Hnf Hresp)|exact Hdb].
Defined.

(** Reading answers with the reservation and its rows as the tables hold
    them, and changes nothing, in every environment. *)
Theorem GetReservation_reads `{Env} vs rid w r w' :
  w_saved w = None -> db_inv (w_db w) ->
  run (GetReservation vs rid) w = (r, w') ->
  w_db w' = w_db w /\ w_saved w' = None /\
  match r with
  | Ok resp => exists rsv, reservations (w_db w) !! rid = Some rsv /\
      canAccessReservation rsv vs = true /\ resp = response_of (w_db w) rsv
  | Err _ => True
  | Panicked => False
  end.
Proof.
  intros Hs Hinv Hrun.
  destruct (run_adversary _ _ w r w' (conj Hs Hinv) (GetReservation_wp adversary vs rid _ Hinv) Hrun)
    as [Heq Hr].
  unfold st_of in Heq. injection Heq as Hdb Hsv. split; [done|].
  split; [by destruct (w_saved w')|]. by destruct r.
Qed.

Definition demo_read : res ReservationResponse * World :=
  @run (calm_env demo_time) _ (GetReservation (demo_session 6) demo_rs) demo_held.

Lemma GetReservation_reads_witness :
  (exists resp, demo_read.1 = Ok resp /\ RResp_Seats resp =
     [MkSeatDetail (UUIDToString (uid 3)) StatusReserved;
      MkSeatDetail (UUIDToString (uid 4)) StatusReserved]) /\
  w_db demo_read.2 = w_db demo_held.
Proof.
  split; [eexists; split; vm_compute; reflexivity|].
  destruct (@GetReservation_reads (calm_env demo_time) (demo_session 6) demo_rs demo_held
    demo_read.1 demo_read.2 (proj1 demo_held_ready) (proj2 demo_held_ready) (surjective_pairing _))
    as (Hdb & _). exact Hdb.
Defined.

(** ** The worker's batches *)

(** C17: at a fixed clock reading a batch expires min(batchSize, overdue)
    reservations, those with the earliest deadlines, returns their number, and
    leaves every other reservation as it was. *)
Theorem ExpireExpiredReservations_batch `{Pgtype} `{Env} now batchSize w r w' :
  w_saved w = None -> db_inv (w_db w) -> 0 < batchSize ->
  respects (calm_at now) (ExpireExpiredReservations batchSize) w = true ->
  run (ExpireExpiredReservations batchSize) w = (r, w') ->
  r = Ok (Z.min batchSize (Z.of_nat (overdue_count now (w_db w)))) /\
  Z.of_nat (overdue_count now (w_db w')) =
    Z.max 0 (Z.of_nat (overdue_count now (w_db w)) - batchSize) /\
  forall k rsv, reservations (w_db w) !! k = Some rsv ->
    reservations (w_db w') !! k = Some rsv \/
    (overdue (MkTs now true) rsv = true /\
     (exists ts, reservations (w_db w') !! k = Some (with_reservation_status StatusExpired ts rsv)) /\
     forall k2 rsv2, reservations (w_db w') !! k2 = Some rsv2 ->
       overdue (MkTs now true) rsv2 = true -> expiry_leb rsv rsv2 = true).
Proof.
  intros Hs Hinv Hb Hresp Hrun.
  destruct (ExpireExpired_run (calm_at now) batchSize w r w' (conj Hs Hinv) Hb Hresp Hrun) as [_ Hr].
  destruct r as [n|e|]; [|by destruct (calm_faulty _ _ (proj1 Hr))|done].
  destruct Hr as (now' & skip & Hn & Hskip & Hdone). apply Z.eqb_eq in Hn as ->. rewrite (Hskip eq_refl) in Hdone. cbn [fst st_of] in Hdone.
  destruct (batch_done_count _ _ _ _ _ Hb Hdone) as [Hcount Hleft].
  split; [by rewrite Hcount|]. split; [lia|]. intros k rsv Hk.
  destruct Hdone as [_ Hsteps Hrows]. rewrite unlocked_overdue_nil in Hrows.
  destruct (expired_steps_lookup _ _ _ _ k Hsteps) as [rsv' Hk']; [eauto|].
  destruct (Hrows k rsv' Hk') as (r0 & Hr0 & Hcase). simplify_eq.
  destruct Hcase as [[Hin (ts & ->)]|[_ ->]]; [right|by left].
  assert (Hov : rsv ∈ overdue_list now (w_db w)) by (by eapply elem_of_sublist, sublist_take).
  apply (elem_of_select_key Reservation_ID) in Hov as Hov'; [|apply Hinv].
  destruct Hov' as [_ Hov']. split; [done|]. split; [eauto|].
  intros k2 rsv2 Hk2 Hov2. destruct (Hrows k2 rsv2 Hk2) as (r2 & Hr2 & Hcase2).
  destruct Hcase2 as [[_ (ts2 & ->)]|[Hnin ->]]; [done|].
  eapply (take_drop_ordered expiry_le); [|exact Hin| |exact Hnin].
  - apply StronglySorted_merge_sort; apply _.
  - apply elem_of_select. eauto.
Qed.

(** A microsecond after the deadline of the reservations of the example. *)
Definition demo_after : Z := demo_late + 1000.

Definition demo_batch : res Z * World :=
  @run (calm_env demo_after) _ (ExpireExpiredReservations 1) demo_held.

Lemma ExpireExpiredReservations_batch_witness :
  overdue_count demo_after (w_db demo_held) = 2%nat /\ demo_batch.1 = Ok 1 /\
  overdue_count demo_after (w_db demo_batch.2) = 1%nat.
Proof.
  assert (Htwo : overdue_count demo_after (w_db demo_held) = 2%nat) by (vm_compute; reflexivity).
  assert (Hresp : @respects (calm_env demo_after) (calm_at demo_after) _
    (ExpireExpiredReservations 1) demo_held = true) by (vm_compute; reflexivity).
  destruct (@ExpireExpiredReservations_batch _ (calm_env demo_after) demo_after 1 demo_held
    demo_batch.1 demo_batch.2 (proj1 demo_held_ready) (proj2 demo_held_ready) eq_refl Hresp
    (surjective_pairing _)) as (Hn & Hleft & _).
  rewrite Htwo in Hn, Hleft. split; [exact Htwo|]. split; [exact Hn|].
  apply Nat2Z.inj. exact Hleft.
Defined.

(** ** Every outcome *)

(** C24: ReserveQuantity does one of the things [quantity_outcome] lists, in
    every environment: invalid input and every refusal leave the tables
    unchanged, a retry is replayed, a grant is exact, and an error with an
    effect only follows a commit whose answer was lost. *)
Theorem ReserveQuantity_outcomes `{Pgtype} `{Env} ttl a vs input w r w' :
  w_saved w = None -> db_inv (w_db w) ->
  respects a (ReserveQuantity ttl vs input) w = true ->
  run (ReserveQuantity ttl vs input) w = (r, w') ->
  w_saved w' = None /\ ReserveQuantity_outcome a ttl vs input (w_db w) r (w_db w') /\
  (forall resp, r = Ok resp ->
     quantity_replay (VisitorSession_ID vs) (TrimSpace (QReq_IdempotencyKey input)) (w_db w') resp).
Proof.
  intros Hs Hinv Hresp Hrun.
  destruct (ReserveQuantity_run ttl a vs input w r w' (conj Hs Hinv) Hresp Hrun) as [Hs' Hout].
  split; [done|]. split; [done|]. intros resp ->. remember (Ok resp) as r0 eqn:Er.
  revert Er Hout. generalize (w_db w'). intros db' Er Hout.
  destruct Hout as [|ev tid now res db' _ _ _ Hout]; [done|].
  subst res. by eapply quantity_outcome_replay; [apply Hinv|].
Qed.

Definition demo_conflict : res QuantityReservationResponse * World :=
  @run (calm_env demo_time) _ (ReserveQuantity demo_ttl (demo_session 6)
    (demo_quantity_request 1 "k2")) demo_held.

Lemma ReserveQuantity_outcomes_witness :
  demo_conflict.1 = Err (Sentinel ErrIdempotencyKeyConflict) /\ w_saved demo_conflict.2 = None.
Proof.
  split; [vm_compute; reflexivity|].
  destruct (@ReserveQuantity_outcomes _ (calm_env demo_time) demo_ttl adversary (demo_session 6)
    (demo_quantity_request 1 "k2") demo_held demo_conflict.1 demo_conflict.2
    (proj1 demo_held_ready) (proj2 demo_held_ready) (@respects_adversary (calm_env demo_time) _ _ _)
    (surjective_pairing _)) as (Hsaved & _ & _).
  exact Hsaved.
Defined.

(** C25: ReserveSeats likewise, with [seats_outcome]. A successful answer
    shows the reservation as a later retry will. *)
Theorem ReserveSeats_outcomes `{PgtypeLaws} `{Env} ttl a vs input w r w' :
  w_saved w = None -> db_inv (w_db w) ->
  respects a (ReserveSeats ttl vs input) w = true ->
  run (ReserveSeats ttl vs input) w = (r, w') ->
  w_saved w' = None /\ ReserveSeats_outcome a ttl vs input (w_db w) r (w_db w') /\
  (forall resp, r = Ok resp ->
     seats_replay (VisitorSession_ID vs) (TrimSpace (SReq_IdempotencyKey input)) (w_db w') resp).
Proof.
  intros Hs Hinv Hresp Hrun.
  destruct (ReserveSeats_run ttl a vs input w r w' (conj Hs Hinv) Hresp Hrun) as [Hs' Hout].
  split; [done|]. split; [done|]. intros resp ->. remember (Ok resp) as r0 eqn:Er.
  revert Er Hout. generalize (w_db w'). intros db' Er Hout.
  destruct Hout as [|ev sids now res db' Hparse _ Hout]; [done|].
  subst res. by eapply seats_outcome_replay.
Qed.

Definition demo_taken : res SeatReservationResponse * World :=
  @run (calm_env demo_time) _ (ReserveSeats demo_ttl (demo_session 7)
    (demo_seat_request [5; 4]%N "k9")) demo_held.

Lemma ReserveSeats_outcomes_witness :
  demo_taken.1 = Err (Sentinel ErrSeatUnavailable) /\ w_saved demo_taken.2 = None.
Proof.
  split; [vm_compute; reflexivity|].
  destruct (@ReserveSeats_outcomes _ _ (calm_env demo_time) demo_ttl adversary (demo_session 7)
    (demo_seat_request [5; 4]%N "k9") demo_held demo_taken.1 demo_taken.2
    (proj1 demo_held_ready) (proj2 demo_held_ready) (@respects_adversary (calm_env demo_time) _ _ _)
    (surjective_pairing _)) as (Hsaved & _ & _).
  exact Hsaved.
Defined.

(** ** Building blocks *)

(** A callback that opens and ends no transaction of its own. *)
Fixpoint inner {A} (p : prog A) : Prop :=
  match p with
  | Ret _ | Fail _ | Panic => True
  | Now k => forall t, inner (k t)
  | RandRead n k => forall r, inner (k r)
  | Sql _ st k => forall r, inner (k r)
  | Begin _ | Commit _ | Rollback _ => False
  end.

Lemma inner_saved `{Env} {A} (p : prog A) w :
  inner p -> w_saved (run p w).2 = w_saved w.
Proof.
  revert w. induction p as [x|e| |k IH|n k IH|X lk st k IH|k IH|k IH|k IH]; intros w Hp; simpl in *;
    try done; [by rewrite IH|by rewrite IH|].
  destruct (step_sql st w) as [r w1] eqn:Hstep. rewrite IH by done.
  unfold step_sql in Hstep. destruct (fault _); [by simplify_eq|].
  destruct (st _ _) as [e|[x db']]; by simplify_eq.
Qed.

(** C26: db.WithTx is atomic for every callback that runs statements in the
    transaction it is given, in every environment. A result means that the
    callback's changes were committed; an error or a panic leaves the tables
    as they were, except that an error of the commit itself may hide a commit
    that took place; in no case does the transaction stay open. *)
Theorem WithTx_atomic `{Env} {A} (fn : prog A) w r w' :
  w_saved w = None -> inner fn -> run (WithTx fn) w = (r, w') ->
  w_saved w' = None /\
  match r with
  | Ok x => exists w1 w2, w_db w1 = w_db w /\ run fn w1 = (Ok x, w2) /\ w_db w' = w_db w2
  | Err e => w_db w' = w_db w \/
      exists w1 x w2 f, w_db w1 = w_db w /\ run fn w1 = (Ok x, w2) /\ w_db w' = w_db w2 /\
        commit_outcome (w_tick w2) = AckLost f /\ e = Wrapped "commit transaction" (fault_error f)
  | Panicked => w_db w' = w_db w
  end.
Proof.
  intros Hs Hin. unfold WithTx, try. rewrite !run_bind, run_catch. cbn [run fst snd].
  unfold step_begin. rewrite Hs. destruct (fault (w_tick w)) as [f|]; cbn [run of_sum fst snd].
  { intros [= <- <-]. split; [done|]. by left. }
  set (w1 := next_world _ _ w). rewrite run_bind, run_catch.
  pose proof (inner_saved fn w1 Hin) as Hsaved. cbn [w_saved next_world] in Hsaved.
  destruct (run fn w1) as [r0 w2] eqn:Hfn. cbn [fst snd] in *.
  destruct r0 as [x|e|]; cbn [run];
    [|intros [= <- <-]; unfold step_rollback; rewrite Hsaved; simpl; by auto..].
  rewrite !run_bind, run_catch. cbn [run fst snd]. unfold step_commit. rewrite Hsaved.
  destruct (commit_outcome (w_tick w2)) as [|f|f] eqn:Hc; cbn [run of_sum fst snd].
  - intros [= <- <-]. split; [done|]. by exists w1, w2.
  - intros [= <- <-]. split; [done|]. by left.
  - intros [= <- <-]. split; [done|]. right. by exists w1, x, w2, f.
Qed.

Lemma WithTx_atomic_witness :
  w_saved (@run (calm_env demo_time) _ (WithTx (let* _ := sql (ExpireReservationsByIDs [demo_rq]) in
    @Panic unit)) demo_held).2 = None /\
  w_db (@run (calm_env demo_time) _ (WithTx (let* _ := sql (ExpireReservationsByIDs [demo_rq]) in
    @Panic unit)) demo_held).2 = w_db demo_held.
Proof.
  assert (Hin : inner (let* _ := sql (ExpireReservationsByIDs [demo_rq]) in @Panic unit))
    by (intros [e|x]; exact I).
  destruct (@WithTx_atomic (calm_env demo_time) _ _ demo_held Panicked
    (@run (calm_env demo_time) _ (WithTx (let* _ := sql (ExpireReservationsByIDs [demo_rq]) in
      @Panic unit)) demo_held).2 (proj1 demo_held_ready) Hin) as [Hsaved Hdb].
  - assert (Hp : (@run (calm_env demo_time) _ (WithTx (let* _ := sql (ExpireReservationsByIDs
      [demo_rq]) in @Panic unit)) demo_held).1 = Panicked) by (vm_compute; reflexivity).
    rewrite <- Hp. apply surjective_pairing.
  - split; [exact Hsaved|exact Hdb].
Defined.

(** The request parser accepts exactly lists of parseable, distinct seat
    identifiers with a non-blank key, and returns them in the order of their
    bytes, the order in which the database locks them. *)
Theorem parseSeatInput_accepts `{PgtypeLaws} input ev sids :
  parseSeatInput input = Ok (ev, sids) <->
  TrimSpace (SReq_IdempotencyKey input) <> "" /\ SReq_SeatIDs input <> [] /\
  ParseUUID (SReq_EventID input) = Ok ev /\ NoDup sids /\ StronglySorted uuid_le sids /\
  exists parsed, sids ≡ₚ parsed /\
    Forall2 (fun s id => ParseUUID (TrimSpace s) = Ok id) (SReq_SeatIDs input) parsed.
Proof.
  split.
  - intros Hok. pose proof (parseSeatInput_cases input) as Hin. rewrite Hok in Hin.
    destruct Hin as (Hev & Hne & Hnd & _ & Hs & Hk & parsed & Hp & Hall). split_and!; try done; [|eauto].
    intros Hnil. rewrite Hnil in Hall. inversion Hall; subst.
    by apply Permutation_nil_r in Hp.
  - intros (Hk & Hne & Hev & Hnd & Hs & parsed & Hp & Hall). unfold parseSeatInput.
    rewrite bool_decide_eq_false_2 by done.
    destruct (length (SReq_SeatIDs input) =? 0)%nat eqn:Hlen.
    { apply Nat.eqb_eq, length_zero_iff_nil in Hlen. done. }
    simpl. unfold parse_or. rewrite Hev. pose proof (parsed_valid _ _ Hall) as Hv.
    rewrite (parseSeatIDs_complete _ parsed ∅ []); [|set_solver|by rewrite <- Hp|done].
    do 2 f_equal. pose proof (merge_sort_Permutation by_text parsed) as Hperm.
    apply lock_order_unique; try done.
    + intros x. rewrite Hperm. apply Hv.
    + intros x. rewrite Hp. apply Hv.
    + by rewrite Hperm, <- Hp.
    + apply by_text_sorted; [intros x; rewrite Hperm; apply Hv|].
      apply StronglySorted_merge_sort; apply _.
    + intros x. by rewrite Hperm, Hp.
Qed.

Lemma parseSeatInput_accepts_witness :
  parseSeatInput (demo_seat_request [4; 3]%N "k2") = Ok (uid 1, [uid 3; uid 4]) /\
  StronglySorted uuid_le [uid 3; uid 4] /\
  ~ exists ev sids, parseSeatInput (demo_seat_request [3; 3]%N "k2") = Ok (ev, sids).
Proof.
  assert (Hok : parseSeatInput (demo_seat_request [4; 3]%N "k2") = Ok (uid 1, [uid 3; uid 4]))
    by (vm_compute; reflexivity).
  split; [exact Hok|]. split.
  - apply (@parseSeatInput_accepts demo_driver _ (demo_seat_request [4; 3]%N "k2") (uid 1)
      [uid 3; uid 4]) in Hok as (_ & _ & _ & _ & Hs & _). exact Hs.
  - intros (ev & sids & Hbad). vm_compute in Hbad. discriminate Hbad.
Defined.

(** On the identifiers the service compares, sameUUIDSet decides equality
    of sets. *)
Theorem sameUUIDSet_decides left right :
  (forall x, x ∈ left -> Valid x = true) -> (forall x, x ∈ right -> Valid x = true) ->
  NoDup left -> NoDup right ->
  sameUUIDSet left right = true <-> (forall x, x ∈ left <-> x ∈ right).
Proof.
  intros Hl Hr Hnl Hnr. rewrite (sameUUIDSet_true left right Hl Hr). split.
  - intros [Hlen Hsub] x. split; [|apply Hsub]. intros Hx.
    assert (Hperm : right ≡ₚ left).
    { apply submseteq_length_Permutation; [|lia]. by apply NoDup_submseteq. }
    by rewrite Hperm.
  - intros Heq. split; [|by intros x ?%Heq].
    by apply Permutation_length, NoDup_Permutation.
Qed.

Lemma sameUUIDSet_decides_witness :
  sameUUIDSet [uid 3; uid 4] [uid 4; uid 3] = true <->
  (forall x, x ∈ [uid 3; uid 4] <-> x ∈ [uid 4; uid 3]).
Proof.
  apply (sameUUIDSet_decides [uid 3; uid 4] [uid 4; uid 3]).
  - intros x Hx. apply elem_of_cons in Hx as [->|Hx]; [reflexivity|].
    apply list_elem_of_singleton in Hx as ->. reflexivity.
  - intros x Hx. apply elem_of_cons in Hx as [->|Hx]; [reflexivity|].
    apply list_elem_of_singleton in Hx as ->. reflexivity.
  - apply (bool_decide_eq_true_1 (NoDup [uid 3; uid 4])). vm_compute. reflexivity.
  - apply (bool_decide_eq_true_1 (NoDup [uid 4; uid 3])). vm_compute. reflexivity.
Defined.

(** Sorting seats by their textual form, as sort.Slice does, is sorting
    them by their bytes, as ORDER BY id does: lock acquisition follows one
    global order. *)
Theorem textual_order_is_byte_order a b :
  Valid a = true -> Valid b = true ->
  string_ltb (UUIDToString a) (UUIDToString b) = uuid_ltb a b.
Proof. apply UUIDToString_ltb. Qed.

Lemma textual_order_is_byte_order_witness :
  string_ltb (UUIDToString (uid 9)) (UUIDToString (uid 10)) = uuid_ltb (uid 9) (uid 10) /\
  uuid_ltb (uid 9) (uid 10) = true.
Proof.
  split; [apply (textual_order_is_byte_order (uid 9) (uid 10)); reflexivity|].
  vm_compute. reflexivity.
Defined.

(** The guarded UPDATE of a ticket type never overflows int4 and never
    violates a CHECK constraint: on tables that satisfy their constraints it
    takes the units, or finds no row because there are not enough. *)
Theorem ReserveTicketQuantity_total ctx db id ev q :
  schema_ok db -> 0 < q ->
  match ReserveTicketQuantity id ev q ctx db with
  | inl e => e = PgNoRows /\ stock_short ev id q db
  | inr (_, db') => exists t t', ticket_types db !! id = Some t /\ TicketType_EventID t = ev /\
      ticket_types db' !! id = Some t' /\
      TicketType_ReservedQuantity t' = TicketType_ReservedQuantity t + q /\
      TicketType_SoldQuantity t' = TicketType_SoldQuantity t /\
      (TicketType_SoldQuantity t' + TicketType_ReservedQuantity t' <= TicketType_TotalQuantity t') /\
      (TicketType_TotalQuantity t' <= int32_max) /\ schema_ok db'
  end.
Proof.
  intros Hdb Hq. pose proof (ReserveTicketQuantity_ok ctx db id ev q Hdb Hq) as Hok.
  destruct (ReserveTicketQuantity id ev q ctx db) as [e|[row db']]; [exact Hok|].
  destruct Hok as (t & Ht & Hev & Hav & -> & Hs).
  pose proof (ticket_bounds db id t Hdb Ht) as (? & ? & ? & ? & HID).
  exists t. eexists. simpl. rewrite lookup_insert_eq. unfold int32_max.
  split_and!; try done; simpl; lia.
Qed.

Lemma ReserveTicketQuantity_total_witness :
  match ReserveTicketQuantity (uid 2) (uid 1) 10 (MkSctx demo_ts (uid 99) []) demo_db with
  | inl e => False
  | inr (_, db') => exists t t', ticket_types demo_db !! uid 2 = Some t /\
      ticket_types db' !! uid 2 = Some t' /\
      TicketType_ReservedQuantity t' = TicketType_ReservedQuantity t + 10
  end.
Proof.
  pose proof (ReserveTicketQuantity_total (MkSctx demo_ts (uid 99) []) demo_db (uid 2) (uid 1) 10
    (inv_schema _ demo_db_inv) eq_refl) as Hok.
  assert (Hnot : match ReserveTicketQuantity (uid 2) (uid 1) 10 (MkSctx demo_ts (uid 99) []) demo_db with
    inl _ => false | inr _ => true end = true) by (vm_compute; reflexivity).
  destruct (ReserveTicketQuantity _ _ _ _ _) as [e|[row db']]; [discriminate Hnot|].
  destruct Hok as (t & t' & Ht & _ & Ht' & Hres & _). exists t, t'. auto.
Defined.
