(* ===== verification/Application.v ===== *)
(** * Properties of the application around the reservation service

    The HTTP API with its middleware, sessions and accounts, the expiration
    worker, the catalog and the public inventory. *)

From S2P Require Import Prelude GoRuntime DbTypes Schema Prog Wp SqlcReservations ReservationService Inventory Settlement Service ServiceFacts SqlcEvents SqlcAccounts Config NetHttp HttpServer Sessions Auth Worker Events SqlcStress StressAdmin StressFacts Handlers HandlerFacts Fixtures Correctness.
Local Open Scope string_scope.
Local Open Scope list_scope.
Local Open Scope Z_scope.

(** ** Instances for the witnesses *)

(** A toy password scheme, prefix matching, which satisfies the contract. *)
#[export] Instance demo_libraries : Libraries := {|
  bcrypt_hash salt password :=
    if 72 <? Z.of_nat (String.length password) then inl "password length exceeds 72 bytes"
    else inr (password ++ "$")%string;
  bcrypt_matches hash password := String.prefix (password ++ "$")%string hash;
  unicode_ToLower s := s |}.

Lemma prefix_refl s : String.prefix s s = true.
Proof. induction s as [|c s IH]; [done|]. simpl. by destruct (ascii_dec c c). Qed.

#[export] Instance demo_libraries_laws : LibrariesLaws.
Proof.
  split. intros salt password hash. simpl. destruct (72 <? _); [done|]. intros [= <-].
  apply prefix_refl.
Qed.

#[export] Instance demo_collation : Collation := string_leb.

Definition demo_sessions : SessionService := NewService demo_ttl false.

(** Decoders that know one body each. *)
Definition knows {T} (text : string) (value : T) : JsonBody T :=
  fun s => if s ==? text then inr value else inl (ErrorString "unexpected end of JSON input").

#[export] Instance demo_register : JsonBody RegisterRequest := knows "register" (MkRegisterRequest "a@b.c" "secret-1").
#[export] Instance demo_login : JsonBody LoginRequest := knows "login" (MkLoginRequest " A@b.c " "secret-1").
#[export] Instance demo_quantity_body : JsonBody QuantityReservationRequest := knows "quantity" (demo_quantity_request 3 "k1").
#[export] Instance demo_seats_body : JsonBody SeatReservationRequest := knows "seats" (demo_seat_request [3; 4]%N "k2").
#[export] Instance demo_event_body : JsonBody CreateEventRequest :=
  knows "event" (MkCreateEventRequest "launch" demo_time (demo_time + 1)).
#[export] Instance demo_ticket_body : JsonBody CreateTicketTypeRequest :=
  knows "ticket" (MkCreateTicketTypeRequest "standing" 10).
#[export] Instance demo_new_seats_body : JsonBody CreateSeatsRequest :=
  knows "new seats" (MkCreateSeatsRequest [MkCreateSeatRequest "B" "1" "1"]).

#[export] Instance demo_json_laws : JsonLaws.
Proof. split. intros s p. unfold json_Decode, demo_ticket_body, knows. split_if; [|done]. by intros [= <-]. Qed.

Definition demo_request (token body : string) : Request :=
  MkRequest "POST" "/" [(CookieName, token)] "req-1" [("event_id", UUIDToString (uid 1))] body None.

(** ** The API *)

(** C19: whatever the environment does, a request to any endpoint is answered
    by exactly one response that carries a request identifier, and an error body
    exactly with an error status. What is sent after the headers is one JSON value
    when the years of its times are 0 to 9999, as for every error body, which has
    no times; a value with another year is not sent, the response has no body, and
    the log says so. The log has one line about the request, with the status that
    was sent; and the tables satisfy the invariant again, with no transaction left
    open. *)
Theorem api_always_answers `{PgtypeLaws} `{Collation} `{Libraries} (S : SessionService) `{!SessionLaws S}
    `{JsonBody RegisterRequest} `{JsonBody LoginRequest} `{JsonBody QuantityReservationRequest}
    `{JsonBody SeatReservationRequest} `{JsonBody CreateEventRequest} `{JsonLaws}
    `{JsonBody CreateSeatsRequest} `{Env} ttl appEnv e r w :
  ready w ->
  exists rid code p cks ms s' w',
    run (serve_http ttl appEnv e r) w = (Ok (Some tt, s'), w') /\ ready w' /\
    names_request r rid /\ coherent code p rid /\
    sent (writer s') =
      Some (code, {[ "Content-Type" := "application/json"; RequestIDHeader := rid ]}, cks) /\
    let completed := RequestCompleted (Method r) (URLPath r) code ms rid in
    (Forall (fun t => 0 <= year_of t <= 9999) (payload_times p) ->
       body (writer s') = [p] /\ logs s' = [completed]) /\
    (~ Forall (fun t => 0 <= year_of t <= 9999) (payload_times p) ->
       body (writer s') = [] /\ logs s' = [EncodeFailed; completed]).
Proof.
  intros Hw. destruct (run (serve_http ttl appEnv e r) w) as [res w'] eqn:Hrun.
  pose proof (run_adversary _ _ w res w' Hw (serve_http_wp ttl appEnv adversary e r _ (proj2 Hw)) Hrun)
    as (rid & code & p & cks & ms & s' & -> & ? & ? & ? & Hbody & Hlog & Hσ & Hinv & _).
  exists rid, code, p, cks, ms, s', w'. split; [done|]. split; [split; [by apply st_of_saved|done]|].
  do 3 (split; [done|]). cbv zeta. rewrite <- encodes_spec, Hbody, Hlog. by destruct (encodes p).
Qed.

Lemma api_always_answers_witness :
  ready (demo_world demo_db) /\
  exists rid code p cks ms s' w',
    @run (calm_env demo_time) _ (@serve_http demo_driver demo_collation demo_libraries demo_sessions
      _ _ _ _ _ _ _ demo_ttl "test" GetEventByID_ (demo_request "" "")) (demo_world demo_db) =
      (Ok (Some tt, s'), w') /\ ready w' /\ names_request (demo_request "" "") rid /\
    coherent code p rid /\
    sent (writer s') =
      Some (code, {[ "Content-Type" := "application/json"; RequestIDHeader := rid ]}, cks) /\
    (Forall (fun t => 0 <= year_of t <= 9999) (payload_times p) ->
       body (writer s') = [p] /\ logs s' = [RequestCompleted "POST" "/" code ms rid]) /\
    (~ Forall (fun t => 0 <= year_of t <= 9999) (payload_times p) ->
       body (writer s') = [] /\ logs s' = [EncodeFailed; RequestCompleted "POST" "/" code ms rid]).
Proof.
  split; [exact demo_ready|].
  apply (@api_always_answers _ _ demo_collation demo_libraries demo_sessions _ _ _ _ _ _ _ _ _
    (calm_env demo_time) demo_ttl "test" GetEventByID_ (demo_request "" "")). exact demo_ready.
Defined.

(** The end of an event on the last day of 9999, an hour west of Greenwich. *)
Definition demo_far_event : CreateEventRequest :=
  MkCreateEventRequest "new year" demo_time (253402304399 * 10 ^ 9).

Definition demo_far_run : res (option unit * HttpState (json response)) * World :=
  @run (calm_env demo_time) _ (@serve_http demo_driver demo_collation demo_libraries demo_sessions
    _ _ _ _ (knows "far event" demo_far_event) _ _ demo_ttl "test" PostEvent (demo_request "" "far event"))
    (demo_world demo_db).

(** An event that ends after the year 9999 in UTC is created, and the answer is
    201 without a body: the service accepts the time and the encoder does not. *)
Theorem far_event_has_no_body :
  match demo_far_run.1 with
  | Ok (Some tt, s) => status (writer s) = Some 201 /\ body (writer s) = [] /\ EncodeFailed ∈ logs s
  | _ => False
  end /\
  exists k ev, events demo_db !! k = None /\ events (w_db demo_far_run.2) !! k = Some ev /\
    Event_Name ev = "new year" /\ year_of (TimestamptzToTime (Event_EndsAt ev)) = 10000.
Proof.
  split; [vm_compute; split; [reflexivity|split; [reflexivity|left]]|].
  assert (Hnew : exists ev, events (w_db demo_far_run.2) !!
    MkUUID (@gen_random_uuid (calm_env demo_time) 1) true = Some ev /\
    Event_Name ev = "new year" /\ year_of (TimestamptzToTime (Event_EndsAt ev)) = 10000)
    by (eexists; split; [vm_compute; reflexivity|split; vm_compute; reflexivity]).
  destruct Hnew as (ev & Hev & Hname & Hyear). eexists _, ev. split; [|split; [exact Hev|by split]].
  vm_compute. reflexivity.
Qed.

(** C20: when no call fails and no generated identifier is in use, no endpoint
    answers with a server error, except that the two endpoints that create
    sessions may when the random bytes drawn (they satisfy [bytes]) are those of a
    token in use, and that the creation of seats may when two of the seats are at
    one place or one is at the place of a seat that exists. A text that
    PostgreSQL refuses (one with a zero byte, or too long for an index) is a call
    that fails. *)
Theorem api_no_server_error `{PgtypeLaws} `{Collation} `{Libraries} (S : SessionService) `{!SessionLaws S}
    `{JsonBody RegisterRequest} `{JsonBody LoginRequest} `{JsonBody QuantityReservationRequest}
    `{JsonBody SeatReservationRequest} `{JsonBody CreateEventRequest} `{JsonLaws}
    `{JsonBody CreateSeatsRequest} `{Env} ttl appEnv clock bytes e r w s' w' :
  ready w -> respects (calm_drawing clock bytes) (serve_http ttl appEnv e r) w = true ->
  ~ excuse bytes e r (w_db w) ->
  run (serve_http ttl appEnv e r) w = (Ok (Some tt, s'), w') ->
  exists code, status (writer s') = Some code /\ code < 500.
Proof.
  intros Hw Hresp Hno Hrun.
  pose proof (run_wp _ _ _ w _ w' Hw (serve_http_wp ttl appEnv (calm_drawing clock bytes) e r _ (proj2 Hw)) Hresp Hrun)
    as (rid & code & p & cks & ms & s1 & Hs & _ & _ & Hsent & _ & _ & _ & _ & Hex).
  injection Hs as <-. exists code. unfold status. rewrite Hsent. split; [done|].
  destruct (Z.le_gt_cases 500 code) as [Hle|]; [|done]. by destruct Hno; apply Hex.
Qed.

(** The example visitor, known by the hash of a token. *)
Definition demo_token : string := "token-6".
Definition demo_hash : string := "47076dea039ec9db94fc55694f6864a1cfe47d4f93e41c010e4521e3378888e5".

Example demo_token_hash : HashToken demo_token = demo_hash.
Proof. vm_compute. reflexivity. Qed.

Definition demo_visitor (uid_ : UUID) : VisitorSession :=
  MkVisitorSession (uid 6) uid_ demo_hash demo_ts demo_ts demo_ts (MkTs (demo_time + demo_ttl) true).

Definition demo_api_db : Database :=
  set_visitor_sessions (<[uid 6 := demo_visitor zero_UUID]> (visitor_sessions demo_db)) demo_db.

Lemma demo_api_inv : db_inv demo_api_db.
Proof.
  split; [constructor|constructor|constructor];
    unfold keyed, unique, refers, refers_opt, all_rows; simpl; intros; rows_cases; done || eauto.
Qed.

Lemma demo_api_ready : ready (demo_world demo_api_db).
Proof. split; [done|apply demo_api_inv]. Qed.

Definition demo_serve (e : endpoint) (r : Request) (w : World)
    : res (option unit * HttpState (json response)) * World :=
  run_at demo_time (@serve_http demo_driver demo_collation demo_libraries demo_sessions
    _ _ _ _ _ _ _ demo_ttl "test" e r) w.

(** The writer and the log after a run. *)
Definition demo_state (out : res (option unit * HttpState (json response)) * World)
    : HttpState (json response) :=
  match out.1 with Ok (_, s) => s | _ => MkHttp new_writer [] end.

Definition demo_api_run : res (option unit * HttpState (json response)) * World :=
  demo_serve PostReservationQuantity (demo_request demo_token "quantity") (demo_world demo_api_db).

Lemma api_no_server_error_witness :
  status (writer (demo_state demo_api_run)) = Some 201 /\
  exists code, status (writer (demo_state demo_api_run)) = Some code /\ code < 500.
Proof.
  split; [vm_compute; reflexivity|].
  apply (@api_no_server_error _ _ demo_collation demo_libraries demo_sessions _ _ _ _ _ _ _ _ _
    (calm_env demo_time) demo_ttl "test" (fun t => t =? demo_time) (fun _ => true) PostReservationQuantity
    (demo_request demo_token "quantity") (demo_world demo_api_db) _ demo_api_run.2).
  - exact demo_api_ready.
  - vm_compute. reflexivity.
  - exact (fun H => H).
  - apply run_pair. vm_compute. reflexivity.
Defined.

(** C40: a handler that panics before it has written, whatever the environment
    does, is answered by a 500 with the request identifier. The log then has
    one line, about the panic, with the identifier the request had before the
    middleware named it. *)
Theorem panic_is_answered `{Env} (h : Handler (json response)) r w :
  (forall r s σ, wp adversary (h r s) (fun res _ => res = Ok (None, s)) σ) ->
  exists rid s',
    (run (NewRouter h r (MkHttp new_writer [])) w).1 = Ok (Some tt, s') /\
    names_request r rid /\
    sent (writer s') =
      Some (500, {[ "Content-Type" := "application/json"; RequestIDHeader := rid ]}, []) /\
    body (writer s') = [ErrorBody (MkErrorDetail "INTERNAL_ERROR" "Internal error" rid)] /\
    logs s' = [PanicRecovered (RequestIDFromContext r)].
Proof.
  intros Hh.
  refine (wp_adversary (NewRouter h r (MkHttp new_writer [])) (fun res _ => exists rid s',
    res = Ok (Some tt, s') /\ names_request r rid /\
    sent (writer s') =
      Some (500, {[ "Content-Type" := "application/json"; RequestIDHeader := rid ]}, []) /\
    body (writer s') = [ErrorBody (MkErrorDetail "INTERNAL_ERROR" "Internal error" rid)] /\
    logs s' = [PanicRecovered (RequestIDFromContext r)]) w _).
  assert (Hlog : forall rid, names_request r rid -> wp adversary
    (RequestLogger h (with_request_id rid r) (MkHttp (set_header RequestIDHeader rid new_writer) []))
    (fun res _ => exists rid, names_request r rid /\
       res = Ok (None, MkHttp (set_header RequestIDHeader rid new_writer) [])) (st_of w)).
  { intros rid Hrid. apply wp_hbind, wp_bind, wp_time_Now. intros t _. cbv beta iota.
    apply wp_hbind, wp_bind. eapply wp_mono, Hh. intros res σ ->. by exists rid. }
  unfold NewRouter, Recoverer. apply wp_bind.
  eapply (wp_mono _ _ (fun res _ => exists rid, names_request r rid /\
    res = Ok (None, MkHttp (set_header RequestIDHeader rid new_writer) []))).
  { intros res σ (rid & Hrid & ->). exists rid. eexists. by split_and!. }
  unfold RequestID. apply wp_hbind. destruct (bool_decide _) eqn:E; to_prop.
  - apply wp_bind, newRequestID_wp. intros rid Hrid. cbv beta iota. apply wp_hbind. cbv beta iota.
    apply Hlog. by split.
  - cbv beta iota. apply wp_hbind. cbv beta iota. apply Hlog. by split.
Qed.

Definition demo_panicking : Handler (json response) := fun _ s => Ret (None, s).

Lemma panic_is_answered_witness :
  exists rid s',
    (@run (calm_env demo_time) _ (NewRouter demo_panicking (demo_request "" "") (MkHttp new_writer []))
      (demo_world demo_db)).1 = Ok (Some tt, s') /\
    names_request (demo_request "" "") rid /\
    sent (writer s') =
      Some (500, {[ "Content-Type" := "application/json"; RequestIDHeader := rid ]}, []) /\
    body (writer s') = [ErrorBody (MkErrorDetail "INTERNAL_ERROR" "Internal error" rid)] /\
    logs s' = [PanicRecovered ""].
Proof.
  apply (@panic_is_answered (calm_env demo_time) demo_panicking (demo_request "" "") (demo_world demo_db)).
  intros r s σ. reflexivity.
Defined.

(** ** Sessions and accounts *)

(** C21: a token opens the session it was issued for, and no other, until the
    session ends: right after CreateAnonymousSession, a request with the token
    in its cookie finds the session when its time has not passed, and is
    refused when it has. *)
Theorem session_roundtrip `{Pgtype} (E1 E2 : Env) ttl r c now w w1 res w2 :
  w_saved w = None -> schema_ok (w_db w) ->
  @run E1 _ (CreateAnonymousSession ttl) w = (Ok c, w1) ->
  Cookie r CookieName = Some (Token c) ->
  @respects E2 (calm_at now) _ (GetCurrentSession r) w1 = true ->
  @run E2 _ (GetCurrentSession r) w1 = (res, w2) ->
  if TimestamptzToTime (VisitorSession_ExpiresAt (Session c)) <? now
  then res = Err (Sentinel ErrSessionRequired) /\ w_db w2 = w_db w1
  else exists ts, res = Ok (with_last_seen ts (Session c)).
Proof.
  intros Hs Hdb Hcreate Hcookie Hresp Hget.
  assert (Hst : st_of w = (w_db w, None)) by (unfold st_of; by rewrite Hs).
  pose proof (CreateAnonymousSession_wp adversary ttl (w_db w) Hdb) as Hwp. rewrite <- Hst in Hwp.
  pose proof (@wp_adversary E1 _ _ _ w Hwp) as (Hs1 & Hch & Hc). rewrite Hcreate in Hs1, Hch, Hc.
  cbn [fst snd] in *. destruct Hc as (t & ts & _ & Hne & Hv & Hnone & HS & Hdb1).
  assert (Hschema1 : schema_ok (w_db w1)) by apply Hch.
  assert (Hrow : visitor_sessions (w_db w1) !! VisitorSession_ID (Session c) = Some (Session c)).
  { change ((st_of w1).1) with (w_db w1) in Hdb1. rewrite Hdb1. apply lookup_insert_eq. }
  assert (Hmine : cookie_session r (w_db w1) (Session c)).
  { exists (Token c). split_and!; try done. by rewrite HS. }
  assert (Honly : forall s, cookie_session r (w_db w1) s -> s = Session c).
  { intros s (tok & Htok & _ & Hk & Hh). rewrite Hcookie in Htok. injection Htok as <-.
    assert (VisitorSession_ID s = VisitorSession_ID (Session c)) as Hid.
    { eapply (sessions_unique _ Hschema1); [exact Hk|exact Hrow|done|done|]. rewrite Hh, HS. done. }
    rewrite Hid, Hrow in Hk. by injection Hk. }
  pose proof (GetCurrentSession_wp (calm_at now) r (w_db w1) Hschema1) as Hwp2.
  assert (Hst1 : st_of w1 = (w_db w1, None)).
  { unfold st_of in *. cbn [snd] in Hs1. by rewrite Hs1. }
  rewrite <- Hst1 in Hwp2. pose proof (@wp_sound E2 _ _ _ _ w1 Hwp2 Hresp) as (_ & _ & Hr).
  rewrite Hget in Hr. cbn [fst snd] in Hr. change ((st_of w2).1) with (w_db w2) in Hr.
  destruct (Z.ltb_spec (TimestamptzToTime (VisitorSession_ExpiresAt (Session c))) now) as [Hlt|Hle];
    (destruct res as [s'|e|]; [| |done]).
  - destruct Hr as (s & n & ts' & Hcs & Hn & Hexp & _). apply Z.eqb_eq in Hn as ->.
    rewrite (Honly s Hcs) in Hexp. lia.
  - destruct Hr as (Hdb2 & [[? _]|[-> _]]); [done|]. by split.
  - destruct Hr as (s & n & ts' & Hcs & _ & _ & -> & _). rewrite (Honly s Hcs). by exists ts'.
  - destruct Hr as (_ & [[? _]|[_ Hall]]); [done|]. destruct (Hall _ Hmine) as (n & Hn & Hlt).
    apply Z.eqb_eq in Hn as ->. lia.
Qed.

Definition demo_create : res CreatedSession * World :=
  @run (calm_env demo_time) _ (CreateAnonymousSession demo_ttl) (demo_world demo_db).

Definition demo_created : CreatedSession :=
  match demo_create.1 with Ok c => c | _ => MkCreatedSession (demo_session 0) "" end.

Definition demo_return (now : Z) : res VisitorSession * World :=
  @run (calm_env now) _ (GetCurrentSession (demo_request (Token demo_created) "")) demo_create.2.

Lemma session_roundtrip_witness :
  (exists ts, (demo_return demo_time).1 = Ok (with_last_seen ts (Session demo_created))) /\
  (demo_return (demo_time + 2 * demo_ttl)).1 = Err (Sentinel ErrSessionRequired).
Proof.
  assert (Hc : demo_create = (Ok demo_created, demo_create.2)) by (apply run_pair; vm_compute; reflexivity).
  assert (Hrun : forall now,
    @respects (calm_env now) (calm_at now) _ (GetCurrentSession (demo_request (Token demo_created) ""))
      demo_create.2 = true ->
    if TimestamptzToTime (VisitorSession_ExpiresAt (Session demo_created)) <? now
    then (demo_return now).1 = Err (Sentinel ErrSessionRequired) /\ w_db (demo_return now).2 = w_db demo_create.2
    else exists ts, (demo_return now).1 = Ok (with_last_seen ts (Session demo_created))).
  { intros now Hresp.
    refine (@session_roundtrip demo_driver (calm_env demo_time) (calm_env now) demo_ttl
      (demo_request (Token demo_created) "") demo_created now (demo_world demo_db) demo_create.2
      (demo_return now).1 (demo_return now).2 _ _ Hc _ Hresp _).
    - reflexivity.
    - exact (inv_schema _ demo_db_inv).
    - reflexivity.
    - apply surjective_pairing. }
  split.
  - assert (Hexp : (TimestamptzToTime (VisitorSession_ExpiresAt (Session demo_created)) <? demo_time) = false)
      by (vm_compute; reflexivity).
    specialize (Hrun demo_time). rewrite Hexp in Hrun. apply Hrun. vm_compute. reflexivity.
  - assert (Hexp : (TimestamptzToTime (VisitorSession_ExpiresAt (Session demo_created)) <?
      demo_time + 2 * demo_ttl) = true) by (vm_compute; reflexivity).
    specialize (Hrun (demo_time + 2 * demo_ttl)). rewrite Hexp in Hrun. apply Hrun. vm_compute. reflexivity.
Defined.

(** C22: a registered user can log in. After Register has returned a user, a
    calm Login under any spelling of the e-mail with the same normal form is
    answered with that user when the password is the one registered, unless the
    random bytes of a new token (they satisfy [bytes]) are those of a token in use,
    which it reports and nothing changes; and for every password
    that bcrypt does not match against the stored hash it is refused as invalid
    credentials, with no change. *)
Theorem register_then_login `{PgtypeLaws} `{LibrariesLaws} (S : SessionService) `{!SessionLaws S}
    (E1 E2 : Env) r email password email2 password2 u clock bytes w w1 res w2 :
  w_saved w = None -> schema_ok (w_db w) ->
  @run E1 _ (Register email password) w = (Ok u, w1) ->
  normalizedEmail email2 = normalizedEmail email ->
  @respects E2 (calm_drawing clock bytes) _ (Login r email2 password2) w1 = true ->
  @run E2 _ (Login r email2 password2) w1 = (res, w2) ->
  User_Email u = normalizedEmail email /\
  (password2 = password ->
     (exists token, res = Ok (MkLoginResult u token)) \/
     (res = Err (Wrapped "create visitor session" unique_violation) /\
      w_db w2 = w_db w1 /\ token_clash bytes (w_db w1))) /\
  (bcrypt_matches (User_PasswordHash u) password2 = false ->
     res = Err (Sentinel ErrInvalidCredentials) /\ w_db w2 = w_db w1).
Proof.
  intros Hs Hdb Hreg Hmail Hresp Hlog.
  pose proof (@run_adversary_schema E1 _ _ _ w _ _ Hs (Register_wp adversary email password _ Hdb) Hreg)
    as (Hs1 & Hch & Hout).
  inversion Hout as [| | | |u0 salt hash ts Hacc Hhash Hfree Hnone Hu Heq1 Heq2]. subst u0.
  assert (Hdb1 : w_db w1 = set_users (<[User_ID u:=u]> (users (w_db w))) (w_db w)) by done.
  clear Heq2. rewrite <- Hdb1.
  assert (Hrow : users (w_db w1) !! User_ID u = Some u) by (rewrite Hdb1; apply lookup_insert_eq).
  assert (Hmatch : bcrypt_matches (User_PasswordHash u) password = true)
    by (rewrite Hu; by eapply bcrypt_matches_hash).
  assert (Hemail : User_Email u = normalizedEmail email) by (by rewrite Hu).
  assert (Hschema1 : schema_ok (w_db w1)) by apply Hch.
  pose proof (@run_calm_schema E2 _ _ _ _ w1 _ _ (st_of_saved _ Hs1)
    (Login_wp (calm_drawing clock bytes) r email2 password2 _ Hschema1) Hresp Hlog) as (_ & _ & Hr).
  assert (Honly : forall v, authenticates email2 password2 (w_db w1) v -> v = u).
  { intros v (Hv & Hve & _).
    assert (User_ID v = User_ID u) as Hid.
    { eapply (users_unique _ Hschema1); [exact Hv|exact Hrow|done|done|]. congruence. }
    rewrite Hid, Hrow in Hv. by injection Hv. }
  split; [done|]. split.
  - intros ->. assert (Hauth : authenticates email2 password (w_db w1) u) by (split_and!; congruence || done).
    destruct res as [[v token]|e|]; [| |done].
    + left. destruct Hr as (s & Hv & _). apply Honly in Hv. simpl in Hv. subst. by exists token.
    + right. destruct Hr as [[? _]|[(_ & _ & Hno)|(-> & Hsame & _ & Ht)]]; [done|by destruct (Hno u)|].
      split_and!; [done|exact Hsame|exact (Ht eq_refl)].
  - intros Hbad. destruct res as [[v token]|e|]; [| |done].
    + destruct Hr as (s & Hv & _). pose proof (Honly _ Hv) as Hvu. simpl in *. subst v.
      destruct Hv as (_ & _ & Hm). simpl in Hm. congruence.
    + destruct Hr as [[? _]|[(-> & Hdb2 & _)|(_ & _ & [v Hv] & _)]]; [done|done|].
      rewrite (Honly v Hv) in Hv. destruct Hv as (_ & _ & Hm). congruence.
Qed.

Definition demo_register_run : res User * World :=
  @run (calm_env demo_time) _ (Register "a@b.c" "secret-1") (demo_world demo_db).

Definition demo_user : User :=
  match demo_register_run.1 with Ok u => u | _ => MkUser zero_UUID "" "" demo_ts demo_ts end.

Definition demo_login_run (password : string) : res LoginResult * World :=
  @run (calm_env demo_time) _ (@Login demo_libraries demo_sessions (demo_request "" "") " A@b.c " password)
    demo_register_run.2.

Lemma register_then_login_witness :
  (match (demo_login_run "secret-1").1 with Ok result => User_Email (LoginResult_User result) ==? "a@b.c" | _ => false end)
    = true /\
  User_Email demo_user = "a@b.c" /\
  (demo_login_run "secret-2").1 = Err (Sentinel ErrInvalidCredentials).
Proof.
  assert (Hreg : demo_register_run = (Ok demo_user, demo_register_run.2))
    by (apply run_pair; vm_compute; reflexivity).
  assert (Hrun : forall password2,
    @respects (calm_env demo_time) (calm_drawing (fun t => t =? demo_time) (fun _ => true)) _ (@Login demo_libraries demo_sessions
      (demo_request "" "") " A@b.c " password2) demo_register_run.2 = true ->
    User_Email demo_user = normalizedEmail "a@b.c" /\
    (password2 = "secret-1" ->
       (exists token, (demo_login_run password2).1 = Ok (MkLoginResult demo_user token)) \/
       ((demo_login_run password2).1 = Err (Wrapped "create visitor session" unique_violation) /\
        w_db (demo_login_run password2).2 = w_db demo_register_run.2 /\
        token_clash (fun _ => true) (w_db demo_register_run.2))) /\
    (bcrypt_matches (User_PasswordHash demo_user) password2 = false ->
       (demo_login_run password2).1 = Err (Sentinel ErrInvalidCredentials) /\
       w_db (demo_login_run password2).2 = w_db demo_register_run.2)).
  { intros password2 Hresp.
    refine (@register_then_login demo_driver _ demo_libraries _ demo_sessions _
      (calm_env demo_time) (calm_env demo_time) (demo_request "" "") "a@b.c" "secret-1" " A@b.c "
      password2 demo_user (fun t => t =? demo_time) (fun _ => true) (demo_world demo_db) demo_register_run.2
      (demo_login_run password2).1 (demo_login_run password2).2 _ _ Hreg _ Hresp _).
    - reflexivity.
    - exact (inv_schema _ demo_db_inv).
    - vm_compute. reflexivity.
    - apply surjective_pairing. }
  split; [vm_compute; reflexivity|]. split.
  - apply (Hrun "secret-2"). vm_compute. reflexivity.
  - apply (Hrun "secret-2"); vm_compute; reflexivity.
Defined.

(** C23: logging in opens the reservations of the account. After a login, a calm
    request with the token of the answer is refused if its session has ended,
    and otherwise acts for a session through which every reservation of the
    user is accessible, whichever session it was made in. *)
Theorem login_finds_reservations `{PgtypeLaws} `{Libraries} (S : SessionService) `{!SessionLaws S}
    (E1 E2 : Env) r r2 email password result now w w1 res w2 :
  w_saved w = None -> schema_ok (w_db w) ->
  @run E1 _ (Login r email password) w = (Ok result, w1) ->
  Cookie r2 CookieName = Some (SessionToken result) ->
  @respects E2 (calm_at now) _ (svc_GetCurrentSession r2) w1 = true ->
  @run E2 _ (svc_GetCurrentSession r2) w1 = (res, w2) ->
  authenticates email password (w_db w) (LoginResult_User result) /\
  exists s, visitor_sessions (w_db w1) !! VisitorSession_ID s = Some s /\
    if TimestamptzToTime (VisitorSession_ExpiresAt s) <? now
    then res = Err (Sentinel ErrSessionRequired)
    else exists vs, res = Ok vs /\ VisitorSession_ID vs = VisitorSession_ID s /\
      forall rid rsv, reservations (w_db w2) !! rid = Some rsv ->
        Reservation_UserID rsv = User_ID (LoginResult_User result) -> canAccessReservation rsv vs = true.
Proof.
  intros Hs Hdb Hlog Hcookie Hresp Hget.
  pose proof (@run_adversary_schema E1 _ _ _ w _ _ Hs (Login_wp adversary r email password _ Hdb) Hlog)
    as (Hs1 & Hch & s & Hauth & (Huid & Hh & Hne & _) & Hdb1).
  change ((st_of w1).1) with (w_db w1) in *. assert (Hschema1 : schema_ok (w_db w1)) by apply Hch.
  assert (Hrow : visitor_sessions (w_db w1) !! VisitorSession_ID s = Some s)
    by (rewrite Hdb1; apply lookup_insert_eq).
  assert (Hmine : cookie_session r2 (w_db w1) s) by (exists (SessionToken result); by split_and!).
  assert (Honly : forall x, cookie_session r2 (w_db w1) x -> x = s).
  { intros x (tok & Htok & _ & Hk & Hhx). rewrite Hcookie in Htok. injection Htok as <-.
    assert (VisitorSession_ID x = VisitorSession_ID s) as Hid.
    { eapply (sessions_unique _ Hschema1); [exact Hk|exact Hrow|done|done|congruence]. }
    rewrite Hid, Hrow in Hk. by injection Hk. }
  assert (Hvalid : Valid (User_ID (LoginResult_User result)) = true).
  { destruct Hauth as (Hu & _). by apply (users_keyed _ Hdb _ _ Hu). }
  pose proof (@run_calm_schema E2 _ _ _ _ w1 _ _ (st_of_saved _ Hs1)
    (current_law (calm_at now) r2 _ Hschema1) Hresp Hget) as (_ & _ & Hr).
  split; [done|]. exists s. split; [done|].
  destruct (Z.ltb_spec (TimestamptzToTime (VisitorSession_ExpiresAt s)) now) as [Hlt|Hle];
    (destruct res as [vs|e|]; [| |done]).
  - destruct Hr as (x & n & ts & Hx & Hn & Hexp & _). apply Z.eqb_eq in Hn as ->.
    rewrite (Honly x Hx) in Hexp. lia.
  - by destruct Hr as (_ & [[? _]|[-> _]]).
  - destruct Hr as (x & n & ts & Hx & _ & _ & -> & _). rewrite (Honly x Hx).
    exists (with_last_seen ts s). split; [done|]. split; [done|]. intros rid rsv _ Huser.
    unfold canAccessReservation. destruct (sameUUID _ _); [done|].
    unfold sameUUID. cbn [with_last_seen VisitorSession_UserID]. rewrite Huser, Huid, Hvalid.
    by rewrite bool_decide_eq_true_2.
  - destruct Hr as (_ & [[? _]|[_ Hall]]); [done|]. destruct (Hall s Hmine) as (n & Hn & Hlt).
    apply Z.eqb_eq in Hn as ->. lia.
Qed.

(** The visitor of the example database, logged in, and a reservation made by
    the same user in another session. *)
Definition demo_bob : User := MkUser (uid 50) "a@b.c" "secret-1$" demo_ts demo_ts.

Definition demo_bob_reservation : Reservation :=
  MkReservation (uid 60) (uid 1) (uid 7) (uid 50) StatusCancelled ReservationTypeQuantity "k9"
    demo_ts demo_ts demo_ts.

Definition demo_bob_db : Database :=
  MkDatabase {[ uid 50 := demo_bob ]}
    {[ uid 6 := demo_visitor zero_UUID; uid 7 := demo_session 7 ]}
    {[ uid 1 := demo_event ]} {[ uid 2 := demo_tickets 0 0 ]} ∅
    {[ uid 60 := demo_bob_reservation ]} ∅ ∅.

Lemma demo_bob_schema : schema_ok demo_bob_db.
Proof.
  constructor; unfold keyed, unique, refers, refers_opt, all_rows; simpl; intros; rows_cases; done || eauto.
Qed.

Definition demo_bob_login : res LoginResult * World :=
  @run (calm_env demo_time) _ (@Login demo_libraries demo_sessions (demo_request demo_token "") "a@b.c" "secret-1")
    (demo_world demo_bob_db).

Definition demo_bob_result : LoginResult :=
  match demo_bob_login.1 with Ok result => result | _ => MkLoginResult demo_bob "" end.

Definition demo_bob_return : res VisitorSession * World :=
  @run (calm_env demo_time) _ (GetCurrentSession (demo_request demo_token "")) demo_bob_login.2.

Lemma login_finds_reservations_witness :
  match demo_bob_return.1 with
  | Ok vs => canAccessReservation demo_bob_reservation vs = true
  | _ => False
  end.
Proof.
  assert (Hlog : demo_bob_login = (Ok demo_bob_result, demo_bob_login.2))
    by (apply run_pair; vm_compute; reflexivity).
  assert (Htok : Cookie (demo_request demo_token "") CookieName = Some (SessionToken demo_bob_result))
    by (vm_compute; reflexivity).
  assert (Hresp : @respects (calm_env demo_time) (calm_at demo_time) _
    (GetCurrentSession (demo_request demo_token "")) demo_bob_login.2 = true) by (vm_compute; reflexivity).
  pose proof (@login_finds_reservations demo_driver _ demo_libraries demo_sessions _
    (calm_env demo_time) (calm_env demo_time) (demo_request demo_token "") (demo_request demo_token "")
    "a@b.c" "secret-1" demo_bob_result demo_time (demo_world demo_bob_db) demo_bob_login.2
    demo_bob_return.1 demo_bob_return.2 eq_refl demo_bob_schema Hlog Htok Hresp
    (surjective_pairing demo_bob_return)) as (_ & s & _ & Hout).
  assert (Hok : match demo_bob_return.1 with Ok _ => true | _ => false end = true)
    by (vm_compute; reflexivity).
  assert (Hres : reservations (w_db demo_bob_return.2) !! uid 60 = Some demo_bob_reservation)
    by (vm_compute; reflexivity).
  destruct (_ <? _).
  - rewrite Hout in Hok. discriminate Hok.
  - destruct Hout as (vs & Hvs & _ & Hall). rewrite Hvs. apply (Hall (uid 60)); [exact Hres|].
    vm_compute. reflexivity.
Defined.

(** The operations of the session and auth services. *)
Inductive account_op :=
  | OpCreateSession | OpCurrentSession (r : Request) | OpAttachUser (s : VisitorSession) (u : UUID)
  | OpRegister (email password : string) | OpLogin (r : Request) (email password : string)
  | OpCurrentUser (s : VisitorSession).

Definition perform `{Libraries} `{SessionService} (op : account_op) : prog unit :=
  match op with
  | OpCreateSession => discard svc_CreateAnonymousSession
  | OpCurrentSession r => discard (svc_GetCurrentSession r)
  | OpAttachUser s u => discard (svc_AttachUser s u)
  | OpRegister email password => discard (Register email password)
  | OpLogin r email password => discard (Login r email password)
  | OpCurrentUser s => discard (GetCurrentUser s)
  end.

Lemma wp_discard_accounts {A} a (p : prog A) db (Post : res A -> St -> Prop) :
  wp a p Post (db, None) ->
  (forall r σ, Post r σ -> σ.2 = None /\ accounts_changed db σ.1 /\ r <> Panicked) ->
  wp a (discard p) (fun r σ => σ.2 = None /\ accounts_changed db σ.1 /\ r <> Panicked) (db, None).
Proof.
  intros Hp HQ. apply wp_bind. revert Hp. apply wp_mono. intros [x|e|] σ HP; apply HQ in HP;
    destruct HP as (? & ? & ?); (split; [done|split; done]).
Qed.

Lemma perform_wp `{PgtypeLaws} `{Libraries} (S : SessionService) `{!SessionLaws S} a op db :
  schema_ok db ->
  wp a (perform op) (fun r σ => σ.2 = None /\ accounts_changed db σ.1 /\ r <> Panicked) (db, None).
Proof.
  intros Hdb. destruct op; simpl; (eapply wp_discard_accounts;
    [first [by apply create_law|by apply current_law|by apply attach_law|by apply Register_wp
           |by apply Login_wp|apply GetCurrentUser_wp]|]).
  - intros [x|e|] σ (? & ? & Hr); by split_and!.
  - intros [x|e|] σ (? & ? & Hr); by split_and!.
  - intros [x|e|] σ (? & ? & Hr); by split_and!.
  - intros [x|e|] σ (? & ? & Hr); split_and!; try done. inversion Hr.
  - intros [x|e|] σ (? & ? & Hr); by split_and!.
  - intros [x|e|] σ [-> Hr]; split_and!; try done; by apply accounts_changed_refl.
Qed.

(** Sessions and accounts are kept apart from the inventory: in every
    environment their operations end, with no open transaction, in tables that
    satisfy the invariant and agree with those before on events, ticket types,
    seats and reservations with their rows. *)
Theorem accounts_leave_inventory `{PgtypeLaws} `{Libraries} (S : SessionService) `{!SessionLaws S}
    `{Env} op w r w' :
  w_saved w = None -> db_inv (w_db w) -> run (perform op) w = (r, w') ->
  r <> Panicked /\ w_saved w' = None /\ db_inv (w_db w') /\
  events (w_db w') = events (w_db w) /\ ticket_types (w_db w') = ticket_types (w_db w) /\
  seats (w_db w') = seats (w_db w) /\ reservations (w_db w') = reservations (w_db w) /\
  reservation_items (w_db w') = reservation_items (w_db w) /\
  reservation_seats (w_db w') = reservation_seats (w_db w).
Proof.
  intros Hs Hinv Hrun.
  pose proof (run_adversary_schema _ _ w r w' Hs (perform_wp S adversary op _ (inv_schema _ Hinv)) Hrun)
    as (Hs' & Hch & Hr).
  pose proof (accounts_changed_inv _ _ Hinv Hch) as Hinv'.
  destruct Hch as (He & Ht & Hse & Hre & Hi & Hrs & _). split_and!; try done. by apply st_of_saved.
Qed.

Definition demo_op : account_op := OpLogin (demo_request "" "") "a@b.c" "secret-1".

Lemma accounts_leave_inventory_witness :
  w_saved demo_register_run.2 = None /\ db_inv (w_db demo_register_run.2) /\
  reservations (w_db (@run (calm_env demo_time) _ (@perform demo_libraries demo_sessions demo_op)
    demo_register_run.2).2) = reservations (w_db demo_register_run.2).
Proof.
  assert (Hreg : db_inv (w_db demo_register_run.2)).
  { pose proof (run_adversary_schema _ _ (demo_world demo_db) demo_register_run.1 demo_register_run.2 eq_refl
      (Register_wp adversary "a@b.c" "secret-1" demo_db (inv_schema _ demo_db_inv))
      (surjective_pairing demo_register_run)) as (_ & Hch & _).
    exact (accounts_changed_inv _ _ demo_db_inv Hch). }
  assert (Hs : w_saved demo_register_run.2 = None) by (vm_compute; reflexivity).
  split; [exact Hs|]. split; [exact Hreg|].
  exact (proj1 (proj2 (proj2 (proj2 (proj2 (proj2 (proj2 (@accounts_leave_inventory demo_driver _
    demo_libraries demo_sessions _ (calm_env demo_time) demo_op demo_register_run.2 _ _ Hs Hreg
    (surjective_pairing _))))))))).
Defined.

(** ** The worker *)

(** The worker does not die and does no harm: whatever it observes and
    whatever fails, its loop neither panics nor returns an error, every batch
    moves the inventory by legal steps, and the invariant holds at the end. *)
Theorem worker_survives `{Pgtype} (S : ExpirationService) `{!ExpirationLaws S} `{Env} wk moments w :
  ready w -> runnable wk ->
  exists out w', run (Run wk moments) w = (Ok out, w') /\
    ready w' /\ rtc inventory_step (w_db w) (w_db w').
Proof.
  intros Hw [Hi Hb]. rewrite Run_loop by done. destruct (run (loop wk moments []) w) as [r w'] eqn:Hrun.
  pose proof (run_adversary _ _ w r w' Hw (loop_wp adversary wk moments [] _ (proj2 Hw) Hb) Hrun)
    as (Hs & Hst & out & ->).
  exists out, w'. split; [done|]. split; [|done]. split; [by apply st_of_saved|].
  exact (inventory_steps_inv _ _ Hst (proj2 Hw)).
Qed.

Definition demo_worker : ExpirationWorker := MkExpirationWorker (5 * Second) 1.

Definition demo_tick : moment := MkMoment false TickerFired.

Lemma worker_survives_witness :
  exists out w', @run (calm_env demo_after) _ (@Run (@ReservationExpiry demo_driver) demo_worker
      [demo_tick; MkMoment true CtxDone]) demo_held = (Ok out, w') /\
    ready w' /\ rtc inventory_step (w_db demo_held) (w_db w').
Proof.
  apply (@worker_survives demo_driver (@ReservationExpiry demo_driver) _ (calm_env demo_after)
    demo_worker [demo_tick; MkMoment true CtxDone] demo_held demo_held_ready). split; reflexivity.
Defined.

(** C16: the worker makes progress. At a fixed clock reading, n calm turns with
    batches of size b empty a backlog of at most n * b overdue reservations,
    the loop is still running, and its log accounts for every one of them. *)
Theorem worker_drains `{Pgtype} (S : ExpirationService) `{!ExpirationLaws S} `{Env} now wk moments w res w' :
  ready w -> runnable wk -> Forall (fun m => selected m = TickerFired) moments ->
  Z.of_nat (overdue_count now (w_db w)) <= Z.of_nat (length moments) * batchSize wk ->
  respects (calm_at now) (Run wk moments) w = true -> run (Run wk moments) w = (res, w') ->
  overdue_count now (w_db w') = 0%nat /\
  exists log, res = Ok (Running, log) /\ logged_count log = Z.of_nat (overdue_count now (w_db w)).
Proof.
  intros Hw [Hi Hb] Hall Hle Hresp Hrun. rewrite Run_loop in Hresp, Hrun by done.
  exact (run_wp _ _ _ w res w' Hw (loop_drains_wp now wk moments [] _ (proj2 Hw) Hb Hall Hle) Hresp Hrun).
Qed.

Definition demo_drained : res (worker_status * list log_entry) * World :=
  @run (calm_env demo_after) _ (@Run (@ReservationExpiry demo_driver) demo_worker
    [demo_tick; demo_tick; demo_tick]) demo_held.

Lemma worker_drains_witness :
  overdue_count demo_after (w_db demo_held) = 2%nat /\
  demo_drained.1 = Ok (Running, [BatchProcessed 1; BatchProcessed 1]) /\
  overdue_count demo_after (w_db demo_drained.2) = 0%nat.
Proof.
  assert (Htwo : overdue_count demo_after (w_db demo_held) = 2%nat) by (vm_compute; reflexivity).
  split; [exact Htwo|]. split; [vm_compute; reflexivity|].
  refine (proj1 (@worker_drains demo_driver (@ReservationExpiry demo_driver) _ (calm_env demo_after)
    demo_after demo_worker [demo_tick; demo_tick; demo_tick] demo_held demo_drained.1 demo_drained.2
    demo_held_ready (conj eq_refl eq_refl) _ _ _ (surjective_pairing demo_drained))).
  - repeat constructor.
  - rewrite Htwo. vm_compute. discriminate.
  - vm_compute. reflexivity.
Defined.

(** ** Catalog and inventory *)

(** C27: the public inventory tells the truth. On consistent tables GetInventory
    changes nothing and, unless a call fails, answers 404 exactly when the event
    does not exist; otherwise it lists each ticket type of the event with the
    units neither sold nor reserved, of which there are between zero and the
    total, and each seat of the event once, available exactly when no active
    reservation row holds it. *)
Theorem GetInventory_exact `{Collation} `{Env} clock eventID w r w' :
  w_saved w = None -> schema_ok (w_db w) ->
  respects (calm clock) (GetInventory eventID) w = true ->
  run (GetInventory eventID) w = (r, w') ->
  w_db w' = w_db w /\
  match r with
  | Ok inv =>
      (exists ts ss, inv = MkInventoryResponse (ticket_inventory <$> ts) (seat_inventory (w_db w) <$> ss) /\
        (forall t, t ∈ ts <-> ticket_types (w_db w) !! TicketType_ID t = Some t /\ TicketType_EventID t = eventID) /\
        (forall s, s ∈ ss <-> seats (w_db w) !! Seat_ID s = Some s /\ Seat_EventID s = eventID) /\
        NoDup (TicketType_ID <$> ts) /\ NoDup (Seat_ID <$> ss) /\
        (forall t, t ∈ ts -> 0 <= TInv_AvailableQuantity (ticket_inventory t) <= TicketType_TotalQuantity t) /\
        (forall s, s ∈ ss -> SInv_Status (seat_inventory (w_db w) s) = "available" <->
           forall k rs, reservation_seats (w_db w) !! k = Some rs ->
             ReservationSeat_SeatID rs = Seat_ID s -> active_seat rs = false))
  | Err e => e = Sentinel ErrEventNotFound /\ events (w_db w) !! eventID = None
  | Panicked => False
  end.
Proof.
  intros Hs Hdb Hresp Hrun.
  pose proof (run_calm_schema _ _ _ w r w' Hs (GetInventory_wp (calm clock) eventID _ Hdb) Hresp Hrun)
    as [Hσ Hr].
  split; [by injection Hσ|]. destruct r as [inv|e|]; [| |done].
  2: { destruct Hr as [[? _]|?]; done. }
  destruct Hr as [_ ->]. exists (ticket_types_of eventID (w_db w)), (seats_of eventID (w_db w)).
  split; [done|]. split_and!.
  - intros t. unfold ticket_types_of. rewrite (elem_of_select_key TicketType_ID) by apply Hdb.
    by rewrite bool_decide_eq_true.
  - intros s. unfold seats_of. rewrite (elem_of_select_key Seat_ID) by apply Hdb.
    by rewrite bool_decide_eq_true.
  - by apply select_ids_NoDup, tickets_keyed.
  - by apply select_ids_NoDup, seats_keyed.
  - intros t (k & Hk & _)%elem_of_select. pose proof (ticket_bounds _ _ _ Hdb Hk). simpl. lia.
  - intros s _. rewrite <- seat_holder_None. unfold seat_inventory. cbn [SInv_Status].
    destruct (seat_holder s (w_db w)) as [rs|] eqn:Hh; [|done]. split; [|done].
    apply (seat_holder_Some _ _ _ Hdb) in Hh as (k & _ & _ & Hact).
    unfold seat_status. unfold active_seat, active_status in Hact.
    destruct (bool_decide (ReservationSeat_Status rs = StatusConfirmed)); [done|].
    by destruct (bool_decide (ReservationSeat_Status rs = StatusReserved)).
Qed.

Definition demo_inventory : res InventoryResponse * World :=
  @run (calm_env demo_time) _ (GetInventory (uid 1)) demo_held.

Lemma GetInventory_exact_witness :
  (fun inv => (TInv_AvailableQuantity <$> Inv_TicketTypes inv, SInv_Status <$> Inv_Seats inv)) <$>
    match demo_inventory.1 with Ok inv => Some inv | _ => None end =
    Some ([7], ["reserved"; "reserved"; "available"]) /\
  w_db demo_inventory.2 = w_db demo_held.
Proof.
  split; [vm_compute; reflexivity|].
  assert (Hrun : @run (calm_env demo_time) _ (GetInventory (uid 1)) demo_held =
    (demo_inventory.1, demo_inventory.2)) by exact (surjective_pairing demo_inventory).
  assert (Hresp : @respects (calm_env demo_time) (calm (fun t => t =? demo_time)) _
    (GetInventory (uid 1)) demo_held = true) by (vm_compute; reflexivity).
  destruct (@GetInventory_exact demo_collation (calm_env demo_time) (fun t => t =? demo_time) (uid 1)
    demo_held demo_inventory.1 demo_inventory.2 (proj1 demo_held_ready)
    (inv_schema _ (proj2 demo_held_ready)) Hresp Hrun) as [Hsame _].
  exact Hsame.
Defined.

(** Creating seats is not atomic. When CreateSeats answers
    ErrInvalidSeatInput because of one bad entry, the seats of the entries
    before it have been created and stay: for every valid first entry at a free
    place of an existing event, the call with a blank second entry fails in a
    calm environment and leaves the first seat behind. *)
Theorem CreateSeats_partial `{Env} clock eventID section_ row number w r w' :
  w_saved w = None -> schema_ok (w_db w) -> is_Some (events (w_db w) !! eventID) ->
  TrimSpace section_ <> "" -> TrimSpace row <> "" -> TrimSpace number <> "" ->
  (forall k s, seats (w_db w) !! k = Some s ->
     seat_place s <> (eventID, TrimSpace section_, TrimSpace row, TrimSpace number)) ->
  let program := CreateSeats eventID
    (MkCreateSeatsRequest [MkCreateSeatRequest section_ row number; MkCreateSeatRequest "" "" ""]) in
  respects (calm clock) program w = true -> run program w = (r, w') ->
  r = Err (Sentinel ErrInvalidSeatInput) /\
  exists k s, seats (w_db w) !! k = None /\ seats (w_db w') !! k = Some s /\
    seat_place s = (eventID, TrimSpace section_, TrimSpace row, TrimSpace number).
Proof.
  intros Hs Hdb [ev Hev] H1 H2 H3 Hfree program Hresp Hrun.
  assert (Hwp : wp (calm clock) program (fun r σ => r = Err (Sentinel ErrInvalidSeatInput) /\
    exists k s, seats (w_db w) !! k = None /\ seats σ.1 !! k = Some s /\
      seat_place s = (eventID, TrimSpace section_, TrimSpace row, TrimSpace number)) (w_db w, None)).
  { apply wp_bind, require_event_wp; cbn [fst snd]; [by intros e [? _]|congruence|]. intros ev' _.
    unfold create_seat. cbn [for_each CSeats_Seats CSeat_Section CSeat_RowName CSeat_SeatNumber].
    rewrite !bool_decide_eq_false_2 by done. cbn [orb].
    apply wp_bind, wp_bind, wp_wrapf_sql; cbn [fst snd]; [by intros e [? _]|].
    intros ctx Hv Hc0; pose proof (undisturbed_fresh _ _ _ Hc0) as Hf; clear Hc0. pose proof (CreateSeat_ok ctx (w_db w) eventID (TrimSpace section_) (TrimSpace row)
      (TrimSpace number) Hdb Hv) as Hc.
    destruct (CreateSeat _ _ _ _ _ _) as [e|[s db']].
    - exfalso. destruct Hc as [[_ [Hid|(k & s & Hk & Hp)]]|[_ Hn]]; [|by apply (Hfree k s)|congruence].
      apply (fresh_not_used (calm clock) seats (w_db w) _ Hf eq_refl Hid). unfold fresh_id. intros. by to_prop.
    - destruct Hc as (-> & -> & Hnone & _). split; [done|].
      exists (ctx_new_id ctx), (new_seat_row ctx eventID (TrimSpace section_) (TrimSpace row) (TrimSpace number)).
      split_and!; [done|apply lookup_insert_eq|done]. }
  exact (run_calm_schema _ _ _ w r w' Hs Hwp Hresp Hrun).
Qed.

Definition demo_partial : res (list SeatResponse) * World :=
  @run (calm_env demo_time) _ (CreateSeats (uid 1)
    (MkCreateSeatsRequest [MkCreateSeatRequest "B" "1" "1"; MkCreateSeatRequest "" "" ""]))
    (demo_world demo_db).

Lemma CreateSeats_partial_witness :
  demo_partial.1 = Err (Sentinel ErrInvalidSeatInput) /\
  exists k s, seats demo_db !! k = None /\ seats (w_db demo_partial.2) !! k = Some s /\
    seat_place s = (uid 1, "B", "1", "1").
Proof.
  refine (@CreateSeats_partial (calm_env demo_time) (fun t => t =? demo_time) (uid 1) "B" "1" "1"
    (demo_world demo_db) demo_partial.1 demo_partial.2 eq_refl (inv_schema _ demo_db_inv) _ _ _ _ _ _
    (surjective_pairing demo_partial)).
  - by exists demo_event.
  - discriminate.
  - discriminate.
  - discriminate.
  - simpl. intros k s Hk. rows_cases; discriminate.
  - vm_compute. reflexivity.
Defined.
