(* ===== verification/Administration.v ===== *)
(** * Properties of the administration, the configuration and the worker's end

    The consistency report, seeding and resetting the stress fixture, the
    configuration of the processes, and how the worker stops. *)

From S2P Require Import Prelude GoRuntime DbTypes Schema Prog Wp Crypto SqlcReservations ReservationService Inventory Settlement Service ServiceFacts SqlcEvents Config NetHttp HttpServer Worker SqlcStress StressAdmin StressFacts StressReport StressRoundtrip Fixtures Correctness Application.
Local Open Scope string_scope.
Local Open Scope list_scope.
Local Open Scope Z_scope.

(** ** The consistency report *)

(** C28: each check of the consistency report is true exactly when the tables
    have the property it is named after: on arbitrary tables, also damaged
    ones, AssertConsistency changes nothing, and a report, at clock reading
    [now], decides the six properties; it is OK exactly when all hold and
    exactly when it lists no detail. It fails only when a call fails, outside
    local environments, or when the sum of two counters overflows int4. *)
Theorem AssertConsistency_decides `{Pgtype} `{Env} now appEnv w r w' :
  (forall n, wall_clock n = now) -> w_saved w = None -> run (AssertConsistency appEnv) w = (r, w') ->
  w_db w' = w_db w /\ w_saved w' = None /\
  match r with
  | Ok report => isLocal appEnv = true /\ decides now (w_db w) report
  | Err e => fault_err e \/ (e = Sentinel ErrStressAdminDisabled /\ isLocal appEnv = false) \/
             sum_overflows (w_db w)
  | Panicked => False
  end.
Proof.
  intros Hnow Hs Hrun. set (a := MkAssm false (fun t => t =? now) (fun _ => true)).
  assert (Hresp : respects a (AssertConsistency appEnv) w = true)
    by (apply respects_clock; [done|intros n; simpl; apply Z.eqb_eq, Hnow|done]).
  pose proof (run_calm_schema a _ _ w r w' Hs (AssertConsistency_decides_wp a appEnv (w_db w)) Hresp Hrun)
    as [Hσ Hr].
  split; [by injection Hσ|]. split; [apply st_of_saved; by rewrite Hσ|].
  destruct r as [rep|e|]; [| |done].
  - destruct Hr as (Hl & now' & Hn & Hd). apply Z.eqb_eq in Hn as ->. by split.
  - destruct Hr as [[_ He]|[He|He]]; auto.
Qed.

(** A database whose only ticket type has sold more than it has. *)
Definition demo_damaged : Database :=
  set_ticket_types {[ uid 2 := demo_tickets 8 3 ]} demo_db.

Definition demo_report : res ConsistencyResponse * World :=
  @run (calm_env demo_time) _ (@AssertConsistency demo_driver "test") (demo_world demo_damaged).

Lemma AssertConsistency_decides_witness :
  isLocal "test" = true /\
  match demo_report.1 with
  | Ok report => Cons_Checks report = MkConsistencyChecks false true true true true true /\
                 Cons_OK report = false
  | _ => False
  end /\
  ~ not_oversold demo_damaged.
Proof.
  assert (Hshape : exists report, demo_report.1 = Ok report /\
    Cons_Checks report = MkConsistencyChecks false true true true true true /\ Cons_OK report = false).
  { eexists. split; [vm_compute; reflexivity|by split]. }
  destruct Hshape as (report & Hrep & Hchecks & HOK).
  destruct (@AssertConsistency_decides demo_driver (calm_env demo_time) demo_time "test"
    (demo_world demo_damaged) demo_report.1 demo_report.2 (fun _ => eq_refl) eq_refl
    (surjective_pairing demo_report)) as (_ & _ & Hd).
  rewrite Hrep in *. split; [reflexivity|]. split; [by split|].
  destruct Hd as [_ Hd]. intros Hno%(decides_oversold _ _ _ Hd). by rewrite Hchecks in Hno.
Defined.

(** On the tables the service leaves, the report can only show late
    expiration. From every state that satisfies the invariant, in any
    environment, a report finds the five checks of the stored data true and is
    OK exactly when no reservation is still reserved a minute after its
    deadline; there is no report only when a call fails or outside local
    environments. *)
Theorem AssertConsistency_passes `{Pgtype} `{Env} now appEnv w r w' :
  (forall n, wall_clock n = now) -> ready w -> run (AssertConsistency appEnv) w = (r, w') ->
  match r with
  | Ok report =>
      TicketQuantityNotNegative (Cons_Checks report) = true /\
      TicketQuantityNotOversold (Cons_Checks report) = true /\
      NoDuplicateActiveSeats (Cons_Checks report) = true /\
      NoOrphanReservationItems (Cons_Checks report) = true /\
      NoOrphanReservationSeats (Cons_Checks report) = true /\
      (Cons_OK report = true <-> expired_in_time now (w_db w))
  | Err e => fault_err e \/ (e = Sentinel ErrStressAdminDisabled /\ isLocal appEnv = false)
  | Panicked => False
  end.
Proof.
  intros Hnow [Hs Hinv] Hrun. set (a := MkAssm false (fun t => t =? now) (fun _ => true)).
  assert (Hresp : respects a (AssertConsistency appEnv) w = true)
    by (apply respects_clock; [done|intros n; simpl; apply Z.eqb_eq, Hnow|done]).
  pose proof (run_calm_schema a _ _ w r w' Hs (AssertConsistency_wp a appEnv (w_db w) Hinv) Hresp Hrun)
    as [_ Hr].
  destruct r as [rep|e|]; [| |done].
  - destruct Hr as (_ & now' & Hn & ->). apply Z.eqb_eq in Hn as ->. split_and!; try done.
    apply no_rows_select.
  - destruct Hr as [[_ He]|He]; auto.
Qed.

Definition demo_late : Z := demo_time + 2 * demo_ttl.

Definition demo_late_report : res ConsistencyResponse * World :=
  @run (calm_env demo_late) _ (@AssertConsistency demo_driver "test") demo_held.

Lemma AssertConsistency_passes_witness :
  ready demo_held /\
  (exists report, demo_late_report.1 = Ok report /\ Cons_OK report = false /\
    NoDuplicateActiveSeats (Cons_Checks report) = true) /\
  ~ expired_in_time demo_late (w_db demo_held).
Proof.
  split; [exact demo_held_ready|].
  pose proof (@AssertConsistency_passes demo_driver (calm_env demo_late) demo_late "test" demo_held
    demo_late_report.1 demo_late_report.2 (fun _ => eq_refl) demo_held_ready
    (surjective_pairing demo_late_report)) as Hp.
  assert (HOK : match demo_late_report.1 with Ok rep => Cons_OK rep = false | _ => False end)
    by (vm_compute; reflexivity).
  destruct demo_late_report.1 as [rep|e|]; [|exfalso; exact HOK|exfalso; exact HOK].
  destruct Hp as (_ & _ & Hd & _ & _ & Hiff). split.
  - exists rep. split; [reflexivity|]. split; [exact HOK|exact Hd].
  - intros Hin. apply Hiff in Hin. rewrite HOK in Hin. discriminate.
Defined.

(** ** Seeding and resetting *)

(** C29: Reset removes the events with a matching name and exactly the rows
    that hang on them. From every state that satisfies the invariant and in any
    environment, an answer means that those rows and no others are gone and
    counts the events; a failure leaves all or nothing of that; and the
    invariant holds again, so the counters of the remaining stock still agree
    with its reservations. *)
Theorem Reset_clears `{Env} appEnv w r w' :
  ready w -> run (Reset appEnv) w = (r, w') ->
  ready w' /\
  match r with
  | Ok out => isLocal appEnv = true /\ cleared (w_db w) (w_db w') /\
      Reset_EventsDeleted out = Z.of_nat (length (List.filter fixture_name (rows (events (w_db w)))))
  | Err e =>
      (e = Sentinel ErrStressAdminDisabled /\ isLocal appEnv = false /\ w_db w' = w_db w) \/
      (fault_err e /\ (w_db w' = w_db w \/ cleared (w_db w) (w_db w')))
  | Panicked => False
  end.
Proof.
  intros [Hs Hinv] Hrun.
  pose proof (run_adversary_schema _ _ w r w' Hs (Reset_wp adversary appEnv _ Hinv) Hrun) as [Hs' Hr].
  fold (fixture_ids (w_db w)) in Hr. cbn [fst st_of] in Hr.
  pose proof (purge_inv _ Hinv (fixture_ids (w_db w))) as Hpinv.
  pose proof (purge_cleared _ Hinv) as Hcl. unfold ready. rewrite (st_of_saved _ Hs').
  destruct r as [out|e|]; [| |done].
  - destruct Hr as (Hl & -> & ->). by rewrite <- purged_fixtures.
  - destruct Hr as [(-> & Hl & ->)|[[_ He] [->| ->]]]; [by split_and!; [..|left]| |];
      (split; [done|right; split; [done|]]); [by left|by right].
Qed.

(** A fixture event beside the ordinary one. *)
Definition demo_fixture : Event := MkEvent (uid 20) "__stress_seed__:2a" demo_ts demo_ts demo_ts demo_ts.

Definition demo_fixture_db : Database := set_events (<[uid 20:=demo_fixture]> (events demo_db)) demo_db.

Lemma demo_fixture_inv : db_inv demo_fixture_db.
Proof.
  apply (catalog_step_inv demo_db); [|apply demo_db_inv]. apply (catalog_event demo_db demo_fixture).
  - vm_compute. reflexivity.
  - split; unfold keyed, unique, refers, refers_opt, all_rows; simpl; intros; rows_cases; done || eauto.
Qed.

Definition demo_reset : res ResetResponse * World :=
  @run (calm_env demo_time) _ (Reset "local") (demo_world demo_fixture_db).

Lemma Reset_clears_witness :
  ready (demo_world demo_fixture_db) /\ demo_reset.1 = Ok (MkResetResponse 1) /\
  events (w_db demo_reset.2) !! uid 20 = None /\ is_Some (events (w_db demo_reset.2) !! uid 1).
Proof.
  assert (Hready : ready (demo_world demo_fixture_db)) by (split; [reflexivity|exact demo_fixture_inv]).
  split; [exact Hready|]. assert (Hok : demo_reset.1 = Ok (MkResetResponse 1)) by (vm_compute; reflexivity).
  split; [exact Hok|].
  destruct (@Reset_clears (calm_env demo_time) "local" (demo_world demo_fixture_db) demo_reset.1 demo_reset.2
    Hready (surjective_pairing demo_reset)) as [_ Hr].
  rewrite Hok in Hr. destruct Hr as (_ & Hcl & _). split.
  - destruct (events (w_db demo_reset.2) !! uid 20) as [e|] eqn:He; [|reflexivity].
    apply (cleared_events _ _ Hcl) in He as [He Hn]. vm_compute in He. injection He as <-.
    vm_compute in Hn. discriminate.
  - exists demo_event. apply (cleared_events _ _ Hcl). split; vm_compute; reflexivity.
Defined.

Lemma prefix_split p s : String.prefix p s = true -> exists t, s = (p ++ t)%string.
Proof.
  revert s. induction p as [|a p IH]; intros s; [by exists s|].
  destruct s as [|b s]; [done|]. cbn [String.prefix]. destruct (ascii_dec a b) as [->|]; [|done].
  intros [t ->]%IH. by exists t.
Qed.

(** Reset also takes events that Seed has not made. The underscores of the
    prefix are wildcards of LIKE, so a calm Reset deletes every event whose
    name has "stress", "seed" and ":" at the places of the prefix, whatever
    characters stand at the places of its underscores: also an event whose name
    does not begin with the prefix. *)
Theorem Reset_overreaches `{Env} clock appEnv w r w' k e c1 c2 c3 c4 c5 rest :
  ready w -> isLocal appEnv = true ->
  Forall (fun c => continuation c = false) [c1; c2; c3; c4; c5] ->
  starts_character (list_ascii_of_string rest) ->
  [c1; c2; c3; c4; c5] <> ["_"; "_"; "_"; "_"; "_"]%char ->
  events (w_db w) !! k = Some e -> Event_Name e = stress_like c1 c2 c3 c4 c5 rest ->
  respects (calm clock) (Reset appEnv) w = true -> run (Reset appEnv) w = (r, w') ->
  String.prefix StressEventPrefix (Event_Name e) = false /\
  (exists out, r = Ok out) /\ events (w_db w') !! k = None.
Proof.
  intros [Hs Hinv] Hl Hc Hrest Hne He Hname Hresp Hrun. split.
  { apply not_true_iff_false. intros [t Ht]%prefix_split. rewrite Hname in Ht. apply Hne.
    unfold stress_like, StressEventPrefix in Ht. simpl in Ht. by injection Ht as -> -> -> -> ->. }
  pose proof (run_calm_schema _ _ _ w r w' Hs (Reset_wp (calm clock) appEnv _ Hinv) Hresp Hrun) as [_ Hr].
  fold (fixture_ids (w_db w)) in Hr. cbn [fst st_of] in Hr. destruct r as [out|err|]; [| |done].
  - split; [by exists out|]. destruct Hr as (_ & _ & ->).
    destruct (events (purge _ _) !! k) as [x|] eqn:Hx; [|done].
    apply (cleared_event _ Hinv) in Hx as [Hx Hn]. simplify_eq.
    unfold fixture_name in Hn. by rewrite Hname, LIKE_stress in Hn.
  - exfalso. destruct Hr as [(_ & Hno & _)|[[Hq _] _]]; [congruence|done].
Qed.

Definition demo_other_event : Event :=
  MkEvent (uid 20) "1.stress-seed (: final" demo_ts demo_ts demo_ts demo_ts.

Definition demo_other_db : Database := set_events (<[uid 20:=demo_other_event]> (events demo_db)) demo_db.

Definition demo_overreach : res ResetResponse * World :=
  @run (calm_env demo_time) _ (Reset "test") (demo_world demo_other_db).

Lemma Reset_overreaches_witness :
  events demo_other_db !! uid 20 = Some demo_other_event /\
  String.prefix StressEventPrefix "1.stress-seed (: final" = false /\
  events (w_db demo_overreach.2) !! uid 20 = None.
Proof.
  assert (Hinv : db_inv demo_other_db).
  { apply (catalog_step_inv demo_db); [|apply demo_db_inv]. apply (catalog_event demo_db demo_other_event).
    - vm_compute. reflexivity.
    - split; unfold keyed, unique, refers, refers_opt, all_rows; simpl; intros; rows_cases; done || eauto. }
  assert (He : events demo_other_db !! uid 20 = Some demo_other_event) by (vm_compute; reflexivity).
  destruct (@Reset_overreaches (calm_env demo_time) (fun t => t =? demo_time) "test" (demo_world demo_other_db)
    demo_overreach.1 demo_overreach.2 (uid 20) demo_other_event "1" "." "-" " " "(" " final"
    (conj eq_refl Hinv) eq_refl) as (Hp & _ & Hgone).
  - repeat constructor.
  - reflexivity.
  - discriminate.
  - exact He.
  - reflexivity.
  - vm_compute. reflexivity.
  - exact (surjective_pairing demo_overreach).
  - split; [exact He|]. split; [exact Hp|exact Hgone].
Defined.

(** C30: Reset undoes Seed. A successful Seed, in any environment, followed by a
    calm Reset deletes the new event and the older ones with a matching name, and
    leaves what a Reset without the Seed would have left: the older fixtures are
    cleared away from the tables before the Seed; if there were none, every table
    is as it was. *)
Theorem seed_then_reset `{Pgtype} (E1 E2 : Env) clock appEnv w out w1 r w2 :
  ready w -> @run E1 _ (Seed appEnv) w = (Ok out, w1) ->
  @respects E2 (calm clock) _ (Reset appEnv) w1 = true -> @run E2 _ (Reset appEnv) w1 = (r, w2) ->
  r = Ok (MkResetResponse (1 + Z.of_nat (length (List.filter fixture_name (rows (events (w_db w))))))) /\
  cleared (w_db w) (w_db w2) /\
  ((forall k e, events (w_db w) !! k = Some e -> fixture_name e = false) -> w_db w2 = w_db w).
Proof.
  intros [Hs Hinv] Hseed Hresp Hrun. pose proof (inv_schema _ Hinv) as Hdb.
  pose proof (@run_adversary_schema E1 _ _ _ w _ w1 Hs (Seed_wp adversary appEnv _ Hdb) Hseed)
    as (Hs1 & Hl & suffix & e & t & ss & Hsuf & Hsd & _). cbn [fst st_of] in Hsd.
  assert (Hinv1 : db_inv (w_db w1)) by (eapply catalog_steps_inv, Hinv; apply Hsd).
  pose proof (@run_calm_schema E2 _ _ _ _ w1 r w2 (st_of_saved _ Hs1)
    (Reset_wp (calm clock) appEnv _ Hinv1) Hresp Hrun) as [_ Hr]. cbn [fst st_of] in Hr.
  pose proof (seeded_fixture_ids _ _ _ _ _ _ Hinv Hinv1 Hsuf Hsd) as Hids.
  destruct r as [res|err|]; [| |done].
  - destruct Hr as (_ & -> & ->). fold (fixture_ids (w_db w1)).
    rewrite (purge_fixture _ _ _ _ _ _ Hdb Hsd _ _ Hids), (purged_fixture _ _ _ _ _ _ Hdb Hsd _ _ Hids).
    rewrite purged_fixtures by done. split; [done|]. split; [by apply purge_cleared|].
    intros Hno. by apply cleared_nothing.
  - exfalso. destruct Hr as [(_ & Hl' & _)|[[Hq _] _]]; [congruence|done].
Qed.

Lemma no_fixtures db :
  forallb (fun e => negb (fixture_name e)) (rows (events db)) = true ->
  forall k e, events db !! k = Some e -> fixture_name e = false.
Proof.
  rewrite forallb_forall. intros Hall k e He. apply negb_true_iff, Hall, list_elem_of_In, elem_of_rows. eauto.
Qed.

Definition demo_seed : res SeedResponse * World :=
  @run (calm_env demo_time) _ (@Seed demo_driver "test") demo_held.

Definition demo_seeded : SeedResponse :=
  match demo_seed.1 with Ok out => out | _ => MkSeedResponse "" "" [] end.

Definition demo_undone : res ResetResponse * World :=
  @run (calm_env demo_late) _ (Reset "test") demo_seed.2.

Lemma seed_then_reset_witness :
  demo_seed.1 = Ok demo_seeded /\ length (Seed_SeatIDs demo_seeded) = 100%nat /\
  demo_undone.1 = Ok (MkResetResponse 1) /\ w_db demo_undone.2 = w_db demo_held.
Proof.
  assert (Hok : demo_seed.1 = Ok demo_seeded) by (vm_compute; reflexivity).
  split; [exact Hok|]. split; [vm_compute; reflexivity|].
  destruct (@seed_then_reset demo_driver (calm_env demo_time) (calm_env demo_late) (fun t => t =? demo_late) "test"
    demo_held demo_seeded demo_seed.2 demo_undone.1 demo_undone.2 demo_held_ready) as (Hr & _ & Hsame).
  - transitivity (demo_seed.1, demo_seed.2); [exact (surjective_pairing demo_seed)|].
    rewrite Hok. reflexivity.
  - vm_compute. reflexivity.
  - exact (surjective_pairing demo_undone).
  - split; [exact Hr|]. apply Hsame, no_fixtures. vm_compute. reflexivity.
Defined.

(** Seed creates a whole fixture or nothing. From every state that satisfies
    the invariant, in any environment: an answer means that a new event with
    the prefix and a random suffix, its ticket type of 1000 units, and its
    hundred seats, one at each place of ten rows of ten, have been added and
    nothing else has changed, and the answer names them; after an error either
    the tables are unchanged or, with a lost acknowledgement, the whole fixture
    is there; the invariant holds in both cases. *)
Theorem Seed_atomic `{Pgtype} `{Env} appEnv w r w' :
  ready w -> run (Seed appEnv) w = (r, w') ->
  ready w' /\
  match r with
  | Ok out => isLocal appEnv = true /\ exists suffix e t ss, random_suffix suffix /\
      seeded (StressEventPrefix ++ suffix) (w_db w) (w_db w') e t ss /\ length ss = 100%nat /\
      out = MkSeedResponse (UUIDToString (Event_ID e)) (UUIDToString (TicketType_ID t))
              ((fun s => UUIDToString (Seat_ID s)) <$> ss)
  | Err _ => w_db w' = w_db w \/
      (isLocal appEnv = true /\ exists suffix e t ss, random_suffix suffix /\
        seeded (StressEventPrefix ++ suffix) (w_db w) (w_db w') e t ss)
  | Panicked => False
  end.
Proof.
  intros [Hs Hinv] Hrun.
  assert (Hlocal : isLocal appEnv = false -> Seed appEnv = Fail (Sentinel ErrStressAdminDisabled))
    by (intros Hl; unfold Seed; by rewrite Hl).
  pose proof (run_adversary_schema _ _ w r w' Hs (Seed_wp adversary appEnv _ (inv_schema _ Hinv)) Hrun)
    as [Hs' Hr]. cbn [fst st_of] in Hr.
  assert (Hgrown : forall name e t ss, seeded name (w_db w) (w_db w') e t ss -> ready w').
  { intros name e t ss Hsd. split; [by apply st_of_saved|]. eapply catalog_steps_inv, Hinv. apply Hsd. }
  assert (Hsame : w_db w' = w_db w -> ready w').
  { intros Heq. split; [by apply st_of_saved|]. by rewrite Heq. }
  destruct r as [out|err|]; [| |done].
  - destruct Hr as (Hl & suffix & e & t & ss & Hsuf & Hsd & ->). split; [by eapply Hgrown|].
    split; [done|]. exists suffix, e, t, ss. split_and!; [done|done| |done].
    rewrite <- (length_fmap (fun s => (Seat_Section s, Seat_RowName s, Seat_SeatNumber s))).
    by rewrite (seeded_places _ _ _ _ _ _ Hsd).
  - destruct Hr as [(_ & _ & Heq)|[_ [Heq|(suffix & e & t & ss & Hsuf & Hsd)]]]; [by eauto..|].
    split; [by eapply Hgrown|]. right. split; [|by exists suffix, e, t, ss].
    apply not_false_is_true. intros Hl. rewrite (Hlocal Hl) in Hrun. injection Hrun as _ <-.
    destruct (seeded_event _ _ _ _ _ _ Hsd) as (Hn & Hy & _). congruence.
Qed.

Definition demo_crash_env : Env := {|
  wall_clock _ := demo_time;
  db_clock _ := demo_time;
  gen_random_uuid n := uid_bytes (1000 + N.of_nat n);
  other_locks _ := [];
  fault n := if (n =? 20)%nat then Some (FaultPg "53300") else None;
  commit_outcome _ := Acked;
  rand_read _ n := inr (replicate n "042"%byte) |}.

Definition demo_crash : res SeedResponse * World :=
  @run demo_crash_env _ (@Seed demo_driver "test") demo_held.

(** The events of [db'] are among those of [db]. *)
Lemma no_new_event db db' :
  forallb (fun e => has_row (events db) (Event_ID e)) (rows (events db')) = true ->
  forall name e t ss, ~ seeded name db db' e t ss.
Proof.
  rewrite forallb_forall. intros Hall name e t ss Hsd.
  destruct (seeded_event _ _ _ _ _ _ Hsd) as (Hn & Hy & _).
  assert (Hin : In e (rows (events db'))) by (apply list_elem_of_In, elem_of_rows; eauto).
  apply Hall, has_row_spec in Hin as [x Hx]. congruence.
Qed.

Lemma Seed_atomic_witness :
  ready demo_held /\ demo_crash.1 = Err (Wrapped "seed stress fixture" (PgErr "53300")) /\
  w_db demo_crash.2 = w_db demo_held.
Proof.
  split; [exact demo_held_ready|].
  assert (Herr : demo_crash.1 = Err (Wrapped "seed stress fixture" (PgErr "53300"))) by (vm_compute; reflexivity).
  split; [exact Herr|].
  destruct (@Seed_atomic demo_driver demo_crash_env "test" demo_held demo_crash.1 demo_crash.2 demo_held_ready
    (surjective_pairing demo_crash)) as [_ Hr].
  rewrite Herr in Hr. destruct Hr as [Hsame|(_ & suffix & e & t & ss & _ & Hsd)]; [exact Hsame|].
  exfalso. refine (no_new_event (w_db demo_held) (w_db demo_crash.2) _ _ e t ss Hsd). vm_compute. reflexivity.
Defined.

(** ** The configuration *)

(** What a loaded configuration guarantees. Load accepts only positive batch
    sizes and non-empty addresses; its batch size is the low 32 bits of the
    number in the environment, so it is that number, and positive, when the
    number fits in int32. *)
Theorem Load_guarantees ParseDuration Getenv cfg :
  Load ParseDuration Getenv = Ok cfg ->
  DatabaseURL cfg <> "" /\ RedisAddr cfg <> "" /\
  exists n, requested_batch Getenv n /\ 0 < n <= 2 ^ 63 - 1 /\
    ExpirationWorkerBatchSize cfg = to_int32 n /\
    (n <= int32_max -> ExpirationWorkerBatchSize cfg = n /\ 0 < ExpirationWorkerBatchSize cfg).
Proof.
  intros HL. apply Load_Ok in HL as ((n & Hn & Hpos & Hb) & _ & Hdb & _ & Hra & _).
  split; [done|]. split; [done|]. exists n. split; [done|]. split.
  { split; [done|]. by apply (requested_batch_range Getenv). }
  split; [done|]. intros Hmax. rewrite Hb, to_int32_id; [done|].
  apply int32_range_spec. unfold int32_min, int32_max in *. lia.
Qed.

(** An environment of the process with the two required variables. *)
Definition demo_getenv (batch key : string) : string :=
  if key ==? "DATABASE_URL" then "postgres://localhost/tickets"
  else if key ==? "REDIS_ADDR" then "localhost:6379"
  else if key ==? "EXPIRATION_WORKER_BATCH_SIZE" then batch
  else "".

(** A parser of whole seconds that knows one text. *)
Definition demo_ParseDuration (s : string) : error + Z :=
  if s ==? "1m" then inr (60 * Second) else inl (ErrorString "invalid duration").

Definition demo_config (batch : string) : res Config := Load demo_ParseDuration (demo_getenv batch).

Lemma Load_guarantees_witness :
  exists cfg, demo_config "250" = Ok cfg /\ ExpirationWorkerBatchSize cfg = 250 /\
    exists n, requested_batch (demo_getenv "250") n /\ 0 < n <= 2 ^ 63 - 1.
Proof.
  eexists. split; [vm_compute; reflexivity|]. split; [reflexivity|].
  destruct (Load_guarantees demo_ParseDuration (demo_getenv "250")
    (match demo_config "250" with Ok cfg => cfg | _ => MkConfig "" "" "" "" "" "" 0 false 0 0 0 0 0 0 0 end))
    as (_ & _ & n & Hn & Hb & _).
  - vm_compute. reflexivity.
  - exists n. split; [exact Hn|exact Hb].
Defined.

(** C36: Load lets a batch size through that stops expiration. The conversion to
    int32 comes after the check, so with any positive multiple of 2^32 in the
    environment the configuration loads with batch size 0; a worker with that
    configuration changes nothing in any environment, however often its ticker
    fires, and logs a failure for each turn. *)
Theorem wrapped_batch_expires_nothing `{Pgtype} `{Env} ParseDuration Getenv cfg n moments w r w' :
  Load ParseDuration Getenv = Ok cfg -> requested_batch Getenv n -> n mod 2 ^ 32 = 0 ->
  0 < ExpirationWorkerInterval cfg ->
  Forall (fun m => selected m = TickerFired /\ ctx_err m = false) moments ->
  let worker := NewExpirationWorker (ExpirationWorkerInterval cfg) (ExpirationWorkerBatchSize cfg) in
  run (@Run ReservationExpiry worker moments) w = (r, w') ->
  ExpirationWorkerBatchSize cfg = 0 /\ w' = w /\
  r = Ok (Running, replicate (length moments) (BatchFailed (Sentinel ErrReservationInvariantBroken))).
Proof.
  intros HL Hn Hmod Hi Hall worker Hrun.
  apply Load_Ok in HL as ((n' & Hn' & _ & Hb) & _). unfold requested_batch in Hn, Hn'.
  rewrite Hn in Hn'. injection Hn' as <-.
  assert (Hzero : ExpirationWorkerBatchSize cfg = 0).
  { rewrite Hb. unfold to_int32. rewrite <- Z.add_mod_idemp_l, Hmod by done. reflexivity. }
  split; [done|]. subst worker. rewrite Hzero in Hrun.
  rewrite Run_loop, (loop_refused ReservationExpiry (Sentinel ErrReservationInvariantBroken)) in Hrun by done.
  injection Hrun as <- <-. done.
Qed.

Definition demo_wrapped : Config :=
  match demo_config "4294967296" with Ok cfg => cfg | _ => MkConfig "" "" "" "" "" "" 0 false 0 0 0 0 0 0 0 end.

Definition demo_stuck : res (worker_status * list log_entry) * World :=
  @run (calm_env demo_late) _ (@Run (@ReservationExpiry demo_driver)
    (MkExpirationWorker (ExpirationWorkerInterval demo_wrapped) (ExpirationWorkerBatchSize demo_wrapped))
    [demo_tick; demo_tick]) demo_held.

Lemma wrapped_batch_expires_nothing_witness :
  demo_config "4294967296" = Ok demo_wrapped /\ overdue_count demo_late (w_db demo_held) = 2%nat /\
  demo_stuck.2 = demo_held.
Proof.
  split; [vm_compute; reflexivity|]. split; [vm_compute; reflexivity|].
  refine (proj1 (proj2 (@wrapped_batch_expires_nothing demo_driver (calm_env demo_late) demo_ParseDuration
    (demo_getenv "4294967296") demo_wrapped 4294967296 [demo_tick; demo_tick] demo_held demo_stuck.1 demo_stuck.2
    _ _ _ _ _ (surjective_pairing demo_stuck)))).
  - vm_compute. reflexivity.
  - vm_compute. reflexivity.
  - reflexivity.
  - vm_compute. reflexivity.
  - repeat constructor.
Defined.

(** ** The end of the worker's loop *)

(** C18: the worker stops when its context is done, and stops cleanly. If the
    select of some turn sees the context done, Run returns without an error
    after at most one batch per turn, whatever the environment does; no
    transaction is left open and the invariant holds; and nothing that would
    come later makes a difference. *)
Theorem worker_stops `{Pgtype} (S : ExpirationService) `{!ExpirationLaws S} `{Env}
    wk before m after w r w' :
  ready w -> runnable wk -> selected m = CtxDone ->
  run (Run wk (before ++ m :: after)) w = (r, w') ->
  (exists out, r = Ok (Returned, out) /\ (length out <= length before + 1)%nat) /\
  ready w' /\ run (Run wk (before ++ [m])) w = (r, w').
Proof.
  intros [Hs Hinv] [Hi Hb] Hm Hrun. rewrite Run_loop in * by done.
  pose proof (run_adversary_schema _ _ w r w' Hs (loop_stops_wp adversary wk before m after [] _ Hinv Hb Hm) Hrun)
    as (Hs' & Hst & Hout).
  split; [done|]. split; [|by rewrite <- (loop_cut wk before m after)].
  split; [by apply st_of_saved|]. by eapply inventory_steps_inv.
Qed.

Definition demo_done : moment := MkMoment false CtxDone.

Definition demo_stopped : res (worker_status * list log_entry) * World :=
  @run (calm_env demo_late) _ (@Run (@ReservationExpiry demo_driver) demo_worker
    ([demo_tick] ++ demo_done :: [demo_tick; demo_tick])) demo_held.

Lemma worker_stops_witness :
  demo_stopped.1 = Ok (Returned, [BatchProcessed 1; BatchProcessed 1]) /\ ready demo_stopped.2.
Proof.
  split; [vm_compute; reflexivity|].
  exact (proj1 (proj2 (@worker_stops demo_driver (@ReservationExpiry demo_driver) _ (calm_env demo_late)
    demo_worker [demo_tick] demo_done [demo_tick; demo_tick] demo_held demo_stopped.1 demo_stopped.2
    demo_held_ready (conj eq_refl eq_refl) eq_refl (surjective_pairing demo_stopped)))).
Defined.
