(* ===== verification/System.v ===== *)
(** * The whole system

    The processes together: HTTP requests to any endpoint and turns of the
    expiration worker, one after the other, on one database. *)

From S2P Require Import Prelude GoRuntime DbTypes Schema Prog Wp Crypto SqlcReservations ReservationService Inventory Settlement Service ServiceFacts SqlcEvents SqlcAccounts Config NetHttp HttpServer Sessions Auth Worker Events SqlcStress StressAdmin StressFacts Handlers HandlerFacts Fixtures Correctness Application.
Local Open Scope string_scope.
Local Open Scope list_scope.
Local Open Scope Z_scope.

(** ** Histories *)

(** What may happen to the database. *)
Inductive happening :=
  | Served (ttl : Z) (appEnv : string) (e : endpoint) (r : Request)
  | Worked (wk : ExpirationWorker) (moments : list moment).

(** Workers that were configured with positive numbers. *)
Definition sensible (h : happening) : Prop :=
  match h with Served _ _ _ _ => True | Worked wk _ => runnable wk end.

Section system.
Context `{PgtypeLaws} `{Collation} `{Libraries} (S : SessionService) `{!SessionLaws S}
  `{JsonBody RegisterRequest} `{JsonBody LoginRequest} `{JsonBody QuantityReservationRequest}
  `{JsonBody SeatReservationRequest} `{JsonBody CreateEventRequest} `{JsonLaws}
  `{JsonBody CreateSeatsRequest}.

Definition happen (h : happening) : prog unit :=
  match h with
  | Served ttl appEnv e r => let* _ := serve_http ttl appEnv e r in Ret tt
  | Worked wk moments => let* _ := @Run ReservationExpiry wk moments in Ret tt
  end.

Fixpoint system (hs : list happening) : prog unit :=
  match hs with [] => Ret tt | h :: hs' => let* _ := happen h in system hs' end.

Lemma happen_wp a h db :
  db_inv db -> sensible h ->
  wp a (happen h) (fun r σ => r = Ok tt /\ σ.2 = None /\ db_inv σ.1) (db, None).
Proof.
  intros Hinv Hh. destruct h as [ttl appEnv e r|wk moments]; apply wp_bind.
  - eapply wp_mono, serve_http_wp; [|done].
    intros res σ (rid & code & p & cks & ms & s' & -> & _ & _ & _ & _ & _ & Hσ & Hi & _). by split.
  - destruct Hh as [Hi Hb]. rewrite Run_loop by done. eapply wp_mono, loop_wp; [|done..]. intros res σ (Hσ & Hst & out & ->).
    split; [done|]. split; [done|]. by eapply inventory_steps_inv.
Qed.

Lemma system_wp a hs db :
  db_inv db -> Forall sensible hs ->
  wp a (system hs) (fun r σ => r = Ok tt /\ σ.2 = None /\ db_inv σ.1) (db, None).
Proof.
  intros Hinv Hhs. revert db Hinv. induction Hhs as [|h hs Hh Hhs IH]; intros db Hinv; [done|].
  apply wp_bind. eapply wp_mono, happen_wp; [|done..].
  intros r [db' saved] (-> & Hσ & Hi). cbn [fst snd] in *. subst saved. by apply IH.
Qed.
End system.

(** C4: the whole system stays well-formed. From tables that satisfy the
    invariant, after any sequence of requests to any endpoint (also the
    administration's) and turns of workers, in any environment (clock,
    identifiers, faults, fate of commits): nothing has panicked, no transaction
    is open, every table satisfies its keys, references, uniqueness, CHECK and
    int4 constraints, the counters of every ticket type are the sums of its
    reserved and confirmed items within its total, and each seat is held at
    most once. *)
Theorem system_well_formed `{PgtypeLaws} `{Collation} `{Libraries} (S : SessionService) `{!SessionLaws S}
    `{JsonBody RegisterRequest} `{JsonBody LoginRequest} `{JsonBody QuantityReservationRequest}
    `{JsonBody SeatReservationRequest} `{JsonBody CreateEventRequest} `{JsonLaws}
    `{JsonBody CreateSeatsRequest} `{Env} hs w r w' :
  w_saved w = None -> db_inv (w_db w) -> Forall sensible hs -> run (system S hs) w = (r, w') ->
  r = Ok tt /\ w_saved w' = None /\ schema_ok (w_db w') /\
  (forall k t, ticket_types (w_db w') !! k = Some t ->
    TicketType_ReservedQuantity t = units StatusReserved k (w_db w') /\
    TicketType_SoldQuantity t = units StatusConfirmed k (w_db w') /\
    TicketType_SoldQuantity t + TicketType_ReservedQuantity t <= TicketType_TotalQuantity t) /\
  (forall i j s s', reservation_seats (w_db w') !! i = Some s -> reservation_seats (w_db w') !! j = Some s' ->
    active_seat s = true -> active_seat s' = true ->
    ReservationSeat_SeatID s = ReservationSeat_SeatID s' -> i = j).
Proof.
  intros Hs Hinv Hhs Hrun.
  pose proof (run_adversary_schema _ _ w r w' Hs (system_wp S adversary hs _ Hinv Hhs) Hrun)
    as (-> & Hs' & Hinv'). cbn [fst st_of] in Hinv'. pose proof (inv_schema _ Hinv') as Hdb.
  split; [done|]. split; [by apply st_of_saved|]. split; [done|]. split.
  - intros k t Ht. pose proof (ticket_bounds _ _ _ Hdb Ht).
    split; [by apply (inv_stock _ Hinv')|]. split; [by apply (inv_stock _ Hinv')|]. lia.
  - intros i j s s' Hi Hj Ha Ha' Heq. by eapply (rseats_unique _ Hdb).
Qed.

(** A purchase that the worker expires, and a visitor without a session. *)
Definition demo_happenings : list happening :=
  [Served demo_ttl "test" PostReservationQuantity (demo_request demo_token "quantity");
   Worked demo_worker [demo_tick; MkMoment false CtxDone];
   Served demo_ttl "production" PostReservationQuantity (demo_request "" "quantity")].

Definition demo_system : res unit * World :=
  @run (calm_env demo_time) _ (@system demo_driver demo_collation demo_libraries demo_sessions
    _ _ _ _ _ _ _ demo_happenings) (demo_world demo_api_db).

Lemma system_well_formed_witness :
  ticket_types (w_db demo_system.2) !! uid 2 = Some (demo_tickets 0 3) /\
  units StatusReserved (uid 2) (w_db demo_system.2) = 3.
Proof.
  assert (Ht : ticket_types (w_db demo_system.2) !! uid 2 = Some (demo_tickets 0 3))
    by (vm_compute; reflexivity).
  split; [exact Ht|].
  destruct (@system_well_formed demo_driver _ demo_collation demo_libraries demo_sessions _ _ _ _ _ _ _ _ _
    (calm_env demo_time) demo_happenings (demo_world demo_api_db) demo_system.1 demo_system.2
    eq_refl demo_api_inv) as (_ & _ & _ & Hstock & _).
  - repeat constructor.
  - exact (surjective_pairing demo_system).
  - symmetry. exact (proj1 (Hstock _ _ Ht)).
Defined.

(** ** Request identifiers *)

Definition is_hex (c : ascii) : bool :=
  let n := N_of_ascii c in ((48 <=? n) && (n <=? 57) || (97 <=? n) && (n <=? 102))%N.

(** The character at each place of a version 4 identifier: dashes, the version,
    the variant, hexadecimal digits. *)
Definition v4_character (i : nat) (c : ascii) : bool :=
  if bool_decide (i ∈ [8; 13; 18; 23]%nat) then Ascii.eqb c "-"
  else if (i =? 14)%nat then Ascii.eqb c "4"
  else if (i =? 19)%nat then bool_decide (c ∈ ["8"; "9"; "a"; "b"]%char)
  else is_hex c.

Definition uuid_v4 (s : string) : bool :=
  (String.length s =? 36)%nat && forallb id (imap v4_character (list_ascii_of_string s)).

(** The two digits of a byte, plain and with the bits of newRequestID. *)
Definition digits_hex (v : Z) : bool :=
  is_hex (hex_digit (Z.to_N (Z.shiftr v 4))) && is_hex (hex_digit (Z.to_N (Z.land v 15))).

Lemma plain_digits b : digits_hex (byte_value b) = true.
Proof. apply (all_bytes_spec (fun b => digits_hex (byte_value b))). vm_compute. reflexivity. Qed.

Definition version_digits (v : Z) : bool :=
  Ascii.eqb (hex_digit (Z.to_N (Z.shiftr (Z.lor (Z.land v 0x0f) 0x40) 4))) "4" &&
  digits_hex (Z.lor (Z.land v 0x0f) 0x40).

Lemma version_bits b : version_digits (byte_value b) = true.
Proof. apply (all_bytes_spec (fun b => version_digits (byte_value b))). vm_compute. reflexivity. Qed.

Definition variant_digits (v : Z) : bool :=
  bool_decide (hex_digit (Z.to_N (Z.shiftr (Z.lor (Z.land v 0x3f) 0x80) 4)) ∈ ["8"; "9"; "a"; "b"]%char) &&
  digits_hex (Z.lor (Z.land v 0x3f) 0x80).

Lemma variant_bits b : variant_digits (byte_value b) = true.
Proof. apply (all_bytes_spec (fun b => variant_digits (byte_value b))). vm_compute. reflexivity. Qed.

(** The dashes of newRequestID. *)
Definition dashed (encoded : string) : string :=
  (substr 0 8 encoded ++ "-" ++ substr 8 12 encoded ++ "-" ++ substr 12 16 encoded ++ "-" ++
   substr 16 20 encoded ++ "-" ++ substr 20 32 encoded)%string.

(** The place of each digit after the dashes. *)
Definition digit_place (i : nat) : nat :=
  (i + (if (i <? 8) then 0 else if (i <? 12) then 1 else if (i <? 16) then 2 else if (i <? 20) then 3 else 4))%nat.

Lemma uuid_v4_dashed cs :
  length cs = 32%nat -> Forall (fun ic => v4_character (digit_place ic.1) ic.2 = true) (imap pair cs) ->
  uuid_v4 (dashed (string_of_list_ascii cs)) = true.
Proof.
  intros Hlen. do 32 (destruct cs as [|? cs]; [discriminate|]). destruct cs; [clear Hlen|discriminate].
  cbn [imap compose]. rewrite !Forall_cons. cbn [fst snd].
  intros H. repeat match type of H with _ /\ _ => let H1 := fresh in destruct H as [H1 H] end. clear H.
  unfold uuid_v4, dashed. simpl. unfold v4_character in *. simpl in *.
  repeat (apply andb_true_intro; split); done.
Qed.

Lemma place_hex n c :
  (n <? 32)%nat && negb (n =? 12)%nat && negb (n =? 16)%nat = true -> is_hex c = true ->
  v4_character (digit_place n) c = true.
Proof.
  intros Hn Hc. do 32 (destruct n as [|n]; [first [exact Hc|discriminate Hn]|]). discriminate Hn.
Qed.

Lemma v4_digits bs :
  length bs = 16%nat ->
  Forall (fun ic => v4_character (digit_place ic.1) ic.2 = true)
    (imap pair (list_ascii_of_string (hex_EncodeToString (set_uuid_bits (byte_value <$> bs))))).
Proof.
  intros Hlen. unfold hex_EncodeToString. rewrite list_ascii_of_string_of_list_ascii.
  do 16 (destruct bs as [|? bs]; [discriminate|]). destruct bs; [clear Hlen|discriminate].
  cbn -[v4_character digit_place hex_digit Z.shiftr Z.land Z.lor byte_value Z.to_N].
  pose proof (fun x => proj1 (andb_prop _ _ (plain_digits x))) as Hhigh.
  pose proof (fun x => proj2 (andb_prop _ _ (plain_digits x))) as Hlow.
  pose proof (fun x => andb_prop _ _ (version_bits x)) as Hversion.
  pose proof (fun x => andb_prop _ _ (variant_bits x)) as Hvariant.
  repeat (apply Forall_cons; split); cbn [fst snd]; [..|by apply Forall_nil];
    try (apply place_hex; [reflexivity|first [apply Hhigh|apply Hlow]]).
  - apply Hversion.
  - apply place_hex; [reflexivity|]. exact (proj2 (andb_prop _ _ (proj2 (Hversion _)))).
  - apply Hvariant.
  - apply place_hex; [reflexivity|]. exact (proj2 (andb_prop _ _ (proj2 (Hvariant _)))).
Qed.

Lemma length_digits bs :
  length bs = 16%nat ->
  length (list_ascii_of_string (hex_EncodeToString (set_uuid_bits (byte_value <$> bs)))) = 32%nat.
Proof.
  intros Hlen. unfold hex_EncodeToString. rewrite list_ascii_of_string_of_list_ascii.
  do 16 (destruct bs as [|? bs]; [discriminate|]). destruct bs; [reflexivity|discriminate].
Qed.

(** Request identifiers are well formed. In every environment newRequestID
    returns a string and leaves the tables alone: a version 4 UUID with the
    RFC 4122 variant, 36 lower-case characters with dashes at their places,
    whatever bytes the random source gives; and the instant when it gives none. *)
Theorem newRequestID_well_formed `{Env} w r w' :
  run newRequestID w = (r, w') ->
  w_db w' = w_db w /\ exists rid, r = Ok rid /\
    match rand_read (w_tick w) 16 with
    | inr _ => uuid_v4 rid = true
    | inl _ => rid = format_instant (wall_clock (S (w_tick w)))
    end.
Proof.
  unfold newRequestID, try. rewrite !run_bind, run_catch. simpl.
  destruct (rand_read (w_tick w) 16) as [text|bs]; cbn; intros [= <- <-]; (split; [done|]).
  - by eexists.
  - eexists. split; [done|].
    assert (Hlen : length (take 16 (bs ++ replicate 16 "000"%byte)) = 16%nat) by apply length_rand_result.
    rewrite <- (string_of_list_ascii_of_string (hex_EncodeToString _)).
    exact (uuid_v4_dashed _ (length_digits _ Hlen) (v4_digits _ Hlen)).
Qed.

Definition demo_request_id : res string * World :=
  @run (calm_env demo_time) _ newRequestID (demo_world demo_db).

Lemma newRequestID_well_formed_witness :
  demo_request_id.1 = Ok "2a2a2a2a-2a2a-4a2a-aa2a-2a2a2a2a2a2a" /\
  uuid_v4 "2a2a2a2a-2a2a-4a2a-aa2a-2a2a2a2a2a2a" = true.
Proof.
  assert (Hok : demo_request_id.1 = Ok "2a2a2a2a-2a2a-4a2a-aa2a-2a2a2a2a2a2a") by (vm_compute; reflexivity).
  split; [exact Hok|].
  destruct (@newRequestID_well_formed (calm_env demo_time) (demo_world demo_db) demo_request_id.1
    demo_request_id.2 (surjective_pairing demo_request_id)) as (_ & rid & Hrid & Hv4).
  rewrite Hok in Hrid. injection Hrid as <-. exact Hv4.
Defined.
