(* ===== verification/Processes.v ===== *)
(** * Properties of the processes and of the routes

    What a supervisor sees of cmd/worker and cmd/api, and what a request reaches. *)

From S2P Require Import Prelude GoRuntime DbTypes Schema Prog Wp Crypto SqlcReservations ReservationService Inventory Settlement Service ServiceFacts SqlcEvents SqlcAccounts Config NetHttp HttpServer Sessions Auth Worker Events SqlcStress StressAdmin StressFacts Handlers Routes Process HandlerFacts Fixtures Correctness Application Administration System.
Local Open Scope string_scope.
Local Open Scope list_scope.
Local Open Scope Z_scope.
Local Open Scope process_scope.

(** ** cmd/worker *)

Section worker.
Context `{Pgtype} `{Pgxpool}.
Variables (a : assm) (ParseDuration : string -> error + Z) (Getenv : string -> string).

(** How the process of the worker ends, from tables [db]. *)
Definition worker_ends (db : Database) (_ : list event) (out : outcome unit) (σ : St) : Prop :=
  σ.2 = None /\ rtc inventory_step db σ.1 /\
  match out with
  | Exit code => code = 1 /\ σ.1 = db /\
      forall cfg, Load ParseDuration Getenv = Ok cfg -> refused (DatabaseURL cfg) \/ quiet a = false
  | Crash => exists cfg, Load ParseDuration Getenv = Ok cfg /\ ExpirationWorkerInterval cfg <= 0
  | Value _ | Waiting => exists cfg, Load ParseDuration Getenv = Ok cfg /\ 0 < ExpirationWorkerInterval cfg
  end.

Lemma worker_lines_lines level log : forallb is_line (worker_lines level log) = true.
Proof. apply forallb_forall. intros e He. apply list_elem_of_In, list_elem_of_fmap in He as (e' & -> & _). done. Qed.

Lemma Info_wp {B} level msg (k : unit -> process B) Q σ :
  (forall es, forallb is_line es = true -> pwp a (k tt) (fun es' out => Q (es ++ es') out) σ) ->
  pwp a (let% x := Info level msg in k x) Q σ.
Proof. intros Hk. unfold Info. apply pwp_emit. destruct level; by apply Hk. Qed.

Lemma worker_main_wp moments db :
  db_inv db ->
  pwp a (worker_main ParseDuration Getenv moments) (ends_well (worker_ends db)) (db, None).
Proof.
  intros Hinv. apply start_wp; [done|by intros|].
  intros cfg Hcfg. unfold worker_body. apply Info_wp. intros es Hes.
  apply pwp_perform. eapply wp_mono, Run_wp; [|exact Hinv].
  intros res σ (Hσ & Hst & Hres). simpl in Hres.
  destruct (ExpirationWorkerInterval cfg <=? 0) eqn:Hi; to_prop.
  - subst res. split; [intros held; by rewrite app_nil_r, replay_lines|]. split_and!; [done..|]. by exists cfg.
  - destruct Hres as [[status log] ->]. apply pwp_emit.
    assert (Hend : exists cfg, Load ParseDuration Getenv = Ok cfg /\ 0 < ExpirationWorkerInterval cfg) by by exists cfg.
    destruct status; [apply pwp_ret; by split_and!|].
    unfold Info, emit. apply pwp_ret. split; [|by split_and!]. intros held.
    rewrite replay_app, replay_lines, replay_app, replay_lines by (done || apply worker_lines_lines).
    by apply replay_lines; destruct (ConfigureLogger _).
Qed.
End worker.


#[local] Instance demo_pgxpool : Pgxpool := {|
  pgxpool_ParseConfig url := None;
  pgxpool_NewWithConfig url := None |}.

(** The environment of the example with another interval. *)
Definition demo_variables (interval key : string) : string :=
  if key ==? "EXPIRATION_WORKER_INTERVAL" then interval else demo_getenv "1" key.

(** A parser that knows two texts. *)
Definition demo_durations (s : string) : error + Z :=
  if s ==? "0s" then inr 0 else demo_ParseDuration s.

Definition demo_worker_process (interval : string) : res (list event * outcome unit) * World :=
  @run (calm_env demo_late) _ (@worker_main demo_driver demo_pgxpool demo_durations (demo_variables interval)
    [demo_tick; MkMoment false CtxDone]) demo_held.

(** What the process leaves behind. *)
Definition process_outcome (r : res (list event * outcome unit) * World) : option (outcome unit) :=
  match r.1 with Ok (_, out) => Some out | _ => None end.


(** C37: Load lets an interval through with which the worker crashes. It does not
    test that EXPIRATION_WORKER_INTERVAL is positive, and time.NewTicker panics
    otherwise: with such a configuration and working connections the worker
    crashes at once, after it has closed what it opened, and expires nothing. *)
Theorem unchecked_interval_crashes `{Pgtype} `{Pgxpool} `{Env} clock ParseDuration Getenv cfg moments w r w' :
  ready w -> Load ParseDuration Getenv = Ok cfg -> ExpirationWorkerInterval cfg <= 0 ->
  ~ refused (DatabaseURL cfg) ->
  respects (calm clock) (worker_main ParseDuration Getenv moments) w = true ->
  run (worker_main ParseDuration Getenv moments) w = (r, w') ->
  exists es, r = Ok (es, Crash) /\ tidy es (@Crash unit).
Proof.
  intros Hw Hcfg Hi Hopen Hresp Hrun.
  pose proof (run_wp (calm clock) _ _ w r w' Hw (worker_main_wp (calm clock) ParseDuration Getenv moments _ (proj2 Hw))
    Hresp Hrun) as (es & out & -> & Ht & Hs & Hst & Hout).
  exists es. destruct out as [x|code| |].
  - destruct Hout as (cfg' & Hcfg' & Hi'). assert (cfg' = cfg) as -> by congruence. lia.
  - destruct Hout as (_ & _ & Hwhy). by destruct (Hwhy cfg Hcfg).
  - by split.
  - destruct Hout as (cfg' & Hcfg' & Hi'). assert (cfg' = cfg) as -> by congruence. lia.
Qed.

Lemma unchecked_interval_crashes_witness :
  process_outcome (demo_worker_process "0s") = Some Crash.
Proof.
  destruct (@unchecked_interval_crashes demo_driver demo_pgxpool (calm_env demo_late) (fun _ => true) demo_durations
    (demo_variables "0s") (match Load demo_durations (demo_variables "0s") with Ok cfg => cfg | _ => demo_wrapped end)
    [demo_tick; MkMoment false CtxDone] demo_held (demo_worker_process "0s").1 (demo_worker_process "0s").2
    demo_held_ready) as (es & Hout & _).
  - vm_compute. reflexivity.
  - vm_compute. discriminate.
  - intros [Hp|Hn]; [by apply Hp|by apply Hn].
  - vm_compute. reflexivity.
  - exact (surjective_pairing _).
  - unfold process_outcome. rewrite Hout. reflexivity.
Defined.

(** ** cmd/api *)

Section api.
Context `{PgtypeLaws} `{Collation} `{Libraries} `{Pgxpool}
  `{JsonBody RegisterRequest} `{JsonBody LoginRequest} `{JsonBody QuantityReservationRequest}
  `{JsonBody SeatReservationRequest} `{JsonBody CreateEventRequest} `{JsonLaws}
  `{JsonBody CreateSeatsRequest}.
Variables (a : assm) (ParseDuration : string -> error + Z) (Getenv : string -> string).

Lemma serve_all_wp cfg requests db :
  db_inv db ->
  wp a (serve_all cfg requests) (fun r σ => r = Ok tt /\ σ.2 = None /\ db_inv σ.1) (db, None).
Proof.
  revert db. induction requests as [|r requests IH]; intros db Hinv; [done|]. apply wp_bind.
  assert (Hone : forall {A} (p : prog A), wp a p (fun _ σ => σ.2 = None /\ db_inv σ.1) (db, None) ->
    wp a (let* _ := catch p in Ret tt) (fun r σ => match r with
      | Ok _ => wp a (serve_all cfg requests) (fun r σ => r = Ok tt /\ σ.2 = None /\ db_inv σ.1) σ
      | _ => False end) (db, None)).
  { intros A p Hp. apply wp_bind, wp_catch. eapply wp_mono, Hp. intros _ [db1 saved] [Hs Hinv1].
    simpl in *. subst saved. by apply IH. }
  unfold api_router, ServeHTTP. destruct (dispatch _ _) as [[e params]|]; [|by apply IH].
  eapply wp_mono; [|apply Hone; eapply wp_mono, serve_http_wp; [|done]].
  - intros res σ Hres. by destruct res.
  - intros res σ (rid & code & p & cks & ms & s' & _ & _ & _ & _ & _ & _ & Hs & Hinv1 & _). done.
Qed.

(** How the process of the API ends, whatever [life] and [shutdown] are. *)
Definition api_ends (life : server_life) (shutdown : option error) (es : list event) (out : outcome unit)
    (σ : St) : Prop :=
  σ.2 = None /\ db_inv σ.1 /\
  match out with
  | Exit code => code = 1 /\ (shutdown = None ->
      forall cfg, Load ParseDuration Getenv = Ok cfg -> refused (DatabaseURL cfg) \/ quiet a = false)
  | Value _ => shutdown = None /\ forall err, life = ListenFails err -> ErrorLine "api server failed" err ∈ es
  | Crash | Waiting => False
  end.

Lemma api_ends_more life shutdown before es after out σ :
  api_ends life shutdown es out σ -> api_ends life shutdown (before ++ es ++ after) out σ.
Proof.
  intros (Hs & Hinv & Hout). split; [done|]. split; [done|]. destruct out; [|done..].
  destruct Hout as [Hd Hl]. split; [done|]. intros err Herr. rewrite !elem_of_app. right. left. by apply Hl.
Qed.

(** The end of main, after the server is done. *)
Lemma shutdown_wp life shutdown es db :
  db_inv db -> (forall held, replay es held = Some held) ->
  (forall err, life = ListenFails err -> ErrorLine "api server failed" err ∈ es) ->
  pwp a (with_resource ShutdownTimeout match shutdown with
         | Some err => let% _ := Error "api server shutdown failed" err in os_Exit 1
         | None => pret tt
         end)
    (fun es' out σ => ends_well (api_ends life shutdown) (es ++ es') out σ) (db, None).
Proof.
  intros Hinv Hes Hl. apply pwp_emit, pwp_defer. destruct shutdown as [err|].
  - apply pwp_emit, pwp_ret. split; [done|]. by split_and!.
  - apply pwp_ret. split; [intros held; rewrite replay_app, Hes; done|]. split_and!; try done.
    intros err Herr. apply elem_of_app. left. by apply Hl.
Qed.

Lemma api_main_wp life shutdown db :
  db_inv db ->
  pwp a (api_main ParseDuration Getenv life shutdown) (ends_well (api_ends life shutdown)) (db, None).
Proof.
  intros Hinv. apply start_wp; [intros *; apply api_ends_more|by intros; split_and!|].
  intros cfg Hcfg. unfold api_body. apply Info_wp. intros es Hes. destruct life as [err|requests].
  - apply pwp_emit, Info_wp. intros es' Hes'.
    eapply pwp_mono; [|apply (shutdown_wp (ListenFails err) shutdown (es ++ [ErrorLine "api server failed" err] ++ es'))].
    + intros es2 out σ. cbv beta. by rewrite <- !app_assoc.
    + done.
    + intros held. apply replay_lines. rewrite !forallb_app, Hes, Hes'. done.
    + intros err' [= <-]. set_solver.
  - apply pwp_bind, pwp_emit, pwp_perform. eapply wp_mono, serve_all_wp; [|done].
    intros res [db1 saved] (-> & Hs & Hinv1). simpl in *. subst saved. apply pwp_ret. simpl. apply Info_wp. intros es' Hes'.
    eapply pwp_mono; [|apply (shutdown_wp (Serves requests) shutdown (es ++ [Listening (HTTPAddr cfg)] ++ es'))].
    + intros es2 out σ. cbv beta. by rewrite <- !app_assoc.
    + done.
    + intros held. apply replay_lines. rewrite !forallb_app, Hes, Hes'. done.
    + done.
Qed.
End api.

(** C32: The API's process never crashes and leaves nothing half done. Whatever
    requests arrive, and whatever the environment does to their effects, to the
    connections, to the listener and to the shutdown: the process ends with
    status 0, having closed what it opened in the reverse order, or exits with 1;
    no transaction is open and the tables satisfy the invariant. *)
Theorem api_process_ends `{PgtypeLaws} `{Collation} `{Libraries} `{Pgxpool}
    `{JsonBody RegisterRequest} `{JsonBody LoginRequest} `{JsonBody QuantityReservationRequest}
    `{JsonBody SeatReservationRequest} `{JsonBody CreateEventRequest} `{JsonLaws}
    `{JsonBody CreateSeatsRequest} `{Env} ParseDuration Getenv life shutdown w :
  ready w ->
  exists es out w', run (api_main ParseDuration Getenv life shutdown) w = (Ok (es, out), w') /\
    ready w' /\ tidy es out /\ (out = Value tt \/ out = Exit 1).
Proof.
  intros Hw. destruct (run (api_main ParseDuration Getenv life shutdown) w) as [r w'] eqn:Hrun.
  pose proof (run_adversary _ _ w r w' Hw
    (api_main_wp adversary ParseDuration Getenv life shutdown _ (proj2 Hw)) Hrun)
    as (es & out & -> & Ht & Hs & Hinv & Hout).
  exists es, out, w'. split; [done|]. split; [split; [by apply st_of_saved|done]|]. split; [done|].
  destruct out as [[]|code| |]; [by left|right; by destruct Hout as [-> _]|done..].
Qed.

(** A visitor asks for an anonymous session and for the readiness. *)
Definition demo_life : server_life :=
  Serves [MkRequest "POST" "/v1/sessions/anonymous" [] "" [] "" None;
          MkRequest "GET" "/ready" [] "" [] "" None;
          MkRequest "GET" "/nowhere" [] "" [] "" None].

Definition demo_api_process (life : server_life) : res (list event * outcome unit) * World :=
  @run (calm_env demo_time) _ (@api_main demo_driver demo_collation demo_libraries demo_pgxpool
    _ _ _ _ _ _ _ demo_durations (demo_variables "1m") life None) (demo_world demo_db).

Lemma api_process_ends_witness :
  process_outcome (demo_api_process demo_life) = Some (Value tt) /\ ready (demo_api_process demo_life).2.
Proof.
  split; [vm_compute; reflexivity|].
  destruct (@api_process_ends demo_driver demo_driver_laws demo_collation demo_libraries demo_pgxpool
    _ _ _ _ _ _ _ _ (calm_env demo_time) demo_durations (demo_variables "1m") demo_life None (demo_world demo_db)
    demo_ready) as (es & out & w' & Hrun & Hready & _).
  unfold demo_api_process. rewrite Hrun. exact Hready.
Defined.

(** C38: A server that cannot listen ends as if all were well. When ListenAndServe
    fails (the address is in use), the process logs the error and stops; with
    working connections and a shutdown without error its exit status is 0, so a
    supervisor that restarts failed processes does not restart it. *)
Theorem listen_failure_exits_zero `{PgtypeLaws} `{Collation} `{Libraries} `{Pgxpool}
    `{JsonBody RegisterRequest} `{JsonBody LoginRequest} `{JsonBody QuantityReservationRequest}
    `{JsonBody SeatReservationRequest} `{JsonBody CreateEventRequest} `{JsonLaws}
    `{JsonBody CreateSeatsRequest} `{Env} clock ParseDuration Getenv cfg err w r w' :
  ready w -> Load ParseDuration Getenv = Ok cfg -> ~ refused (DatabaseURL cfg) ->
  respects (calm clock) (api_main ParseDuration Getenv (ListenFails err) None) w = true ->
  run (api_main ParseDuration Getenv (ListenFails err) None) w = (r, w') ->
  exists es, r = Ok (es, Value tt) /\ ErrorLine "api server failed" err ∈ es /\ tidy es (Value tt).
Proof.
  intros Hw Hcfg Hopen Hresp Hrun.
  pose proof (run_wp (calm clock) _ _ w r w' Hw
    (api_main_wp (calm clock) ParseDuration Getenv (ListenFails err) None _ (proj2 Hw)) Hresp Hrun)
    as (es & out & -> & Ht & Hs & Hinv & Hout).
  exists es. destruct out as [[]|code| |]; [|by destruct Hout as [_ Hwhy]; destruct (Hwhy eq_refl cfg Hcfg)|done..].
  destruct Hout as [_ Hl]. split; [done|]. split; [by apply Hl|done].
Qed.

Definition demo_in_use : error := ErrorString "listen tcp :8080: bind: address already in use".

Lemma listen_failure_exits_zero_witness :
  process_outcome (demo_api_process (ListenFails demo_in_use)) = Some (Value tt).
Proof.
  destruct (@listen_failure_exits_zero demo_driver demo_driver_laws demo_collation demo_libraries demo_pgxpool
    _ _ _ _ _ _ _ _ (calm_env demo_time) (fun _ => true) demo_durations (demo_variables "1m")
    (match Load demo_durations (demo_variables "1m") with Ok cfg => cfg | _ => demo_wrapped end) demo_in_use
    (demo_world demo_db) (demo_api_process (ListenFails demo_in_use)).1
    (demo_api_process (ListenFails demo_in_use)).2 demo_ready) as (es & Hout & _).
  - vm_compute. reflexivity.
  - intros [Hp|Hn]; [by apply Hp|by apply Hn].
  - vm_compute. reflexivity.
  - exact (surjective_pairing _).
  - unfold process_outcome. rewrite Hout. reflexivity.
Defined.

(** ** Routes *)

(** C33: Every route is reached by the paths of its pattern, with the values of its
    parameters, and by no other route: for any registered route and any values
    that are not empty and have no slash, the request for the path made from them is answered by the
    handler of this route with these values, and no other registered route
    would answer it. *)
Theorem requests_reach_handlers `{Pgtype} `{Collation} `{Libraries} `{SessionService}
    `{JsonBody RegisterRequest} `{JsonBody LoginRequest} `{JsonBody QuantityReservationRequest}
    `{JsonBody SeatReservationRequest} `{JsonBody CreateEventRequest} `{JsonBody CreateTicketTypeRequest}
    `{JsonBody CreateSeatsRequest} ttl appEnv rt values r :
  rt ∈ registered -> length values = length (param_names (parse_pattern (pattern rt))) ->
  Forall is_value values -> Method r = verb rt -> URLPath r = path_of rt values ->
  ServeHTTP ttl appEnv r =
    Some (serve_http ttl appEnv (handler rt)
      (with_params (zip (param_names (parse_pattern (pattern rt))) values) r)) /\
  forall rt', rt' ∈ registered -> route_params (Method r) (URLPath r) rt' <> None -> handler rt' = handler rt.
Proof.
  intros Hrt Hlen Hv Hm Hp. pose proof (dispatch_path rt values Hrt Hlen Hv) as Hd. split.
  - unfold ServeHTTP. by rewrite Hm, Hp, Hd.
  - intros rt' Hrt' Hans. destruct (route_params _ _ rt') as [params|] eqn:Hpar; [|done].
    pose proof (find_route_spec _ _ _ rt' params registered_apart Hrt' Hpar) as Hfind.
    rewrite Hm, Hp in Hfind. unfold dispatch in Hd. congruence.
Qed.

(** A client cancels its reservation. *)
Definition demo_cancel_route : Route := Post "/v1/reservations/{reservation_id}/cancel" PostReservationCancel.

Definition demo_cancel_path : string := "/v1/reservations/00000000-0000-0000-0000-0000000003ec/cancel".

Definition demo_cancel_request : Request := MkRequest "POST" demo_cancel_path [] "" [] "" None.

Lemma requests_reach_handlers_witness :
  @ServeHTTP demo_driver demo_collation demo_libraries demo_sessions _ _ _ _ _ _ _ demo_ttl "test"
    demo_cancel_request =
  Some (@serve_http demo_driver demo_collation demo_libraries demo_sessions _ _ _ _ _ _ _ demo_ttl "test"
    PostReservationCancel (with_params [("reservation_id", UUIDToString demo_rq)] demo_cancel_request)).
Proof.
  refine (proj1 (@requests_reach_handlers demo_driver demo_collation demo_libraries demo_sessions
    _ _ _ _ _ _ _ demo_ttl "test" demo_cancel_route [UUIDToString demo_rq] demo_cancel_request _ _ _ _ _)).
  - apply list_elem_of_In. unfold registered. simpl. tauto.
  - reflexivity.
  - constructor; [split; [discriminate|reflexivity]|constructor].
  - reflexivity.
  - vm_compute. reflexivity.
Defined.
