(* ===== verification/Concurrent.v ===== *)
(** * Properties of the system under every schedule

    Requests and workers on their own connections, interleaved effect by effect
    in any order ([Interleaving]), in any environment: what holds of the tables
    at every moment, and what an answer says. *)

From S2P Require Import Prelude GoRuntime DbTypes Schema Prog Wp Crypto SqlcReservations ReservationService Inventory Lifecycle Settlement Requests Creation SeatCreation Service ServiceFacts SqlcEvents SqlcAccounts Config NetHttp HttpServer Sessions Auth Worker Events SqlcStress StressAdmin StressFacts Handlers HandlerFacts Fixtures Correctness Application Administration System Locks Interleaving Isolation Serial Steady SerialSettlement SerialCreation Refusals IsolatedServices IsolatedApi.
Local Open Scope string_scope.
Local Open Scope list_scope.
Local Open Scope Z_scope.

(** ** Requests that answer *)

Inductive answer :=
  | QuantityAnswer (resp : QuantityReservationResponse)
  | SeatAnswer (resp : SeatReservationResponse)
  | ReadAnswer (resp : ReservationResponse)
  | SettleAnswer (out : ReservationResponse * option error)
  | BatchAnswer (processed : Z).

Section requests.
Context `{PgtypeLaws}.
Variable ttl : Z.

Definition perform (req : request) : prog answer :=
  match req with
  | ReqReserveQuantity vs input => let* r := ReserveQuantity ttl vs input in Ret (QuantityAnswer r)
  | ReqReserveSeats vs input => let* r := ReserveSeats ttl vs input in Ret (SeatAnswer r)
  | ReqGet vs rid => let* r := GetReservation vs rid in Ret (ReadAnswer r)
  | ReqCancel vs rid => let* r := CancelReservation vs rid in Ret (SettleAnswer r)
  | ReqConfirm vs rid => let* r := ConfirmReservation vs rid in Ret (SettleAnswer r)
  | ReqExpire batchSize => let* n := ExpireExpiredReservations batchSize in Ret (BatchAnswer n)
  end.

(** The header is that of [D]; the items and seats are those of [D'], a later
    moment: GetReservation reads them in two statements without a transaction. *)
Definition read_in_parts (vs : VisitorSession) (rid : UUID) (resp : ReservationResponse)
    (D D' : Database) : Prop :=
  rtc world_step D D' /\ exists r, reservations D !! rid = Some r /\
    canAccessReservation r vs = true /\ resp = response_of D' r.

(** What the answer of a request says of the tables before and after it, as
    for a request that runs alone. *)
Definition specified (req : request) (ans : answer) (D D' : Database) : Prop :=
  match req, ans with
  | ReqReserveQuantity vs input, QuantityAnswer resp => quantity_granted ttl vs input resp D D'
  | ReqReserveSeats vs input, SeatAnswer resp => seats_granted_for ttl vs input resp D D'
  | ReqGet vs rid, ReadAnswer resp => read_in_parts vs rid resp D D'
  | ReqCancel vs rid, SettleAnswer out => settles StatusCancelled ErrReservationCannotCancel vs rid out D D'
  | ReqConfirm vs rid, SettleAnswer out => settles StatusConfirmed ErrReservationCannotConfirm vs rid out D D'
  | ReqExpire batchSize, BatchAnswer n => expires_batch batchSize n D D'
  | _, _ => False
  end.

Lemma linearizable_map {A B} (p : prog A) (f : A -> B) spec (spec' : B -> Database -> Database -> Prop) :
  linearizable p spec -> (forall x D D', spec x D D' -> spec' (f x) D D') ->
  linearizable (let* x := p in Ret (f x)) spec'.
Proof.
  intros Hp Hf C Hinv. apply safe_bind. eapply safe_mono; [|by apply Hp].
  intros [x|e|] t C' (-> & Hinv' & Hfrom & Hans); [|by split_and!..].
  split_and!; [done..|]. intros y [= <-]. destruct (Hans x eq_refl) as (D & D' & ? & ? & ?). exists D, D'. auto.
Qed.

Lemma GetReservation_linearizable vs rid : linearizable (GetReservation vs rid) (read_in_parts vs rid).
Proof.
  intros C Hinv C1 [[H1 _] [Hinv1 _]]. split; [intros f; simpl; destruct (isNoRows _); by split_and!|].
  intros ctx _. unfold open_rows. rewrite overlay_empty. unfold SqlcReservations.GetReservationByID, reading.
  destruct (reservations C1 !! rid) as [r|] eqn:Hr; simpl; [|by split_and!].
  split; [apply grows_refl|]. split; [apply Hinv1|]. split; [done|].
  destruct (canAccessReservation r vs) eqn:Hacc; cbn [negb]; [|by split_and!].
  assert (Hty := reservations_type _ (inv_schema _ Hinv1) _ _ Hr). cbv beta in Hty.
  unfold buildReservationResponse. unfold ck_reservation_type in Hty.
  assert (Hrows : forall C2 resp, rtc world_step C1 C2 -> db_inv C2 -> resp = response_of C2 r ->
    answers_as (read_in_parts vs rid) C (Ok resp) None C2).
  { intros C2 resp H2 Hinv2 Hresp. split_and!; [done|done|etrans; [exact H1|exact H2]|].
    intros x [= <-]. exists C1, C2. split_and!; [exact H1| |done]. split; [exact H2|]. by exists r. }
  assert (Hfail : forall C2 e, rtc world_step C1 C2 -> db_inv C2 ->
    answers_as (read_in_parts vs rid) C (Err e) None C2).
  { intros C2 e H2 Hinv2. split_and!; [done|done|etrans; [exact H1|exact H2]|done]. }
  destruct (Reservation_ReservationType r ==? ReservationTypeQuantity) eqn:Eq.
  - intros C2 [[H2 _] [Hinv2 _]]. split; [intros f; by apply Hfail|]. intros ctx2 _.
    unfold open_rows. rewrite overlay_empty. simpl. split; [apply grows_refl|]. split; [apply Hinv2|].
    split; [done|]. apply Hrows; [done..|]. unfold response_of. by rewrite Eq.
  - destruct (Reservation_ReservationType r ==? ReservationTypeSeats) eqn:Es; [|done].
    intros C2 [[H2 _] [Hinv2 _]]. split; [intros f; by apply Hfail|]. intros ctx2 _.
    unfold open_rows. rewrite overlay_empty. simpl. split; [apply grows_refl|]. split; [apply Hinv2|].
    split; [done|]. apply Hrows; [done..|]. unfold response_of. by rewrite Eq.
Qed.

Lemma perform_linearizable req : linearizable (perform req) (specified req).
Proof.
  destruct req.
  - by apply (linearizable_map _ _ _ _ (ReserveQuantity_linearizable ttl vs input)).
  - by apply (linearizable_map _ _ _ _ (ReserveSeats_linearizable ttl vs input)).
  - by apply (linearizable_map _ _ _ _ (GetReservation_linearizable vs rid)).
  - by apply (linearizable_map _ _ _ _ (CancelReservation_linearizable vs rid)).
  - by apply (linearizable_map _ _ _ _ (ConfirmReservation_linearizable vs rid)).
  - by apply (linearizable_map _ _ _ _ (ExpireExpiredReservations_linearizable batchSize)).
Qed.

(** Why a request may be refused with an error of the program's own. *)
Definition refused_for (req : request) (s : sentinel) (D : Database) : Prop :=
  match req with
  | ReqReserveQuantity vs input => quantity_refused vs input s D
  | ReqReserveSeats vs input => seats_refused vs input s D
  | ReqGet vs rid | ReqCancel vs rid | ReqConfirm vs rid => not_visible vs rid s D
  | ReqExpire batchSize => bad_batch batchSize s D
  end.

Lemma perform_refuses req : refuses (perform req) (refused_for req).
Proof.
  destruct req; apply refuses_map;
    [apply ReserveQuantity_refuses|apply ReserveSeats_refuses|apply GetReservation_refuses
    |apply CancelReservation_refuses|apply ConfirmReservation_refuses|apply ExpireExpiredReservations_refuses].
Qed.

(** What the outcome of a request says, once it has ended. *)
Definition explained (req : request) (C0 : Database) (r : res answer) (t : option Tx) (C : Database) : Prop :=
  answers_as (specified req) C0 r t C /\ refused_as (refused_for req) C0 r t C.

Lemma explained_stable req C0 r t C C' :
  explained req C0 r t C -> rely (held_versions t) C C' -> explained req C0 r t C'.
Proof. intros [Ha Hr] HC. split; [by eapply answers_as_stable|by eapply refused_as_stable]. Qed.

Lemma perform_explained req C : db_inv C -> safe (perform req) (explained req C) None C.
Proof. intros Hinv. apply safe_and; [by apply perform_linearizable|by apply perform_refuses]. Qed.
End requests.

(** ** Pools *)

Lemma fresh_pool_ok {A} (Q : nat -> res A -> option Tx -> Database -> Prop) C ps :
  db_inv C -> (forall i p, ps !! i = Some p -> safe p (Q i) None C) -> pool_ok Q C (fresh_pool C ps).
Proof.
  intros Hinv Hps.
  assert (Hidle : forall i s, sessions (fresh_pool C ps) !! i = Some s ->
    transaction s = None /\ exists p, ps !! i = Some p /\ program s = p).
  { intros i s Hs. simpl in Hs. apply list_lookup_fmap_Some in Hs as (p & -> & Hp). eauto. }
  assert (Hholds : forall i V, ~ holds (fresh_pool C ps) i V).
  { intros i V (s & Hs & HV). destruct (Hidle i s Hs) as [Ht _]. rewrite Ht in HV. by apply not_elem_of_nil in HV. }
  split; [done|done| | |].
  - intros i s Hs. destruct (Hidle i s Hs) as (-> & p & Hp & ->). by apply Hps.
  - intros i V HV. by destruct (Hholds i V).
  - intros i j V W _ HV. by destruct (Hholds i V).
Qed.

Definition idle_now {A} (_ : nat) (_ : res A) (t : option Tx) (C : Database) : Prop := t = None /\ db_inv C.

Lemma idle_now_stable {A} i (r : res A) t C C' :
  idle_now i r t C -> rely (held_versions t) C C' -> idle_now i r t C'.
Proof. intros [-> _] [_ [Hinv _]]. done. Qed.

(** Sessions that are safe beside others only ever make legal steps. *)
Lemma isolated_pool `{Env} {A} C (ps : list (prog A)) schedule :
  db_inv C -> Forall isolated ps -> pool_ok idle_now C (interleave schedule (fresh_pool C ps)).
Proof.
  intros Hinv Hps. apply interleave_ok; [intros; by eapply idle_now_stable|].
  apply fresh_pool_ok; [done|]. intros i p Hp. rewrite Forall_lookup in Hps. by apply (Hps i p).
Qed.

Lemma isolated_pool_from `{Env} {A} C (ps : list (prog A)) schedule :
  db_inv C -> Forall isolated ps ->
  rtc world_step C (committed (interleave schedule (fresh_pool C ps))) /\
  db_inv (committed (interleave schedule (fresh_pool C ps))).
Proof. intros Hinv Hps. pose proof (isolated_pool C ps schedule Hinv Hps) as HP. split; apply HP. Qed.

(** The later moments of a schedule follow from the earlier ones. *)
Lemma interleave_later `{Env} {A} C (ps : list (prog A)) schedule schedule' :
  db_inv C -> Forall isolated ps ->
  rtc world_step (committed (interleave schedule (fresh_pool C ps)))
    (committed (interleave (schedule ++ schedule') (fresh_pool C ps))).
Proof.
  intros Hinv Hps. pose proof (isolated_pool C ps schedule Hinv Hps) as [_ Hi Hs Hv Hc].
  assert (Hmid : pool_ok idle_now (committed (interleave schedule (fresh_pool C ps)))
    (interleave schedule (fresh_pool C ps))) by by split.
  apply (interleave_ok _ (fun i r t C C' => idle_now_stable i r t C C') _ schedule') in Hmid.
  unfold interleave. rewrite fold_left_app. apply Hmid.
Qed.

(** The sessions of [reqs] with the outcomes they may have. *)
Lemma perform_pool `{PgtypeLaws} `{Env} ttl C reqs schedule :
  db_inv C ->
  pool_ok (fun i => match reqs !! i with Some req => explained ttl req C | None => fun _ _ _ => True end) C
    (interleave schedule (fresh_pool C (perform ttl <$> reqs))).
Proof.
  intros Hinv. apply interleave_ok.
  - intros i r t C1 C2. destruct (reqs !! i); [apply explained_stable|done].
  - apply fresh_pool_ok; [done|]. intros i p Hp. apply list_lookup_fmap_Some in Hp as (req & -> & ->).
    by apply perform_explained.
Qed.

(** ** The tables under every schedule *)

(** Requests to any endpoint that deletes nothing, and workers. *)
Definition live (h : happening) : Prop :=
  match h with Served _ _ e _ => concurrent e = true | Worked _ _ => True end.

Section live.
Context `{PgtypeLaws} `{Collation} `{Libraries} (S : SessionService) `{!SessionIsolated S}
  `{JsonBody RegisterRequest} `{JsonBody LoginRequest} `{JsonBody QuantityReservationRequest}
  `{JsonBody SeatReservationRequest} `{JsonBody CreateEventRequest} `{JsonLaws}
  `{JsonBody CreateSeatsRequest}.

Lemma happen_isolated h : live h -> isolated (happen S h).
Proof.
  intros Hh. destruct h as [ttl appEnv e r|wk moments]; (apply isolated_bind; [|intros; apply isolated_Ret]).
  - apply (ihttp_NewRouter (api ttl appEnv e)). intros r'. by apply isolated_api.
  - apply isolated_Run.
Qed.

Lemma live_isolated hs : Forall live hs -> Forall isolated (happen S <$> hs).
Proof. intros Hhs. apply Forall_fmap. eapply Forall_impl; [exact Hhs|]. apply happen_isolated. Qed.
End live.

(** C3: no schedule breaks the tables. Any number of requests to any
    endpoint but the reset of the fixtures, and of workers, each on its own
    connection, interleaved effect by effect in any order, in any environment
    (failures, lost commits, any clock): the committed tables move by steps of
    the inventory, the catalog and the accounts only; they satisfy every
    constraint; the counters of every ticket type are the sums of its reserved
    and confirmed items within its total; and each seat is held at most once. *)
Theorem schedules_well_formed `{PgtypeLaws} `{Collation} `{Libraries} (S : SessionService) `{!SessionIsolated S}
    `{JsonBody RegisterRequest} `{JsonBody LoginRequest} `{JsonBody QuantityReservationRequest}
    `{JsonBody SeatReservationRequest} `{JsonBody CreateEventRequest} `{JsonLaws}
    `{JsonBody CreateSeatsRequest} `{Env} C hs schedule :
  db_inv C -> Forall live hs ->
  let C' := committed (interleave schedule (fresh_pool C (happen S <$> hs))) in
  rtc world_step C C' /\ schema_ok C' /\
  (forall k t, ticket_types C' !! k = Some t ->
    TicketType_ReservedQuantity t = units StatusReserved k C' /\
    TicketType_SoldQuantity t = units StatusConfirmed k C' /\
    TicketType_SoldQuantity t + TicketType_ReservedQuantity t <= TicketType_TotalQuantity t) /\
  (forall i j s s', reservation_seats C' !! i = Some s -> reservation_seats C' !! j = Some s' ->
    active_seat s = true -> active_seat s' = true ->
    ReservationSeat_SeatID s = ReservationSeat_SeatID s' -> i = j).
Proof.
  intros Hinv Hhs C'.
  destruct (isolated_pool_from C (happen S <$> hs) schedule Hinv (live_isolated S hs Hhs)) as [Hst Hinv'].
  fold C' in Hst, Hinv'. pose proof (inv_schema _ Hinv') as Hdb. split; [done|]. split; [done|]. split.
  - intros k t Ht. pose proof (ticket_bounds _ _ _ Hdb Ht).
    split; [by apply (inv_stock _ Hinv')|]. split; [by apply (inv_stock _ Hinv')|]. lia.
  - intros i j s s' Hi Hj Ha Ha' Heq. by eapply (rseats_unique _ Hdb).
Qed.

(** C6: final statuses are final under every schedule. A reservation that
    is confirmed, cancelled or expired at some moment is the same row at every
    later moment, whatever the other sessions do. *)
Theorem schedules_keep_final `{PgtypeLaws} `{Collation} `{Libraries} (S : SessionService) `{!SessionIsolated S}
    `{JsonBody RegisterRequest} `{JsonBody LoginRequest} `{JsonBody QuantityReservationRequest}
    `{JsonBody SeatReservationRequest} `{JsonBody CreateEventRequest} `{JsonLaws}
    `{JsonBody CreateSeatsRequest} `{Env} C hs schedule schedule' rid r :
  db_inv C -> Forall live hs ->
  reservations (committed (interleave schedule (fresh_pool C (happen S <$> hs)))) !! rid = Some r ->
  final_status (Reservation_Status r) ->
  reservations (committed (interleave (schedule ++ schedule') (fresh_pool C (happen S <$> hs)))) !! rid = Some r.
Proof.
  intros Hinv Hhs Hr Hf. pose proof (live_isolated S hs Hhs) as Hps.
  destruct (isolated_pool_from C (happen S <$> hs) schedule Hinv Hps) as [_ Hinv'].
  pose proof (interleave_later C (happen S <$> hs) schedule schedule' Hinv Hps) as Hsteps.
  apply (world_steps_final rid r _ _ Hsteps Hinv'). split; [done|by apply final_not_reserved].
Qed.

(** ** Answers under every schedule *)

(** C2: what a request answers is true of one moment. Requests run beside
    each other in any schedule and any environment. What one of them answers
    without an error, GetReservation excepted, is the answer it gives when it runs
    alone, at some reading of the clock, on the tables [D] that were committed at
    some moment between the start and now, and the tables [D'] it leaves when
    alone are those from which the others have gone on. GetReservation shows the
    header as it was at such a moment and the items or seats as they were at a
    later one ([read_in_parts]). An error of the service's own was justified at
    such a moment ([refused_for]): the request is invalid, the reservation is
    missing or another visitor's, the ticket type has less than the units asked
    for, a seat does not exist, the key names no reservation of the kind. Only
    ErrSeatUnavailable says no more than that the request is valid, and no
    request fails with any other error of the service. *)
Theorem answers_linearizable `{PgtypeLaws} `{Env} ttl C reqs schedule i req :
  db_inv C -> reqs !! i = Some req ->
  let P := interleave schedule (fresh_pool C (perform ttl <$> reqs)) in
  (forall ans t, sessions P !! i = Some (MkSession (Ret ans) t) ->
     t = None /\ exists D D', rtc world_step C D /\ db_inv D /\ specified ttl req ans D D' /\
       rtc world_step D' (committed P)) /\
  (forall s t, sessions P !! i = Some (MkSession (Fail (Sentinel s)) t) ->
     t = None /\ exists D, rtc world_step C D /\ db_inv D /\ refused_for req s D /\
       rtc world_step D (committed P)).
Proof.
  intros Hinv Hreq P. pose proof (po_safe _ _ _ (perform_pool ttl C reqs schedule Hinv) i) as Hok.
  cbv beta in Hok. rewrite Hreq in Hok. split.
  - intros ans t HP. pose proof (Hok _ HP) as Hout. destruct Hout as [(Ht & _ & _ & Hans) _]. split; [exact Ht|].
    destruct (Hans ans eq_refl) as (D & D' & HD & Hspec & HD'). exists D, D'. split_and!; try done.
    by eapply world_steps_inv.
  - intros s t HP. pose proof (Hok _ HP) as Hout. destruct Hout as [(Ht & _ & _ & _) [_ Href]]. split; [exact Ht|].
    destruct (Href s eq_refl) as (D & HD & Hs & HD'). exists D. split_and!; try done.
    by eapply world_steps_inv.
Qed.

(** *** Retries *)

Lemma inventory_step_key rid r C C' :
  inventory_step C C' -> reservations C !! rid = Some r ->
  exists r', reservations C' !! rid = Some r' /\ session_key r' = session_key r.
Proof.
  intros Hstep Hr. destruct Hstep
    as [ev sid uid tid q key exp rid' [_ _ Hnew _ (t & iid & ts & ts' & _ & _ & _ & Hiid & ->)] _
    |ev sid uid sids key exp rid' [_ _ Hnew _ _ _ (m' & ts & _ & ->)] _
    |ids [Hids (ts & ts' & ->)] _
    |status rid' Hf [_ (r0 & ts & Hr0 & Hst & Hres) _ _ _] _]; simpl in *.
  - exists r. split; [by apply lookup_insert_fresh|done].
  - exists r. split; [by apply lookup_insert_fresh|done].
  - eexists. split; [apply update_where_lookup; eauto|]. by destruct (_ && _).
  - rewrite Hres, lookup_insert. case_decide as Heq; [|eauto]. subst rid'. eexists. split; [done|].
    assert (r0 = r) as -> by congruence. done.
Qed.

(** A reservation keeps its identifier and its key. *)
Lemma world_steps_key rid r C C' :
  rtc world_step C C' -> reservations C !! rid = Some r ->
  exists r', reservations C' !! rid = Some r' /\ session_key r' = session_key r.
Proof.
  intros Hsteps. revert r. induction Hsteps as [C|C C1 C2 Hs _ IH]; intros r Hr; [eauto|].
  assert (H1 : exists r1, reservations C1 !! rid = Some r1 /\ session_key r1 = session_key r).
  { destruct Hs as [Hs|Hs|(_ & _ & _ & -> & _) _]; [by eapply inventory_step_key|by destruct Hs; eauto|eauto]. }
  destruct H1 as (r1 & Hr1 & Hk1). destruct (IH r1 Hr1) as (r2 & Hr2 & Hk2). exists r2.
  split; [done|congruence].
Qed.

(** The visitor and key under which a request reserves. *)
Definition creation_key (req : request) : option (UUID * string) :=
  match req with
  | ReqReserveQuantity vs input => Some (VisitorSession_ID vs, TrimSpace (QReq_IdempotencyKey input))
  | ReqReserveSeats vs input => Some (VisitorSession_ID vs, TrimSpace (SReq_IdempotencyKey input))
  | _ => None
  end.

Definition reservation_named (ans : answer) : option string :=
  match ans with
  | QuantityAnswer resp => Some (QResp_ReservationID resp)
  | SeatAnswer resp => Some (SResp_ReservationID resp)
  | _ => None
  end.

(** The reservation that an answer names, in the tables the answer left. *)
Lemma creation_names `{PgtypeLaws} ttl req ans key D D' :
  db_inv D -> creation_key req = Some key -> specified ttl req ans D D' ->
  exists r, reservations D' !! Reservation_ID r = Some r /\ session_key r = key /\
    reservation_named ans = Some (UUIDToString (Reservation_ID r)).
Proof.
  intros Hinv Hkey Hspec. destruct req as [vs input|vs input| | | |]; simplify_eq/=; destruct ans; try done.
  - destruct Hspec as (ev & tid & now & _ & Hout).
    destruct (quantity_outcome_replay _ _ _ _ _ _ _ _ _ _ (inv_schema _ Hinv) Hout)
      as (r & k & i & (Hr & Hk & _) & _ & _ & ->). by exists r.
  - destruct Hspec as (ev & sids & now & Hparse & Hout).
    destruct (seats_outcome_replay _ _ _ _ _ _ _ _ _ _ Hparse Hout) as (r & (Hr & Hk & _) & ->). by exists r.
Qed.

(** C5: a retry never reserves twice. Two reservation requests of one
    visitor with one idempotency key, of quantities or of seats, in flight at the
    same time in any schedule and any environment: if both are answered, both
    answers name the same reservation. *)
Theorem concurrent_retries_agree `{PgtypeLaws} `{Env} ttl C reqs schedule i j req req' key ans ans' t t' :
  db_inv C -> reqs !! i = Some req -> reqs !! j = Some req' ->
  creation_key req = Some key -> creation_key req' = Some key ->
  let P := interleave schedule (fresh_pool C (perform ttl <$> reqs)) in
  sessions P !! i = Some (MkSession (Ret ans) t) -> sessions P !! j = Some (MkSession (Ret ans') t') ->
  exists rid r, reservations (committed P) !! rid = Some r /\ session_key r = key /\
    reservation_named ans = Some (UUIDToString rid) /\ reservation_named ans' = Some (UUIDToString rid).
Proof.
  intros Hinv Hi Hj Hkey Hkey' P HPi HPj. pose proof (perform_pool ttl C reqs schedule Hinv) as Hok. fold P in Hok.
  assert (Hnamed : forall n req ans t, reqs !! n = Some req -> creation_key req = Some key ->
    sessions P !! n = Some (MkSession (Ret ans) t) ->
    exists k r, reservations (committed P) !! k = Some r /\ session_key r = key /\
      reservation_named ans = Some (UUIDToString k)).
  { intros n req0 ans0 tn Hn Hk0 HPn. pose proof (po_safe _ _ _ Hok n _ HPn) as Hans. simpl in Hans.
    rewrite Hn in Hans. destruct Hans as [(_ & _ & _ & Hans) _]. destruct (Hans _ eq_refl) as (D & D' & HD & Hspec & HD').
    destruct (creation_names _ _ _ _ _ _ (world_steps_inv _ _ HD Hinv) Hk0 Hspec) as (r & Hr & Hk & Hid).
    destruct (world_steps_key _ _ _ _ HD' Hr) as (r' & Hr' & Hk'). exists (Reservation_ID r), r'.
    split_and!; [done|congruence|done]. }
  destruct (Hnamed i req ans t Hi Hkey HPi) as (k & r & Hr & Hk & Hid).
  destruct (Hnamed j req' ans' t' Hj Hkey' HPj) as (k' & r' & Hr' & Hk' & Hid').
  assert (k = k') as <-; [|by exists k, r].
  apply (reservations_unique _ (inv_schema _ (po_inv _ _ _ Hok)) k k' r r'); try done. congruence.
Qed.

(** ** Examples *)

(** The sessions take turns. *)
Definition in_turn (n : nat) : list nat := concat (repeat [0; 1]%nat n).

#[local] Abbreviation demo_pool C reqs schedule :=
  (@interleave (calm_env demo_time) answer schedule (fresh_pool C (@perform demo_driver demo_ttl <$> reqs))).

(** The answer of a session whose program has returned. *)
Definition answer_of {A} (i : nat) (P : Pool A) : option A :=
  match sessions P !! i with Some (MkSession (Ret x) None) => Some x | _ => None end.

Lemma answer_of_Some {A} i (P : Pool A) x :
  answer_of i P = Some x -> sessions P !! i = Some (MkSession (Ret x) None).
Proof. unfold answer_of. repeat case_match; intros; simplify_eq; done. Qed.

(** The error of its own with which a session has ended. *)
Definition refusal_of {A} (i : nat) (P : Pool A) : option sentinel :=
  match sessions P !! i with Some (MkSession (Fail (Sentinel s)) None) => Some s | _ => None end.

Lemma refusal_of_Some {A} i (P : Pool A) s :
  refusal_of i P = Some s -> sessions P !! i = Some (MkSession (Fail (Sentinel s)) None).
Proof. unfold refusal_of. repeat case_match; intros; simplify_eq; done. Qed.

(** One visitor sends a request twice, at the same time. *)
Definition demo_retries : list request :=
  let req := ReqReserveQuantity (demo_session 6) (demo_quantity_request 3 "k1") in [req; req].

(** Two visitors ask for seat 3, and for another one each. *)
Definition demo_rivals : list request :=
  [ReqReserveSeats (demo_session 6) (demo_seat_request [4; 3]%N "k2");
   ReqReserveSeats (demo_session 7) (demo_seat_request [3; 5]%N "k2")].

Lemma concurrent_retries_agree_witness :
  exists ans ans' rid r,
    answer_of 0 (demo_pool demo_db demo_retries (in_turn 14)) = Some ans /\
    answer_of 1 (demo_pool demo_db demo_retries (in_turn 14)) = Some ans' /\
    reservations (committed (demo_pool demo_db demo_retries (in_turn 14))) !! rid = Some r /\
    reservation_named ans = Some (UUIDToString rid) /\ reservation_named ans' = Some (UUIDToString rid).
Proof.
  assert (H0 : exists ans, answer_of 0 (demo_pool demo_db demo_retries (in_turn 14)) = Some ans) by (vm_compute; eexists; reflexivity).
  assert (H1 : exists ans, answer_of 1 (demo_pool demo_db demo_retries (in_turn 14)) = Some ans) by (vm_compute; eexists; reflexivity).
  destruct H0 as [ans H0], H1 as [ans' H1].
  pose proof (answer_of_Some 0 _ ans H0) as E0. pose proof (answer_of_Some 1 _ ans' H1) as E1.
  destruct (@concurrent_retries_agree demo_driver demo_driver_laws (calm_env demo_time) demo_ttl demo_db demo_retries
    (in_turn 14) 0 1 _ _ (uid 6, "k1") ans ans' None None demo_db_inv eq_refl eq_refl eq_refl eq_refl
    E0 E1) as (rid & r & Hr & _ & Hn & Hn').
  exists ans, ans', rid, r. split; [exact H0|]. split; [exact H1|]. split; [exact Hr|]. by split.
Defined.

(** Two visitors ask for more than half of the tickets each. *)
Definition demo_buyers : list request :=
  [ReqReserveQuantity (demo_session 6) (demo_quantity_request 6 "k1");
   ReqReserveQuantity (demo_session 7) (demo_quantity_request 6 "k2")].

Lemma answers_linearizable_witness :
  (exists resp D D',
    answer_of 0 (demo_pool demo_db demo_rivals (in_turn 34)) = Some (SeatAnswer resp) /\
    rtc world_step demo_db D /\
    @seats_granted_for demo_driver demo_ttl (demo_session 6) (demo_seat_request [4; 3]%N "k2") resp D D' /\
    rtc world_step D' (committed (demo_pool demo_db demo_rivals (in_turn 34)))) /\
  (refusal_of 1 (demo_pool demo_db demo_buyers (in_turn 14)) = Some ErrInsufficientStock /\
   exists D, out_of_stock (uid 1) (uid 2) 6 D /\
     rtc world_step D (committed (demo_pool demo_db demo_buyers (in_turn 14)))).
Proof.
  split.
  - assert (H0 : exists resp, answer_of 0 (demo_pool demo_db demo_rivals (in_turn 34)) = Some (SeatAnswer resp)) by (vm_compute; eexists; reflexivity).
    destruct H0 as [resp H0]. exists resp. pose proof (answer_of_Some 0 _ _ H0) as E0.
    destruct (proj1 (@answers_linearizable demo_driver demo_driver_laws (calm_env demo_time) demo_ttl demo_db demo_rivals
      (in_turn 34) 0 _ demo_db_inv eq_refl) _ None E0) as (_ & D & D' & HD & _ & Hs & HD').
    exists D, D'. split; [exact H0|]. split; [exact HD|]. by split.
  - assert (H1 : refusal_of 1 (demo_pool demo_db demo_buyers (in_turn 14)) = Some ErrInsufficientStock) by (vm_compute; reflexivity).
    split; [exact H1|]. pose proof (refusal_of_Some 1 _ _ H1) as E1.
    destruct (proj2 (@answers_linearizable demo_driver demo_driver_laws (calm_env demo_time) demo_ttl demo_db demo_buyers
      (in_turn 14) 1 _ demo_db_inv eq_refl) _ None E1) as (_ & D & _ & _ & (ev & tid & Hp & Hout) & HD').
    exists D. split; [|exact HD'].
    assert (Hids : (ev, tid) = (uid 1, uid 2)).
    { assert (Heq : @parseQuantityInput demo_driver (demo_quantity_request 6 "k2") = Ok (uid 1, uid 2)) by (vm_compute; reflexivity).
      assert (Hok : Ok (ev, tid) = Ok (uid 1, uid 2)) by (etransitivity; [symmetry; exact Hp|exact Heq]). by injection Hok as -> ->. }
    injection Hids as -> ->. exact Hout.
Defined.

(** A visitor buys tickets and seats at the same time, beside the worker. *)
Definition demo_live : list happening :=
  [Served demo_ttl "test" PostReservationQuantity (demo_request demo_token "quantity");
   Served demo_ttl "test" PostReservationSeats (demo_request demo_token "seats");
   Worked demo_worker [demo_tick; MkMoment false CtxDone]].

#[local] Abbreviation demo_tables schedule :=
  (committed (@interleave (calm_env demo_time) unit schedule
    (fresh_pool demo_api_db (@happen demo_driver demo_collation demo_libraries demo_sessions
       _ _ _ _ _ _ _ <$> demo_live)))).

Definition demo_schedule : list nat := concat (repeat [0; 1; 2]%nat 60).

Lemma schedules_well_formed_witness :
  ticket_types (demo_tables demo_schedule) !! uid 2 = Some (demo_tickets 0 3) /\
  units StatusReserved (uid 2) (demo_tables demo_schedule) = 3.
Proof.
  assert (Ht : ticket_types (demo_tables demo_schedule) !! uid 2 = Some (demo_tickets 0 3))
    by (vm_compute; reflexivity).
  split; [exact Ht|].
  destruct (@schedules_well_formed demo_driver _ demo_collation demo_libraries demo_sessions _ _ _ _ _ _ _ _ _
    (calm_env demo_time) demo_api_db demo_live demo_schedule demo_api_inv ltac:(repeat constructor))
    as (_ & _ & Hstock & _).
  symmetry. exact (proj1 (Hstock _ _ Ht)).
Defined.

(** The visitor holds tickets, then confirms and cancels them at the same time. *)
Definition demo_bought : World :=
  @serve demo_driver demo_ttl (calm_env demo_time)
    [ReqReserveQuantity (demo_session 6) (demo_quantity_request 3 "k1")] (demo_world demo_api_db).

Definition demo_settlers : list happening :=
  let r := MkRequest "POST" "/" [(CookieName, demo_token)] "req-1"
    [("reservation_id", UUIDToString demo_rq)] "" None in
  [Served demo_ttl "test" PostReservationConfirm r; Served demo_ttl "test" PostReservationCancel r].

#[local] Abbreviation settled_tables schedule :=
  (committed (@interleave (calm_env demo_time) unit schedule
    (fresh_pool (w_db demo_bought) (@happen demo_driver demo_collation demo_libraries demo_sessions
       _ _ _ _ _ _ _ <$> demo_settlers)))).

(** The first to lock the row cancels it; the other goes on after it. *)
Definition cancel_first : list nat := repeat 0%nat 2 ++ repeat 1%nat 20.

Lemma schedules_keep_final_witness :
  exists r, reservations (settled_tables cancel_first) !! demo_rq = Some r /\
    Reservation_Status r = StatusCancelled /\
    reservations (settled_tables (cancel_first ++ repeat 0%nat 40)) !! demo_rq = Some r.
Proof.
  assert (Hr : exists r, reservations (settled_tables cancel_first) !! demo_rq = Some r /\
    Reservation_Status r = StatusCancelled) by (vm_compute; eexists; split; reflexivity).
  destruct Hr as (r & Hr & Hst). exists r. split; [exact Hr|]. split; [exact Hst|].
  refine (@schedules_keep_final demo_driver _ demo_collation demo_libraries demo_sessions _ _ _ _ _ _ _ _ _
    (calm_env demo_time) (w_db demo_bought) demo_settlers cancel_first (repeat 0%nat 40) demo_rq r _ _ Hr _).
  - exact (proj2 (proj1 (@serve_run _ _ (calm_env demo_time) _ _ _ demo_api_ready))).
  - repeat constructor.
  - rewrite Hst. right. left. reflexivity.
Defined.

(** ** A reading that is torn *)

(** An answer that shows a held reservation with a confirmed item. *)
Definition torn (resp : ReservationResponse) : Prop :=
  RResp_Status resp = StatusReserved /\
  exists it, it ∈ RResp_Items resp /\ IDet_Status it = StatusConfirmed.

Lemma torn_never_shown D r : db_inv D -> reservations D !! Reservation_ID r = Some r -> ~ torn (response_of D r).
Proof.
  intros Hinv Hr [Hst (it & Hit & Hconf)]. simpl in *. destruct (_ ==? _); [|by apply not_elem_of_nil in Hit].
  apply list_elem_of_fmap in Hit as (i & -> & Hi).
  destruct (items_of_reserved _ _ _ Hinv Hr Hst i Hi) as [Hs _]. simpl in Hconf. by rewrite Hs in Hconf.
Qed.

(** The read moves first and last; the confirmation runs in between. *)
Definition demo_torn : list nat := [0%nat] ++ repeat 1%nat 12 ++ [0%nat].

(** C34: GetReservation is not a reading of one moment. It reads the
    reservation and its items in two statements without a transaction: when the
    visitor confirms in between, the answer shows a reservation that is still
    reserved with an item that is confirmed, which no consistent tables show. *)
Theorem GetReservation_tears :
  exists resp,
    answer_of 0 (demo_pool (w_db demo_held)
      [ReqGet (demo_session 6) demo_rq; ReqConfirm (demo_session 6) demo_rq] demo_torn) = Some (ReadAnswer resp) /\
    torn resp /\
    forall D r, db_inv D -> reservations D !! Reservation_ID r = Some r -> resp <> response_of D r.
Proof.
  assert (Ht : exists resp, answer_of 0 (demo_pool (w_db demo_held)
      [ReqGet (demo_session 6) demo_rq; ReqConfirm (demo_session 6) demo_rq] demo_torn) = Some (ReadAnswer resp) /\
    torn resp).
  { vm_compute. eexists. split; [reflexivity|]. split; [reflexivity|]. eexists. split; [left|reflexivity]. }
  destruct Ht as (resp & Hans & Ht). exists resp. split; [exact Hans|]. split; [exact Ht|].
  intros D r Hinv Hr ->. by apply (torn_never_shown D r Hinv Hr).
Qed.

(** ** A retry that is refused *)

(** One visitor asks twice, under one key, for more than half of the tickets. *)
Definition demo_impatient : list request :=
  let req := ReqReserveQuantity (demo_session 6) (demo_quantity_request 6 "k1") in [req; req].

(** C35: a retry that overtakes its first attempt can be refused although the
    reservation is made. ReserveQuantity reads the key and then takes the stock;
    only the insert of the reservation notices that the key is in use. When two
    attempts under one key both read the key before the first of them commits,
    and the stock suffices for one, the second finds no stock and answers
    ErrInsufficientStock, not the receipt: the reservation under its key exists,
    and the same request answers with it when it is sent once more. *)
Theorem concurrent_retry_refused :
  exists resp rid r,
    answer_of 0 (demo_pool demo_db demo_impatient (in_turn 14)) = Some (QuantityAnswer resp) /\
    refusal_of 1 (demo_pool demo_db demo_impatient (in_turn 14)) = Some ErrInsufficientStock /\
    reservations (committed (demo_pool demo_db demo_impatient (in_turn 14))) !! rid = Some r /\
    session_key r = (uid 6, "k1") /\ Reservation_Status r = StatusReserved /\
    QResp_ReservationID resp = UUIDToString rid /\
    (run_at demo_time (@ReserveQuantity demo_driver demo_ttl (demo_session 6) (demo_quantity_request 6 "k1"))
      (demo_world (committed (demo_pool demo_db demo_impatient (in_turn 14))))).1 = Ok resp.
Proof.
  assert (Hall : exists resp rid r,
    answer_of 0 (demo_pool demo_db demo_impatient (in_turn 14)) = Some (QuantityAnswer resp) /\
    map_to_list (reservations (committed (demo_pool demo_db demo_impatient (in_turn 14)))) = [(rid, r)] /\
    session_key r = (uid 6, "k1") /\ Reservation_Status r = StatusReserved /\
    QResp_ReservationID resp = UUIDToString rid /\
    (run_at demo_time (@ReserveQuantity demo_driver demo_ttl (demo_session 6) (demo_quantity_request 6 "k1"))
      (demo_world (committed (demo_pool demo_db demo_impatient (in_turn 14))))).1 = Ok resp).
  { vm_compute. do 3 eexists. split; [reflexivity|]. split; [reflexivity|]. by split_and!. }
  destruct Hall as (resp & rid & r & Hans & Hrows & Hrest). exists resp, rid, r.
  split; [exact Hans|]. split; [vm_compute; reflexivity|]. split; [|exact Hrest].
  apply elem_of_map_to_list. rewrite Hrows. by left.
Qed.

(** ** Workers that wait for each other *)

Definition has_ended {A} (p : prog A) : Prop :=
  match p with Ret _ | Fail _ | Panic => True | _ => False end.

Section stuck.
Context `{Env} {A : Type}.

(** The [i]th session cannot move, at whatever moment, while the others stand. *)
Definition waits (i : nat) (P : Pool A) : Prop :=
  exists s, sessions P !! i = Some s /\ ~ has_ended (program s) /\
    forall n, step_session n (others i (sessions P)) (committed P) (transaction s) (program s) = None.

(** If no session can move, none ever will. *)
Lemma all_wait P schedule :
  (forall i, i < length (sessions P) -> waits i P)%nat ->
  sessions (interleave schedule P) = sessions P /\ committed (interleave schedule P) = committed P.
Proof.
  revert P. induction schedule as [|i schedule IH]; intros P Hall; [done|].
  assert (Hstep : sessions (step_pool i P) = sessions P /\ committed (step_pool i P) = committed P).
  { unfold step_pool. destruct (sessions P !! i) as [s|] eqn:Hs; [|done].
    destruct (Hall i) as (s' & Hs' & _ & Hno); [by eapply lookup_lt_Some|].
    assert (s' = s) as -> by congruence. by rewrite Hno. }
  destruct Hstep as [Hss HC].
  destruct (IH (step_pool i P)) as [H1 H2].
  - intros j Hj. unfold waits. rewrite Hss, HC. apply Hall. by rewrite <- Hss.
  - change (interleave (i :: schedule) P) with (interleave schedule (step_pool i P)). by rewrite H1, H2.
Qed.
End stuck.

(** A second ticket type of the event. *)
Definition demo_more_tickets : TicketType := MkTicketType (uid 8) (uid 1) "balcony" 10 0 0 demo_ts demo_ts.

Definition demo_two_types : Database :=
  set_ticket_types (<[uid 8 := demo_more_tickets]> (ticket_types demo_db)) demo_db.

Lemma demo_two_types_ready : ready (demo_world demo_two_types).
Proof.
  split; [done|].
  split; [constructor|constructor|constructor];
    unfold keyed, unique, refers, refers_opt, all_rows; simpl; intros; rows_cases; done || eauto.
Qed.

(** Reservations of the two types in turn, there and back, all overdue later. *)
Definition demo_backlog : World :=
  let req n key := ReqReserveQuantity (demo_session 6)
    (MkQuantityReservationRequest (UUIDToString (uid 1)) (UUIDToString (uid n)) 1 key) in
  @serve demo_driver demo_ttl (calm_env demo_time) [req 2%N "a"; req 8%N "b"; req 8%N "c"; req 2%N "d"]
    (demo_world demo_two_types).

(** Two workers with batches of two, in turn. *)
Definition demo_workers : Pool answer :=
  @interleave (calm_env demo_late) answer (in_turn 30)
    (fresh_pool (w_db demo_backlog) (@perform demo_driver demo_ttl <$> [ReqExpire 2; ReqExpire 2])).

(** [waits] as a test of one moment. *)
Definition waits_at `{Env} {A} (n i : nat) (P : Pool A) : bool :=
  match sessions P !! i with
  | Some s =>
      match step_session n (others i (sessions P)) (committed P) (transaction s) (program s), program s with
      | None, Sql _ _ _ => true
      | _, _ => false
      end
  | None => false
  end.

Lemma waits_at_spec `{Env} {A} i (P : Pool A) : (forall n, waits_at n i P = true) -> waits i P.
Proof.
  unfold waits_at. destruct (sessions P !! i) as [s|] eqn:Hs; intros Hw; [|discriminate (Hw 0%nat)].
  exists s. split; [done|]. split.
  - specialize (Hw 0%nat). intros Hend. destruct (step_session _ _ _ _ _); [done|]. by destruct (program s).
  - intros n. specialize (Hw n). by destruct (step_session _ _ _ _ _).
Qed.

(** C39: Two workers can wait for each other. SKIP LOCKED keeps their batches
    apart, but each batch releases its units in the order of the deadlines: when
    two ticket types come there and back, one worker holds the row of the first
    and needs the second, the other the reverse. From this state no schedule
    moves either of them, and nothing is expired until the server ends one. *)
Theorem workers_deadlock :
  @waits (calm_env demo_late) answer 0 demo_workers /\ @waits (calm_env demo_late) answer 1 demo_workers /\
  overdue_count demo_late (committed demo_workers) = 4%nat /\
  forall schedule, sessions (@interleave (calm_env demo_late) answer schedule demo_workers) = sessions demo_workers.
Proof.
  assert (H0 : @waits (calm_env demo_late) answer 0 demo_workers)
    by (apply waits_at_spec; intros n; vm_compute; reflexivity).
  assert (H1 : @waits (calm_env demo_late) answer 1 demo_workers)
    by (apply waits_at_spec; intros n; vm_compute; reflexivity).
  assert (Hlen : length (sessions demo_workers) = 2%nat) by (vm_compute; reflexivity).
  split; [exact H0|]. split; [exact H1|]. split; [vm_compute; reflexivity|].
  intros schedule. apply all_wait. intros i Hi. rewrite Hlen in Hi.
  destruct i as [|[|i]]; [exact H0|exact H1|lia].
Qed.


